(* ===== verification/_CoqProject ===== *)
-Q . S2P
Prelude.v
Monitor.v
Prog.v
Mem.v
Outcome.v
MyRwlock.v
MySem.v
ProdCons.v
MutexProdCons.v
PxSem.v
MyCat.v
Handoff.v
MyMq.v
IpcOpen.v
Inet.v
StreamIO.v
StrCli.v
DgSendRecv.v
SigIo.v
Web.v
TcpServ.v
ServPool.v
Cksum.v
Gai.v
GaiSpec.v
GaiFree.v
SrcRoute.v
IfiInfo.v
SockAddr.v
NetLib.v
Traceroute.v
PfKey.v
Icmpd.v
MesgServ.v
QueueH.v
ZhCheck.v
