(* ===== verification/Prelude.v ===== *)
(** * Verification of the comTutor C sources: prelude (root file)

    The repository is a collection of C programs on systems programming, most
    of them the sources of the two volumes of "UNIX Network Programming"
    ([unixipc/] for interprocess communication, [unixNetV1/] for sockets) with
    smaller projects around them.  The development models the parts that hold
    logic of their own: the implementations of Posix message queues, semaphores
    and read-write locks, programs that use them or the thread library, the
    conversion of Internet addresses to and from text, the stream reading and
    writing functions, name and address translation ([libgai]), nonblocking,
    threaded and signal-driven network programs, the Internet checksum and the
    packets that carry it, reliable datagrams, and a tool that strips comments
    and looks for Chinese text.

    ** Files and what they model

    - [Prelude]: machine integers ([uwrap], [swrap]), flag words, error numbers,
      results of calls, list lemmas, tactics, invariants of reachable states.
    - [Monitor]: threads that share one structure protected by a mutex, with
      condition variables.  An operation is its critical sections, functions
      from the shared state to [Return], [Wait] or [Dump] ([err_dump]);
      [mstep] interleaves them with POSIX's rules for signals, broadcasts and
      spurious wakeups.
    - [Prog]: functions that make system calls, as trees of calls and replies,
      with [run] (against an oracle) and [wp] (for all replies).
    - [Mem]: loads and stores of bytes and little-endian words in a buffer, [None]
      outside it.
    - [Outcome]: a small error monad over checked accesses: a value, the end of the
      process, or an access outside an object.
    - [MyRwlock]: [unixipc/my_rwlock] (Module [Rwlock]) and
      [unixipc/my_rwlock_cancel] (Module [RwlockCancel]): one definition per
      function [pthread_rwlock_*], its wrapper, and the loops' sections
      ([rdlock_test], [rdlock_resume], ...); [sys] adds the ledger of who holds
      what, [sstep] and [cstep] (with cancellation) are the systems.
    - [MySem]: [unixipc/my_pxsem_mmap], [my_pxsem_fifo], [my_pxsem_svsem]
      (Modules [SemMmap], [SemFifo], [SemSvsem]); the class [Semaphore] is what
      they promise a client.
    - [ProdCons]: [prodcons1.c] of the three directories, one step per call, over
      any [Semaphore].
    - [MutexProdCons]: [unixipc/mutex/prodcons2.c] to [prodcons7.c]: a [program]
      holds the critical sections of one file; [main_step], [produce_step] and
      [consume_step] are the threads, [exec] their interleaving; the class
      [Lawful] is what the sections promise to the threads.
    - [PxSem]: [unixipc/pxsem/prodcons2.c] to [prodcons4.c] and [deadlock.c]: any
      number of producers and consumers, interleaved at every semaphore call.
    - [MyCat]: [unixipc/pxsem/mycat2.c] (a file copied by two threads over a ring
      of buffers) and [mycat1.c].
    - [Handoff]: [multiThread/thread_sem/sem_thread.c]: two threads that take turns
      until a time is reached.
    - [MyMq]: [unixipc/my_pxmsg_mmap]: the mapped region with its header, its
      slots by byte offset and the two linked lists; [mymq_send],
      [mymq_receive], [mymq_notify], [mymq_close], [mymq_getattr],
      [mymq_setattr], [mymq_unlink] and the creation of the region.
    - [IpcOpen]: [mymq_open] and the three [mysem_open] as programs over their
      system calls (Modules [MqOpen], [SemMmapOpen], [SemFifoOpen],
      [SemSvsemOpen]).
    - [Inet]: [unixNetV1/libfree]: [inet_ntop.c] (Module [Ntop]), [inet_pton.c]
      ([Pton]), [inet_aton.c], [inet_ntop_ipv4.c], [inet_pton_ipv4.c]
      ([Ipv4Only]).
    - [StreamIO]: [readn], [writen], [readline] of [unixNetV1/lib], [unixipc/lib],
      [unixNetV1/server], [unixNetV1/threads] and [unixNetV1/sock]; the class
      [ByteSource] is what a one-byte reader promises to [readline].
    - [StrCli]: [str_cli] of [unixNetV1/nonblock/strclinonb.c]; one [pass] of its
      loop in four parts, over all answers of [select], [read] and [write].
    - [DgSendRecv]: [unixNetV1/lib/rtt.c] in IEEE arithmetic, and
      [unixNetV1/rtt/dg_send_recv.c] over all sequences of datagrams and alarms.
    - [SigIo]: [unixNetV1/sigio/dgecho01.c]: the main loop and the handler of
      [SIGIO], which runs wherever the signal mask lets it.
    - [Web]: the web clients of [unixNetV1/nonblock] (Module [Nonblock]: [web.c],
      [start_connect.c], [write_get_cmd.c]) and [unixNetV1/threads/web03.c]
      (Module [Threads]).
    - [TcpServ]: [unixNetV1/tcpcliserv/tcpservselect01.c] and [tcpservpoll01.c]
      (Modules [Select] and [Poll]): the table of clients and one [pass] of the loop,
      over all answers of the kernel.
    - [ServPool]: [unixNetV1/server/serv08.c] with its threads (Module [ThreadPool],
      over [Monitor]) and [serv05.c] with its children ([ChildPool]), which serve
      with [web_child] and can end.
    - [Cksum]: [in_cksum] ([unixNetV1/libfree], [ping/bsdping.c]), the packets of
      [ping/send_v4.c], [ping/proc_v4.c] and [udpcksum/].
    - [Gai]: [unixNetV1/libgai]: [getaddrinfo], [getnameinfo], [freeaddrinfo] and
      their helpers over a heap of blocks in which every allocation may fail;
      the resolver, the services file and [uname] are parameters.  [GaiSpec]: what
      [getaddrinfo] is to return, as one function without a heap that shares no
      function with [Gai] ([gai_spec]).  [GaiFree]:
      [unixNetV1/libfree/getaddrinfo.c] and [getnameinfo.c], an earlier
      implementation, over the same heap.
    - [SockAddr]: [unixNetV1/lib/sock_*.c], with the stores into the static buffer
      checked; the addresses are formatted by [Inet].
    - [NetLib]: [tcp_connect], [tcp_listen], [udp_client], [udp_connect],
      [udp_server], [connect_nonb], [connect_timeo] and the timed waits of
      [unixNetV1/lib], over [Prog] and the result of [Gai.getaddrinfo].
    - [SrcRoute]: the source route option of [unixNetV1/ipopts] (Module [SrcRoute]) and
      of [unixNetV1/sock/sourceroute.c] ([SockRoute]).
    - [IfiInfo]: [unixNetV1/lib/get_ifi_info.c]: the list of interfaces, over all
      answers of [ioctl].
    - [Traceroute]: [unixNetV1/traceroute]: [recv_v4.c], [recv_v6.c] and
      [traceloop.c], over all datagrams and alarms.
    - [PfKey]: [unixNetV1/key]: the messages of [add.c], [register.c] and [dump.c],
      and [printsadbmsg.c], over a buffer with checked accesses.
    - [Icmpd]: [unixNetV1/icmpd]: the daemon's table of clients, its four handlers
      and one [pass] of its loop.
    - [MesgServ]: the file servers of [unixipc/svmsgmpx1q] (Module [Mpx1q], one queue)
      and [svmsgmpxnq] ([MpxNq], a queue for each client), with their clients and
      children interleaved at every call on a queue.
    - [QueueH]: [dataStructure/tailq/queue.h], the macros for singly and doubly
      linked lists, tail queues and circular queues (Module [CircleQ]) over a
      memory of link words, and the program [macro_expand.c].
    - [ZhCheck]: [item/check_zh_cn/zh_str_check.c]: the comment strippers and the
      search over a buffer with checked accesses.

    ** What the theorems show

    - Read-write locks ([rwlock_exclusion], [rwlock_no_lost_wakeup],
      [rwlock_destroy_iff_unused]): mutual exclusion of writers with everybody and
      agreement of [rw_refcount] with the locks held, in every interleaving with
      fewer than [INT_MAX] read locks and threads inside; no lost wakeup (a lock
      that is free has no blocked reader and no blocked writer unless one was
      unblocked) as long as no wait, signal or broadcast fails; destroying succeeds exactly on an unused
      lock; the try-functions agree with the blocking ones.  For the variant with
      cancellation handlers ([rwlock_cancel_invariant]): the counters stay right
      under cancellation at any wait, as long as the mutex and the waits do not
      fail; and two defects (a failed wait reported as
      success, a reader stranded by a cancelled writer).
    - Semaphores ([sem_mmap_conservation]): conservation of units in every
      interleaving and no value below 0; further lemmas on [trywait], the limit
      of the System V version, and a wakeup lost with two waiters.
    - Producers and consumers: against the semaphore interface alone the consumer
      sees the items in order and some thread can always go on ([prodcons_safe],
      [prodcons_progress]); the six programs with mutexes never see a wrong item
      and end ([mutex_prodcons_safe], [mutex_prodcons_terminates]; started with at
      least one producer); with
      semaphores every item is taken once, nothing overflows and all threads end,
      and the order of waits in [deadlock.c] does deadlock
      ([pxsem_prodcons_safe], [pxsem_prodcons_terminates],
      [pxsem_deadlock_reachable]); [mycat2.c] writes exactly the file and ends
      ([mycat2_copies]); the threads of [sem_thread.c] alternate, and one can be
      left waiting for ever ([handoff_alternates], [handoff_hangs]).
    - Message queue ([mq_send_refines], [mq_receive_refines],
      [mq_exactly_once], [mq_slots_in_mapping]): refinement of an abstract bounded
      priority queue on every branch; for queues of at most 2^31 messages whose
      file size fits a [long], used by fewer than [LONG_MAX] threads, exactly-once
      delivery in every interleaving and the memory bounds of the mapped region;
      further lemmas on notification, attributes and a lost wakeup.
    - Opening ([mq_open_resources], [sem_mmap_open_protocol]): for all replies of
      the system, what is acquired is given back (or exactly which path does
      not), the object is initialised before it is published, retries are
      bounded by the races met.
    - Addresses ([pton4_language], [inet6_roundtrip]): the language of
      [inet_pton4], round trips of IPv4 and IPv6 text, buffer bounds, inputs
      accepted outside the grammar.
    - Streams ([readn_exact], [writen_exact], [readline_buffered]): exactly the
      bytes asked for are transferred through any pattern of short counts and
      interruptions; buffered [readline] equals reading byte by byte.
    - Network programs: the nonblocking client copies both directions faithfully
      ([str_cli_copies]); the signal-driven server echoes each datagram once and
      in order and sleeps only when nothing is left ([sigio_echo_faithful],
      [sigio_no_lost_datagram]); the nonblocking web client keeps its counters and
      descriptor sets exact and ends ([web_counts_and_sets], [web_terminates]); the
      threaded one, with room for a connection, stops early only in one deadlock,
      which can happen ([web03_progress], [web03_deadlock]).
    - Servers: the select server, which looks only at part of its table, does what
      looking at all of it would, and the poll server answers every ready client
      and never blocks, if no [revents] on the stack was set before; both give a
      new client the first free entry and keep table and open sockets in step
      ([tcpservselect_pass], [tcpservselect_table], [tcpservpoll_pass]); the thread
      pool serves every connection once and loses no wakeup
      ([serv08_exactly_once]); so does the child pool, which never stops while there
      is work, as long as no child has ended; after that, connections can be lost,
      exactly those in hand where a process ended ([serv05_exactly_once],
      [serv05_progress]), and the message of a child that ends is taken for
      reports that it is free ([message_taken_for_free]).
    - Connections: the connection functions keep the socket of the first address
      that works and close the others ([connections_keep_one_socket]); on the lists of [libgai] they never follow a
      null pointer ([by_name_never_null]); the ends of the connects with a time
      limit, one by one ([connect_nonb_outcomes], [connect_timeo_restores]); the
      text of a socket address identifies it ([sock_ntop_roundtrip]).
    - Packets from the network: over IPv4 [traceroute] finds a route within
      [max_ttl] whatever else arrives ([traceroute_finds_route]) and never leaves
      its buffer ([traceroute_bounded]); [recv_v6] can return a value that was never assigned
      ([recv_v6_indeterminate]); what [sadb_add] builds is what [print_sadb_msg]
      prints, but for the order of the bytes of the SPI ([sadb_add_printed]); the ICMP
      daemon keeps its table consistent ([icmpd_table]) and sends each error to the
      clients that have registered its port and family, and else only to clients
      without a registration in an entry left by one that had it
      ([icmpd_routes], [stale_port]).
    - Options and interfaces: the route a client sends is the one of its arguments and
      the server prints it ([srcrt_sent], [srcrt_roundtrip]); the [sock] program's
      is right only where [u_long] has four bytes ([sroute_sends], [sroute_lp64]);
      [get_ifi_info] lists exactly the interfaces that are up, with the kernel's
      answers about them, where [struct ifreq] has 32 bytes
      ([get_ifi_info_lists]), and misses some where it has 40
      ([lp64_skips]).
    - File servers over message queues, for files without NUL bytes (one ends the
      answer, [nul_in_file]): every client gets exactly its answer
      ([mpx1q_answers]); with one queue the only way to get stuck is a queue
      full of requests, which happens ([mpx1q_progress], [mpx1q_deadlock]); with a queue
      for each client every run serves all ([mpxnq_delivers]).
    - Reliable datagrams ([dg_send_recv_correct]): at most four transmissions,
      the first matching reply is taken, the timeouts double, the estimate is
      clamped.
    - Checksums ([checksums_verify], [ping_echo_roundtrip]): every packet built
      verifies, on machines of both byte orders; an echo reply is recognised and
      timed exactly.
    - Name translation ([getaddrinfo_memory_safe], [getaddrinfo_refines_spec],
      [getaddrinfo_typed], [getnameinfo_getaddrinfo_roundtrip]): nothing is
      freed that is not allocated, and on success everything allocated is owned
      by the list; the list is the one of the specification; its structures are well formed;
      [getnameinfo] gives back what [getaddrinfo] was given; for the
      requests both understand the same way ([comparable]) [libfree] yields what
      [libgai] yields, but for the errors found before it has a list
      ([libfree_agrees_libgai]); it gives back what it allocates, once its list
      has a value ([libfree_memory_safe]), and every earlier error frees a pointer
      it never assigned ([early_errors_wild]).
    - Queue macros ([queue_refines], [circleq_refines]): after any sequence of macros
      on any number of queues that inserts elements in no queue, names members
      otherwise and takes heads of nonempty queues only, the memory represents the
      sequences the same operations make of lists; removing an element twice is harmless only
      at the head ([macro_expand_main], [remove_twice_undoes]).
    - Comment stripper ([annotations_removed], [zh_check_verdict],
      [python_annotations_safe]): the C and Lua strippers blank exactly the comments
      of a token-wise reference, the verdict tells whether a byte outside ASCII
      is left, and the Python stripper ends and stays inside the buffer on files
      that start with code.

    ** Choices

    Integers are [Z] with their width written out where it matters; [long],
    [size_t] and pointers have 64 bits (LP64), flag values are those of Linux.
    Counters of type [int] and [long] that a run can drive up ([int_inc],
    [long_inc] and the like) wrap around; the theorems about them bound what counts.
    Results of library and system calls that can fail are arguments of the
    definitions, so theorems hold for all of them.  Loops over data are
    structural; [find_place] has fuel one more than the number of slots, enough
    for a list without repetition (which the invariant gives); [goto again] in
    the open functions has a fuel that runs out only after as many missing
    names; [readn] and [writen] have fuel [n] plus the length of the script,
    each turn taking one of them.  The client's loop and the wait for a reply run
    over a finite sequence of answers or events, any one, so a theorem about them
    holds at every point of every run.  Runs of threads are step relations
    without a bound; where a program ends, that is proved from a measure.

    ** Not modelled

    Programs that only call the system (servers, clients, command-line tools,
    test programs), the header files' portability layers, kernel modules, C++, C#,
    Lua and build files. *)

From Stdlib Require Export ZArith Lia.
From stdpp Require Export base list sorting gmap sets strings relations.
#[export] Set Default Goal Selector "1".

(** ** Machine integers

    C integers are kept as [Z]; [uwrap w z] is the conversion to an unsigned
    type of [w] bits and [swrap w z] the (implementation-defined,
    two's-complement) conversion to a signed one. *)

Declare Scope c_scope.
Delimit Scope c_scope with C.
Open Scope Z_scope.

Definition uwrap (w z : Z) : Z := z mod 2 ^ w.

Definition swrap (w z : Z) : Z := (z + 2 ^ (w - 1)) mod 2 ^ w - 2 ^ (w - 1).

Abbreviation u8 := (uwrap 8) (only parsing).
Abbreviation u16 := (uwrap 16) (only parsing).
Abbreviation u32 := (uwrap 32) (only parsing).
Abbreviation u64 := (uwrap 64) (only parsing).
Abbreviation s32 := (swrap 32) (only parsing).
Abbreviation s64 := (swrap 64) (only parsing).

Lemma uwrap_small w z : 0 <= z < 2 ^ w -> uwrap w z = z.
Proof. apply Z.mod_small. Qed.

Lemma uwrap_range w z : 0 <= w -> 0 <= uwrap w z < 2 ^ w.
Proof. intros; apply Z.mod_pos_bound, Z.pow_pos_nonneg; lia. Qed.

Lemma swrap_small w z : 0 < w -> - 2 ^ (w - 1) <= z < 2 ^ (w - 1) -> swrap w z = z.
Proof.
  intros Hw Hz. unfold swrap. rewrite Z.mod_small; [lia|].
  replace w with (Z.succ (w - 1)) at 3 by lia.
  rewrite Z.pow_succ_r by lia. lia.
Qed.

Lemma swrap_range w z : 0 < w -> - 2 ^ (w - 1) <= swrap w z < 2 ^ (w - 1).
Proof.
  intros Hw. unfold swrap.
  assert (0 < 2 ^ (w - 1)) by (apply Z.pow_pos_nonneg; lia).
  assert (2 ^ w = 2 * 2 ^ (w - 1)) as E.
  { replace w with (Z.succ (w - 1)) at 1 by lia. rewrite Z.pow_succ_r by lia. lia. }
  pose proof (Z.mod_pos_bound (z + 2 ^ (w - 1)) (2 ^ w)). lia.
Qed.

(** [x++] and [x--] on an [int]; the overflow, undefined in C, is taken as the
    wrap-around that compilers without a trap produce. *)
Definition INT_MAX : Z := 2 ^ 31 - 1.
Definition int_inc (x : Z) : Z := s32 (x + 1).
Definition int_dec (x : Z) : Z := s32 (x - 1).

(** The same on a [long]. *)
Definition LONG_MAX : Z := 2 ^ 63 - 1.
Definition long_inc (x : Z) : Z := s64 (x + 1).
Definition long_dec (x : Z) : Z := s64 (x - 1).

#[global] Arguments long_inc : simpl never.
#[global] Arguments long_dec : simpl never.
#[global] Arguments int_inc : simpl never.
#[global] Arguments int_dec : simpl never.

Lemma int_inc_small x : -1 <= x < INT_MAX -> int_inc x = x + 1.
Proof. unfold INT_MAX. intros H. apply swrap_small; lia. Qed.

Lemma int_dec_small x : -1 <= x <= INT_MAX -> int_dec x = x - 1.
Proof. unfold INT_MAX. intros H. apply swrap_small; lia. Qed.

Lemma long_inc_small x : -1 <= x < LONG_MAX -> long_inc x = x + 1.
Proof. unfold LONG_MAX. intros H. apply swrap_small; lia. Qed.

Lemma long_dec_small x : -1 <= x <= LONG_MAX -> long_dec x = x - 1.
Proof. unfold LONG_MAX. intros H. apply swrap_small; lia. Qed.

(** [x << k | y] for a [y] of [k] bits, and its two parts. *)
Lemma lor_shiftl x y k : 0 <= k -> 0 <= y < 2 ^ k -> Z.lor (Z.shiftl x k) y = x * 2 ^ k + y.
Proof.
  intros Hk Hy. pose proof (Z.add_lor_land (Z.shiftl x k) y) as E.
  assert (Z.land (Z.shiftl x k) y = 0) as E0.
  { apply Z.bits_inj'; intros n Hn. rewrite Z.land_spec, Z.bits_0.
    destruct (Z.ltb_spec n k); [by rewrite Z.shiftl_spec_low|].
    rewrite <- (Z.mod_small y (2 ^ k)) by done. rewrite Z.mod_pow2_bits_high by lia.
    apply andb_false_r. }
  rewrite E0 in E. rewrite <- Z.shiftl_mul_pow2 by done. lia.
Qed.

Lemma shiftr_word x y k : 0 <= k -> 0 <= y < 2 ^ k -> Z.shiftr (x * 2 ^ k + y) k = x.
Proof.
  intros Hk Hy. pose proof (Z.pow_pos_nonneg 2 k ltac:(lia) Hk).
  rewrite Z.shiftr_div_pow2 by done. rewrite Z.div_add_l by lia.
  rewrite Z.div_small by done. lia.
Qed.

(** [x & (2^k - 1)] *)
Lemma land_ones_small x k : 0 <= k -> 0 <= x < 2 ^ k -> Z.land x (Z.ones k) = x.
Proof. intros Hk Hx. rewrite Z.land_ones by done. by apply Z.mod_small. Qed.

(** [flags & bit] as a C truth value. *)
Definition has_flag (flags bit : Z) : bool := negb (Z.land flags bit =? 0).

(** [flags & ~bit] *)
Definition clear_flag (flags bit : Z) : Z := Z.ldiff flags bit.

(** [flags | bit] *)
Definition set_flag (flags bit : Z) : Z := Z.lor flags bit.

Notation "f '.&' b" := (has_flag f b) (at level 55, no associativity) : c_scope.

Lemma has_flag_clear f b : has_flag (clear_flag f b) b = false.
Proof.
  unfold has_flag, clear_flag. apply negb_false_iff, Z.eqb_eq.
  apply Z.bits_inj'; intros n Hn.
  rewrite Z.land_spec, Z.ldiff_spec, Z.bits_0. by destruct (Z.testbit f n), (Z.testbit b n).
Qed.

Lemma has_flag_set f b : b <> 0 -> has_flag (set_flag f b) b = true.
Proof.
  intros Hb. unfold has_flag, set_flag. apply negb_true_iff, Z.eqb_neq.
  rewrite Z.land_comm. intros E. apply Hb.
  assert (Z.land b (Z.lor f b) = b) as Eb; [|congruence].
  apply Z.bits_inj'; intros n Hn.
  rewrite Z.land_spec, Z.lor_spec. by destruct (Z.testbit f n), (Z.testbit b n).
Qed.

(** Setting bits keeps the flags that are set. *)
Lemma has_flag_set_mono f b c : has_flag f b = true -> has_flag (set_flag f c) b = true.
Proof.
  unfold has_flag, set_flag. rewrite !negb_true_iff, !Z.eqb_neq. intros H E. apply H.
  apply Z.bits_inj'; intros n Hn. apply (f_equal (fun z => Z.testbit z n)) in E. revert E.
  rewrite !Z.land_spec, Z.lor_spec, Z.bits_0.
  by destruct (Z.testbit f n), (Z.testbit c n), (Z.testbit b n).
Qed.

Lemma clear_flag_set f b : clear_flag (set_flag f b) b = clear_flag f b.
Proof.
  apply Z.bits_inj'; intros n Hn. unfold clear_flag, set_flag.
  rewrite !Z.ldiff_spec, Z.lor_spec. by destruct (Z.testbit f n), (Z.testbit b n).
Qed.

Lemma clear_flag_clear f b : clear_flag (clear_flag f b) b = clear_flag f b.
Proof.
  apply Z.bits_inj'; intros n Hn. unfold clear_flag.
  rewrite !Z.ldiff_spec. by destruct (Z.testbit f n), (Z.testbit b n).
Qed.

(** ** Error numbers

    The [errno] values the sources test or set by name; a value that only
    passes through from a system or library call is [Eother]. *)
Inductive errno :=
| EBADF | EMSGSIZE | EAGAIN | EINVAL | EBUSY | ETIMEDOUT | EEXIST | ENOENT
| EINTR | ENOSPC | EAFNOSUPPORT | ESRCH | ENOMEM | EWOULDBLOCK | EINPROGRESS
| ECONNABORTED | EACCES | ERANGE | EPIPE | Eother (n : Z).

#[export] Instance errno_eq_dec : EqDecision errno.
Proof. solve_decision. Defined.

(** ** Result of a call that returns [-1] and sets [errno] on failure *)
Inductive cres (A : Type) :=
| Ok (a : A)
| Err (e : errno).
Arguments Ok {A} _.
Arguments Err {A} _.

(** ** Lists *)

(** [memcpy(dst, src, len)] onto the buffer [dst]: the first [length src]
    cells are replaced, the rest is left alone. *)
Definition memcpy_into {A} (dst src : list A) : list A := src ++ drop (length src) dst.

Lemma memcpy_into_take {A} (dst src : list A) :
  take (length src) (memcpy_into dst src) = src.
Proof. unfold memcpy_into. by rewrite take_app_length. Qed.

Lemma memcpy_into_length {A} (dst src : list A) :
  (length src <= length dst)%nat -> length (memcpy_into dst src) = length dst.
Proof. intros. unfold memcpy_into. rewrite length_app, length_drop. lia. Qed.

(** Storing elements at an offset of a buffer. *)
Definition poke {A} (off : nat) (bs buf : list A) : list A :=
  take off buf ++ bs ++ drop (off + length bs) buf.

Lemma poke_length {A} off (bs buf : list A) :
  (off + length bs <= length buf)%nat -> length (poke off bs buf) = length buf.
Proof. intros. unfold poke. rewrite !length_app, length_take, length_drop. lia. Qed.

Lemma poke_length_n {A} n off (bs buf : list A) :
  (off + length bs <= n)%nat -> length buf = n -> length (poke off bs buf) = n.
Proof. intros ? <-. by apply poke_length. Qed.

(** The first [len] bytes of a buffer into which [bs] was stored below [len]. *)
Lemma take_poke {A} len off (bs buf : list A) :
  (off + length bs <= len)%nat -> (off <= length buf)%nat ->
  take len (poke off bs buf) =
  take off buf ++ bs ++ take (len - off - length bs) (drop (off + length bs) buf).
Proof.
  intros. unfold poke. rewrite take_app_ge by (rewrite length_take; lia).
  rewrite length_take, Nat.min_l by lia. rewrite take_app_ge by lia. done.
Qed.

Lemma poke_poke {A} off (bs bs' buf : list A) :
  length bs = length bs' -> (off <= length buf)%nat -> poke off bs' (poke off bs buf) = poke off bs' buf.
Proof.
  intros Hl Ho. unfold poke. rewrite take_app_le, take_take by (rewrite length_take; lia).
  rewrite Nat.min_id. do 2 f_equal.
  rewrite drop_app_ge by (rewrite length_take; lia). rewrite length_take, Nat.min_l by lia.
  rewrite drop_app_ge by lia. rewrite drop_drop. f_equal. lia.
Qed.

Lemma list_filter_all {A} (P : A -> Prop) `{forall x, Decision (P x)} (l : list A) :
  Forall P l -> filter P l = l.
Proof. induction 1; [done|]. rewrite filter_cons, decide_True by done. by f_equal. Qed.

Lemma list_filter_none {A} (P : A -> Prop) `{forall x, Decision (P x)} (l : list A) :
  Forall (fun x => ~ P x) l -> filter P l = [].
Proof. induction 1; [done|]. by rewrite filter_cons, decide_False. Qed.

(** Decreasing (weakly) lists of integers. *)
Definition decreasing (l : list Z) : Prop := StronglySorted (fun a b => b <= a) l.

(** ** Tactics *)

(** Case analysis on the boolean tests and matches of the code, turning integer
    tests into propositions. *)
Ltac bool_to_prop :=
  repeat match goal with
  | H : (_ && _)%bool = true |- _ => apply andb_true_iff in H; destruct H
  | H : (_ || _)%bool = false |- _ => apply orb_false_iff in H; destruct H
  | H : negb _ = true |- _ => apply negb_true_iff in H
  | H : negb _ = false |- _ => apply negb_false_iff in H
  | H : (_ =? _)%Z = true |- _ => apply Z.eqb_eq in H
  | H : (_ =? _)%Z = false |- _ => apply Z.eqb_neq in H
  | H : (_ <? _)%Z = true |- _ => apply Z.ltb_lt in H
  | H : (_ <? _)%Z = false |- _ => apply Z.ltb_ge in H
  | H : (_ <=? _)%Z = true |- _ => apply Z.leb_le in H
  | H : (_ <=? _)%Z = false |- _ => apply Z.leb_gt in H
  | H : (_ >? _)%Z = true |- _ => rewrite Z.gtb_ltb in H; apply Z.ltb_lt in H
  | H : (_ >? _)%Z = false |- _ => rewrite Z.gtb_ltb in H; apply Z.ltb_ge in H
  | H : (_ >=? _)%Z = true |- _ => rewrite Z.geb_leb in H; apply Z.leb_le in H
  | H : (_ >=? _)%Z = false |- _ => rewrite Z.geb_leb in H; apply Z.leb_gt in H
  | H : bool_decide _ = true |- _ => apply bool_decide_eq_true in H
  | H : bool_decide _ = false |- _ => apply bool_decide_eq_false in H
  end.

(** Split one test of the code, in the goal or in a hypothesis. *)
Ltac split_test :=
  match goal with
  | |- context [if ?b then _ else _] => destruct b eqn:?
  | H : context [if ?b then _ else _] |- _ => destruct b eqn:?
  | |- context [match ?x with _ => _ end] => destruct x eqn:?
  | H : context [match ?x with _ => _ end] |- _ => destruct x eqn:?
  end.

(** Counters that stay in range. *)
Ltac in_range :=
  repeat first [rewrite int_inc_small by lia|rewrite int_dec_small by lia
               |rewrite long_inc_small by lia|rewrite long_dec_small by lia].

Ltac split_tests := repeat (split_test; bool_to_prop; simplify_eq/=).

(** ** Reachability *)

(** ** Sums over lists *)

Definition zsum {A} (w : A -> Z) (l : list A) : Z := fold_right (fun x acc => w x + acc) 0 l.

Section Sums.
Context {A : Type}.
Implicit Types (w : A -> Z) (l : list A).

Lemma zsum_insert w l i x y : l !! i = Some x -> zsum w (<[i := y]> l) = zsum w l - w x + w y.
Proof.
  revert i. induction l as [|z l IH]; intros [|i] E; simpl in *; try done.
  - injection E as ->. lia.
  - rewrite IH by done. lia.
Qed.

Lemma zsum_app w l l' : zsum w (l ++ l') = zsum w l + zsum w l'.
Proof. induction l as [|z l IH]; simpl; lia. Qed.

Lemma zsum_nonneg w l : (forall x, 0 <= w x) -> 0 <= zsum w l.
Proof. intros Hw. induction l as [|z l IH]; simpl; [done|]. specialize (Hw z). lia. Qed.

Lemma zsum_replicate w n x : zsum w (replicate n x) = Z.of_nat n * w x.
Proof. induction n as [|n IH]; simpl; lia. Qed.

Lemma zsum_pos w l : 0 < zsum w l -> exists i x, l !! i = Some x /\ 0 < w x.
Proof.
  induction l as [|z l IH]; simpl; [lia|]. intros H. destruct (Z.le_gt_cases (w z) 0) as [Hle|Hgt].
  - destruct IH as (i & x & E & Hx); [lia|]. by exists (S i), x.
  - by exists 0%nat, z.
Qed.

Lemma zsum_ge w l i x : (forall x, 0 <= w x) -> l !! i = Some x -> w x <= zsum w l.
Proof.
  intros Hw. revert i. induction l as [|z l IH]; intros [|i] E; simpl in *; try done.
  - injection E as ->. pose proof (zsum_nonneg w l Hw). lia.
  - apply IH in E. specialize (Hw z). lia.
Qed.

Lemma zsum_perm w l l' : l ≡ₚ l' -> zsum w l = zsum w l'.
Proof. induction 1; simpl; lia. Qed.

End Sums.

Lemma zsum_map {A B} (f : A -> B) (w : B -> Z) (l : list A) : zsum w (map f l) = zsum (fun x => w (f x)) l.
Proof. induction l as [|x l IH]; simpl; [done|]. by rewrite IH. Qed.

Lemma zsum_ext {A} (w w' : A -> Z) (l : list A) : (forall x, x ∈ l -> w x = w' x) -> zsum w l = zsum w' l.
Proof.
  intros H. induction l as [|x l IH]; simpl; [done|]. rewrite H by left. rewrite IH; [done|]. intros y Hy. apply H. by right.
Qed.

(** The sum over some of the indices. *)
Lemma zsum_indices {A} (w : A -> Z) (l : list A) (idx : list nat) :
  (forall x, 0 <= w x) -> NoDup idx -> (forall i, i ∈ idx -> (i < length l)%nat) ->
  zsum (fun i => from_option w 0 (l !! i)) idx <= zsum w l /\ (length idx <= length l)%nat.
Proof.
  intros Hw Hn Hi. assert (Hsub : idx ⊆+ List.seq 0 (length l)).
  { apply NoDup_submseteq; [done|]. intros i Hin. apply elem_of_seq. specialize (Hi i Hin). lia. }
  split; [|by apply submseteq_length in Hsub; rewrite length_seq in Hsub].
  apply submseteq_Permutation in Hsub as [k Hk].
  assert (Hall : forall l' pre, zsum (fun i => from_option w 0 ((pre ++ l') !! i)) (List.seq (length pre) (length l')) = zsum w l').
  { induction l' as [|x l' IH]; intros pre; simpl; [done|]. rewrite lookup_app_r, Nat.sub_diag by lia. simpl. f_equal.
    specialize (IH (pre ++ [x])). rewrite length_app, Nat.add_1_r, <- app_assoc in IH. exact IH. }
  rewrite <- (Hall l []), (zsum_perm _ _ _ Hk), zsum_app. simpl.
  enough (0 <= zsum (fun i => from_option w 0 (l !! i)) k) by lia.
  apply zsum_nonneg. intros i. destruct (l !! i); simpl; [apply Hw|lia].
Qed.

(** An invariant that holds initially and is preserved by every step holds in
    every reachable state. *)
Lemma rtc_invariant {A} (R : relation A) (I : A -> Prop) a b :
  (forall x y, I x -> R x y -> I y) -> I a -> rtc R a b -> I b.
Proof. intros Hstep Ha Hab. induction Hab; eauto. Qed.

Create HintDb cmodel.
#[export] Hint Resolve uwrap_range swrap_range : cmodel.
