(* ===== verification/Monitor.v ===== *)
(** * Threads, one mutex and its condition variables

    Every shared object of the IPC sources (message queue, semaphore,
    read-write lock, bounded buffer) is a structure protected by one
    [pthread_mutex_t]; a function locks it, runs, and either unlocks and
    returns or blocks in [pthread_cond_wait], which releases the mutex and
    re-acquires it before the code goes on.  Code between two such points runs
    alone, so an operation is a function from the shared state to an
    [outcome], and the threads interleave at those points only.

    The rules for the condition variables are those POSIX documents:
    [pthread_cond_signal] unblocks one thread blocked on the variable (and does
    nothing when there is none), [pthread_cond_broadcast] unblocks them all, a
    wait may also return spuriously, and an unblocked thread runs again only
    once it gets the mutex, after any number of other threads. *)
From S2P Require Import Prelude.

Section Table.
Context {Op C : Type} `{EqDecision C}.

(** Calls on condition variables made while the mutex is held. *)
Inductive cond_act :=
| Signal (c : C)
| Broadcast (c : C).

(** A thread inside an operation: blocked on a condition variable, or
    unblocked and waiting for the mutex. *)
Inductive tstate :=
| Asleep (c : C) (o : Op)
| Woken (o : Op).

Definition op_of (ts : tstate) : Op :=
  match ts with Asleep _ o => o | Woken o => o end.

Definition wake (c : C) (ts : tstate) : tstate :=
  match ts with
  | Asleep c' o => if decide (c = c') then Woken o else ts
  | Woken o => Woken o
  end.

Inductive act_step : cond_act -> gmap nat tstate -> gmap nat tstate -> Prop :=
| signal_one c t o th :
    th !! t = Some (Asleep c o) -> act_step (Signal c) th (<[t := Woken o]> th)
| signal_none c th :
    (forall t o, th !! t <> Some (Asleep c o)) -> act_step (Signal c) th th
| broadcast_all c th :
    act_step (Broadcast c) th (wake c <$> th).

Inductive acts_step : list cond_act -> gmap nat tstate -> gmap nat tstate -> Prop :=
| acts_nil th : acts_step [] th th
| acts_cons a l th th' th'' :
    act_step a th th' -> acts_step l th' th'' -> acts_step (a :: l) th th''.

(** The operations the threads of a table are inside of; signals do not change
    them. *)
Definition ops (th : gmap nat tstate) : gmap nat Op := op_of <$> th.

Lemma act_step_ops a th th' : act_step a th th' -> ops th' = ops th.
Proof.
  intros H. unfold ops. apply map_eq. intros i. rewrite !lookup_fmap.
  destruct H as [c t o th Ht|c th Hn|c th].
  - destruct (decide (t = i)) as [->|Hi]; by simplify_map_eq.
  - done.
  - rewrite lookup_fmap. destruct (th !! i) as [[c' o|o]|]; simpl; try done.
    by case_decide.
Qed.

Lemma acts_step_ops l th th' : acts_step l th th' -> ops th' = ops th.
Proof.
  induction 1 as [|a l th th' th'' Ha _ IH]; [done|].
  by rewrite IH, (act_step_ops _ _ _ Ha).
Qed.

(** A thread that is unblocked stays so under further signals. *)
Lemma act_step_woken a th th' t o :
  act_step a th th' -> th !! t = Some (Woken o) -> th' !! t = Some (Woken o).
Proof.
  intros H Ht. destruct H as [c t' o' th Ht'|c th Hn|c th].
  - destruct (decide (t' = t)) as [->|Hi]; simplify_map_eq; done.
  - done.
  - rewrite lookup_fmap, Ht. done.
Qed.

(** Signals never put a thread to sleep. *)
Lemma act_step_asleep a th th' t c o :
  act_step a th th' -> th' !! t = Some (Asleep c o) -> th !! t = Some (Asleep c o).
Proof.
  intros H. destruct H as [c' t' o' th Ht'|c' th Hn|c' th]; [..|rewrite lookup_fmap].
  - destruct (decide (t' = t)) as [->|Hi]; simplify_map_eq; done.
  - done.
  - destruct (th !! t) as [[]|]; simpl; try done. case_decide; simpl; congruence.
Qed.

Lemma acts_step_asleep l th th' t c o :
  acts_step l th th' -> th' !! t = Some (Asleep c o) -> th !! t = Some (Asleep c o).
Proof. induction 1; eauto using act_step_asleep. Qed.

(** A signal with a sleeper on the variable wakes one of them. *)
Lemma signal_wakes c th th' t o :
  act_step (Signal c) th th' -> th !! t = Some (Asleep c o) ->
  exists t' o', th !! t' = Some (Asleep c o') /\ th' !! t' = Some (Woken o').
Proof.
  intros H Ht. inversion H; subst.
  - eexists _, _. split; [done|]. by simplify_map_eq.
  - naive_solver.
Qed.

Lemma broadcast_wakes c th th' t o :
  act_step (Broadcast c) th th' -> th' !! t <> Some (Asleep c o).
Proof.
  intros H. inversion H; subst. rewrite lookup_fmap.
  destruct (th !! t) as [[]|]; simpl; try done. case_decide; simpl; congruence.
Qed.

Lemma ops_insert th t ts : ops (<[t := ts]> th) = <[t := op_of ts]> (ops th).
Proof. apply fmap_insert. Qed.

Lemma ops_delete th t : ops (delete t th) = delete t (ops th).
Proof. apply fmap_delete. Qed.

Lemma ops_lookup th t : ops th !! t = op_of <$> th !! t.
Proof. apply lookup_fmap. Qed.

(** Number of threads inside an operation that satisfies [P]. *)
Definition nops (P : Op -> bool) (m : gmap nat Op) : Z :=
  Z.of_nat (size (filter (fun kv => P kv.2 = true) m)).

Lemma nops_empty P : nops P ∅ = 0.
Proof. unfold nops. by rewrite map_filter_empty, map_size_empty. Qed.

Lemma nops_nonneg P m : 0 <= nops P m.
Proof. unfold nops. lia. Qed.

Lemma nops_le_size P (th : gmap nat tstate) : nops P (ops th) <= Z.of_nat (size th).
Proof.
  unfold nops. apply inj_le. etrans; [apply map_subseteq_size, map_filter_subseteq|].
  unfold ops. by rewrite map_size_fmap.
Qed.

Lemma nops_insert P m t o :
  m !! t = None -> nops P (<[t := o]> m) = nops P m + (if P o then 1 else 0).
Proof.
  intros Hm. unfold nops. destruct (P o) eqn:HP.
  - rewrite map_filter_insert_True by done.
    rewrite map_size_insert_None; [lia|]. apply map_lookup_filter_None. by left.
  - rewrite map_filter_insert_not' by (simpl; congruence). lia.
Qed.

Lemma nops_delete P m t o :
  m !! t = Some o -> nops P (delete t m) = nops P m - (if P o then 1 else 0).
Proof.
  intros Hm. rewrite <- (insert_id m t o) at 2 by done. rewrite <- insert_delete_eq.
  rewrite nops_insert by apply lookup_delete_eq. lia.
Qed.

Lemma nops_pos P m : 0 < nops P m <-> exists t o, m !! t = Some o /\ P o = true.
Proof.
  unfold nops. split.
  - intros H. destruct (decide (filter (fun kv => P kv.2 = true) m = ∅)) as [E|E].
    { rewrite E, map_size_empty in H. lia. }
    apply map_choose in E as (t & o & Ho). apply map_lookup_filter_Some in Ho. eauto.
  - intros (t & o & Ht & Ho).
    assert (size (filter (fun kv => P kv.2 = true) m) <> 0%nat); [|lia].
    intros E%map_size_empty_inv. apply (f_equal (.!! t)) in E.
    rewrite lookup_empty in E. apply map_lookup_filter_None in E as [E|E]; [congruence|].
    by apply (E o Ht).
Qed.
End Table.

Arguments tstate : clear implicits.
Arguments cond_act : clear implicits.

Section Machine.
Context {S Op R C : Type} `{EqDecision C}.

(** What a critical section ends in: a return of [r] (after the calls
    [acts]), [pthread_cond_wait] on [c], or [err_dump], which aborts the
    process. *)
Inductive outcome :=
| Return (s : S) (r : R) (acts : list (cond_act C))
| Wait (s : S) (c : C)
| Dump.

(** A configuration: the shared state, the threads inside an operation (a
    thread that is not in the map runs code of its own), and whether the
    process has aborted. *)
Record conf := Conf { shared : S; threads : gmap nat (tstate Op C); dumped : bool }.

(** An operation's first critical section, and the one a thread runs when its
    wait returns. *)
Variable enter : Op -> S -> outcome.
Variable resume : Op -> S -> outcome.

Inductive finish (t : nat) (o : Op) : outcome -> gmap nat (tstate Op C) -> option R -> conf -> Prop :=
| finish_return s r acts th th' :
    acts_step acts (delete t th) th' ->
    finish t o (Return s r acts) th (Some r) (Conf s th' false)
| finish_wait s c th :
    finish t o (Wait s c) th None (Conf s (<[t := Asleep c o]> th) false)
| finish_dump th s :
    finish t o Dump th None (Conf s th true).

(** One step of the system: thread [t] enters operation [o], or goes on after
    its wait, or is unblocked spuriously.  The label is the thread, its
    operation and the value it returns, if it does. *)
Inductive mstep : conf -> nat * Op * option R -> conf -> Prop :=
| step_enter s th t o r c' :
    th !! t = None ->
    finish t o (enter o s) th r c' ->
    mstep (Conf s th false) (t, o, r) c'
| step_resume s th t o r c' :
    th !! t = Some (Woken o) ->
    finish t o (resume o s) th r c' ->
    mstep (Conf s th false) (t, o, r) c'
| step_spurious s th t c o :
    th !! t = Some (Asleep c o) ->
    mstep (Conf s th false) (t, o, None) (Conf s (<[t := Woken o]> th) false).

Definition any_step (c c' : conf) : Prop := exists l, mstep c l c'.

(** The effect of a finished section on the table of operations. *)
Lemma finish_ops t o out th r c' :
  finish t o out th r c' ->
  match out with
  | Return s _ _ => shared c' = s /\ ops (threads c') = delete t (ops th)
  | Wait s _ => shared c' = s /\ ops (threads c') = <[t := o]> (ops th)
  | Dump => dumped c' = true
  end.
Proof.
  destruct 1 as [s r acts th th' Ha|s c th|th s]; simpl; [|by rewrite ops_insert|done].
  split; [done|]. by rewrite (acts_step_ops _ _ _ Ha), ops_delete.
Qed.

(** Every reachable state satisfies an invariant of the shared state that both
    critical sections preserve and under which neither aborts. *)
Lemma monitor_invariant (I : S -> Prop) :
  (forall o s, I s -> match enter o s with Return s' _ _ | Wait s' _ => I s' | Dump => False end) ->
  (forall o s, I s -> match resume o s with Return s' _ _ | Wait s' _ => I s' | Dump => False end) ->
  forall c c', rtc any_step c c' -> I (shared c) -> dumped c = false ->
  I (shared c') /\ dumped c' = false.
Proof.
  intros He Hr c c' Hs. induction Hs as [|c c1 c2 [l Hl] _ IH]; [done|].
  intros Hc Hd. apply IH; clear IH.
  all: destruct Hl as [s th t o r c1' _ Hf|s th t o r c1' _ Hf|s th t cc o _]; simpl in *; [..|done].
  all: [> specialize (He o s Hc)|specialize (Hr o s Hc)|specialize (He o s Hc)|specialize (Hr o s Hc)].
  all: inversion Hf; subst; simpl;
    repeat match goal with H : _ = enter _ _ |- _ => rewrite <- H in He
                         | H : _ = resume _ _ |- _ => rewrite <- H in Hr end; done.
Qed.

End Machine.

Arguments outcome : clear implicits.
Arguments conf : clear implicits.

(** Post-processing of the value an operation returns (what the wrapper
    functions [Xxx] do around [xxx]). *)
Definition outcome_map {S R R' C} (f : R -> R') (out : outcome S R C) : outcome S R' C :=
  match out with
  | Return s r acts => Return s (f r) acts
  | Wait s c => Wait s c
  | Dump => Dump
  end.

(** What a wrapper function does with the [int] its callee returned: go on, or
    set [errno] and terminate the process in [err_sys]. *)
Inductive wrapped (A : Type) :=
| Going (a : A)
| ErrSys (e : errno).
Arguments Going {A} _.
Arguments ErrSys {A} _.

Definition err_sys_unless_0 (r : option errno) : wrapped unit :=
  match r with None => Going tt | Some e => ErrSys e end.
