(* ===== verification/Prog.v ===== *)
(** * Programs that make system calls

    A function that makes a bounded number of system or library calls is a tree:
    a result, or a call and what the code does with each reply.  [run] executes
    it against an oracle that answers the calls in order; [wp] says that a
    postcondition of the result and the trace of calls holds whatever the
    replies are. *)
From S2P Require Import Prelude.

Section Prog.
Context {C R : Type}.

Inductive prog (A : Type) :=
| Ret (a : A)
| Call (c : C) (k : R -> prog A).
Arguments Ret {A} _.
Arguments Call {A} _ _.

(** What the wrapper functions do with a result. *)
Fixpoint pmap {A B} (f : A -> B) (p : prog A) : prog B :=
  match p with
  | Ret a => Ret (f a)
  | Call c k => Call c (fun r => pmap f (k r))
  end.

(** The calls made and their replies, the last one first. *)
Definition trace : Type := list (C * R).

(** Call number [n] gets the reply [orc n]. *)
Fixpoint run {A} (p : prog A) (orc : nat -> R) (n : nat) (tr : trace) : A * trace :=
  match p with
  | Ret a => (a, tr)
  | Call c k => run (k (orc n)) orc (S n) ((c, orc n) :: tr)
  end.

(** [Q] holds of the result and the trace for every choice of replies. *)
Fixpoint wp {A} (p : prog A) (Q : A -> trace -> Prop) (tr : trace) : Prop :=
  match p with
  | Ret a => Q a tr
  | Call c k => forall r, wp (k r) Q ((c, r) :: tr)
  end.

Lemma wp_run {A} (p : prog A) Q : forall orc n tr,
  wp p Q tr -> Q (run p orc n tr).1 (run p orc n tr).2.
Proof. induction p as [a|c k IH]; simpl; intros orc n tr H; [done|]. apply IH, H. Qed.

Lemma wp_mono {A} (p : prog A) (Q Q' : A -> trace -> Prop) : forall tr,
  (forall a tr', Q a tr' -> Q' a tr') -> wp p Q tr -> wp p Q' tr.
Proof. induction p as [a|c k IH]; simpl; intros tr HQ H; [auto|]. intros r. apply IH; auto. Qed.

Lemma wp_and {A} (p : prog A) (Q Q' : A -> trace -> Prop) : forall tr,
  wp p Q tr -> wp p Q' tr -> wp p (fun a t => Q a t /\ Q' a t) tr.
Proof. induction p as [a|c k IH]; simpl; intros tr H H'; [done|]. intros r. by apply IH. Qed.

Lemma wp_pmap {A B} (f : A -> B) (p : prog A) Q : forall tr,
  wp p (fun a => Q (f a)) tr -> wp (pmap f p) Q tr.
Proof. induction p as [a|c k IH]; simpl; intros tr H; [done|]. intros r. by apply IH. Qed.

(** Number of events of a trace that satisfy a test. *)
Definition count (P : C * R -> bool) (tr : list (C * R)) : Z :=
  Z.of_nat (length (filter (fun e => P e = true) tr)).

Lemma count_nil P : count P [] = 0.
Proof. done. Qed.

Lemma count_cons P e tr : count P (e :: tr) = (if P e then 1 else 0) + count P tr.
Proof.
  unfold count. rewrite filter_cons. destruct (P e) eqn:E.
  - rewrite decide_True by done. simpl. lia.
  - rewrite decide_False by congruence. lia.
Qed.

Lemma count_nonneg P tr : 0 <= count P tr.
Proof. unfold count. lia. Qed.

End Prog.

Arguments prog : clear implicits.
Arguments Ret {C R A} _.
Arguments Call {C R A} _ _.
Arguments trace : clear implicits.

Declare Scope prog_scope.
Delimit Scope prog_scope with prog.
Notation "r <- c ;; k" := (Call c (fun r => k))
  (at level 100, c at next level, right associativity) : prog_scope.
Notation "c ;; k" := (Call c (fun _ => k))
  (at level 100, right associativity) : prog_scope.
