(* ===== verification/Mem.v ===== *)
(** * Byte buffers with checked accesses

    Loads and stores at an offset of a buffer, which fail outside it; numbers as a
    little-endian machine keeps them. *)
From S2P Require Import Prelude.

(** The byte at an offset. *)
Definition rd (buf : list Z) (off : Z) : option Z := if off <? 0 then None else buf !! Z.to_nat off.

(** A [u_int16_t]. *)
Definition rd16 (buf : list Z) (off : Z) : option Z :=
  b0 ← rd buf off; b1 ← rd buf (off + 1); Some (b0 + 256 * b1).

Lemma nth_drop (l : list Z) k i : nth i (drop k l) 0 = nth (k + i) l 0.
Proof. by rewrite !nth_lookup, lookup_drop. Qed.

Lemma hd_nth (l : list Z) : hd 0 l = nth 0 l 0.
Proof. by destruct l. Qed.

Lemma rd_in (buf d : list Z) off : 0 <= off < Z.of_nat (length d) ->
  rd (memcpy_into buf d) off = Some (nth (Z.to_nat off) d 0).
Proof.
  intros H. unfold rd, memcpy_into. rewrite (proj2 (Z.ltb_ge _ _)) by lia.
  rewrite lookup_app_l by lia. rewrite nth_lookup. destruct (d !! Z.to_nat off) eqn:E; [done|].
  apply lookup_ge_None in E. lia.
Qed.

(** A load behind the first [k] bytes. *)
Lemma rd_behind (buf d : list Z) k off : 0 <= off < Z.of_nat (length (drop k d)) ->
  rd (memcpy_into buf d) (Z.of_nat k + off) = Some (nth (Z.to_nat off) (drop k d) 0).
Proof.
  rewrite length_drop. intros H. rewrite rd_in by lia. f_equal. rewrite !nth_lookup, lookup_drop. do 2 f_equal. lia.
Qed.

Lemma rd_stale (buf d : list Z) : (0 < length buf)%nat -> exists b, rd (memcpy_into buf d) 0 = Some b.
Proof.
  intros H. unfold rd, memcpy_into. simpl. apply lookup_lt_is_Some. rewrite length_app, length_drop. lia.
Qed.

Lemma rd16_behind (buf d : list Z) k off : (off + 2 <= length (drop k d))%nat ->
  rd16 (memcpy_into buf d) (Z.of_nat k + Z.of_nat off) =
  Some (nth off (drop k d) 0 + 256 * nth (S off) (drop k d) 0).
Proof.
  intros H. unfold rd16. rewrite rd_behind by lia. simpl. rewrite Nat2Z.id.
  replace (Z.of_nat k + Z.of_nat off + 1) with (Z.of_nat k + Z.of_nat (S off)) by lia.
  rewrite rd_behind by lia. simpl. by rewrite Nat2Z.id.
Qed.

(** A list around four of its elements. *)
Lemma split_four (l : list Z) off : (off + 4 <= length l)%nat ->
  l = take off l ++ [nth off l 0; nth (S off) l 0] ++ [nth (S (S off)) l 0; nth (S (S (S off))) l 0] ++ drop (off + 4) l.
Proof.
  revert l. induction off as [|off IH]; intros l Hl.
  - do 4 (destruct l as [|? l]; [simpl in Hl; lia|]). done.
  - destruct l as [|x l]; simpl in *; [lia|]. f_equal. apply IH. lia.
Qed.

(** A [u_int32_t] and a [u_int64_t]. *)
Definition rd32 (buf : list Z) (off : Z) : option Z :=
  w0 ← rd16 buf off; w1 ← rd16 buf (off + 2); Some (w0 + 65536 * w1).
Definition rd64 (buf : list Z) (off : Z) : option Z :=
  w0 ← rd32 buf off; w1 ← rd32 buf (off + 4); Some (w0 + 2 ^ 32 * w1).

(** [n] bytes from an offset. *)
Fixpoint rdn (buf : list Z) (off : Z) (n : nat) : option (list Z) :=
  match n with
  | O => Some []
  | S n' => b ← rd buf off; bs ← rdn buf (off + 1) n'; Some (b :: bs)
  end.

(** The bytes of a number, least significant first. *)
Definition le16 (w : Z) : list Z := [w mod 256; w / 256 mod 256].
Definition le32 (w : Z) : list Z := le16 w ++ le16 (w / 65536).
Definition le64 (w : Z) : list Z := le32 w ++ le32 (w / 2 ^ 32).

(** Storing bytes at an offset; [None] when they do not fit. *)
Definition store (buf : list Z) (off : Z) (bs : list Z) : option (list Z) :=
  if (off <? 0) || (Z.of_nat (length buf) <? off + Z.of_nat (length bs)) then None
  else Some (poke (Z.to_nat off) bs buf).

(** *** Loads from a buffer given in parts *)

Lemma rd_app (l r : list Z) off : Z.of_nat (length l) <= off -> rd (l ++ r) off = rd r (off - Z.of_nat (length l)).
Proof.
  intros H. unfold rd. rewrite (proj2 (Z.ltb_ge off 0)), (proj2 (Z.ltb_ge (off - _) 0)) by lia.
  rewrite lookup_app_r by lia. f_equal. lia.
Qed.

Lemma rd16_app (l r : list Z) off : Z.of_nat (length l) <= off -> rd16 (l ++ r) off = rd16 r (off - Z.of_nat (length l)).
Proof.
  intros H. unfold rd16. rewrite !rd_app by lia.
  by replace (off - Z.of_nat (length l) + 1) with (off + 1 - Z.of_nat (length l)) by lia.
Qed.

Lemma rd32_app (l r : list Z) off : Z.of_nat (length l) <= off -> rd32 (l ++ r) off = rd32 r (off - Z.of_nat (length l)).
Proof.
  intros H. unfold rd32. rewrite !rd16_app by lia.
  by replace (off - Z.of_nat (length l) + 2) with (off + 2 - Z.of_nat (length l)) by lia.
Qed.

Lemma rd64_app (l r : list Z) off : Z.of_nat (length l) <= off -> rd64 (l ++ r) off = rd64 r (off - Z.of_nat (length l)).
Proof.
  intros H. unfold rd64. rewrite !rd32_app by lia.
  by replace (off - Z.of_nat (length l) + 4) with (off + 4 - Z.of_nat (length l)) by lia.
Qed.

Lemma rdn_app (l r : list Z) n : forall off, Z.of_nat (length l) <= off -> rdn (l ++ r) off n = rdn r (off - Z.of_nat (length l)) n.
Proof.
  induction n as [|n IH]; intros off H; simpl; [done|]. rewrite rd_app, IH by lia.
  by replace (off - Z.of_nat (length l) + 1) with (off + 1 - Z.of_nat (length l)) by lia.
Qed.

Lemma rdn_here (l r : list Z) : rdn (l ++ r) 0 (length l) = Some l.
Proof.
  induction l as [|x l IH]; simpl; [done|]. change (0 + 1) with (Z.of_nat (length [x]) + 0).
  change (x :: l ++ r) with ([x] ++ (l ++ r)). rewrite rdn_app by lia.
  replace (Z.of_nat (length [x]) + 0 - Z.of_nat (length [x])) with 0 by lia. by rewrite IH.
Qed.

Lemma rd16_here w r : 0 <= w < 2 ^ 16 -> rd16 (le16 w ++ r) 0 = Some w.
Proof.
  intros Hw. unfold rd16, le16. simpl. f_equal. assert (0 <= w / 256 < 256) by (Z.to_euclidean_division_equations; lia).
  rewrite (Z.mod_small (w / 256)) by lia. pose proof (Z.div_mod w 256). lia.
Qed.

Lemma rd32_here w r : 0 <= w < 2 ^ 32 -> rd32 (le32 w ++ r) 0 = Some w.
Proof.
  intros Hw. unfold rd32. change (0 + 2) with (Z.of_nat (length (le16 w)) + 0). unfold le32. rewrite <- app_assoc.
  rewrite rd16_app by (simpl; lia). replace (_ + 0 - _) with 0 by lia. rewrite rd16_here.
  - unfold rd16, le16. simpl. f_equal. Z.to_euclidean_division_equations. lia.
  - Z.to_euclidean_division_equations. lia.
Qed.
