(* ===== verification/Outcome.v ===== *)
(** * Outcomes of code that can end the process or leave an object

    A small error monad for functions whose accesses are checked, with the lemmas
    on stores and conversions its users share. *)
From S2P Require Import Prelude Mem.

(** How a call ends: with a value, in [err_quit] or [err_sys], or with an access
    outside an object. *)
Inductive outcome (A : Type) := Done (a : A) | Quits | Fault.
Arguments Done {A} _.
Arguments Quits {A}.
Arguments Fault {A}.

#[export] Instance outcome_bind : MBind outcome := fun A B k m =>
  match m with Done a => k a | Quits => Quits | Fault => Fault end.

(** The result of a checked access. *)
Definition checked {A} (r : option A) : outcome A := match r with Some a => Done a | None => Fault end.

(** A store over bytes of the same number. *)
Lemma store_over (l m r bs : list Z) off :
  off = Z.of_nat (length l) -> length m = length bs -> store (l ++ m ++ r) off bs = Some (l ++ bs ++ r).
Proof.
  intros -> Hm. unfold store. rewrite !length_app, Hm.
  rewrite (proj2 (Z.ltb_ge _ 0)) by lia. rewrite (proj2 (Z.ltb_ge _ (_ + _))) by lia. simpl.
  unfold poke. rewrite Nat2Z.id, take_app_length, <- Hm. rewrite (app_assoc l m r), <- length_app, drop_app_length. done.
Qed.

Lemma rdn_all (l : list Z) n : length l = n -> rdn l 0 n = Some l.
Proof. intros <-. rewrite <- (app_nil_r l) at 1. apply rdn_here. Qed.

(** [size_t] arithmetic stored in an [int]. *)
Lemma s32_u64 n : s32 (u64 n) = s32 n.
Proof.
  unfold swrap, uwrap. f_equal. pose proof (Z.div_mod n (2 ^ 64) ltac:(lia)) as E.
  replace (n + 2 ^ (32 - 1)) with (n mod 2 ^ 64 + 2 ^ (32 - 1) + (n / 2 ^ 64 * 2 ^ 32) * 2 ^ 32) by lia.
  by rewrite Z_mod_plus_full.
Qed.
