(* ===== verification/MyRwlock.v ===== *)
(** * The read-write locks of [unixipc/my_rwlock] and [unixipc/my_rwlock_cancel]

    [Module Rwlock] is the first implementation, [Module RwlockCancel] the one
    with cancellation handlers.  Each function of the sources is its critical
    sections over the fields of [pthread_rwlock_t]; the pthread calls inside
    them return the values the operation carries.  The system of threads that
    share a lock is [Monitor] run on these operations together with the ledger
    of the locks the threads hold. *)
From S2P Require Import Prelude Monitor.

Module Rwlock.

(** [pthread_rwlock_t]; the three pthread objects are represented by whether
    they are initialised.  [rw_refcount] is -1 when a writer has the lock, else
    the number of readers holding it. *)
Record pthread_rwlock_t := RW {
  rw_mutex : bool;
  rw_condreaders : bool;
  rw_condwriters : bool;
  rw_magic : Z;
  rw_nwaitreaders : Z;
  rw_nwaitwriters : Z;
  rw_refcount : Z }.

Definition RW_MAGIC : Z := 0x19283746.

Definition PTHREAD_RWLOCK_INITIALIZER : pthread_rwlock_t :=
  RW true true true RW_MAGIC 0 0 0.

Definition set_counts (rw : pthread_rwlock_t) (nwr nww ref : Z) : pthread_rwlock_t :=
  RW (rw_mutex rw) (rw_condreaders rw) (rw_condwriters rw) (rw_magic rw) nwr nww ref.

(** The two condition variables. *)
Inductive cond := condreaders | condwriters.

#[export] Instance cond_eq_dec : EqDecision cond.
Proof. solve_decision. Defined.

(** The functions return 0 ([None]) or an error number. *)
Abbreviation outc := (outcome pthread_rwlock_t (option errno) cond).

(** [pthread_rwlock_init]: [m], [cr] and [cw] are the results of the three
    pthread initialisers; on a failure those already made are destroyed. *)
Definition pthread_rwlock_init (rw : pthread_rwlock_t) (attr : option Z)
    (m cr cw : option errno) : pthread_rwlock_t * option errno :=
  match attr with
  | Some _ => (rw, Some EINVAL)
  | None =>
    match m with
    | Some e => (rw, Some e)
    | None =>
      match cr with
      | Some e =>
        (RW false (rw_condreaders rw) (rw_condwriters rw) (rw_magic rw)
            (rw_nwaitreaders rw) (rw_nwaitwriters rw) (rw_refcount rw), Some e)
      | None =>
        match cw with
        | Some e =>
          (RW false false (rw_condwriters rw) (rw_magic rw)
              (rw_nwaitreaders rw) (rw_nwaitwriters rw) (rw_refcount rw), Some e)
        | None => (RW true true true RW_MAGIC 0 0 0, None)
        end
      end
    end
  end.

Definition pthread_rwlock_destroy (rw : pthread_rwlock_t) : pthread_rwlock_t * option errno :=
  if negb (rw_magic rw =? RW_MAGIC) then (rw, Some EINVAL)
  else if negb (rw_refcount rw =? 0) || negb (rw_nwaitreaders rw =? 0)
          || negb (rw_nwaitwriters rw =? 0) then (rw, Some EBUSY)
  else (RW false false false 0 (rw_nwaitreaders rw) (rw_nwaitwriters rw) (rw_refcount rw), None).

(** The test of the loop in [pthread_rwlock_rdlock] and what follows it when
    [result] is 0. *)
Definition rdlock_test (rw : pthread_rwlock_t) : outc :=
  if (rw_refcount rw <? 0) || (rw_nwaitwriters rw >? 0) then
    Wait (set_counts rw (int_inc (rw_nwaitreaders rw)) (rw_nwaitwriters rw) (rw_refcount rw)) condreaders
  else
    Return (set_counts rw (rw_nwaitreaders rw) (rw_nwaitwriters rw) (int_inc (rw_refcount rw))) None [].

(** [lk] is what [pthread_mutex_lock] returns. *)
Definition pthread_rwlock_rdlock (lk : option errno) (rw : pthread_rwlock_t) : outc :=
  if negb (rw_magic rw =? RW_MAGIC) then Return rw (Some EINVAL) []
  else match lk with
       | Some e => Return rw (Some e) []
       | None => rdlock_test rw
       end.

(** From the return of [pthread_cond_wait], whose result is [cw], on. *)
Definition rdlock_resume (cw : option errno) (rw : pthread_rwlock_t) : outc :=
  let rw' := set_counts rw (int_dec (rw_nwaitreaders rw)) (rw_nwaitwriters rw) (rw_refcount rw) in
  match cw with
  | Some e => Return rw' (Some e) []
  | None => rdlock_test rw'
  end.

Definition pthread_rwlock_tryrdlock (lk : option errno) (rw : pthread_rwlock_t) : outc :=
  if negb (rw_magic rw =? RW_MAGIC) then Return rw (Some EINVAL) []
  else match lk with
       | Some e => Return rw (Some e) []
       | None =>
         if (rw_refcount rw <? 0) || (rw_nwaitwriters rw >? 0) then Return rw (Some EBUSY) []
         else Return (set_counts rw (rw_nwaitreaders rw) (rw_nwaitwriters rw)
                        (int_inc (rw_refcount rw))) None []
       end.

Definition wrlock_test (rw : pthread_rwlock_t) : outc :=
  if negb (rw_refcount rw =? 0) then
    Wait (set_counts rw (rw_nwaitreaders rw) (int_inc (rw_nwaitwriters rw)) (rw_refcount rw)) condwriters
  else
    Return (set_counts rw (rw_nwaitreaders rw) (rw_nwaitwriters rw) (-1)) None [].

Definition pthread_rwlock_wrlock (lk : option errno) (rw : pthread_rwlock_t) : outc :=
  if negb (rw_magic rw =? RW_MAGIC) then Return rw (Some EINVAL) []
  else match lk with
       | Some e => Return rw (Some e) []
       | None => wrlock_test rw
       end.

Definition wrlock_resume (cw : option errno) (rw : pthread_rwlock_t) : outc :=
  let rw' := set_counts rw (rw_nwaitreaders rw) (int_dec (rw_nwaitwriters rw)) (rw_refcount rw) in
  match cw with
  | Some e => Return rw' (Some e) []
  | None => wrlock_test rw'
  end.

Definition pthread_rwlock_trywrlock (lk : option errno) (rw : pthread_rwlock_t) : outc :=
  if negb (rw_magic rw =? RW_MAGIC) then Return rw (Some EINVAL) []
  else match lk with
       | Some e => Return rw (Some e) []
       | None =>
         if negb (rw_refcount rw =? 0) then Return rw (Some EBUSY) []
         else Return (set_counts rw (rw_nwaitreaders rw) (rw_nwaitwriters rw) (-1)) None []
       end.

(** A signal or broadcast that returns an error unblocks nobody. *)
Definition delivered (sg : option errno) (a : cond_act cond) : list (cond_act cond) :=
  match sg with None => [a] | Some _ => [] end.

(** [pthread_rwlock_unlock]; [sg] is what the signal or broadcast it makes
    returns, which becomes its own result. *)
Definition unlock_wakeup (sg : option errno) (rw : pthread_rwlock_t) : outc :=
  if rw_nwaitwriters rw >? 0 then
    if rw_refcount rw =? 0 then Return rw sg (delivered sg (Signal condwriters)) else Return rw None []
  else if rw_nwaitreaders rw >? 0 then Return rw sg (delivered sg (Broadcast condreaders))
  else Return rw None [].

Definition pthread_rwlock_unlock (lk sg : option errno) (rw : pthread_rwlock_t) : outc :=
  if negb (rw_magic rw =? RW_MAGIC) then Return rw (Some EINVAL) []
  else match lk with
       | Some e => Return rw (Some e) []
       | None =>
         if rw_refcount rw >? 0 then
           unlock_wakeup sg (set_counts rw (rw_nwaitreaders rw) (rw_nwaitwriters rw)
                               (int_dec (rw_refcount rw)))
         else if rw_refcount rw =? -1 then
           unlock_wakeup sg (set_counts rw (rw_nwaitreaders rw) (rw_nwaitwriters rw) 0)
         else Dump
       end.

(** The wrappers terminate the process on an error. *)
Definition Pthread_rwlock_init rw attr m cr cw : pthread_rwlock_t * wrapped unit :=
  let '(rw', r) := pthread_rwlock_init rw attr m cr cw in (rw', err_sys_unless_0 r).
Definition Pthread_rwlock_destroy rw : pthread_rwlock_t * wrapped unit :=
  let '(rw', r) := pthread_rwlock_destroy rw in (rw', err_sys_unless_0 r).
Definition Pthread_rwlock_rdlock lk rw := outcome_map err_sys_unless_0 (pthread_rwlock_rdlock lk rw).
Definition Pthread_rwlock_wrlock lk rw := outcome_map err_sys_unless_0 (pthread_rwlock_wrlock lk rw).
Definition Pthread_rwlock_tryrdlock lk rw :=
  outcome_map err_sys_unless_0 (pthread_rwlock_tryrdlock lk rw).
Definition Pthread_rwlock_trywrlock lk rw :=
  outcome_map err_sys_unless_0 (pthread_rwlock_trywrlock lk rw).
Definition Pthread_rwlock_unlock lk sg rw :=
  outcome_map err_sys_unless_0 (pthread_rwlock_unlock lk sg rw).

(** ** The operations as seen by the threads

    An operation carries the results of its pthread calls. *)
Inductive op :=
| Rd (lk cw : option errno)
| Wr (lk cw : option errno)
| TryRd (lk : option errno)
| TryWr (lk : option errno)
| Unlock (lk sg : option errno).

Definition enter (o : op) : pthread_rwlock_t -> outc :=
  match o with
  | Rd lk _ => pthread_rwlock_rdlock lk
  | Wr lk _ => pthread_rwlock_wrlock lk
  | TryRd lk => pthread_rwlock_tryrdlock lk
  | TryWr lk => pthread_rwlock_trywrlock lk
  | Unlock lk sg => pthread_rwlock_unlock lk sg
  end.

(** Only the two blocking operations ever wait. *)
Definition resume (o : op) : pthread_rwlock_t -> outc :=
  match o with
  | Rd _ cw => rdlock_resume cw
  | Wr _ cw => wrlock_resume cw
  | _ => fun _ => Dump
  end.

Definition is_rd (o : op) : bool := match o with Rd _ _ => true | _ => false end.
Definition is_wr (o : op) : bool := match o with Wr _ _ => true | _ => false end.

(** ** Threads sharing one lock

    The ledger records which threads hold read locks (once per lock held) and
    write locks; it follows the values the functions return. *)
Record sys := Sys {
  mon : conf pthread_rwlock_t op cond;
  rheld : list nat;
  wheld : list nat }.

Definition remove1 (t : nat) (l : list nat) : list nat :=
  match list_find (eq t) l with
  | Some (i, _) => delete i l
  | None => l
  end.

(** Returning 0 from a locking function adds a lock, from [unlock] drops one. *)
Definition ledger (t : nat) (o : op) (r : option (option errno)) (h : list nat * list nat)
    : list nat * list nat :=
  let '(rh, wh) := h in
  match r, o with
  | Some None, (Rd _ _ | TryRd _) => (t :: rh, wh)
  | Some None, (Wr _ _ | TryWr _) => (rh, t :: wh)
  | Some _, Unlock None _ => if decide (t ∈ wh) then (rh, remove1 t wh) else (remove1 t rh, wh)
  | _, _ => (rh, wh)
  end.

(** The discipline of the clients: a thread calls [unlock] only for a lock it
    holds. *)
Definition may_call (t : nat) (o : op) (rh wh : list nat) : Prop :=
  match o with Unlock _ _ => t ∈ rh \/ t ∈ wh | _ => True end.

(** The counters are [int]s: there are fewer than [INT_MAX] read locks and fewer
    than [INT_MAX] threads inside the functions. *)
Definition room (y : sys) : Prop :=
  Z.of_nat (length (rheld y)) < INT_MAX /\ Z.of_nat (size (threads (mon y))) < INT_MAX.

Inductive sstep (allowed : op -> Prop) : sys -> sys -> Prop :=
| sstep_intro c rh wh t o r c' rh' wh' :
    allowed o ->
    room (Sys c rh wh) ->
    may_call t o rh wh ->
    mstep enter resume c (t, o, r) c' ->
    ledger t o r (rh, wh) = (rh', wh') ->
    sstep allowed (Sys c rh wh) (Sys c' rh' wh').

Definition init_sys : sys := Sys (Conf PTHREAD_RWLOCK_INITIALIZER ∅ false) [] [].

(** ** Safety *)

(** The reference count agrees with the ledger: the number of read locks when
    nobody writes, -1 when exactly one thread has the write lock. *)
Definition held_ok (ref : Z) (rh wh : list nat) : Prop :=
  (wh = [] /\ ref = Z.of_nat (length rh)) \/ (exists w, wh = [w] /\ rh = [] /\ ref = -1).

Definition b2z (b : bool) : Z := if b then 1 else 0.

Definition cond_of (o : op) : cond := if is_rd o then condreaders else condwriters.

Definition blocking (o : op) : bool := is_rd o || is_wr o.

Lemma remove1_length t l : t ∈ l -> length l = S (length (remove1 t l)).
Proof.
  intros Ht. unfold remove1. destruct (list_find (eq t) l) as [[i x]|] eqn:E.
  - apply list_find_Some in E as (Hi & _ & _). apply lookup_lt_Some in Hi as Hl.
    rewrite length_delete by (by exists x). lia.
  - apply list_find_None in E. rewrite Forall_forall in E. by destruct (E t Ht).
Qed.

(** The ledger entry a successful unlock drops. *)
Lemma held_ok_unlock ref rh wh t sg r :
  held_ok ref rh wh -> t ∈ rh \/ t ∈ wh ->
  let '(rh', wh') := ledger t (Unlock None sg) (Some r) (rh, wh) in
  (0 < ref /\ held_ok (ref - 1) rh' wh') \/ (ref = -1 /\ held_ok 0 rh' wh').
Proof.
  intros [[-> ->]|(w & -> & -> & ->)] Ht.
  - destruct Ht as [Ht|Ht]; [|set_solver].
    assert (ledger t (Unlock None sg) (Some r) (rh, []) = (remove1 t rh, [])) as ->.
    { cbn [ledger]. rewrite decide_False by set_solver. by destruct r. }
    left. apply remove1_length in Ht. split; [lia|]. left. split; [done|lia].
  - assert (t = w) as -> by set_solver.
    assert (ledger w (Unlock None sg) (Some r) ([], [w]) = ([], [])) as ->.
    { cbn [ledger]. rewrite decide_True by set_solver. unfold remove1. simpl.
      rewrite decide_True by done. by destruct r. }
    right. split; [done|]. by left.
Qed.

(** No counter is at its limit. *)
Definition fits (s : pthread_rwlock_t) : Prop :=
  -1 <= rw_refcount s < INT_MAX /\ 0 <= rw_nwaitreaders s < INT_MAX /\ 0 <= rw_nwaitwriters s < INT_MAX.

(** What a first critical section does to the counters and the ledger, and the
    same for the section that follows a wait (the thread is still counted as
    waiting when that one starts). *)
Definition enter_post (t : nat) (o : op) (s : pthread_rwlock_t) (rh wh : list nat)
    (out : outc) : Prop :=
  match out with
  | Return s' r acts =>
    rw_magic s' = RW_MAGIC /\ rw_nwaitreaders s' = rw_nwaitreaders s /\
    rw_nwaitwriters s' = rw_nwaitwriters s /\
    let '(rh', wh') := ledger t o (Some r) (rh, wh) in held_ok (rw_refcount s') rh' wh'
  | Wait s' c =>
    blocking o = true /\ c = cond_of o /\ rw_magic s' = RW_MAGIC /\
    rw_refcount s' = rw_refcount s /\
    rw_nwaitreaders s' = rw_nwaitreaders s + b2z (is_rd o) /\
    rw_nwaitwriters s' = rw_nwaitwriters s + b2z (is_wr o)
  | Dump => False
  end.

Definition resume_post (t : nat) (o : op) (s : pthread_rwlock_t) (rh wh : list nat)
    (out : outc) : Prop :=
  match out with
  | Return s' r acts =>
    rw_magic s' = RW_MAGIC /\
    rw_nwaitreaders s' = rw_nwaitreaders s - b2z (is_rd o) /\
    rw_nwaitwriters s' = rw_nwaitwriters s - b2z (is_wr o) /\
    let '(rh', wh') := ledger t o (Some r) (rh, wh) in held_ok (rw_refcount s') rh' wh'
  | Wait s' c => s' = s /\ c = cond_of o
  | Dump => False
  end.

Lemma enter_spec t o s rh wh :
  rw_magic s = RW_MAGIC -> fits s -> held_ok (rw_refcount s) rh wh -> may_call t o rh wh ->
  enter_post t o s rh wh (enter o s).
Proof.
  intros Hm (Hf1 & Hf2 & Hf3) Hh Hc. unfold enter_post.
  destruct o as [lk cw|lk cw|lk|lk|lk sg]; simpl in *; destruct lk as [e|];
    unfold pthread_rwlock_rdlock, rdlock_test, pthread_rwlock_wrlock, wrlock_test,
      pthread_rwlock_tryrdlock, pthread_rwlock_trywrlock, pthread_rwlock_unlock;
    rewrite Hm, Z.eqb_refl; simpl; try (by repeat split; auto).
  1-4: in_range; split_test; bool_to_prop; simpl; repeat split; try done; try lia;
    destruct Hh as [[-> Hr]|(w & -> & -> & Hr)]; try lia;
    (* a lock was taken: extend the ledger *)
    unfold held_ok; simpl; first
      [ left; split; [done|lia]
      | right; exists t; split; [done|]; destruct rh; simpl in *; [split; [done|lia]|lia] ].
  (* unlock *)
  assert (forall r, let '(rh', wh') := ledger t (Unlock None sg) (Some r) (rh, wh) in
    (0 < rw_refcount s /\ held_ok (rw_refcount s - 1) rh' wh') \/
    (rw_refcount s = -1 /\ held_ok 0 rh' wh')) as Hu by (intros; by apply held_ok_unlock).
  destruct (rw_refcount s >? 0) eqn:Hp; [|destruct (rw_refcount s =? -1) eqn:Hn]; bool_to_prop.
  3: { specialize (Hu None). destruct (ledger _ _ _ _) as [? ?]. destruct Hu as [[? ?]|[? ?]]; lia. }
  all: unfold unlock_wakeup; simpl; in_range; repeat split_test; simpl; repeat split; try done.
  all: match goal with |- context [ledger _ _ (Some ?r) _] => specialize (Hu r) | _ => specialize (Hu None) end.
  all: simpl in Hu; case_decide; destruct Hu as [[? ?]|[? ?]]; try lia; done.
Qed.

Lemma resume_spec t o s rh wh :
  rw_magic s = RW_MAGIC -> fits s -> held_ok (rw_refcount s) rh wh -> blocking o = true ->
  resume_post t o s rh wh (resume o s).
Proof.
  intros Hm (Hf1 & Hf2 & Hf3) Hh Hb. unfold resume_post. destruct o as [lk cw|lk cw|lk|lk|lk sg]; simpl in *; try done;
    unfold rdlock_resume, wrlock_resume; destruct cw as [e|]; simpl;
    try (by in_range; repeat split; auto; lia);
    unfold rdlock_test, wrlock_test; simpl; in_range; split_test; bool_to_prop; simpl;
    (split; [|try split]); try done; try lia.
  all: try (destruct s; unfold set_counts; simpl; f_equal; lia).
  all: repeat split; try lia.
  all: destruct Hh as [[-> Hr]|(w & -> & -> & Hr)]; try lia; unfold held_ok; simpl; first
      [ left; split; [done|lia]
      | right; exists t; split; [done|]; destruct rh; simpl in *; [split; [done|lia]|lia] ].
Qed.

(** The invariant of a lock shared by threads: nothing has aborted, every
    waiting thread is counted in the right counter and sleeps on the right
    condition variable, and the reference count agrees with the ledger. *)
Definition inv (y : sys) : Prop :=
  let s := shared (mon y) in
  let th := threads (mon y) in
  dumped (mon y) = false /\
  rw_magic s = RW_MAGIC /\
  rw_nwaitreaders s = nops is_rd (ops th) /\
  rw_nwaitwriters s = nops is_wr (ops th) /\
  (forall t o, ops th !! t = Some o -> blocking o = true) /\
  (forall t c o, th !! t = Some (Asleep c o) -> c = cond_of o) /\
  held_ok (rw_refcount s) (rheld y) (wheld y).

Lemma inv_init : inv init_sys.
Proof.
  unfold inv, init_sys, ops; simpl. rewrite fmap_empty, !nops_empty.
  repeat split; try done. by left.
Qed.

Lemma inv_enter s th rh wh t o out r c' rh' wh' :
  inv (Sys (Conf s th false) rh wh) -> enter_post t o s rh wh out -> th !! t = None ->
  finish t o out th r c' -> ledger t o r (rh, wh) = (rh', wh') ->
  inv (Sys c' rh' wh').
Proof.
  intros (_ & Hm & Hr & Hw & Hb & Ha & Hh) Hs Ht Hf Hl; simpl in Hm, Hr, Hw, Hb, Ha, Hh.
  pose proof (finish_ops _ _ _ _ _ _ Hf) as Ho.
  assert (ops th !! t = None) as Hot by (by rewrite ops_lookup, Ht).
  destruct Hf as [s' r acts th0 th' Hact|s' c th0|]; [..|done].
  - unfold enter_post, resume_post in Hs. rewrite Hl in Hs. destruct Hs as (? & ? & ? & ?), Ho as [_ Ho]. simpl in Ho.
    rewrite delete_id in Ho by done. unfold inv; simpl. rewrite Ho.
    repeat split; try done; try congruence.
    intros t' c o' Hin. eapply acts_step_asleep in Hin; [|done].
    apply lookup_delete_Some in Hin as [_ Hin]. eauto.
  - destruct Hs as (Hbl & -> & ? & Href & ? & ?), Ho as [_ Ho]. simpl in Ho. simplify_eq/=.
    unfold inv; simpl. rewrite Ho, !nops_insert, Href by done.
    repeat split; try done; try (unfold b2z in *; lia).
    + intros t' o' Hin. apply lookup_insert_Some in Hin as [[_ <-]|[_ Hin]]; eauto.
    + intros t' c' o' Hin. apply lookup_insert_Some in Hin as [[_ ?]|[_ Hin]]; simplify_eq; eauto.
Qed.

Lemma inv_resume s th rh wh t o out r c' rh' wh' :
  inv (Sys (Conf s th false) rh wh) -> resume_post t o s rh wh out ->
  th !! t = Some (Woken o) -> finish t o out th r c' -> ledger t o r (rh, wh) = (rh', wh') ->
  inv (Sys c' rh' wh').
Proof.
  intros (_ & Hm & Hr & Hw & Hb & Ha & Hh) Hs Ht Hf Hl; simpl in Hm, Hr, Hw, Hb, Ha, Hh.
  assert (ops th !! t = Some o) as Hot by (by rewrite ops_lookup, Ht).
  pose proof (finish_ops _ _ _ _ _ _ Hf) as Ho.
  destruct Hf as [s' r acts th0 th' Hact|s' c th0|]; [..|done].
  - unfold enter_post, resume_post in Hs. rewrite Hl in Hs. destruct Hs as (? & ? & ? & ?), Ho as [_ Ho]. simpl in Ho.
    unfold inv; simpl. rewrite Ho, !(nops_delete _ _ t o) by done.
    repeat split; try done; try (unfold b2z in *; lia).
    + intros t' o' Hin. apply lookup_delete_Some in Hin as [_ Hin]. eauto.
    + intros t' c o' Hin. eapply acts_step_asleep in Hin; [|done].
      apply lookup_delete_Some in Hin as [_ Hin]. eauto.
  - destruct Hs as [-> ->], Ho as [_ Ho]. simpl in Ho.
    rewrite (insert_id (ops th0)) in Ho by done.
    simplify_eq/=. unfold inv; simpl. rewrite Ho.
    repeat split; try done.
    intros t' c' o' Hin. apply lookup_insert_Some in Hin as [[_ ?]|[_ Hin]]; simplify_eq; eauto.
Qed.

Lemma inv_fits y : inv y -> room y -> fits (shared (mon y)).
Proof.
  intros (_ & _ & Hr & Hw & _ & _ & Hh) [R1 R2]. unfold fits. rewrite Hr, Hw.
  pose proof (nops_nonneg is_rd (ops (threads (mon y)))). pose proof (nops_nonneg is_wr (ops (threads (mon y)))).
  pose proof (nops_le_size is_rd (threads (mon y))). pose proof (nops_le_size is_wr (threads (mon y))).
  destruct Hh as [[_ ->]|(w & _ & _ & ->)]; unfold INT_MAX in *; lia.
Qed.

Lemma inv_step allowed y y' : inv y -> sstep allowed y y' -> inv y'.
Proof.
  intros Hi Hs. destruct Hs as [c rh wh t o r c' rh' wh' _ Hroom Hc Hm Hl].
  pose proof (inv_fits _ Hi Hroom) as Hfit. pose proof Hi as (_ & Hmag & _ & _ & Hb & _ & Hh). simpl in Hfit, Hmag, Hb, Hh.
  inversion Hm as [? th ? ? ? ? Ht Hf|? th ? ? ? ? Ht Hf|]; subst.
  { eapply inv_enter; eauto using enter_spec. }
  { eapply inv_resume; eauto. eapply resume_spec; eauto. apply (Hb t). rewrite ops_lookup. simpl. by rewrite Ht. }
  simpl in Hl. simplify_eq.
  destruct Hi as (? & ? & ? & ? & ? & Ha & ?); unfold inv; simpl in *.
  match goal with H : _ !! t = Some _ |- _ => rename H into Ht end.
  rewrite ops_insert, (insert_id (ops _)) by (by rewrite ops_lookup, Ht).
  repeat split; try done.
  intros t' c' o' Hin. apply lookup_insert_Some in Hin as [[_ ?]|[_ Hin]]; simplify_eq; eauto.
Qed.

Lemma inv_reachable allowed y : rtc (sstep allowed) init_sys y -> inv y.
Proof. apply rtc_invariant, inv_init. intros; by eapply inv_step. Qed.

(** ** No lost wakeup *)

(** Clients whose calls on the condition variables do not fail. *)
Definition no_cond_error (o : op) : Prop :=
  match o with Rd _ cw | Wr _ cw => cw = None | Unlock _ sg => sg = None | _ => True end.

Definition woken_writer (th : gmap nat (tstate op cond)) : Prop :=
  exists t o, th !! t = Some (Woken o) /\ is_wr o = true.

(** When the lock is free and writers wait, one of them has been unblocked;
    when readers may enter, none of them is blocked. *)
Definition live (y : sys) : Prop :=
  let s := shared (mon y) in
  let th := threads (mon y) in
  (rw_refcount s = 0 -> 0 < rw_nwaitwriters s -> woken_writer th) /\
  (0 <= rw_refcount s -> rw_nwaitwriters s = 0 ->
   forall t o, th !! t <> Some (Asleep condreaders o)).

Lemma woken_writer_act a th th' : act_step a th th' -> woken_writer th -> woken_writer th'.
Proof. intros Ha (t & o & Ht & Ho). exists t, o. eauto using act_step_woken. Qed.

Lemma woken_writer_insert th t ts :
  (forall o, th !! t = Some (Woken o) -> is_wr o = false) ->
  woken_writer th -> woken_writer (<[t := ts]> th).
Proof.
  intros Hn (t' & o & Ht & Ho). exists t', o. split; [|done].
  rewrite lookup_insert_ne; [done|]. intros ->. apply Hn in Ht. congruence.
Qed.

(** What [unlock_wakeup] leaves behind. *)
Lemma live_unlock s th th' rh wh s' r acts y :
  inv y -> shared (mon y) = s -> threads (mon y) = th ->
  forall ref, unlock_wakeup None (set_counts s (rw_nwaitreaders s) (rw_nwaitwriters s) ref)
              = Return s' r acts ->
  acts_step acts th th' ->
  live (Sys (Conf s' th' false) rh wh).
Proof.
  intros (_ & _ & Hr & Hw & Hb & Hc & _) <- <- ref Hu Ha. unfold live; simpl.
  unfold unlock_wakeup in Hu; simpl in Hu.
  destruct (rw_nwaitwriters _ >? 0) eqn:Hww; bool_to_prop.
  - (* writers wait *)
    assert (rw_nwaitwriters s' = rw_nwaitwriters (shared (mon y))) by (by split_tests).
    split; [|lia]. intros Href _.
    assert (acts = [Signal condwriters]) as -> by (by split_tests).
    inversion Ha as [|a l th0 th1 th2 Ha1 Ha2]; subst. inversion Ha2; subst.
    assert (0 < nops is_wr (ops (threads (mon y)))) as Hpos by lia.
    apply nops_pos in Hpos as (t & o & Ht & Ho).
    rewrite ops_lookup in Ht. destruct (threads (mon y) !! t) as [[c o'|o']|] eqn:E; simplify_eq/=.
    + pose proof (Hc _ _ _ E) as ->. destruct o; try done.
      change (cond_of _) with condwriters in E.
      destruct (signal_wakes _ _ _ _ _ Ha1 E) as (t' & o' & Ht' & Hw').
      exists t', o'. split; [done|]. specialize (Hc _ _ _ Ht').
      specialize (Hb t' o'). rewrite ops_lookup, Ht' in Hb. specialize (Hb eq_refl).
      unfold cond_of, blocking in *. by destruct (is_rd o'), (is_wr o').
    + eapply woken_writer_act; [done|]. exists t, o. done.
  - (* no writer waits *)
    assert (rw_nwaitwriters s' = rw_nwaitwriters (shared (mon y))) by (by split_tests).
    split; [lia|]. intros _ _ t o Hin.
    destruct (rw_nwaitreaders _ >? 0) eqn:Hwr; bool_to_prop; simplify_eq.
    + inversion Ha as [|a l th0 th1 th2 Ha1 Ha2]; subst. inversion Ha2; subst.
      by eapply broadcast_wakes.
    + eapply acts_step_asleep in Hin; [|done].
      assert (0 < nops is_rd (ops (threads (mon y)))); [|lia].
      apply nops_pos. exists t, o. rewrite ops_lookup, Hin. split; [done|].
      specialize (Hc _ _ _ Hin). unfold cond_of in Hc. by destruct (is_rd o).
Qed.

(** The other operations either leave the counters alone or take the lock. *)
Lemma enter_not_unlock o s :
  rw_magic s = RW_MAGIC -> fits s -> (forall lk sg, o <> Unlock lk sg) ->
  match enter o s with
  | Return s' r acts =>
    acts = [] /\ rw_nwaitwriters s' = rw_nwaitwriters s /\
    (rw_refcount s' = rw_refcount s
     \/ (rw_refcount s' = rw_refcount s + 1 /\ 0 <= rw_refcount s)
     \/ rw_refcount s' = -1)
  | Wait s' c =>
    rw_refcount s' = rw_refcount s /\
    ((is_rd o = true /\ rw_nwaitwriters s' = rw_nwaitwriters s /\
      (rw_refcount s < 0 \/ 0 < rw_nwaitwriters s))
     \/ (is_wr o = true /\ rw_nwaitwriters s' = rw_nwaitwriters s + 1 /\ rw_refcount s <> 0))
  | Dump => False
  end.
Proof.
  intros Hm (Hf1 & Hf2 & Hf3) Hn.
  destruct o as [[e|]|[e|]|[e|]|[e|]|lk sg]; [..|by destruct (Hn lk sg)]; simpl;
    unfold pthread_rwlock_rdlock, rdlock_test, pthread_rwlock_wrlock, wrlock_test,
      pthread_rwlock_tryrdlock, pthread_rwlock_trywrlock;
    rewrite Hm, Z.eqb_refl; simpl; try (by auto); in_range;
    split_test; bool_to_prop; simpl; repeat split; auto; try lia.
  all: match goal with H : (_ || _)%bool = true |- _ => apply orb_true_iff in H as [?|?] end;
    bool_to_prop; auto with lia.
Qed.

Lemma live_enter s th rh wh t o r c' rh' wh' :
  inv (Sys (Conf s th false) rh wh) -> live (Sys (Conf s th false) rh wh) ->
  room (Sys (Conf s th false) rh wh) -> no_cond_error o -> may_call t o rh wh ->
  th !! t = None -> finish t o (enter o s) th r c' -> live (Sys c' rh' wh').
Proof.
  intros Hi [J1 J3] Hroom Hok Hcall Ht Hf. pose proof (inv_fits _ Hi Hroom) as Hfit. simpl in Hfit. pose proof Hi as (_ & Hm & _ & Hw & _ & _ & Hh).
  simpl in Hm, Hw, Hh, J1, J3.
  assert (0 <= rw_nwaitwriters s) by (rewrite Hw; apply nops_nonneg).
  pose proof (enter_spec t o s rh wh Hm Hfit Hh Hcall) as Hspec.
  pose proof (enter_not_unlock o s Hm Hfit) as Hn.
  inversion Hf as [s' r' acts th0 th' Ha He|s' c th0 He|th0 s' He]; subst; clear Hf;
    rewrite <- He in Hspec, Hn; [..|done].
  - rewrite delete_id in Ha by done.
    destruct o as [| | | |[e|] sg];
      try (destruct Hn as (-> & Hww & Href); [done|]; inversion Ha; subst; unfold live; simpl;
           rewrite Hww; split; [intros ? ?; apply J1; lia|intros ? ?; apply J3; lia]).
    + simpl in He. unfold pthread_rwlock_unlock in He. rewrite Hm in He. simplify_eq/=.
      inversion Ha; subst. done.
    + simpl in He, Hok. subst sg. unfold pthread_rwlock_unlock in He. rewrite Hm in He. simpl in He.
      split_tests; symmetry in He; eapply (live_unlock s th); eauto.
  - destruct o as [| | | |lk sg]; try (by destruct Hspec);
      (destruct Hn as (Href & Hn); [done|]); unfold live; simpl; rewrite Href;
      destruct Hn as [(Hk & Hww & Hor)|(Hk & Hww & Hne)]; try done; rewrite Hww.
    + split; [|lia]. intros Hz0 Hp. apply woken_writer_insert; [|auto]. intros ? ?; congruence.
    + split; lia.
Qed.

Lemma live_resume s th rh wh t o r c' rh' wh' :
  inv (Sys (Conf s th false) rh wh) -> live (Sys (Conf s th false) rh wh) ->
  room (Sys (Conf s th false) rh wh) -> no_cond_error o ->
  th !! t = Some (Woken o) -> finish t o (resume o s) th r c' -> live (Sys c' rh' wh').
Proof.
  intros Hi [J1 J3] Hroom Hok Ht Hf. pose proof (inv_fits _ Hi Hroom) as (Hf1 & Hf2 & Hf3).
  destruct Hi as (_ & Hm & _ & Hw & Hb & _ & Hh). simpl in Hf1, Hf2, Hf3.
  simpl in Hm, Hw, Hb, Hh, J1, J3.
  assert (ops th !! t = Some o) as Hot by (by rewrite ops_lookup, Ht).
  assert (0 <= rw_nwaitwriters s) by (rewrite Hw; apply nops_nonneg).
  assert (-1 <= rw_refcount s) by (destruct Hh as [[??]|(?&?&?&?)]; lia).
  pose proof (Hb _ _ Hot) as Hbl.
  destruct o as [lk cw|lk cw| | |]; simpl in Hok, Hbl, Hf; try done; subst cw;
    unfold rdlock_resume, rdlock_test, wrlock_resume, wrlock_test in Hf; simpl in Hf;
    revert Hf; in_range; intros Hf; split_test; bool_to_prop; inversion Hf as [? ? ? ? th' Ha| |]; subst; unfold live; simpl.
  - match goal with H : (_ || _)%bool = true |- _ => apply orb_true_iff in H as [?|?] end;
      bool_to_prop; split; try lia.
    intros Hz0 Hp. apply woken_writer_insert; [|auto]. intros ? ?; by simplify_eq.
  - inversion Ha; subst. split; [lia|]. intros _ Hz t' o' Hin.
    apply lookup_delete_Some in Hin as [_ Hin]. apply (J3 ltac:(lia) Hz _ _ Hin).
  - assert (0 < nops is_wr (ops th)) by (apply nops_pos; eauto). split; lia.
  - split; lia.
Qed.

Lemma live_step y y' : inv y -> live y -> sstep no_cond_error y y' -> live y'.
Proof.
  intros Hi Hl Hs. destruct Hs as [c rh wh t o r c' rh' wh' Hok Hroom Hc Hm _].
  inversion Hm; subst; [eapply live_enter; eauto|eapply live_resume; eauto|].
  match goal with H : th !! t = Some _ |- _ => rename H into Ht end.
  destruct Hl as [J1 J3]; unfold live; simpl in *. split.
  - intros Hz0 Hp. apply woken_writer_insert; [|auto]. intros ? ?; by simplify_eq.
  - intros Hz0 Hz t' o' Hin. apply lookup_insert_Some in Hin as [[_ ?]|[_ Hin]]; [done|].
    by apply (J3 Hz0 Hz t' o').
Qed.

Lemma live_reachable y : rtc (sstep no_cond_error) init_sys y -> inv y /\ live y.
Proof.
  apply (rtc_invariant _ (fun y => inv y /\ live y)).
  - intros x z [Hi Hl] Hs. split; [by eapply inv_step|by eapply live_step].
  - split; [apply inv_init|]. split; simpl; [lia|]. intros _ _ t o. by rewrite lookup_empty.
Qed.

(** ** Properties *)

(** C1: Mutual exclusion. Whatever the threads do (including calls whose pthread
    functions fail), as long as a thread unlocks only what it holds, and there are
    fewer than [INT_MAX] read locks and threads inside the functions: the
    implementation never reaches [err_dump], and [rw_refcount] is -1 exactly
    when one thread has the write lock and nobody a read lock, and otherwise
    the number of read locks held, with no writer. *)
Theorem rwlock_exclusion (allowed : op -> Prop) (y : sys) :
  rtc (sstep allowed) init_sys y ->
  dumped (mon y) = false /\
  ((wheld y = [] /\ rw_refcount (shared (mon y)) = Z.of_nat (length (rheld y))) \/
   (exists w, wheld y = [w] /\ rheld y = [] /\ rw_refcount (shared (mon y)) = -1)).
Proof. intros Hr. apply inv_reachable in Hr as (Hd & _ & _ & _ & _ & _ & Hh). done. Qed.

(** C2: No lost wakeup. As long as [pthread_cond_wait], [pthread_cond_signal] and
    [pthread_cond_broadcast] do not fail, a thread unlocks only what it holds and the
    counters do not reach [INT_MAX]: when the lock is free, every blocked thread has a
    thread ahead of it that was unblocked and is about to retest; and whenever readers
    may enter (no writer holds the lock or waits for it) no reader is blocked. *)
Theorem rwlock_no_lost_wakeup (y : sys) :
  rtc (sstep no_cond_error) init_sys y ->
  (rw_refcount (shared (mon y)) = 0 ->
   forall t c o, threads (mon y) !! t = Some (Asleep c o) ->
   exists t' o', threads (mon y) !! t' = Some (Woken o')) /\
  (0 <= rw_refcount (shared (mon y)) -> rw_nwaitwriters (shared (mon y)) = 0 ->
   forall t o, threads (mon y) !! t <> Some (Asleep condreaders o)).
Proof.
  intros Hr. apply live_reachable in Hr as [(_ & _ & _ & Hw & Hb & Ha & _) [J1 J3]].
  split; [|done]. intros H0 t c o Ht.
  destruct (decide (rw_nwaitwriters (shared (mon y)) = 0)) as [Hz|Hz].
  - assert (0 < nops is_wr (ops (threads (mon y))) \/ c = condreaders) as [Hp| ->]; [|lia|].
    { specialize (Hb t o). rewrite ops_lookup, Ht in Hb. specialize (Hb eq_refl).
      rewrite (Ha _ _ _ Ht). unfold cond_of, blocking in *.
      destruct (is_rd o) eqn:Er; [by right|left]. apply nops_pos.
      exists t, o. by rewrite ops_lookup, Ht. }
    exfalso. eapply J3; [lia|done|done].
  - pose proof (nops_nonneg is_wr (ops (threads (mon y)))).
    destruct (J1 H0 ltac:(lia)) as (t' & o' & Ht' & _). eauto.
Qed.

(** At the limit of [int] the next read lock makes the count negative, and the next
    unlock ends in [err_dump]. *)
Example refcount_overflows :
  let rw := set_counts PTHREAD_RWLOCK_INITIALIZER 0 0 INT_MAX in
  exists rw', pthread_rwlock_rdlock None rw = Return rw' None [] /\ rw_refcount rw' = - 2 ^ 31 /\
    pthread_rwlock_unlock None None rw' = Dump.
Proof. eexists. split; [reflexivity|]. by split. Qed.

(** The try functions are the blocking ones with "would block" turned into
    [EBUSY]: same tests, same effects. *)
Theorem rwlock_try_equiv (lk : option errno) (rw : pthread_rwlock_t) :
  pthread_rwlock_tryrdlock lk rw =
    match pthread_rwlock_rdlock lk rw with Wait _ _ => Return rw (Some EBUSY) [] | out => out end /\
  pthread_rwlock_trywrlock lk rw =
    match pthread_rwlock_wrlock lk rw with Wait _ _ => Return rw (Some EBUSY) [] | out => out end.
Proof.
  unfold pthread_rwlock_tryrdlock, pthread_rwlock_rdlock, pthread_rwlock_trywrlock,
    pthread_rwlock_wrlock, rdlock_test, wrlock_test.
  split; destruct (rw_magic rw =? RW_MAGIC), lk; simpl; try done; by destruct (_ : bool).
Qed.

(** In every reachable state [pthread_rwlock_destroy] succeeds exactly when no
    thread holds the lock and none is blocked in one of its functions. *)
Theorem rwlock_destroy_iff_unused (allowed : op -> Prop) (y : sys) :
  rtc (sstep allowed) init_sys y ->
  (pthread_rwlock_destroy (shared (mon y))).2 = None <->
  rheld y = [] /\ wheld y = [] /\ threads (mon y) = ∅.
Proof.
  intros Hr. apply inv_reachable in Hr as (_ & Hm & Hrd & Hwr & Hb & _ & Hh).
  unfold pthread_rwlock_destroy. rewrite Hm, Z.eqb_refl; simpl.
  pose proof (nops_nonneg is_rd (ops (threads (mon y)))).
  pose proof (nops_nonneg is_wr (ops (threads (mon y)))).
  split.
  - intros Hd. split_test; [done|]. bool_to_prop.
    assert (rheld y = [] /\ wheld y = []) as [-> ->].
    { destruct Hh as [[-> Hl]|(w & _ & _ & ?)]; [|lia]. destruct (rheld y); simpl in *; [done|lia]. }
    repeat split; try done. apply map_empty. intros t.
    destruct (threads (mon y) !! t) as [ts|] eqn:Ht; [exfalso|done].
    assert (ops (threads (mon y)) !! t = Some (op_of ts)) as Ho by (by rewrite ops_lookup, Ht).
    specialize (Hb _ _ Ho). apply orb_true_iff in Hb as [Hb|Hb].
    + assert (0 < nops is_rd (ops (threads (mon y)))) by (apply nops_pos; eauto). lia.
    + assert (0 < nops is_wr (ops (threads (mon y)))) by (apply nops_pos; eauto). lia.
  - intros (Hrh & Hwh & Ht). rewrite Ht in Hrd, Hwr. unfold ops in *.
    rewrite fmap_empty, nops_empty in Hrd, Hwr. rewrite Hrd, Hwr.
    destruct Hh as [[_ Hl]|(w & Hw & _)]; [|congruence]. rewrite Hl, Hrh. done.
Qed.

(** ** Runs *)

(** In a concrete state there is room. *)
Ltac roomy := split; vm_compute; reflexivity.

(** A call of a client that is not yet inside; [tac] does its signals. *)
Ltac call t o r tac :=
  eapply rtc_l;
  [ apply (sstep_intro _ _ _ _ t o r);
    [done|roomy|first [done|left; set_solver|right; set_solver]|apply step_enter; [done|simpl; tac]|reflexivity]
  | ].

Definition run_op_rd : op := Rd None None.
Definition run_op_wr : op := Wr None None.

(** Thread 1 reads, thread 2 waits to write. *)
Definition run_state : sys :=
  Sys (Conf (RW true true true RW_MAGIC 0 1 1) {[2%nat := Asleep condwriters run_op_wr]} false) [1%nat] [].

Lemma run_reaches (allowed : op -> Prop) :
  allowed run_op_rd -> allowed run_op_wr -> rtc (sstep allowed) init_sys run_state.
Proof.
  intros Hr Hw.
  call 1%nat run_op_rd (Some (@None errno)) ltac:(apply finish_return, acts_nil).
  call 2%nat run_op_wr (@None (option errno)) ltac:(apply (finish_wait _ _ (RW true true true RW_MAGIC 0 1 1))).
  apply rtc_refl.
Qed.

(** Thread 1 wrote, threads 2 and 3 came to read and to write, thread 1 unlocked:
    the lock is free, the reader is blocked, the writer unblocked. *)
Definition run_freed : sys :=
  Sys (Conf (RW true true true RW_MAGIC 1 1 0)
         {[2%nat := Asleep condreaders run_op_rd; 3%nat := Woken run_op_wr]} false) [] [].

(** The writer has had the lock and unlocked: the reader is unblocked. *)
Definition run_passed_on : sys :=
  Sys (Conf (RW true true true RW_MAGIC 1 0 0) {[2%nat := Woken run_op_rd]} false) [] [].

Lemma run_freed_reachable : rtc (sstep no_cond_error) init_sys run_freed.
Proof.
  call 1%nat run_op_wr (Some (@None errno)) ltac:(apply finish_return, acts_nil).
  call 2%nat run_op_rd (@None (option errno)) ltac:(apply (finish_wait _ _ (RW true true true RW_MAGIC 1 0 (-1)))).
  call 3%nat run_op_wr (@None (option errno)) ltac:(apply (finish_wait _ _ (RW true true true RW_MAGIC 1 1 (-1)))).
  call 1%nat (Unlock None None) (Some (@None errno))
    ltac:(apply finish_return; eapply acts_cons, acts_nil; by apply (signal_one condwriters 3%nat run_op_wr)).
  apply rtc_refl.
Qed.

Lemma run_passed_on_reachable : rtc (sstep no_cond_error) init_sys run_passed_on.
Proof.
  etrans; [apply run_freed_reachable|].
  eapply rtc_l.
  { apply (sstep_intro _ _ _ _ 3%nat run_op_wr (Some None)); [done|roomy|done|..|reflexivity].
    apply step_resume; [done|]. simpl. apply finish_return, acts_nil. }
  call 3%nat (Unlock None None) (Some (@None errno))
    ltac:(apply finish_return; eapply acts_cons, acts_nil; apply broadcast_all).
  apply rtc_refl.
Qed.

Lemma rwlock_exclusion_witness :
  dumped (mon run_state) = false /\
  ((wheld run_state = [] /\ rw_refcount (shared (mon run_state)) = Z.of_nat (length (rheld run_state))) \/
   (exists w, wheld run_state = [w] /\ rheld run_state = [] /\ rw_refcount (shared (mon run_state)) = -1)).
Proof. apply (rwlock_exclusion (fun _ => True)). by apply run_reaches. Defined.

Lemma rwlock_no_lost_wakeup_witness :
  (exists t o, threads (mon run_freed) !! t = Some (Woken o)) /\
  (forall t o, threads (mon run_passed_on) !! t <> Some (Asleep condreaders o)).
Proof.
  split.
  - exact (proj1 (rwlock_no_lost_wakeup run_freed run_freed_reachable) eq_refl 2%nat condreaders run_op_rd eq_refl).
  - exact (proj2 (rwlock_no_lost_wakeup run_passed_on run_passed_on_reachable) ltac:(simpl; lia) eq_refl).
Defined.

Lemma rwlock_destroy_iff_unused_witness :
  (pthread_rwlock_destroy (shared (mon run_state))).2 <> None.
Proof.
  intros H. apply (rwlock_destroy_iff_unused (fun _ => True)) in H as (H & _); [done|].
  by apply run_reaches.
Defined.

End Rwlock.

(** * The variant with cancellation handlers *)
Module RwlockCancel.
Import Rwlock.

(** [pthread_rwlock_init], [pthread_rwlock_destroy] and [pthread_rwlock_trywrlock]
    of this directory are the same text as those of [my_rwlock]. *)
Definition pthread_rwlock_init := Rwlock.pthread_rwlock_init.
Definition Pthread_rwlock_init := Rwlock.Pthread_rwlock_init.
Definition pthread_rwlock_destroy := Rwlock.pthread_rwlock_destroy.
Definition Pthread_rwlock_destroy := Rwlock.Pthread_rwlock_destroy.
Definition pthread_rwlock_trywrlock := Rwlock.pthread_rwlock_trywrlock.
Definition Pthread_rwlock_trywrlock := Rwlock.Pthread_rwlock_trywrlock.

(** The handlers run with the mutex held when a thread is cancelled inside
    [pthread_cond_wait]. *)
Definition rwlock_cancelrdwait (rw : pthread_rwlock_t) : pthread_rwlock_t :=
  set_counts rw (int_dec (rw_nwaitreaders rw)) (rw_nwaitwriters rw) (rw_refcount rw).

Definition rwlock_cancelwrwait (rw : pthread_rwlock_t) : pthread_rwlock_t :=
  set_counts rw (rw_nwaitreaders rw) (int_dec (rw_nwaitwriters rw)) (rw_refcount rw).

(** The loop of [pthread_rwlock_rdlock] from its test on; [result] is the value
    of that variable, which the return statement ignores. *)
Definition rdlock_test (result : option errno) (rw : pthread_rwlock_t) : outc :=
  if (rw_refcount rw <? 0) || (rw_nwaitwriters rw >? 0) then
    Wait (set_counts rw (int_inc (rw_nwaitreaders rw)) (rw_nwaitwriters rw) (rw_refcount rw)) condreaders
  else
    match result with
    | None => Return (set_counts rw (rw_nwaitreaders rw) (rw_nwaitwriters rw)
                        (int_inc (rw_refcount rw))) None []
    | Some _ => Return rw None []
    end.

Definition pthread_rwlock_rdlock (lk : option errno) (rw : pthread_rwlock_t) : outc :=
  if negb (rw_magic rw =? RW_MAGIC) then Return rw (Some EINVAL) []
  else match lk with
       | Some e => Return rw (Some e) []
       | None => rdlock_test None rw
       end.

Definition rdlock_resume (cw : option errno) (rw : pthread_rwlock_t) : outc :=
  let rw' := set_counts rw (int_dec (rw_nwaitreaders rw)) (rw_nwaitwriters rw) (rw_refcount rw) in
  match cw with
  | Some _ => Return rw' None []
  | None => rdlock_test None rw'
  end.

(** [pthread_rwlock_tryrdlock] tests [rw_refcount == -1]. *)
Definition pthread_rwlock_tryrdlock (lk : option errno) (rw : pthread_rwlock_t) : outc :=
  if negb (rw_magic rw =? RW_MAGIC) then Return rw (Some EINVAL) []
  else match lk with
       | Some e => Return rw (Some e) []
       | None =>
         if (rw_refcount rw =? -1) || (rw_nwaitwriters rw >? 0) then Return rw (Some EBUSY) []
         else Return (set_counts rw (rw_nwaitreaders rw) (rw_nwaitwriters rw)
                        (int_inc (rw_refcount rw))) None []
       end.

Definition wrlock_test (result : option errno) (rw : pthread_rwlock_t) : outc :=
  if negb (rw_refcount rw =? 0) then
    Wait (set_counts rw (rw_nwaitreaders rw) (int_inc (rw_nwaitwriters rw)) (rw_refcount rw)) condwriters
  else
    match result with
    | None => Return (set_counts rw (rw_nwaitreaders rw) (rw_nwaitwriters rw) (-1)) None []
    | Some _ => Return rw None []
    end.

(** [pthread_rwlock_wrlock] compares what [pthread_mutex_lock] returned (0 or a
    positive error number) with -1, so a failure is not noticed here. *)
Definition pthread_rwlock_wrlock (lk : option errno) (rw : pthread_rwlock_t) : outc :=
  if negb (rw_magic rw =? RW_MAGIC) then Return rw (Some EINVAL) []
  else wrlock_test lk rw.

Definition wrlock_resume (cw : option errno) (rw : pthread_rwlock_t) : outc :=
  let rw' := set_counts rw (rw_nwaitreaders rw) (int_dec (rw_nwaitwriters rw)) (rw_refcount rw) in
  match cw with
  | Some _ => Return rw' None []
  | None => wrlock_test None rw'
  end.

(** Here the unlock signals a waiting writer whatever the reference count is. *)
Definition unlock_wakeup (sg : option errno) (rw : pthread_rwlock_t) : outc :=
  if rw_nwaitwriters rw >? 0 then Return rw sg (delivered sg (Signal condwriters))
  else if rw_nwaitreaders rw >? 0 then Return rw sg (delivered sg (Broadcast condreaders))
  else Return rw None [].

Definition pthread_rwlock_unlock (lk sg : option errno) (rw : pthread_rwlock_t) : outc :=
  if negb (rw_magic rw =? RW_MAGIC) then Return rw (Some EINVAL) []
  else match lk with
       | Some e => Return rw (Some e) []
       | None =>
         if rw_refcount rw >? 0 then
           unlock_wakeup sg (set_counts rw (rw_nwaitreaders rw) (rw_nwaitwriters rw)
                               (int_dec (rw_refcount rw)))
         else if rw_refcount rw =? -1 then
           unlock_wakeup sg (set_counts rw (rw_nwaitreaders rw) (rw_nwaitwriters rw) 0)
         else Dump
       end.

Definition Pthread_rwlock_rdlock lk rw := outcome_map err_sys_unless_0 (pthread_rwlock_rdlock lk rw).
Definition Pthread_rwlock_wrlock lk rw := outcome_map err_sys_unless_0 (pthread_rwlock_wrlock lk rw).
Definition Pthread_rwlock_tryrdlock lk rw :=
  outcome_map err_sys_unless_0 (pthread_rwlock_tryrdlock lk rw).
Definition Pthread_rwlock_unlock lk sg rw :=
  outcome_map err_sys_unless_0 (pthread_rwlock_unlock lk sg rw).

Definition enter (o : op) : pthread_rwlock_t -> outc :=
  match o with
  | Rd lk _ => pthread_rwlock_rdlock lk
  | Wr lk _ => pthread_rwlock_wrlock lk
  | TryRd lk => pthread_rwlock_tryrdlock lk
  | TryWr lk => pthread_rwlock_trywrlock lk
  | Unlock lk sg => pthread_rwlock_unlock lk sg
  end.

Definition resume (o : op) : pthread_rwlock_t -> outc :=
  match o with
  | Rd _ cw => rdlock_resume cw
  | Wr _ cw => wrlock_resume cw
  | _ => fun _ => Dump
  end.

Definition cancel (o : op) (rw : pthread_rwlock_t) : pthread_rwlock_t :=
  if is_rd o then rwlock_cancelrdwait rw else rwlock_cancelwrwait rw.

(** Threads sharing such a lock: the steps of [Rwlock], and the cancellation of a
    thread that is inside [pthread_cond_wait], blocked or already unblocked and
    waiting for the mutex. *)
Inductive cstep (allowed : op -> Prop) : sys -> sys -> Prop :=
| cstep_call c rh wh t o r c' rh' wh' :
    allowed o ->
    room (Sys c rh wh) ->
    may_call t o rh wh ->
    mstep enter resume c (t, o, r) c' ->
    ledger t o r (rh, wh) = (rh', wh') ->
    cstep allowed (Sys c rh wh) (Sys c' rh' wh')
| cstep_cancel s th rh wh t ts :
    room (Sys (Conf s th false) rh wh) ->
    th !! t = Some ts ->
    cstep allowed (Sys (Conf s th false) rh wh)
                  (Sys (Conf (cancel (op_of ts) s) (delete t th) false) rh wh).

(** Clients whose mutex and condition variable calls do not fail. *)
Definition no_pthread_error (o : op) : Prop :=
  match o with
  | Rd lk cw | Wr lk cw => lk = None /\ cw = None
  | TryRd lk | TryWr lk | Unlock lk _ => lk = None
  end.

(** Without such failures each section has the effect of the corresponding one
    of [Rwlock]; only the signals of [unlock] differ. *)
Lemma cancel_enter_post t o s rh wh :
  rw_magic s = RW_MAGIC -> fits s -> held_ok (rw_refcount s) rh wh -> may_call t o rh wh ->
  no_pthread_error o -> enter_post t o s rh wh (enter o s).
Proof.
  intros Hm Hfit Hh Hc Hn. pose proof (enter_spec t o s rh wh Hm Hfit Hh Hc) as Hs.
  destruct o as [lk cw|lk cw|lk|lk|lk sg]; simpl in Hn; destruct_and?; subst; try exact Hs.
  - revert Hs. simpl. unfold pthread_rwlock_tryrdlock, Rwlock.pthread_rwlock_tryrdlock.
    rewrite Hm, Z.eqb_refl. simpl.
    replace (rw_refcount s =? -1) with (rw_refcount s <? 0); [done|].
    destruct Hh as [[_ ->]|(_ & _ & _ & ->)]; [|done].
    destruct (Z.of_nat _ <? 0) eqn:E1, (Z.of_nat _ =? -1) eqn:E2; bool_to_prop; lia || done.
  - revert Hs. simpl. unfold pthread_rwlock_unlock, Rwlock.pthread_rwlock_unlock.
    rewrite Hm, Z.eqb_refl. simpl. unfold unlock_wakeup, Rwlock.unlock_wakeup. simpl.
    destruct (rw_refcount s >? 0), (rw_refcount s =? -1), (rw_nwaitwriters s >? 0); simpl;
      try done; try (by destruct (int_dec (rw_refcount s) =? 0)).
    all: destruct (int_dec (rw_refcount s) =? 0); simpl; try done; by destruct sg.
Qed.

Lemma cancel_resume_post t o s rh wh :
  rw_magic s = RW_MAGIC -> fits s -> held_ok (rw_refcount s) rh wh -> blocking o = true ->
  no_pthread_error o -> resume_post t o s rh wh (resume o s).
Proof.
  intros Hm Hfit Hh Hb Hn. pose proof (resume_spec t o s rh wh Hm Hfit Hh Hb) as Hs.
  destruct o as [lk cw|lk cw|lk|lk|lk sg]; simpl in Hn; destruct_and?; subst; exact Hs.
Qed.

Lemma cancel_inv_step y y' : inv y -> cstep no_pthread_error y y' -> inv y'.
Proof.
  intros Hi Hs. assert (fits (shared (mon y))) as Hfit by (apply inv_fits; [done|by destruct Hs]).
  pose proof Hi as (_ & Hmag & Hr & Hw & Hb & Ha & Hh).
  destruct Hs as [c rh wh t o r c' rh' wh' Hok Hroom Hc Hm Hl|s th rh wh t ts Hroom Ht]; simpl in *.
  - inversion Hm as [? th ? ? ? ? Ht Hf|? th ? ? ? ? Ht Hf|]; subst.
    { eapply inv_enter; eauto using cancel_enter_post. }
    { eapply inv_resume; eauto. eapply cancel_resume_post; eauto. apply (Hb t).
      rewrite ops_lookup. simpl. by rewrite Ht. }
    eapply (Rwlock.inv_step (fun _ => True)); [exact Hi|].
    apply (Rwlock.sstep_intro (fun _ => True) _ _ _ t o None); try done. by eapply step_spurious.
  - assert (ops th !! t = Some (op_of ts)) as Ho by (by rewrite ops_lookup, Ht).
    specialize (Hb _ _ Ho) as Hbl. unfold inv; simpl.
    rewrite ops_delete, !(nops_delete _ _ t (op_of ts)) by done.
    unfold fits in Hfit. unfold cancel, rwlock_cancelrdwait, rwlock_cancelwrwait, blocking in *.
    destruct (op_of ts); try done; simpl; in_range; repeat split; try done; try lia.
    all: try (intros t' o' Hin; apply lookup_delete_Some in Hin as [_ Hin]; eauto).
    all: intros t' c' o' Hin; apply lookup_delete_Some in Hin as [_ Hin]; eauto.
Qed.

(** C3: The cancellation handlers keep the bookkeeping exact: from a fresh lock,
    under any interleaving of calls and cancellations in which the mutex and the
    waits do not fail, threads unlock only what they hold and the counters do not
    reach [INT_MAX], exclusion holds, nothing aborts, and the two waiting counters
    are the numbers of threads inside [rdlock] and [wrlock]. *)
Theorem rwlock_cancel_invariant (y : sys) :
  rtc (cstep no_pthread_error) init_sys y ->
  dumped (mon y) = false /\
  rw_nwaitreaders (shared (mon y)) = nops is_rd (ops (threads (mon y))) /\
  rw_nwaitwriters (shared (mon y)) = nops is_wr (ops (threads (mon y))) /\
  ((wheld y = [] /\ rw_refcount (shared (mon y)) = Z.of_nat (length (rheld y))) \/
   (exists w, wheld y = [w] /\ rheld y = [] /\ rw_refcount (shared (mon y)) = -1)).
Proof.
  intros Hr. assert (inv y) as (Hd & _ & H1 & H2 & _ & _ & Hh); [|done].
  eapply rtc_invariant; [|apply inv_init|exact Hr]. intros; by eapply cancel_inv_step.
Qed.

(** A failed wait is reported as a success: when [pthread_cond_wait] returns an
    error, [rdlock] and [wrlock] return 0 without having taken the lock; and
    [wrlock] also returns 0 without the lock when [pthread_mutex_lock] fails
    on a free lock. *)
Theorem rwlock_cancel_false_success (e : errno) (rw : pthread_rwlock_t) :
  (exists rw', resume (Rd None (Some e)) rw = Return rw' None [] /\ rw_refcount rw' = rw_refcount rw) /\
  (exists rw', resume (Wr None (Some e)) rw = Return rw' None [] /\ rw_refcount rw' = rw_refcount rw) /\
  pthread_rwlock_wrlock (Some e) PTHREAD_RWLOCK_INITIALIZER =
    Return PTHREAD_RWLOCK_INITIALIZER None [].
Proof. repeat split; eexists; split; reflexivity. Qed.

(** ** The run that strands a reader

    Thread 1 reads, thread 2 waits to write, thread 3 waits to read behind it;
    thread 1 unlocks, which unblocks thread 2; thread 2 is cancelled before it
    gets the mutex. *)
Definition stranded : sys :=
  Sys (Conf (RW true true true RW_MAGIC 1 0 0) {[3%nat := Asleep condreaders (Rd None None)]} false) [] [].

Lemma stranded_reachable : rtc (cstep no_pthread_error) init_sys stranded.
Proof.
  eapply rtc_l.
  { apply (cstep_call _ _ _ _ 1%nat (Rd None None) (Some None)); [done|roomy|done|..|reflexivity].
    apply step_enter; [done|]. simpl. apply finish_return, acts_nil. }
  eapply rtc_l.
  { apply (cstep_call _ _ _ _ 2%nat (Wr None None) None); [done|roomy|done|..|reflexivity].
    apply step_enter; [done|]. simpl. apply (finish_wait _ _ (RW true true true RW_MAGIC 0 1 1)). }
  eapply rtc_l.
  { apply (cstep_call _ _ _ _ 3%nat (Rd None None) None); [done|roomy|done|..|reflexivity].
    apply step_enter; [done|]. simpl. apply (finish_wait _ _ (RW true true true RW_MAGIC 1 1 1)). }
  eapply rtc_l.
  { apply (cstep_call _ _ _ _ 1%nat (Unlock None None) (Some None)); [done|roomy|left; set_solver|..|].
    - apply step_enter; [done|]. simpl. apply finish_return.
      eapply acts_cons, acts_nil. apply (signal_one condwriters 2%nat (Wr None None)). done.
    - reflexivity. }
  eapply rtc_l; [apply (cstep_cancel _ _ _ _ _ 2%nat (Woken (Wr None None))); [roomy|done]|].
  apply rtc_refl.
Qed.

(** Cancelling an unblocked writer strands the readers behind it: a state is
    reachable in which nobody holds the lock and no writer waits, but a reader
    is blocked and no thread has been unblocked. *)
Theorem rwlock_cancel_strands_reader :
  exists y, rtc (cstep no_pthread_error) init_sys y /\
    rheld y = [] /\ wheld y = [] /\
    rw_refcount (shared (mon y)) = 0 /\ rw_nwaitwriters (shared (mon y)) = 0 /\
    threads (mon y) !! 3%nat = Some (Asleep condreaders (Rd None None)) /\
    (forall t o, threads (mon y) !! t <> Some (Woken o)).
Proof.
  exists stranded. split; [apply stranded_reachable|]. repeat split; try done.
  intros t o. simpl. destruct (decide (t = 3%nat)) as [->|]; by simplify_map_eq.
Qed.

Lemma rwlock_cancel_invariant_witness :
  rw_nwaitreaders (shared (mon stranded)) = nops is_rd (ops (threads (mon stranded))).
Proof. apply (rwlock_cancel_invariant stranded), stranded_reachable. Defined.

End RwlockCancel.
