(* ===== verification/MySem.v ===== *)
(** * The three semaphore implementations of [unixipc]

    [SemMmap] is [my_pxsem_mmap] (a counter in mapped memory with a mutex and a
    condition variable), [SemFifo] is [my_pxsem_fifo] (one byte in a FIFO per
    unit) and [SemSvsem] is [my_pxsem_svsem] (a System V semaphore set of one).
    [Semaphore] is the interface a client of [mysem_wait] and [mysem_post]
    relies on; the three modules discharge it. *)
From S2P Require Import Prelude Monitor.

(** ** The interface

    [sem_val] is the value of the semaphore, [sem_ok] what its functions need
    of it, [sem_max] the largest value it can take.  A wait returns 0 and takes
    a unit exactly when the value is positive, and otherwise blocks with the
    value unchanged; a post below the maximum returns 0 and adds a unit. *)
Class Semaphore (T C : Type) := {
  sem_wait : T -> outcome T (cres unit) C;
  sem_post : T -> outcome T (cres unit) C;
  sem_val : T -> Z;
  sem_ok : T -> Prop;
  sem_max : Z;
  sem_val_nonneg : forall s, sem_ok s -> 0 <= sem_val s <= sem_max;
  sem_wait_law : forall s, sem_ok s ->
    match sem_wait s with
    | Return s' r acts => 0 < sem_val s /\ r = Ok tt /\ sem_ok s' /\ sem_val s' = sem_val s - 1
    | Wait s' c => sem_val s = 0 /\ sem_ok s' /\ sem_val s' = 0
    | Dump => False
    end;
  sem_post_law : forall s, sem_ok s -> sem_val s < sem_max ->
    exists s' acts, sem_post s = Return s' (Ok tt) acts /\ sem_ok s' /\ sem_val s' = sem_val s + 1
}.

Module SemMmap.

(** [mysem_t]: the mutex and the condition variable are the monitor's. *)
Record mysem_t := Sem { sem_count : Z; sem_magic : Z }.

Definition SEM_MAGIC : Z := 0x67458923.

Inductive cond := sem_cond.

#[export] Instance cond_eq_dec : EqDecision cond.
Proof. solve_decision. Defined.

Abbreviation outc := (outcome mysem_t (cres unit) cond).

Definition with_count (sem : mysem_t) (n : Z) : mysem_t := Sem n (sem_magic sem).

(** [sem_count] is an [unsigned int]; [lk] is what [pthread_mutex_lock] returns. *)
Definition mysem_post (lk : option errno) (sem : mysem_t) : outc :=
  if negb (sem_magic sem =? SEM_MAGIC) then Return sem (Err EINVAL) []
  else match lk with
       | Some e => Return sem (Err e) []
       | None =>
         Return (with_count sem (u32 (sem_count sem + 1))) (Ok tt)
                (if sem_count sem =? 0 then [Signal sem_cond] else [])
       end.

(** The loop of [mysem_wait] from its test on; the wait's own result is ignored
    by the code, so this is also what runs when a wait returns. *)
Definition wait_test (sem : mysem_t) : outc :=
  if sem_count sem =? 0 then Wait sem sem_cond
  else Return (with_count sem (u32 (sem_count sem - 1))) (Ok tt) [].

Definition mysem_wait (lk : option errno) (sem : mysem_t) : outc :=
  if negb (sem_magic sem =? SEM_MAGIC) then Return sem (Err EINVAL) []
  else match lk with
       | Some e => Return sem (Err e) []
       | None => wait_test sem
       end.

Definition mysem_trywait (lk : option errno) (sem : mysem_t) : outc :=
  if negb (sem_magic sem =? SEM_MAGIC) then Return sem (Err EINVAL) []
  else match lk with
       | Some e => Return sem (Err e) []
       | None =>
         if sem_count sem >? 0 then Return (with_count sem (u32 (sem_count sem - 1))) (Ok tt) []
         else Return sem (Err EAGAIN) []
       end.

(** [*pvalue = sem->sem_count] converts to [int]. *)
Definition mysem_getvalue (lk : option errno) (sem : mysem_t) : cres Z :=
  if negb (sem_magic sem =? SEM_MAGIC) then Err EINVAL
  else match lk with
       | Some e => Err e
       | None => Ok (s32 (sem_count sem))
       end.

(** [unm] is the result of [munmap]. *)
Definition mysem_close (unm : option errno) (sem : mysem_t) : cres unit :=
  if negb (sem_magic sem =? SEM_MAGIC) then Err EINVAL
  else match unm with
       | Some e => Err e
       | None => Ok tt
       end.

(** [ul] is the result of [unlink]. *)
Definition mysem_unlink (ul : option errno) : cres unit :=
  match ul with Some e => Err e | None => Ok tt end.

Definition err_sys_on_err {A} (r : cres A) : wrapped A :=
  match r with Ok a => Going a | Err e => ErrSys e end.

Definition Mysem_post lk sem := outcome_map err_sys_on_err (mysem_post lk sem).
Definition Mysem_wait lk sem := outcome_map err_sys_on_err (mysem_wait lk sem).
Definition Mysem_getvalue lk sem := err_sys_on_err (mysem_getvalue lk sem).
Definition Mysem_close unm sem := err_sys_on_err (mysem_close unm sem).
Definition Mysem_unlink ul := err_sys_on_err (mysem_unlink ul).

(** [Mysem_trywait] lets [EAGAIN] through. *)
Definition trywait_result (r : cres unit) : wrapped (cres unit) :=
  match r with
  | Err EAGAIN => Going (Err EAGAIN)
  | Err e => ErrSys e
  | Ok a => Going (Ok a)
  end.
Definition Mysem_trywait lk sem := outcome_map trywait_result (mysem_trywait lk sem).

(** An open semaphore with a value in the type's range. *)
Definition ok (sem : mysem_t) : Prop :=
  sem_magic sem = SEM_MAGIC /\ 0 <= sem_count sem < 2 ^ 32.

Lemma post_ok s : ok s -> sem_count s < 2 ^ 32 - 1 ->
  mysem_post None s = Return (with_count s (sem_count s + 1)) (Ok tt)
                             (if sem_count s =? 0 then [Signal sem_cond] else []).
Proof.
  intros [Hm Hc] Hl. unfold mysem_post. rewrite Hm, Z.eqb_refl. simpl.
  by rewrite uwrap_small by lia.
Qed.

Lemma wait_test_ok s : ok s ->
  wait_test s = if sem_count s =? 0 then Wait s sem_cond
                else Return (with_count s (sem_count s - 1)) (Ok tt) [].
Proof.
  intros [_ Hc]. unfold wait_test. destruct (sem_count s =? 0) eqn:E; bool_to_prop; [done|].
  by rewrite uwrap_small by lia.
Qed.

Lemma ok_with_count s n : ok s -> 0 <= n < 2 ^ 32 -> ok (with_count s n).
Proof. by intros [Hm _] Hn. Qed.

#[export] Program Instance semaphore : Semaphore mysem_t cond := {|
  sem_wait := mysem_wait None;
  sem_post := mysem_post None;
  sem_val := sem_count;
  sem_ok := ok;
  sem_max := 2 ^ 32 - 1
|}.
Next Obligation. intros s [_ Hc]. lia. Qed.
Next Obligation.
  intros s Hs. destruct Hs as [Hm Hc] eqn:Eok. unfold mysem_wait. rewrite Hm, Z.eqb_refl. simpl.
  rewrite wait_test_ok by done. destruct (sem_count s =? 0) eqn:E; bool_to_prop; [done|].
  repeat split; simpl; try done; lia.
Qed.
Next Obligation.
  intros s Hs Hlt. rewrite post_ok by (done || lia). eexists _, _. split; [done|].
  split; [|done]. apply ok_with_count; [done|]. destruct Hs. lia.
Qed.

(** ** Threads sharing the semaphore *)
Inductive op := OpWait | OpPost | OpTrywait.

Definition enter (o : op) : mysem_t -> outc :=
  match o with
  | OpWait => mysem_wait None
  | OpPost => mysem_post None
  | OpTrywait => mysem_trywait None
  end.

Definition resume (o : op) : mysem_t -> outc :=
  match o with OpWait => wait_test | _ => fun _ => Dump end.

(** The history of a run: how many units were taken and given. *)
Record hist := Hist { mon : conf mysem_t op cond; taken : Z; given : Z }.

Inductive hstep : hist -> hist -> Prop :=
| hstep_intro c n g t o r c' :
    sem_count (shared c) < 2 ^ 32 - 1 ->
    mstep enter resume c (t, o, r) c' ->
    hstep (Hist c n g)
      (Hist c' (match o, r with OpWait, Some (Ok _) | OpTrywait, Some (Ok _) => n + 1 | _, _ => n end)
               (match o, r with OpPost, Some (Ok _) => g + 1 | _, _ => g end)).

Definition init_hist (v : Z) : hist := Hist (Conf (Sem v SEM_MAGIC) ∅ false) 0 0.

Definition hinv (v : Z) (h : hist) : Prop :=
  dumped (mon h) = false /\ ok (shared (mon h)) /\
  sem_count (shared (mon h)) = v + given h - taken h /\
  (forall t ts, threads (mon h) !! t = Some ts -> op_of ts = OpWait).

Lemma finish_threads t o out th r c' (P : op -> Prop) :
  @finish mysem_t op (cres unit) cond _ t o out th r c' ->
  (forall t ts, th !! t = Some ts -> P (op_of ts)) ->
  (forall s c, out = Wait s c -> P o) ->
  forall t' ts, threads c' !! t' = Some ts -> P (op_of ts).
Proof.
  intros Hf Hth Hw t' ts Ht'.
  assert (ops (threads c') !! t' = Some (op_of ts)) as Ho by (by rewrite ops_lookup, Ht').
  assert (forall t o, ops th !! t = Some o -> P o) as Hops.
  { intros i o' Hi. rewrite ops_lookup in Hi. destruct (th !! i) eqn:E; simplify_eq/=. eauto. }
  pose proof (finish_ops _ _ _ _ _ _ Hf) as Hspec.
  destruct Hf as [s r' acts th0 th' Ha|s c th0|]; simpl in *; [..|eauto].
  - destruct Hspec as [_ Hspec]. rewrite Hspec in Ho. apply lookup_delete_Some in Ho as [_ Ho]. eauto.
  - destruct Hspec as [_ Hspec]. rewrite Hspec in Ho.
    apply lookup_insert_Some in Ho as [[_ <-]|[_ Ho]]; eauto.
Qed.

Lemma hinv_step v h h' : hinv v h -> hstep h h' -> hinv v h'.
Proof.
  intros (Hd & Hok & Hc & Hth) Hs. destruct Hs as [c n g t o r c' Hlt Hm]. simpl in *.
  pose proof Hok as [Hmag Hrg].
  inversion Hm as [s th t0 o0 r0 c0 Ht Hf|s th t0 o0 r0 c0 Ht Hf|s th t0 cc o0 Ht]; subst; simpl in *.
  3: { assert (o = OpWait) as -> by (by apply Hth in Ht).
       unfold hinv; simpl. split_and!; try done. intros t' ts Hin.
       apply lookup_insert_Some in Hin as [[_ <-]|[_ Hin]]; [done|eauto]. }
  - pose proof (finish_threads _ _ _ _ _ _ (eq OpWait) Hf) as Hfin.
    assert (forall t' ts, threads c' !! t' = Some ts -> op_of ts = OpWait) as Hth'.
    { intros t' ts Hin. symmetry. eapply Hfin; [|..|exact Hin].
      - intros ? ? ?. symmetry. eauto.
      - intros s' c'' E. destruct o; simpl in E; [done|..]; unfold mysem_post, mysem_trywait in E;
          rewrite Hmag, Z.eqb_refl in E; simpl in E; by split_tests. }
    clear Hfin. destruct o; simpl in Hf.
    + unfold mysem_wait in Hf. rewrite Hmag, Z.eqb_refl in Hf. simpl in Hf.
      rewrite wait_test_ok in Hf by done.
      split_test; bool_to_prop; inversion Hf; subst; simpl in *; repeat split; simpl; try done; lia.
    + rewrite post_ok in Hf by (done || lia).
      inversion Hf; subst; simpl in *; repeat split; simpl; try done; lia.
    + unfold mysem_trywait in Hf. rewrite Hmag, Z.eqb_refl in Hf. simpl in Hf.
      split_test; bool_to_prop; inversion Hf; subst; simpl in *; repeat split; simpl; try done;
        rewrite ?uwrap_small by lia; lia.
  - assert (o = OpWait) as -> by (by apply Hth in Ht).
    pose proof (finish_threads _ _ _ _ _ _ (eq OpWait) Hf) as Hfin.
    assert (forall t' ts, threads c' !! t' = Some ts -> op_of ts = OpWait) as Hth'.
    { intros t' ts Hin. symmetry. eapply Hfin; [|done|exact Hin]. intros ? ? ?. symmetry. eauto. }
    simpl in Hf. rewrite wait_test_ok in Hf by done.
    split_test; bool_to_prop; inversion Hf; subst; simpl in *; repeat split; simpl; try done; lia.
Qed.

(** The value accounts for every unit: in every run that starts at [v] and never
    reaches [UINT_MAX], the value is [v] plus the posts minus the successful
    waits (so it never goes negative), and nothing aborts. *)
Theorem sem_mmap_conservation (v : Z) (h : hist) :
  0 <= v < 2 ^ 32 -> rtc hstep (init_hist v) h ->
  dumped (mon h) = false /\ sem_count (shared (mon h)) = v + given h - taken h /\
  0 <= sem_count (shared (mon h)).
Proof.
  intros Hv Hr. assert (hinv v h) as (? & [_ ?] & ? & _); [|repeat split; try done; lia].
  eapply rtc_invariant; [|..|exact Hr]; [intros; by eapply hinv_step|].
  unfold hinv, ok; simpl. split_and!; try done; lia.
Qed.

Lemma sem_mmap_conservation_witness :
  exists h, rtc hstep (init_hist 1) h /\ sem_count (shared (mon h)) = 0.
Proof.
  eexists. split.
  - eapply rtc_l; [|apply rtc_refl].
    eapply (hstep_intro _ _ _ 1%nat OpWait (Some (Ok tt))); [done|].
    apply step_enter; [done|]. simpl. apply finish_return, acts_nil.
  - edestruct (sem_mmap_conservation 1) as (_ & E & _); [lia| |rewrite E; reflexivity].
    eapply rtc_l; [|apply rtc_refl].
    eapply (hstep_intro _ _ _ 1%nat OpWait (Some (Ok tt))); [done|].
    apply step_enter; [done|]. simpl. apply finish_return, acts_nil.
Defined.

(** ** The run that loses a wakeup

    Threads 1 and 2 wait on a semaphore of value 0.  Thread 3 posts twice: the
    first post finds 0 and signals, the second finds 1 and does not. *)
Definition sleepy : hist :=
  Hist (Conf (Sem 1 SEM_MAGIC) {[2%nat := Asleep sem_cond OpWait]} false) 1 2.

Lemma sleepy_reachable : rtc hstep (init_hist 0) sleepy.
Proof.
  eapply rtc_l.
  { apply (hstep_intro _ _ _ 1%nat OpWait None); [done|].
    apply step_enter; [done|]. apply (finish_wait _ _ (Sem 0 SEM_MAGIC)). }
  eapply rtc_l.
  { apply (hstep_intro _ _ _ 2%nat OpWait None); [done|].
    apply step_enter; [done|]. apply (finish_wait _ _ (Sem 0 SEM_MAGIC)). }
  eapply rtc_l.
  { apply (hstep_intro _ _ _ 3%nat OpPost (Some (Ok tt))); [done|].
    apply step_enter; [done|]. apply (finish_return _ _ (Sem 1 SEM_MAGIC)).
    eapply acts_cons, acts_nil. by apply (signal_one sem_cond 1%nat OpWait). }
  eapply rtc_l.
  { apply (hstep_intro _ _ _ 3%nat OpPost (Some (Ok tt))); [done|].
    apply step_enter; [done|]. apply (finish_return _ _ (Sem 2 SEM_MAGIC)), acts_nil. }
  eapply rtc_l; [|apply rtc_refl].
  apply (hstep_intro _ 0 2 1%nat OpWait (Some (Ok tt))); [done|].
  apply step_resume; [done|]. apply (finish_return _ _ (Sem 1 SEM_MAGIC)), acts_nil.
Qed.

(** A wakeup can be lost: from a semaphore of value 0 a state is reachable whose
    value is positive while a thread is blocked in [mysem_wait] and no thread
    has been unblocked; [mysem_post] signals only when it finds the value 0, so
    no later post unblocks that thread either until other threads bring the
    value back to 0. *)
Theorem sem_mmap_lost_wakeup :
  exists h, rtc hstep (init_hist 0) h /\
    0 < sem_count (shared (mon h)) /\
    threads (mon h) !! 2%nat = Some (Asleep sem_cond OpWait) /\
    (forall t o, threads (mon h) !! t <> Some (Woken o)) /\
    (forall s, mysem_post None (shared (mon h)) = s ->
       match s with Return _ _ acts => acts = [] | _ => False end).
Proof.
  exists sleepy. split; [apply sleepy_reachable|]. split_and!; [done|done|..].
  - intros t o. simpl. destruct (decide (t = 2%nat)) as [->|]; by simplify_map_eq.
  - by intros s <-.
Qed.

(** [mysem_trywait] is [mysem_wait] with "would block" turned into [EAGAIN],
    and neither changes a semaphore it fails on. *)
Theorem sem_mmap_trywait_equiv (lk : option errno) (sem : mysem_t) :
  0 <= sem_count sem ->
  mysem_trywait lk sem =
    match mysem_wait lk sem with Wait _ _ => Return sem (Err EAGAIN) [] | out => out end.
Proof.
  intros Hc. unfold mysem_trywait, mysem_wait, wait_test.
  destruct (sem_magic sem =? SEM_MAGIC), lk; simpl; try done.
  destruct (sem_count sem >? 0) eqn:E1, (sem_count sem =? 0) eqn:E2; bool_to_prop; done || lia.
Qed.

Lemma sem_mmap_trywait_equiv_witness :
  mysem_trywait None (Sem 0 SEM_MAGIC) = Return (Sem 0 SEM_MAGIC) (Err EAGAIN) [].
Proof. rewrite (sem_mmap_trywait_equiv None (Sem 0 SEM_MAGIC)) by (simpl; lia). reflexivity. Defined.

(** Width: a post at [UINT_MAX] succeeds and leaves the value 0 (no
    [EOVERFLOW] check), and [mysem_getvalue] reports the value only up to
    [INT_MAX]; above it the caller sees a negative number. *)
Theorem sem_mmap_width (sem : mysem_t) :
  ok sem ->
  (sem_count sem = 2 ^ 32 - 1 ->
   mysem_post None sem = Return (with_count sem 0) (Ok tt) []) /\
  mysem_getvalue None sem =
    Ok (if sem_count sem <? 2 ^ 31 then sem_count sem else sem_count sem - 2 ^ 32).
Proof.
  intros [Hm Hc]. split.
  - intros E. unfold mysem_post. rewrite Hm, Z.eqb_refl, E. done.
  - unfold mysem_getvalue. rewrite Hm, Z.eqb_refl. cbn [negb]. f_equal.
    destruct (sem_count sem <? 2 ^ 31) eqn:E; bool_to_prop.
    + apply swrap_small; lia.
    + unfold swrap. rewrite <- (Z_mod_plus_full _ (-1)), Z.mod_small; lia.
Qed.

Lemma sem_mmap_width_witness :
  ok (Sem (2 ^ 32 - 1) SEM_MAGIC) /\ mysem_getvalue None (Sem (2 ^ 32 - 1) SEM_MAGIC) = Ok (-1).
Proof.
  assert (ok (Sem (2 ^ 32 - 1) SEM_MAGIC)) as H by (split; simpl; lia).
  split; [exact H|]. rewrite (proj2 (sem_mmap_width _ H)). reflexivity.
Defined.

End SemMmap.

Module SemFifo.

(** [mysem_t]: the two descriptors of the FIFO, [0] for reading (blocking), [1] for
    writing (non-blocking). *)
Record mysem_t := Sem { sem_fd0 : Z; sem_fd1 : Z; sem_magic : Z }.

Definition SEM_MAGIC : Z := 0x89674523.

(** The kernel's FIFO: the bytes in it and its capacity.  [write] of one byte on
    the non-blocking end fails with [EAGAIN] when it is full; [read] of one byte
    blocks while it is empty (the process holds the write end, so there is no
    end of file). *)
Record fifo := Fifo { fifo_bytes : Z; fifo_cap : Z }.

Definition write1 (f : fifo) : fifo * cres unit :=
  if fifo_bytes f <? fifo_cap f then (Fifo (fifo_bytes f + 1) (fifo_cap f), Ok tt)
  else (f, Err EAGAIN).

(** Blocked in [read] on the FIFO. *)
Inductive cond := in_read.

#[export] Instance cond_eq_dec : EqDecision cond.
Proof. solve_decision. Defined.

Abbreviation outc := (outcome (mysem_t * fifo) (cres unit) cond).

Definition mysem_post (st : mysem_t * fifo) : outc :=
  let '(sem, f) := st in
  if negb (sem_magic sem =? SEM_MAGIC) then Return st (Err EINVAL) []
  else let '(f', r) := write1 f in Return (sem, f') r [].

(** [intr] is the error of a [read] that fails (a caught signal). *)
Definition mysem_wait (intr : option errno) (st : mysem_t * fifo) : outc :=
  let '(sem, f) := st in
  if negb (sem_magic sem =? SEM_MAGIC) then Return st (Err EINVAL) []
  else match intr with
       | Some e => Return st (Err e) []
       | None =>
         if 0 <? fifo_bytes f then Return (sem, Fifo (fifo_bytes f - 1) (fifo_cap f)) (Ok tt) []
         else Wait st in_read
       end.

(** [mysem_close]: the descriptors it closes (in order), and its result;
    [c0] and [c1] are the results of the two [close] calls.  The structure is
    freed in all cases once the magic number has been checked. *)
Definition mysem_close (c0 c1 : option errno) (sem : mysem_t) : list Z * cres unit :=
  if negb (sem_magic sem =? SEM_MAGIC) then ([], Err EINVAL)
  else match c0 with
       | Some e => ([], Err e)
       | None => match c1 with
                 | Some e => ([sem_fd0 sem], Err e)
                 | None => ([sem_fd0 sem; sem_fd1 sem], Ok tt)
                 end
       end.

Definition mysem_unlink (ul : option errno) : cres unit :=
  match ul with Some e => Err e | None => Ok tt end.

Definition Mysem_post st := outcome_map SemMmap.err_sys_on_err (mysem_post st).
Definition Mysem_wait intr st := outcome_map SemMmap.err_sys_on_err (mysem_wait intr st).
Definition Mysem_close c0 c1 sem := SemMmap.err_sys_on_err (mysem_close c0 c1 sem).2.
Definition Mysem_unlink ul := SemMmap.err_sys_on_err (mysem_unlink ul).

Definition ok (cap : Z) (st : mysem_t * fifo) : Prop :=
  sem_magic st.1 = SEM_MAGIC /\ fifo_cap st.2 = cap /\ 0 <= fifo_bytes st.2 <= cap.

#[export] Program Instance semaphore (cap : Z) : Semaphore (mysem_t * fifo) cond := {|
  sem_wait := mysem_wait None;
  sem_post := mysem_post;
  sem_val st := fifo_bytes st.2;
  sem_ok := ok cap;
  sem_max := cap
|}.
Next Obligation. by intros cap s (_ & _ & ?). Qed.
Next Obligation.
  intros cap [sem f] (Hm & Hcap & Hb); simpl in *. rewrite Hm, Z.eqb_refl; simpl.
  split_test; bool_to_prop; unfold ok; simpl; split_and!; done || lia.
Qed.
Next Obligation.
  intros cap [sem f] (Hm & Hcap & Hb) Hlt; simpl in *. rewrite Hm, Z.eqb_refl; simpl.
  unfold write1. rewrite Hcap, (proj2 (Z.ltb_lt _ _) Hlt). eexists _, _. split; [done|].
  bool_to_prop. unfold ok; simpl. split_and!; done || lia.
Qed.

End SemFifo.

Module SemSvsem.

Record mysem_t := Sem { sem_semid : Z; sem_magic : Z }.

Definition SEM_MAGIC : Z := 0x45678923.
Definition SEMVMX : Z := 32767.

(** [semop] of one operation on a one-semaphore set of value [v]: adding beyond
    [SEMVMX] fails with [ERANGE]; taking more than there is blocks, or fails
    with [EAGAIN] under [IPC_NOWAIT]; 0 waits for the value to be 0. *)
Inductive semop_res := SemVal (v : Z) | SemErr (e : errno) | SemBlock.

Definition semop (v sem_op : Z) (nowait : bool) : semop_res :=
  if 0 <? sem_op then
    if SEMVMX <? v + sem_op then SemErr ERANGE else SemVal (v + sem_op)
  else if sem_op <? 0 then
    if - sem_op <=? v then SemVal (v + sem_op)
    else if nowait then SemErr EAGAIN else SemBlock
  else if v =? 0 then SemVal v
  else if nowait then SemErr EAGAIN else SemBlock.

Lemma semop_take v nowait :
  semop v (-1) nowait =
    if 0 <? v then SemVal (v - 1) else if nowait then SemErr EAGAIN else SemBlock.
Proof.
  unfold semop. change (0 <? -1) with false. change (-1 <? 0) with true. cbv iota.
  change (- -1) with 1. destruct (1 <=? v) eqn:E1, (0 <? v) eqn:E2; bool_to_prop; done || lia.
Qed.

Lemma semop_give v nowait :
  semop v 1 nowait = if SEMVMX <? v + 1 then SemErr ERANGE else SemVal (v + 1).
Proof. done. Qed.

Inductive cond := in_semop.

#[export] Instance cond_eq_dec : EqDecision cond.
Proof. solve_decision. Defined.

Abbreviation outc := (outcome (mysem_t * Z) (cres unit) cond).

(** [semop(sem->sem_semid, &op, 1) < 0] and the return statements around it. *)
Definition do_semop (st : mysem_t * Z) (sem_op : Z) (nowait : bool) : outc :=
  match semop st.2 sem_op nowait with
  | SemVal v => Return (st.1, v) (Ok tt) []
  | SemErr e => Return st (Err e) []
  | SemBlock => Wait st in_semop
  end.

Definition mysem_post (st : mysem_t * Z) : outc :=
  if negb (sem_magic st.1 =? SEM_MAGIC) then Return st (Err EINVAL) []
  else do_semop st 1 false.

Definition mysem_wait (st : mysem_t * Z) : outc :=
  if negb (sem_magic st.1 =? SEM_MAGIC) then Return st (Err EINVAL) []
  else do_semop st (-1) false.

Definition mysem_trywait (st : mysem_t * Z) : outc :=
  if negb (sem_magic st.1 =? SEM_MAGIC) then Return st (Err EINVAL) []
  else do_semop st (-1) true.

(** [gv] is the result of [semctl(GETVAL)]. *)
Definition mysem_getvalue (gv : cres Z) (sem : mysem_t) : cres Z :=
  if negb (sem_magic sem =? SEM_MAGIC) then Err EINVAL else gv.

(** [mysem_close] clears the magic number and frees the structure. *)
Definition mysem_close (sem : mysem_t) : mysem_t * cres unit :=
  if negb (sem_magic sem =? SEM_MAGIC) then (sem, Err EINVAL)
  else (Sem (sem_semid sem) 0, Ok tt).

(** [mysem_unlink]: the calls in order, each able to fail. *)
Definition mysem_unlink (ftok unlink semget rmid : option errno) : cres unit :=
  match ftok with
  | Some e => Err e
  | None => match unlink with
            | Some e => Err e
            | None => match semget with
                      | Some e => Err e
                      | None => match rmid with Some e => Err e | None => Ok tt end
                      end
            end
  end.

Definition Mysem_post st := outcome_map SemMmap.err_sys_on_err (mysem_post st).
Definition Mysem_wait st := outcome_map SemMmap.err_sys_on_err (mysem_wait st).
Definition Mysem_trywait st := outcome_map SemMmap.trywait_result (mysem_trywait st).
Definition Mysem_getvalue gv sem := SemMmap.err_sys_on_err (mysem_getvalue gv sem).
Definition Mysem_close sem := SemMmap.err_sys_on_err (mysem_close sem).2.
Definition Mysem_unlink ftok unlink semget rmid :=
  SemMmap.err_sys_on_err (mysem_unlink ftok unlink semget rmid).

Definition ok (st : mysem_t * Z) : Prop :=
  sem_magic st.1 = SEM_MAGIC /\ 0 <= st.2 <= SEMVMX.

#[export] Program Instance semaphore : Semaphore (mysem_t * Z) cond := {|
  sem_wait := mysem_wait;
  sem_post := mysem_post;
  sem_val := snd;
  sem_ok := ok;
  sem_max := SEMVMX
|}.
Next Obligation. by intros s [_ ?]. Qed.
Next Obligation.
  intros [sem v] [Hm Hv]; simpl in *. unfold mysem_wait, do_semop.
  rewrite semop_take; simpl. rewrite Hm, Z.eqb_refl; simpl.
  destruct (0 <? v) eqn:E; bool_to_prop; unfold ok; simpl; split_and!; done || lia.
Qed.
Next Obligation.
  intros [sem v] [Hm Hv] Hlt; simpl in *. unfold mysem_post, do_semop.
  rewrite semop_give; simpl. rewrite Hm, Z.eqb_refl; simpl. destruct (SEMVMX <? v + 1) eqn:E; bool_to_prop; [lia|].
  eexists _, _. split; [done|]. unfold ok; simpl. split_and!; done || lia.
Qed.

(** The System V implementation: [mysem_trywait] never blocks and is
    [mysem_wait] with "would block" turned into [EAGAIN]; a post at [SEMVMX]
    fails with [ERANGE] and changes nothing. *)
Theorem sem_svsem_trywait_and_limit (st : mysem_t * Z) :
  mysem_trywait st =
    match mysem_wait st with Wait _ _ => Return st (Err EAGAIN) [] | out => out end /\
  (ok st -> st.2 = SEMVMX -> mysem_post st = Return st (Err ERANGE) []).
Proof.
  split.
  - unfold mysem_trywait, mysem_wait, do_semop. rewrite !semop_take.
    destruct (sem_magic st.1 =? SEM_MAGIC); simpl; [|done]. by destruct (0 <? st.2).
  - intros [Hm _] Hv. unfold mysem_post, do_semop. rewrite Hm, Hv, Z.eqb_refl. done.
Qed.

Lemma sem_svsem_trywait_and_limit_witness :
  mysem_post (Sem 7 SEM_MAGIC, SEMVMX) = Return (Sem 7 SEM_MAGIC, SEMVMX) (Err ERANGE) [].
Proof. apply (proj2 (sem_svsem_trywait_and_limit (Sem 7 SEM_MAGIC, SEMVMX))); done. Defined.

End SemSvsem.
