(* ===== verification/ProdCons.v ===== *)
(** * The bounded buffer of [prodcons1.c] over any semaphore

    The same program is in [my_pxsem_mmap], [my_pxsem_fifo] and
    [my_pxsem_svsem]; only the semaphore header differs.  It is modelled once,
    against the interface [Semaphore], with one step per semaphore call or
    buffer access of either thread, and instantiated at the three
    implementations. *)
From S2P Require Import Prelude Monitor MySem.

Section ProdCons.
Context {T C : Type} `{SEM : Semaphore T C}.

Definition NBUFF : Z := 10.

(** Program points of the loop bodies: before each call, and after the loop. *)
Inductive ppc := P_nempty | P_mutex | P_store | P_post_mutex | P_post_nstored | P_done.
Inductive cpc := C_nstored | C_mutex | C_check | C_post_mutex | C_post_nempty | C_done.

(** [shared], the threads' program points and loop counters, and what the
    consumer has printed. *)
Record state := St {
  mutex : T; nempty : T; nstored : T;
  buff : list Z;
  p_pc : ppc; p_i : Z;
  c_pc : cpc; c_i : Z;
  printed : list (Z * Z) }.

(** [Mysem_wait]: whether the caller gets past it now, or stays in it. *)
Definition try_pass (s : T) : T * bool :=
  match sem_wait s with
  | Return s' (Ok _) _ => (s', true)
  | Return s' (Err _) _ => (s', false)
  | Wait s' _ => (s', false)
  | Dump => (s, false)
  end.

(** [Mysem_post] *)
Definition do_post (s : T) : T :=
  match sem_post s with Return s' _ _ => s' | Wait s' _ => s' | Dump => s end.

Definition slot (i : Z) : nat := Z.to_nat (i mod NBUFF).

(** One step of [produce]. *)
Definition produce (nitems : Z) (st : state) : state :=
  let '(St mu ne ns b pp pi cp ci pr) := st in
  match pp with
  | P_nempty =>
    if pi <? nitems then
      let '(ne', go) := try_pass ne in
      St mu ne' ns b (if go then P_mutex else P_nempty) pi cp ci pr
    else St mu ne ns b P_done pi cp ci pr
  | P_mutex =>
    let '(mu', go) := try_pass mu in
    St mu' ne ns b (if go then P_store else P_mutex) pi cp ci pr
  | P_store => St mu ne ns (<[slot pi := pi]> b) P_post_mutex pi cp ci pr
  | P_post_mutex => St (do_post mu) ne ns b P_post_nstored pi cp ci pr
  | P_post_nstored => St mu ne (do_post ns) b P_nempty (pi + 1) cp ci pr
  | P_done => st
  end.

(** One step of [consume]. *)
Definition consume (nitems : Z) (st : state) : state :=
  let '(St mu ne ns b pp pi cp ci pr) := st in
  match cp with
  | C_nstored =>
    if ci <? nitems then
      let '(ns', go) := try_pass ns in
      St mu ne ns' b pp pi (if go then C_mutex else C_nstored) ci pr
    else St mu ne ns b pp pi C_done ci pr
  | C_mutex =>
    let '(mu', go) := try_pass mu in
    St mu' ne ns b pp pi (if go then C_check else C_mutex) ci pr
  | C_check =>
    let v := b !!! slot ci in
    St mu ne ns b pp pi C_post_mutex ci (if v =? ci then pr else (ci, v) :: pr)
  | C_post_mutex => St (do_post mu) ne ns b pp pi C_post_nempty ci pr
  | C_post_nempty => St mu (do_post ne) ns b pp pi C_nstored (ci + 1) pr
  | C_done => st
  end.

(** [main] creates the semaphores with values 1, [NBUFF] and 0 and starts the
    two threads; the buffer is zero. *)
Definition main_init (mu ne ns : T) : state :=
  St mu ne ns (replicate (Z.to_nat NBUFF) 0) P_nempty 0 C_nstored 0 [].

Inductive step (nitems : Z) (st : state) : state -> Prop :=
| step_produce : step nitems st (produce nitems st)
| step_consume : step nitems st (consume nitems st).

Hypothesis room : NBUFF <= sem_max.

(** ** Invariant *)

Definition p_took (p : ppc) : Z :=
  match p with P_nempty | P_done => 0 | _ => 1 end.
Definition c_took (c : cpc) : Z :=
  match c with C_nstored | C_done => 0 | _ => 1 end.
Definition p_in (p : ppc) : Z := match p with P_store | P_post_mutex => 1 | _ => 0 end.
Definition c_in (c : cpc) : Z := match c with C_check | C_post_mutex => 1 | _ => 0 end.
Definition p_stored (p : ppc) : Z :=
  match p with P_post_mutex | P_post_nstored => 1 | _ => 0 end.

(** The semaphores count the free slots, the stored items and the free mutex;
    the items not yet consumed are in their slots; nothing was printed. *)
Record inv (nitems : Z) (st : state) : Prop := {
  inv_ok : sem_ok (mutex st) /\ sem_ok (nempty st) /\ sem_ok (nstored st);
  inv_mutex : sem_val (mutex st) = 1 - p_in (p_pc st) - c_in (c_pc st);
  inv_nempty : sem_val (nempty st) = NBUFF - (p_i st - c_i st) - p_took (p_pc st);
  inv_nstored : sem_val (nstored st) = p_i st - c_i st - c_took (c_pc st);
  inv_len : length (buff st) = Z.to_nat NBUFF;
  inv_data : forall k, c_i st <= k < p_i st + p_stored (p_pc st) -> buff st !!! slot k = k;
  inv_range : 0 <= c_i st;
  inv_items : p_i st + p_took (p_pc st) <= Z.max 0 nitems /\
              (p_pc st = P_done -> nitems <= p_i st) /\ (c_pc st = C_done -> nitems <= c_i st);
  inv_printed : printed st = [] }.

(** The interface in the form the steps use it. *)
Lemma try_pass_spec s :
  sem_ok s ->
  let '(s', go) := try_pass s in
  sem_ok s' /\ (if go then 0 < sem_val s /\ sem_val s' = sem_val s - 1
                else sem_val s = 0 /\ sem_val s' = 0).
Proof.
  intros Hs. pose proof (sem_wait_law s Hs) as H. unfold try_pass.
  destruct (sem_wait s) as [s' r acts|s' c|]; [|naive_solver|done].
  destruct H as (? & -> & ? & ?). done.
Qed.

Lemma do_post_spec s :
  sem_ok s -> sem_val s < sem_max -> sem_ok (do_post s) /\ sem_val (do_post s) = sem_val s + 1.
Proof.
  intros Hs Hv. destruct (sem_post_law s Hs Hv) as (s' & acts & E & ? & ?).
  unfold do_post. by rewrite E.
Qed.

Lemma slot_lt k : (slot k < Z.to_nat NBUFF)%nat.
Proof. unfold slot, NBUFF. pose proof (Z.mod_pos_bound k 10). lia. Qed.

Lemma slot_inj i k : slot i = slot k -> 0 < i - k < NBUFF -> False.
Proof.
  unfold slot, NBUFF. intros E H.
  pose proof (Z.mod_pos_bound i 10). pose proof (Z.mod_pos_bound k 10).
  pose proof (Z.div_mod i 10). pose proof (Z.div_mod k 10). lia.
Qed.

Lemma pc_inv_init mu ne ns nitems :
  sem_ok mu -> sem_ok ne -> sem_ok ns ->
  sem_val mu = 1 -> sem_val ne = NBUFF -> sem_val ns = 0 ->
  inv nitems (main_init mu ne ns).
Proof.
  intros. constructor; simpl; intros; split_and?; done || lia.
Qed.

Ltac use_sem :=
  repeat match goal with
  | H : sem_ok ?s |- context [try_pass ?s] =>
      pose proof (try_pass_spec s H); destruct (try_pass s) as [? []]; destruct_and?
  | H : sem_ok ?s |- context [do_post ?s] =>
      let E := fresh in
      assert (sem_val s < sem_max) as E by (unfold NBUFF in *; lia);
      destruct (do_post_spec s H E); generalize dependent (do_post s); intros
  end.

Lemma inv_produce nitems st : inv nitems st -> inv nitems (produce nitems st).
Proof.
  destruct st as [mu ne ns b pp pi cp ci pr].
  intros [(Hmu & Hne & Hns) Hm He Hs Hl Hd Hr (Hi1 & Hi2 & Hi3) Hp]; simpl in *.
  pose proof (sem_val_nonneg _ Hmu). pose proof (sem_val_nonneg _ Hne).
  pose proof (sem_val_nonneg _ Hns).
  assert (0 <= c_in cp <= 1 /\ 0 <= c_took cp <= 1) by (destruct cp; simpl; lia).
  destruct pp; simpl in *; use_sem; try split_test; bool_to_prop;
    constructor; simpl; split_and?; try done; try (intros; done || lia); try (by rewrite length_insert).
  all: try (intros k Hk; apply Hd; lia).
  (* the store *)
  intros k Hk. destruct (decide (k = pi)) as [->|Hne'].
  - apply list_lookup_total_insert_eq. rewrite Hl. apply slot_lt.
  - rewrite list_lookup_total_insert_ne; [apply Hd; lia|].
    intros E. apply (slot_inj pi k); [done|]. unfold NBUFF in *. lia.
Qed.

Lemma inv_consume nitems st : inv nitems st -> inv nitems (consume nitems st).
Proof.
  destruct st as [mu ne ns b pp pi cp ci pr].
  intros [(Hmu & Hne & Hns) Hm He Hs Hl Hd Hr (Hi1 & Hi2 & Hi3) Hp]; simpl in *.
  pose proof (sem_val_nonneg _ Hmu). pose proof (sem_val_nonneg _ Hne).
  pose proof (sem_val_nonneg _ Hns).
  assert (0 <= p_in pp <= 1 /\ 0 <= p_took pp <= 1 /\ 0 <= p_stored pp) by (destruct pp; simpl; lia).
  destruct cp; simpl in *; use_sem; try split_test; bool_to_prop;
    constructor; simpl; split_and?; try done; try (intros; done || lia).
  all: try (intros k Hk; apply Hd; lia).
  (* the check cannot fail *)
  exfalso. match goal with H : _ <> _ |- _ => apply H end. apply Hd. lia.
Qed.

Lemma pc_inv_step nitems st st' : inv nitems st -> step nitems st st' -> inv nitems st'.
Proof. intros H []; [by apply inv_produce|by apply inv_consume]. Qed.

(** Remaining micro-steps of the two threads. *)
Definition p_rank (p : ppc) : Z :=
  match p with P_nempty => 5 | P_mutex => 4 | P_store => 3 | P_post_mutex => 2
             | P_post_nstored => 1 | P_done => 0 end.
Definition c_rank (c : cpc) : Z :=
  match c with C_nstored => 5 | C_mutex => 4 | C_check => 3 | C_post_mutex => 2
             | C_post_nempty => 1 | C_done => 0 end.

Definition work (nitems : Z) (st : state) : Z :=
  5 * (nitems - p_i st) + p_rank (p_pc st) + 5 * (nitems - c_i st) + c_rank (c_pc st).

Definition finished (st : state) : Prop := p_pc st = P_done /\ c_pc st = C_done.

Lemma work_step nitems st st' :
  inv nitems st -> step nitems st st' -> work nitems st' <= work nitems st.
Proof.
  intros Hi []; unfold work; destruct st as [mu ne ns b pp pi cp ci pr]; simpl.
  - destruct pp; simpl; try lia; try destruct (pi <? nitems);
      try destruct (try_pass _) as [? []]; simpl; lia.
  - destruct cp; simpl; try lia; try destruct (ci <? nitems);
      try destruct (try_pass _) as [? []]; simpl; lia.
Qed.

(** A wait on a positive semaphore gets past. *)
Lemma try_pass_go s : sem_ok s -> 0 < sem_val s -> (try_pass s).2 = true.
Proof.
  intros Hs Hv. pose proof (try_pass_spec s Hs). destruct (try_pass s) as [s' []]; [done|lia].
Qed.

Lemma produce_progress nitems st :
  sem_ok (mutex st) -> sem_ok (nempty st) -> p_pc st <> P_done ->
  (p_pc st = P_nempty -> p_i st < nitems -> 0 < sem_val (nempty st)) ->
  (p_pc st = P_mutex -> 0 < sem_val (mutex st)) ->
  work nitems (produce nitems st) < work nitems st.
Proof.
  destruct st as [mu ne ns b pp pi cp ci pr]; unfold work; simpl. intros Hmu Hne Hnd H1 H2.
  pose proof (try_pass_go _ Hmu) as Gm. pose proof (try_pass_go _ Hne) as Ge.
  destruct pp; simpl in *; try lia; try done.
  - destruct (pi <? nitems) eqn:E; bool_to_prop; simpl; [|lia].
    destruct (try_pass ne) as [? []]; simpl in *; [lia|]. specialize (Ge (H1 eq_refl E)). done.
  - destruct (try_pass mu) as [? []]; simpl in *; [lia|]. specialize (Gm (H2 eq_refl)). done.
Qed.

Lemma consume_progress nitems st :
  sem_ok (mutex st) -> sem_ok (nstored st) -> c_pc st <> C_done ->
  (c_pc st = C_nstored -> c_i st < nitems -> 0 < sem_val (nstored st)) ->
  (c_pc st = C_mutex -> 0 < sem_val (mutex st)) ->
  work nitems (consume nitems st) < work nitems st.
Proof.
  destruct st as [mu ne ns b pp pi cp ci pr]; unfold work; simpl. intros Hmu Hns Hnd H1 H2.
  pose proof (try_pass_go _ Hmu) as Gm. pose proof (try_pass_go _ Hns) as Gs.
  destruct cp; simpl in *; try lia; try done.
  - destruct (ci <? nitems) eqn:E; bool_to_prop; simpl; [|lia].
    destruct (try_pass ns) as [? []]; simpl in *; [lia|]. specialize (Gs (H1 eq_refl E)). done.
  - destruct (try_pass mu) as [? []]; simpl in *; [lia|]. specialize (Gm (H2 eq_refl)). done.
Qed.

(** In every state of the invariant some thread that is not finished can move. *)
Lemma progress nitems st :
  inv nitems st -> ~ finished st ->
  exists st', step nitems st st' /\ work nitems st' < work nitems st.
Proof.
  intros [(Hmu & Hne & Hns) Hm He Hs _ _ _ (Hi1 & Hi2 & Hi3) _] Hnf.
  assert ((p_in (p_pc st) = 1 \/ c_in (c_pc st) = 1) \/ 0 < sem_val (mutex st)) as Hcs
    by (rewrite Hm; destruct (p_pc st), (c_pc st); simpl; lia).
  assert (p_in (p_pc st) = 1 \/
          (p_in (p_pc st) = 0 /\ p_pc st <> P_done /\ 0 < sem_val (mutex st) /\
           (p_pc st = P_nempty -> p_i st < nitems -> 0 < sem_val (nempty st))) \/
          (c_pc st <> C_done /\
           (c_pc st = C_nstored -> c_i st < nitems -> 0 < sem_val (nstored st)) /\
           (c_pc st = C_mutex -> 0 < sem_val (mutex st)))) as Hcase.
  { unfold finished in Hnf. unfold NBUFF in *. clear Hcs.
    destruct (p_pc st), (c_pc st); simpl in *;
      try specialize (Hi2 eq_refl); try specialize (Hi3 eq_refl); try (left; lia);
      try (right; left; split_and!; intros; (done || lia));
      try (right; right; split_and!; intros; (done || lia)).
    all: destruct (decide (p_i st < nitems)); destruct (decide (p_i st - c_i st < 10));
      try (right; left; split_and!; intros; (done || lia));
      try (right; right; split_and!; intros; (done || lia)); try tauto; try (exfalso; lia). }
  destruct Hcase as [H|[(H1 & H2 & H3 & H4)|(H1 & H2 & H3)]].
  - exists (produce nitems st). split; [constructor|].
    apply produce_progress; try done; destruct (p_pc st); simpl in *; done || lia.
  - exists (produce nitems st). split; [constructor|]. by apply produce_progress.
  - exists (consume nitems st). split; [constructor|]. by apply consume_progress.
Qed.

(** The bounded buffer is correct over every semaphore that keeps the
    interface's laws: however the two threads are scheduled, the consumer
    never sees a wrong item (it prints nothing), at most [NBUFF] items are in
    the buffer, and the threads are never both inside the mutex. *)
Theorem prodcons_safe (mu ne ns : T) (nitems : Z) (st : state) :
  sem_ok mu -> sem_ok ne -> sem_ok ns ->
  sem_val mu = 1 -> sem_val ne = NBUFF -> sem_val ns = 0 ->
  rtc (step nitems) (main_init mu ne ns) st ->
  printed st = [] /\ 0 <= p_i st - c_i st <= NBUFF /\
  ~ (p_in (p_pc st) = 1 /\ c_in (c_pc st) = 1).
Proof.
  intros ? ? ? ? ? ? Hr. assert (inv nitems st) as [(Hmu & Hne & Hns) Hm He Hs _ _ _ _ Hp].
  { eapply rtc_invariant; [|..|exact Hr]; [intros; by eapply pc_inv_step|by apply pc_inv_init]. }
  pose proof (sem_val_nonneg _ Hmu). pose proof (sem_val_nonneg _ Hne).
  pose proof (sem_val_nonneg _ Hns).
  assert (0 <= p_took (p_pc st) <= 1 /\ 0 <= c_took (c_pc st) <= 1)
    by (destruct (p_pc st), (c_pc st); simpl; lia).
  split_and!; [done|lia..].
Qed.

(** The program does not deadlock and its work is bounded: no step increases the
    number of remaining micro-steps, and in every reachable state in which
    the threads have not both finished, some step decreases it. *)
Theorem prodcons_progress (mu ne ns : T) (nitems : Z) (st : state) :
  sem_ok mu -> sem_ok ne -> sem_ok ns ->
  sem_val mu = 1 -> sem_val ne = NBUFF -> sem_val ns = 0 ->
  rtc (step nitems) (main_init mu ne ns) st ->
  (forall st', step nitems st st' -> work nitems st' <= work nitems st) /\
  (~ finished st -> exists st', step nitems st st' /\ work nitems st' < work nitems st).
Proof.
  intros ? ? ? ? ? ? Hr. assert (inv nitems st) as Hi.
  { eapply rtc_invariant; [|..|exact Hr]; [intros; by eapply pc_inv_step|by apply pc_inv_init]. }
  split; [intros; by apply work_step|by apply progress].
Qed.

End ProdCons.

Arguments state : clear implicits.

(** ** The three programs *)

(** [my_pxsem_mmap/prodcons1.c] *)
Definition produce_mmap := produce (SEM := SemMmap.semaphore).
Definition consume_mmap := consume (SEM := SemMmap.semaphore).
Definition main_mmap : state SemMmap.mysem_t :=
  main_init (SemMmap.Sem 1 SemMmap.SEM_MAGIC) (SemMmap.Sem NBUFF SemMmap.SEM_MAGIC)
            (SemMmap.Sem 0 SemMmap.SEM_MAGIC).

(** [my_pxsem_svsem/prodcons1.c] *)
Definition produce_svsem := produce (SEM := SemSvsem.semaphore).
Definition consume_svsem := consume (SEM := SemSvsem.semaphore).
Definition main_svsem (id1 id2 id3 : Z) : state (SemSvsem.mysem_t * Z) :=
  main_init (SemSvsem.Sem id1 SemSvsem.SEM_MAGIC, 1) (SemSvsem.Sem id2 SemSvsem.SEM_MAGIC, NBUFF)
            (SemSvsem.Sem id3 SemSvsem.SEM_MAGIC, 0).

(** [my_pxsem_fifo/prodcons1.c], with FIFOs of capacity [cap]. *)
Definition produce_fifo (cap : Z) :=
  produce (SEM := SemFifo.semaphore cap).
Definition consume_fifo (cap : Z) :=
  consume (SEM := SemFifo.semaphore cap).
Definition fifo_sem (fd0 fd1 v cap : Z) : SemFifo.mysem_t * SemFifo.fifo :=
  (SemFifo.Sem fd0 fd1 SemFifo.SEM_MAGIC, SemFifo.Fifo v cap).
Definition main_fifo (cap : Z) : state (SemFifo.mysem_t * SemFifo.fifo) :=
  main_init (fifo_sem 3 4 1 cap) (fifo_sem 5 6 NBUFF cap) (fifo_sem 7 8 0 cap).

Lemma prodcons_safe_witness :
  let st := consume_mmap 3 (produce_mmap 3 main_mmap) in
  printed st = [] /\ 0 <= p_i st - c_i st <= NBUFF /\ ~ (p_in (p_pc st) = 1 /\ c_in (c_pc st) = 1).
Proof.
  apply (prodcons_safe (SEM := SemMmap.semaphore) ltac:(unfold NBUFF; simpl; lia)
           (SemMmap.Sem 1 SemMmap.SEM_MAGIC) (SemMmap.Sem NBUFF SemMmap.SEM_MAGIC)
           (SemMmap.Sem 0 SemMmap.SEM_MAGIC) 3);
    try done; try (split; simpl; unfold NBUFF; lia || done).
  eapply rtc_l; [apply step_produce|]. eapply rtc_l; [apply step_consume|]. apply rtc_refl.
Defined.

Lemma prodcons_progress_witness :
  exists st', step (SEM := SemSvsem.semaphore) 3 (main_svsem 1 2 3) st' /\ work 3 st' < work 3 (main_svsem 1 2 3).
Proof.
  apply (prodcons_progress (SEM := SemSvsem.semaphore)
           ltac:(simpl; unfold NBUFF, SemSvsem.SEMVMX; lia)
           (SemSvsem.Sem 1 SemSvsem.SEM_MAGIC, 1) (SemSvsem.Sem 2 SemSvsem.SEM_MAGIC, NBUFF)
           (SemSvsem.Sem 3 SemSvsem.SEM_MAGIC, 0) 3);
    try done; try (split; simpl; unfold NBUFF, SemSvsem.SEMVMX; lia || done).
  by intros [? ?].
Defined.
