(* ===== verification/MutexProdCons.v ===== *)
(** * Producers and a consumer with mutexes and a condition variable

    The programs [prodcons2.c] to [prodcons7.c] of [unixipc/mutex]: [nthreads]
    producers fill [buff] with its own indices, one consumer checks it, and
    [main] starts and joins them.  They differ in the critical sections of
    [produce] and [consume] and in the order of [main]'s calls; a [program]
    collects these differences, each written from its file, and [exec] runs the
    threads over any of them.  The wrappers [Pthread_*] terminate the process
    when a call fails, so a run is one in which none has failed yet.

    [prodcons1.c] is [prodcons2.c] without the mutex: its threads race on
    [nput] and [nval], which C leaves undefined, and it is not modelled. *)
From S2P Require Import Prelude.

(** ** Shared data *)

Definition MAXNITEMS : Z := 1000000.
Definition MAXNTHREADS : Z := 100.

(** The globals: an array of [int]s that starts as zeros (a cell that is not in
    the map is 0), the next index and value to store, the number of items ready
    for the consumer, and [prodcons7.c]'s count of signals.  [prodcons2.c] to
    [prodcons4.c] have no [nready]: it stays 0 there. *)
Record globals := Globals {
  buff : gmap Z Z; nput : Z; nval : Z; nready : Z; nsignals : Z }.

Definition globals0 : globals := Globals ∅ 0 0 0 0.

Definition buff_at (g : globals) (i : Z) : Z := default 0 (buff g !! i).

Definition set_nready (g : globals) (n : Z) : globals :=
  Globals (buff g) (nput g) (nval g) n (nsignals g).

(** [buff[nput] = nval; nput++; nval++;] *)
Definition store_item (g : globals) : globals :=
  Globals (<[nput g := nval g]> (buff g)) (nput g + 1) (nval g + 1) (nready g) (nsignals g).

(** ** The critical sections

    A section of a producer returns the globals and whether it signalled
    [nready.cond]; [None] is the [return(NULL)] of a producer that finds the
    array full. *)

(** [produce] of [prodcons2.c], [prodcons3.c] and [prodcons4.c]. *)
Definition produce2 (nitems : Z) (g : globals) : option (globals * bool) :=
  if nput g >=? nitems then None else Some (store_item g, false).

(** [produce] of [prodcons5.c]: one section, signals every time. *)
Definition produce5 (nitems : Z) (g : globals) : option (globals * bool) :=
  if nput g >=? nitems then None
  else let g1 := store_item g in Some (set_nready g1 (nready g1 + 1), true).

(** The second section of [produce] in [prodcons6.c] (the first is that of
    [produce2], under [put.mutex]). *)
Definition publish6 (g : globals) : globals * bool :=
  (set_nready g (nready g + 1), nready g =? 0).

(** The same in [prodcons7.c], which counts its signals. *)
Definition publish7 (g : globals) : globals * bool :=
  let g1 := if nready g =? 0
            then Globals (buff g) (nput g) (nval g) (nready g) (nsignals g + 1) else g in
  (set_nready g1 (nready g1 + 1), nready g =? 0).

(** What [consume] does before it reads item [i]; [None] when it is not ready.
    [prodcons2.c] does nothing, [consume_wait] of [prodcons3.c] and
    [prodcons4.c] tests [nput], the later programs take one of [nready]. *)
Definition ready2 (i : Z) (g : globals) : option globals := Some g.

Definition consume_wait (i : Z) (g : globals) : option globals :=
  if i <? nput g then Some g else None.

Definition take_ready (i : Z) (g : globals) : option globals :=
  if nready g =? 0 then None else Some (set_nready g (nready g - 1)).

(** What [consume] does when the item is not ready: lock and test again, or
    block in [pthread_cond_wait]. *)
Inductive not_ready := Spin | Block.

Record program := MkProgram {
  put : Z -> globals -> option (globals * bool);
  publish : option (globals -> globals * bool);
  get_ready : Z -> globals -> option globals;
  if_not_ready : not_ready;
  (** whether [main] creates the consumer before it joins the producers *)
  consumer_early : bool;
  (** whether [main] prints [nsignals] at the end *)
  prints_signals : bool }.

Definition has_publish (P : program) : bool := bool_decide (is_Some (publish P)).

Definition prodcons2 : program := MkProgram produce2 None ready2 Spin false false.
Definition prodcons3 : program := MkProgram produce2 None consume_wait Spin true false.
Definition prodcons4 : program := MkProgram produce2 None consume_wait Spin true false.
Definition prodcons5 : program := MkProgram produce5 None take_ready Block true false.
Definition prodcons6 : program := MkProgram produce2 (Some publish6) take_ready Block true false.
Definition prodcons7 : program := MkProgram produce2 (Some publish7) take_ready Block true true.

Definition programs : list program :=
  [prodcons2; prodcons3; prodcons4; prodcons5; prodcons6; prodcons7].

(** ** The threads *)

(** A producer: before its first section, before its second, before
    the increment of its [count[i]], or returned. *)
Inductive ppc := PPut | PPublish | PCount | PDone.

#[export] Instance ppc_eq_dec : EqDecision ppc.
Proof. solve_decision. Defined.

(** The consumer at item [i]: at the loop's test, blocked, unblocked, before it
    reads [buff[i]], or returned. *)
Inductive cpc := CLoop (i : Z) | CAsleep (i : Z) | CWoken (i : Z) | CCheck (i : Z) | CDone.

#[export] Instance cpc_eq_dec : EqDecision cpc.
Proof. solve_decision. Defined.

(** [main]: creating producer [i], joining producer [i], joining the consumer,
    exited. *)
Inductive mpc := MCreate (i : Z) | MJoin (i : Z) | MJoinConsumer | MExit.

(** The lines the program prints. *)
Inductive line := CountLine (i c : Z) | BuffLine (i v : Z) | SignalsLine (n : Z).

Record state := State {
  glob : globals;
  main_pc : mpc;
  producers : list (ppc * Z);   (* with their [count[i]] *)
  consumer : option cpc;        (* [None] before it is created *)
  output : list line }.

Definition with_glob (s : state) (g : globals) : state :=
  State g (main_pc s) (producers s) (consumer s) (output s).
Definition with_main (s : state) (m : mpc) : state :=
  State (glob s) m (producers s) (consumer s) (output s).
Definition with_producers (s : state) (l : list (ppc * Z)) : state :=
  State (glob s) (main_pc s) l (consumer s) (output s).
Definition with_consumer (s : state) (c : cpc) : state :=
  State (glob s) (main_pc s) (producers s) (Some c) (output s).
Definition print (s : state) (l : line) : state :=
  State (glob s) (main_pc s) (producers s) (consumer s) (output s ++ [l]).

(** [pthread_cond_signal(&nready.cond)]: only the consumer ever waits there. *)
Definition cond_signal (s : state) : state :=
  match consumer s with
  | Some (CAsleep i) => with_consumer s (CWoken i)
  | _ => s
  end.

Section Run.
Variables (P : program) (nitems nthreads : Z).

(** After a producer's section: the globals, and the signal if there was one. *)
Definition after_section (s : state) (r : globals * bool) : state :=
  let s1 := with_glob s r.1 in if r.2 then cond_signal s1 else s1.

(** One step of producer [k]; [None] when it has none to make. *)
Definition produce_step (k : nat) (s : state) : option state :=
  let goto (s : state) pc c := with_producers s (<[k := (pc, c)]> (producers s)) in
  match producers s !! k with
  | Some (PPut, c) =>
      match put P nitems (glob s) with
      | None => Some (goto s PDone c)
      | Some r =>
          Some (goto (after_section s r) (if has_publish P then PPublish else PCount) c)
      end
  | Some (PPublish, c) =>
      match publish P with
      | Some f => Some (goto (after_section s (f (glob s))) PCount c)
      | None => None
      end
  | Some (PCount, c) => Some (goto s PPut (c + 1))
  | Some (PDone, _) | None => None
  end.

(** The consumer's section before item [i]. *)
Definition consume_section (i : Z) (s : state) : state :=
  match get_ready P i (glob s) with
  | Some g => with_consumer (with_glob s g) (CCheck i)
  | None => match if_not_ready P with
            | Spin => with_consumer s (CLoop i)
            | Block => with_consumer s (CAsleep i)
            end
  end.

Definition consume_step (s : state) : option state :=
  match consumer s with
  | Some (CLoop i) =>
      if i <? nitems then Some (consume_section i s) else Some (with_consumer s CDone)
  | Some (CWoken i) => Some (consume_section i s)
  | Some (CCheck i) =>
      let v := buff_at (glob s) i in
      let s1 := if v =? i then s else print s (BuffLine i v) in
      Some (with_consumer s1 (CLoop (i + 1)))
  | Some (CAsleep _) | Some CDone | None => None
  end.

Definition create_consumer (s : state) : state := with_consumer s (CLoop 0).

Definition main_step (s : state) : option state :=
  match main_pc s with
  | MCreate i =>
      if i <? nthreads
      then Some (with_main (with_producers s (producers s ++ [(PPut, 0)])) (MCreate (i + 1)))
      else Some (with_main (if consumer_early P then create_consumer s else s) (MJoin 0))
  | MJoin i =>
      if i <? nthreads
      then match producers s !! Z.to_nat i with
           | Some (PDone, c) => Some (with_main (print s (CountLine i c)) (MJoin (i + 1)))
           | _ => None
           end
      else Some (with_main (if consumer_early P then s else create_consumer s) MJoinConsumer)
  | MJoinConsumer =>
      match consumer s with
      | Some CDone =>
          let s1 := if prints_signals P then print s (SignalsLine (nsignals (glob s))) else s in
          Some (with_main s1 MExit)
      | _ => None
      end
  | MExit => None
  end.

(** Who makes the next step; a blocked consumer may also be unblocked without a
    signal. *)
Inductive who := Main | Producer (k : nat) | Consumer | Spurious.

Definition exec (w : who) (s : state) : option state :=
  match w with
  | Main => main_step s
  | Producer k => produce_step k s
  | Consumer => consume_step s
  | Spurious => match consumer s with
                | Some (CAsleep i) => Some (with_consumer s (CWoken i))
                | _ => None
                end
  end.

Definition step (s s' : state) : Prop := exists w, exec w s = Some s'.

(** A schedule, run to its end. *)
Definition run_sched (ws : list who) (s : state) : option state :=
  foldl (fun o w => match o with Some s => exec w s | None => None end) (Some s) ws.

Definition state0 : state := State globals0 (MCreate 0) [] None [].

End Run.

(** [main] up to its first loop: [None] is the usage message of [err_quit]; the
    arguments are what [atoi] makes of [argv[1]] and [argv[2]]. *)
Definition main_args (argc a1 a2 : Z) : option (Z * Z) :=
  if argc =? 3 then Some (Z.min a1 MAXNITEMS, Z.min a2 MAXNTHREADS) else None.

(** ** What a program's sections promise

    [tracked P]: the program counts ready items in [nready]. *)
Definition tracked (P : program) : bool := match if_not_ready P with Block => true | Spin => false end.

(** What a section of a producer adds to [nready], and that it signals when a
    consumer may be blocked. *)
Definition announces (b : bool) (g : globals) (r : globals * bool) : Prop :=
  nready r.1 = nready g + (if b then 1 else 0) /\ (b = true -> nready g = 0 -> r.2 = true).

Class Lawful (P : program) := {
  put_full n g : nput g >= n -> put P n g = None;
  put_stores n g : nput g < n -> exists r, put P n g = Some r /\
    buff r.1 = <[nput g := nval g]> (buff g) /\ nput r.1 = nput g + 1 /\ nval r.1 = nval g + 1 /\
    announces (tracked P && negb (has_publish P)) g r;
  publish_announces f g : publish P = Some f -> tracked P = true /\
    buff (f g).1 = buff g /\ nput (f g).1 = nput g /\ nval (f g).1 = nval g /\
    announces true g (f g);
  ready_takes i g g' : get_ready P i g = Some g' ->
    buff g' = buff g /\ nput g' = nput g /\ nval g' = nval g /\
    (if tracked P then nready g <> 0 /\ nready g' = nready g - 1
     else nready g' = nready g /\ (consumer_early P = true -> i < nput g));
  ready_none i g : get_ready P i g = None ->
    if tracked P then nready g = 0 else nput g <= i;
  blocks_early : tracked P = true -> consumer_early P = true }.

Ltac law :=
  simpl in *; unfold announces, produce2, produce5, publish6, publish7, ready2, consume_wait, take_ready in *;
  simpl in *; split_tests; repeat split; intros; simplify_eq/=;
  try (split_tests; lia || done).

Ltac lawful :=
  split; [intros; law
         |intros n g Hg; simpl; unfold produce2, produce5; split_tests;
            [lia|eexists; split; [reflexivity|law]]
         |intros; law | intros; law | intros; law | done].

#[export] Instance prodcons2_lawful : Lawful prodcons2.
Proof. lawful. Qed.
#[export] Instance prodcons3_lawful : Lawful prodcons3.
Proof. lawful. Qed.
#[export] Instance prodcons4_lawful : Lawful prodcons4.
Proof. lawful. Qed.
#[export] Instance prodcons5_lawful : Lawful prodcons5.
Proof. lawful. Qed.
#[export] Instance prodcons6_lawful : Lawful prodcons6.
Proof. lawful. Qed.
#[export] Instance prodcons7_lawful : Lawful prodcons7.
Proof. lawful. Qed.

Lemma programs_lawful P : P ∈ programs -> Lawful P.
Proof. rewrite list_elem_of_In. intros HP. repeat (destruct HP as [<-|HP]); [apply _..|destruct HP]. Qed.

(** ** The invariant *)

Section Correct.
Context (P : program) `{!Lawful P} (nitems nthreads : Z).
Hypothesis producers_exist : 0 < nthreads.

(** Items the consumer has taken, producers between their two sections, items a
    producer has stored. *)
Definition taken (c : option cpc) : Z :=
  match c with
  | None => 0
  | Some (CLoop i) | Some (CAsleep i) | Some (CWoken i) => i
  | Some (CCheck i) => i + 1
  | Some CDone => Z.max 0 nitems
  end.

Definition is_pending (p : ppc * Z) : Z := match p.1 with PPublish => 1 | _ => 0 end.

Definition stored_by (p : ppc * Z) : Z :=
  p.2 + match p.1 with PPublish | PCount => 1 | _ => 0 end.

Definition is_done (p : ppc * Z) : Prop := p.1 = PDone.

#[local] Instance is_done_dec p : Decision (is_done p).
Proof. unfold is_done. apply _. Defined.

(** How many producers [main] has joined, and what it has printed for them. *)
Definition joined (m : mpc) : nat :=
  match m with MCreate _ => 0 | MJoin i => Z.to_nat i | MJoinConsumer | MExit => Z.to_nat nthreads end.

Definition count_lines (l : list (ppc * Z)) : list line :=
  imap (fun i p => CountLine (Z.of_nat i) p.2) l.

(** The last line of [prodcons7.c]. *)
Definition signals_line (s : state) : list line :=
  match main_pc s with
  | MExit => if prints_signals P then [SignalsLine (nsignals (glob s))] else []
  | _ => []
  end.

Record data_ok (g : globals) : Prop := {
  nput_range : 0 <= nput g <= Z.max 0 nitems;
  nval_nput : nval g = nput g;
  buff_filled j : 0 <= j < nput g -> buff g !! j = Some j }.

Definition consumer_ok (s : state) : Prop :=
  match consumer s with
  | None => True
  | Some (CLoop i) => 0 <= i <= Z.max 0 nitems
  | Some (CAsleep i) => 0 <= i < nitems /\ tracked P = true /\ nready (glob s) = 0
  | Some (CWoken i) => 0 <= i < nitems /\ tracked P = true
  | Some (CCheck i) => 0 <= i < nitems /\ i < nput (glob s)
  | Some CDone => True
  end /\
  (consumer_early P = false -> is_Some (consumer s) -> nitems <= nput (glob s)).

Definition credit_ok (s : state) : Prop :=
  if tracked P
  then 0 <= nready (glob s) /\
       nready (glob s) + taken (consumer s) + zsum is_pending (producers s) = nput (glob s)
  else nready (glob s) = 0.

Definition producers_ok (s : state) : Prop :=
  zsum stored_by (producers s) = nput (glob s) /\
  Forall (fun p => (p.1 = PPublish -> has_publish P = true) /\
                   (p.1 = PDone -> nitems <= nput (glob s))) (producers s).

Definition main_ok (s : state) : Prop :=
  match main_pc s with
  | MCreate i => 0 <= i <= nthreads /\ Z.of_nat (length (producers s)) = i /\ consumer s = None
  | MJoin i => 0 <= i <= nthreads /\ Z.of_nat (length (producers s)) = nthreads /\
      Forall is_done (take (Z.to_nat i) (producers s)) /\
      (is_Some (consumer s) <-> consumer_early P = true)
  | MJoinConsumer => Z.of_nat (length (producers s)) = nthreads /\
      Forall is_done (producers s) /\ is_Some (consumer s)
  | MExit => Z.of_nat (length (producers s)) = nthreads /\
      Forall is_done (producers s) /\ consumer s = Some CDone
  end.

Record inv (s : state) : Prop := {
  inv_data : data_ok (glob s);
  inv_consumer : consumer_ok s;
  inv_credit : credit_ok s;
  inv_producers : producers_ok s;
  inv_main : main_ok s;
  inv_output : output s = count_lines (take (joined (main_pc s)) (producers s)) ++ signals_line s }.

Lemma inv_state0 : inv state0.
Proof.
  split; unfold consumer_ok, credit_ok, producers_ok, main_ok; simpl; try done.
  - split; simpl; lia.
  - destruct (tracked P); simpl; lia.
  - split_and!; try done || lia.
Qed.

(** Storing an item keeps the array filled. *)
Lemma data_ok_store g g' :
  data_ok g -> nput g < nitems -> buff g' = <[nput g := nval g]> (buff g) ->
  nput g' = nput g + 1 -> nval g' = nval g + 1 -> data_ok g'.
Proof.
  intros [H1 H2 H3] Hlt Hb Hp Hv. split; [lia|lia|]. intros j Hj. rewrite Hb.
  destruct (decide (j = nput g)) as [->|Hn].
  - rewrite lookup_insert_eq. by f_equal.
  - rewrite lookup_insert_ne by done. apply H3. lia.
Qed.

Lemma data_ok_same g g' :
  data_ok g -> buff g' = buff g -> nput g' = nput g -> nval g' = nval g -> data_ok g'.
Proof. intros [H1 H2 H3] Hb Hp Hv. split; rewrite ?Hb, ?Hp, ?Hv; done. Qed.

(** A section's signal changes nothing but the consumer, from blocked to
    unblocked. *)
Lemma after_section_fields s r :
  glob (after_section s r) = r.1 /\ producers (after_section s r) = producers s /\
  main_pc (after_section s r) = main_pc s /\ output (after_section s r) = output s /\
  (consumer (after_section s r) = consumer s /\
     (forall i, consumer s = Some (CAsleep i) -> r.2 = false) \/
   exists i, consumer s = Some (CAsleep i) /\ consumer (after_section s r) = Some (CWoken i)).
Proof.
  unfold after_section, cond_signal. destruct r as [g b]; simpl.
  destruct b; simpl; [|naive_solver].
  destruct (consumer s) as [[]|] eqn:E; simpl; rewrite ?E; naive_solver.
Qed.

(** The producers [main] has joined have returned, so a producer that moves is
    none of them. *)
Lemma joined_kept s k p q :
  main_ok s -> producers s !! k = Some p -> p.1 <> PDone ->
  take (joined (main_pc s)) (<[k := q]> (producers s)) = take (joined (main_pc s)) (producers s).
Proof.
  intros Hm Hk Hp. apply take_insert_ge.
  assert (Forall is_done (take (joined (main_pc s)) (producers s))) as Hd.
  { unfold main_ok in Hm. destruct (main_pc s); simpl; [done|tauto|..]; apply Forall_take; tauto. }
  destruct (decide (k < joined (main_pc s))%nat) as [Hlt|]; [|lia]. exfalso. apply Hp.
  eapply (Forall_lookup_1 is_done _ k); [done|]. by rewrite lookup_take_lt.
Qed.

Lemma producer_running s k p :
  main_ok s -> producers s !! k = Some p -> p.1 <> PDone -> main_pc s <> MExit.
Proof.
  intros Hm Hk Hp E. unfold main_ok in Hm. rewrite E in Hm. destruct Hm as (_ & Hd & _).
  apply Hp. by eapply (Forall_lookup_1 is_done _ k).
Qed.

Lemma signals_line_running s : main_pc s <> MExit -> signals_line s = [].
Proof. unfold signals_line. by destruct (main_pc s). Qed.

(** A producer that moves on leaves [main] where it was; only a producer that
    has not returned moves. *)
Lemma main_ok_insert s s' k p q :
  producers s !! k = Some p -> p.1 <> PDone -> producers s' = <[k := q]> (producers s) ->
  main_pc s' = main_pc s ->
  (consumer s' = consumer s \/ exists i, consumer s = Some (CAsleep i) /\ consumer s' = Some (CWoken i)) ->
  main_ok s -> main_ok s'.
Proof.
  intros Hk Hp Hps Hm Hc. unfold main_ok. rewrite Hps, Hm, length_insert.
  assert (forall n, Forall is_done (take n (producers s)) ->
            Forall is_done (take n (<[k := q]> (producers s)))) as Ht.
  { intros n Hn. destruct (decide (k < n)%nat).
    - exfalso. apply Hp. eapply (Forall_lookup_1 is_done _ k); [done|].
      by rewrite lookup_take_lt.
    - rewrite take_insert_ge by lia. done. }
  assert (Forall is_done (producers s) -> False) as Hall.
  { intros H. apply Hp. by eapply (Forall_lookup_1 is_done _ k). }
  destruct (main_pc s); [..|naive_solver|naive_solver].
  - intros (?&?&?). split_and!; try done || lia. destruct Hc as [->|(?&?&?)]; congruence.
  - intros (?&?&?&?). split_and!; try done || lia; try by apply Ht.
    destruct Hc as [->|(j&E1&E2)]; [done|]. rewrite E2. rewrite E1 in *. naive_solver.
Qed.

Lemma producers_ok_insert s s' k p q :
  producers_ok s -> producers s !! k = Some p ->
  producers s' = <[k := q]> (producers s) -> nput (glob s) <= nput (glob s') ->
  stored_by q - stored_by p = nput (glob s') - nput (glob s) ->
  (q.1 = PPublish -> has_publish P = true) -> (q.1 = PDone -> nitems <= nput (glob s')) ->
  producers_ok s'.
Proof.
  intros [Hs Hf] Hk Hps Hle Hst H1 H2. split.
  - rewrite Hps, (zsum_insert _ _ _ _ _ Hk). lia.
  - rewrite Hps. apply Forall_insert; [|done].
    eapply Forall_impl; [done|]. simpl. intros x [Ha Hb]. split; [done|]. intros; specialize (Hb H); lia.
Qed.

(** The credits across a producer's section that announces [b] items. *)
Lemma credit_ok_section s s' k p q r b :
  credit_ok s -> producers s !! k = Some p -> producers s' = <[k := q]> (producers s) ->
  glob s' = r.1 -> announces b (glob s) r -> (b = true -> tracked P = true) ->
  taken (consumer s') = taken (consumer s) ->
  (tracked P = true ->
     nput r.1 - nput (glob s) = (if b then 1 else 0) + is_pending q - is_pending p) ->
  credit_ok s'.
Proof.
  intros Hc Hk Hps Hg [Ha _] Hb Ht Hn. unfold credit_ok in *.
  rewrite Hps, Hg, Ht, (zsum_insert _ _ _ _ _ Hk), Ha.
  destruct (tracked P); [specialize (Hn eq_refl); destruct b; lia|].
  destruct b; [by specialize (Hb eq_refl)|]. lia.
Qed.

(** The consumer across such a section: if it was blocked and the section
    announced an item, it is not blocked any more. *)
Lemma consumer_ok_section s s' r b :
  consumer_ok s -> announces b (glob s) r -> glob s' = r.1 -> nput (glob s) <= nput r.1 ->
  (consumer s' = consumer s /\ (forall i, consumer s = Some (CAsleep i) -> r.2 = false) \/
   exists i, consumer s = Some (CAsleep i) /\ consumer s' = Some (CWoken i)) ->
  consumer_ok s'.
Proof.
  intros [Hc He] [Ha Hsig] Hg Hle [[Hcs Hno]|(i&E1&E2)]; unfold consumer_ok; rewrite Hg.
  - rewrite Hcs. split; [|intros; specialize (He H H0); lia].
    destruct (consumer s) as [[]|]; try done; [|lia].
    destruct Hc as (Hi & Ht & Hr). split_and!; try done || lia.
    destruct b; [|lia]. specialize (Hno _ eq_refl). rewrite Hsig in Hno; done.
  - rewrite E2. rewrite E1 in *. split; [tauto|]. intros Hf _. apply (Z.le_trans _ (nput (glob s))); [|done].
    apply He; [done|]. eauto.
Qed.

(** Any step of a producer is such a section. *)
Lemma producer_moves s k p q r b :
  inv s -> producers s !! k = Some p -> p.1 <> PDone -> data_ok r.1 ->
  announces b (glob s) r -> (b = true -> tracked P = true) ->
  nput (glob s) <= nput r.1 ->
  stored_by q - stored_by p = nput r.1 - nput (glob s) ->
  (tracked P = true ->
     nput r.1 - nput (glob s) = (if b then 1 else 0) + is_pending q - is_pending p) ->
  (q.1 = PPublish -> has_publish P = true) -> (q.1 = PDone -> nitems <= nput r.1) ->
  inv (with_producers (after_section s r) (<[k := q]> (producers (after_section s r)))).
Proof.
  intros [Hd Hc Hcr Hp Hm Ho] Hk Hnd Hd' Ha Hb Hle Hst Hcred Hq1 Hq2.
  destruct (after_section_fields s r) as (Eg & Eps & Em & Eo & Hcons).
  rewrite Eps. split; simpl; rewrite ?Eg, ?Eo; try done.
  - by eapply consumer_ok_section.
  - eapply credit_ok_section; try done; simpl.
    destruct Hcons as [[-> _]|(i&->&->)]; done.
  - eapply producers_ok_insert; try done; simpl; rewrite ?Eg; done.
  - eapply main_ok_insert; try done; simpl. destruct Hcons as [[-> _]|]; auto.
  - pose proof (producer_running s k p Hm Hk Hnd) as Hrun.
    rewrite Ho, Em, (joined_kept s k p q), !signals_line_running by (simpl; by rewrite ?Em). done.
Qed.

Lemma produce_step_inv k s s' : inv s -> produce_step P nitems k s = Some s' -> inv s'.
Proof.
  intros HI. pose proof HI as [Hd _ _ [_ Hp] _ _]. unfold produce_step.
  destruct (producers s !! k) as [[pc c]|] eqn:Hk; [|done].
  assert (forall q, q.1 <> PPublish -> pc <> PPublish -> pc <> PDone ->
            (q.1 = PDone -> nitems <= nput (glob s)) -> stored_by q = stored_by (pc, c) ->
            inv (with_producers s (<[k := q]> (producers s)))) as Hlocal.
  { intros q Hq1 Hpc1 Hpc2 Hq2 Hst.
    apply (producer_moves s k (pc, c) q (glob s, false) false); try done; simpl; try lia.
    - split; [simpl; lia|done].
    - intros _. unfold is_pending; simpl. destruct (q.1), pc; done || lia. }
  destruct pc; [| | |done].
  - destruct (Z_lt_dec (nput (glob s)) nitems) as [Hlt|Hge].
    + destruct (put_stores _ _ Hlt) as ([g' sg] & -> & Hb & Hn & Hv & Ha). intros [= <-].
      eapply producer_moves; try done; simpl in *; try lia.
      * by eapply data_ok_store.
      * intros E. by apply andb_true_iff in E as [? _].
      * unfold stored_by; simpl. destruct (has_publish P); simpl; lia.
      * intros ->. unfold is_pending; simpl. destruct (has_publish P); simpl; lia.
      * by destruct (has_publish P).
      * by destruct (has_publish P).
    + rewrite put_full by lia. intros [= <-]. apply Hlocal; try done. simpl; lia.
  - destruct (publish P) as [f|] eqn:Hf; [|done]. intros [= <-].
    destruct (publish_announces f (glob s) Hf) as (Ht & Eb & En & Ev & Ha).
    eapply producer_moves; try done; simpl.
    + by eapply data_ok_same.
    + lia.
    + unfold stored_by; simpl; lia.
    + unfold is_pending; simpl; lia.
  - intros [= <-]. apply Hlocal; try done. unfold stored_by; simpl; lia.
Qed.

(** The consumer's own steps change the globals only in [nready]. *)
Lemma consumer_moves s g c :
  inv s -> is_Some (consumer s) -> consumer s <> Some CDone ->
  buff g = buff (glob s) -> nput g = nput (glob s) -> nval g = nval (glob s) ->
  consumer_ok (with_consumer (with_glob s g) c) -> credit_ok (with_consumer (with_glob s g) c) ->
  inv (with_consumer (with_glob s g) c).
Proof.
  intros [Hd Hc Hcr Hp Hm Ho] Hs Hnd Eb En Ev Hc' Hcr'. split; simpl; try done.
  - by eapply data_ok_same.
  - destruct Hp as [Hp1 Hp2]. split; simpl; rewrite En; done.
  - unfold main_ok in *; simpl. destruct (main_pc s).
    + destruct Hm as (?&?&E). rewrite E in Hs. by destruct Hs.
    + destruct Hm as (?&?&?&H1&H2). split_and!; try done || lia. split; eauto.
    + destruct Hm as (?&?&?). split_and!; eauto.
    + naive_solver.
  - rewrite Ho. f_equal. rewrite !signals_line_running; [done|..]; simpl;
      intros E; unfold main_ok in Hm; rewrite E in Hm; naive_solver.
Qed.

Lemma consume_section_inv i s :
  inv s -> (consumer s = Some (CLoop i) \/ consumer s = Some (CWoken i)) -> i < nitems ->
  inv (consume_section P i s).
Proof.
  intros HI Hc Hi. pose proof HI as [Hd [Hco He] Hcr _ _ _]. unfold consume_section.
  assert (0 <= i /\ is_Some (consumer s) /\ consumer s <> Some CDone /\ taken (consumer s) = i)
    as (H0 & HS & HD & Htk).
  { destruct Hc as [E|E]; rewrite E in *; split_and!; eauto; lia. }
  specialize (fun E => He E HS).
  destruct (get_ready P i (glob s)) as [g|] eqn:Hg.
  - destruct (ready_takes _ _ _ Hg) as (Eb & En & Ev & Hr).
    pose proof (zsum_nonneg is_pending (producers s)
      ltac:(intros [[] ?]; unfold is_pending; simpl; lia)) as Hpend.
    apply consumer_moves; try done.
    + unfold consumer_ok, credit_ok in *; simpl. rewrite En. split; [split; [lia|]|auto].
      destruct (tracked P); [lia|]. destruct (consumer_early P); [tauto|]. specialize (He eq_refl). lia.
    + unfold credit_ok in *; simpl. destruct (tracked P); lia.
  - pose proof (ready_none _ _ Hg) as Hn. unfold tracked in *.
    destruct (if_not_ready P) eqn:Hnr.
    all: replace s with (with_glob s (glob s)) at 1 by by destruct s.
    all: apply consumer_moves; try done.
    all: unfold consumer_ok, credit_ok, tracked in *; simpl; rewrite ?Hnr in *; try lia.
    all: split_and!; auto; lia.
Qed.

Lemma consume_step_inv s s' : inv s -> consume_step P nitems s = Some s' -> inv s'.
Proof.
  intros HI. pose proof HI as [Hd [Hco He] Hcr _ _ _]. unfold consume_step.
  assert (s = with_glob s (glob s)) as Es by by destruct s.
  destruct (consumer s) as [[i|i|i|i|]|] eqn:Hc; try done.
  - destruct (Z.ltb_spec i nitems); intros [= <-].
    + apply consume_section_inv; auto.
    + rewrite Es. apply consumer_moves; try done; rewrite ?Hc; try done.
      * split; simpl; [done|]. intros; apply He; eauto.
      * unfold credit_ok in *; simpl. rewrite Hc in *. destruct (tracked P); [|done]. simpl in *. lia.
  - intros [= <-]. apply consume_section_inv; auto. tauto.
  - destruct Hco as [Hi1 Hi2]. unfold buff_at. rewrite (buff_filled _ Hd i) by lia. simpl.
    rewrite Z.eqb_refl. intros [= <-]. rewrite Es. apply consumer_moves; try done; rewrite ?Hc; try done.
    + split; simpl; [lia|]. intros; apply He; eauto.
    + unfold credit_ok in *; simpl. by rewrite Hc in *.
Qed.

(** All producers of a program that has some have returned: the array is
    full. *)
Lemma all_done_full s :
  producers_ok s -> Z.of_nat (length (producers s)) = nthreads ->
  Forall is_done (producers s) -> nitems <= nput (glob s).
Proof.
  intros [_ Hf] Hl Hd. destruct (producers s) as [|p l]; simpl in *; [lia|].
  apply Forall_cons in Hf as [[_ Hp] _]. apply Forall_cons in Hd as [Hd _]. by apply Hp.
Qed.

Lemma create_consumer_inv s :
  consumer s = None -> consumer_ok s -> credit_ok s ->
  (consumer_early P = false -> nitems <= nput (glob s)) ->
  consumer_ok (create_consumer s) /\ credit_ok (create_consumer s).
Proof.
  intros Hc Hco Hcr Hfull. unfold consumer_ok, credit_ok in *; simpl. rewrite Hc in *. simpl in *.
  split; [split; [lia|auto]|done].
Qed.

Lemma main_step_inv s s' : inv s -> main_step P nthreads s = Some s' -> inv s'.
Proof.
  intros [Hd Hc Hcr Hp Hm Ho]. unfold main_step.
  assert (forall s1 m, glob s1 = glob s -> producers s1 = producers s ->
            output s1 = count_lines (take (joined m) (producers s)) ++ signals_line (with_main s1 m) ->
            consumer_ok s1 /\ credit_ok s1 -> main_ok (with_main s1 m) -> inv (with_main s1 m)) as Hstay.
  { intros s1 m Eg Ep Eo [Hc1 Hcr1] Hm1. split; simpl; rewrite ?Eg; rewrite ?Ep; try done.
    destruct Hp. split; simpl; rewrite Ep, Eg; done. }
  assert (forall s1 m, m <> MExit -> glob s1 = glob s -> producers s1 = producers s ->
            output s1 = count_lines (take (joined m) (producers s)) ->
            consumer_ok s1 /\ credit_ok s1 -> main_ok (with_main s1 m) -> inv (with_main s1 m)) as Hrun.
  { intros s1 m Hm1 Eg Ep Eo H1 H2. apply Hstay; try done. by rewrite signals_line_running, app_nil_r. }
  assert (main_pc s <> MExit -> output s = count_lines (take (joined (main_pc s)) (producers s))) as Ho'.
  { intros. by rewrite Ho, signals_line_running, app_nil_r. }
  unfold main_ok in Hm. destruct (main_pc s) as [i|i| |] eqn:Epc; [..|done]; clear Ho; specialize (Ho' ltac:(done)) as Ho.
  - destruct Hm as (Hi & Hl & Hn). destruct (Z.ltb_spec i nthreads); intros [= <-].
    + split; simpl; try done.
      * unfold credit_ok in *; simpl. rewrite zsum_app. simpl. by rewrite !Z.add_0_r.
      * destruct Hp as [Hp1 Hp2]. split; simpl; [by rewrite zsum_app; simpl; rewrite !Z.add_0_r|].
        apply Forall_app; split; [done|]. repeat constructor; done.
      * unfold main_ok; simpl. rewrite length_app; simpl. split_and!; try done || lia.
    + destruct (consumer_early P) eqn:Ee; apply Hrun; try done.
      * apply create_consumer_inv; try done. congruence.
      * unfold main_ok; simpl. rewrite Ee. split_and!; try done || lia; by eauto.
      * unfold main_ok; simpl. rewrite Ee, Hn. split_and!; try done || lia; by intros [? ?].
  - destruct Hm as (Hi & Hl & Hall & Hcons). destruct (Z.ltb_spec i nthreads).
    + destruct (producers s !! Z.to_nat i) as [[[] c]|] eqn:Hk; try done. intros [= <-].
      apply Hrun; try done.
      * simpl. rewrite Ho, Z2Nat.inj_add, Nat.add_1_r by lia. simpl. rewrite (take_S_r _ _ _ Hk).
        unfold count_lines. rewrite imap_app. simpl. rewrite length_take_le by lia.
        by rewrite Nat.add_0_r, Z2Nat.id by lia.
      * unfold main_ok; simpl. split_and!; try done || lia.
        rewrite Z2Nat.inj_add, Nat.add_1_r by lia. rewrite (take_S_r _ _ _ Hk).
        apply Forall_app; split; [done|]. by repeat constructor.
    + rewrite take_ge in Hall by lia. intros [= <-].
      simpl in Ho. replace i with nthreads in Ho by lia.
      destruct (consumer_early P) eqn:Ee; apply Hrun; try done.
      * unfold main_ok; simpl. split_and!; try done. by apply Hcons.
      * apply create_consumer_inv; try done; [|intros _; by apply all_done_full].
        destruct (consumer s); [|done]. destruct Hcons as [Hcons _]. by specialize (Hcons ltac:(eauto)).
  - destruct Hm as (Hl & Hall & Hs). destruct (consumer s) as [[]|] eqn:E; try done. intros [= <-].
    apply Hstay; try (destruct (prints_signals P); done).
    unfold signals_line; simpl. destruct (prints_signals P); simpl; by rewrite Ho, ?app_nil_r.
Qed.

Lemma exec_inv w s s' : inv s -> exec P nitems nthreads w s = Some s' -> inv s'.
Proof.
  destruct w; simpl; [apply main_step_inv|apply produce_step_inv|apply consume_step_inv|].
  intros HI. pose proof HI as [_ [Hco He] Hcr _ _ _].
  destruct (consumer s) as [[]|] eqn:Hc; try done. intros [= <-].
  replace s with (with_glob s (glob s)) at 1 by by destruct s.
  apply consumer_moves; rewrite ?Hc; try done.
  - split; simpl; [tauto|]. intros; apply He; eauto.
  - unfold credit_ok in *; simpl. by rewrite Hc in *.
Qed.

Lemma reachable_inv s : rtc (step P nitems nthreads) state0 s -> inv s.
Proof.
  intros H. eapply rtc_invariant, H; [|apply inv_state0]. intros x y Hx [w Hw]. by eapply exec_inv.
Qed.

(** ** Progress *)

Definition main_weight (m : mpc) : Z :=
  match m with
  | MCreate i => 2 * (nthreads - i) + nthreads + 3
  | MJoin i => nthreads - i + 2
  | MJoinConsumer => 1
  | MExit => 0
  end.

Definition producer_weight (p : ppc * Z) : Z :=
  match p.1 with PPut => 1 | PPublish => 3 | PCount => 2 | PDone => 0 end.

Definition consumer_weight (c : option cpc) : Z :=
  match c with
  | None => 2 * Z.max 0 nitems + 1
  | Some (CLoop i) | Some (CAsleep i) | Some (CWoken i) => 2 * (Z.max 0 nitems - i) + 1
  | Some (CCheck i) => 2 * (Z.max 0 nitems - i)
  | Some CDone => 0
  end.

(** The work left: the items to store, the threads' positions. *)
Definition work_left (s : state) : Z :=
  3 * (Z.max 0 nitems - nput (glob s)) + main_weight (main_pc s) +
  zsum producer_weight (producers s) + consumer_weight (consumer s).

Lemma work_left_nonneg s : inv s -> 0 <= work_left s.
Proof.
  intros [Hd [Hc _] _ _ Hm _]. unfold work_left.
  pose proof (zsum_nonneg producer_weight (producers s)
    ltac:(intros [[] ?]; unfold producer_weight; simpl; lia)).
  destruct Hd as [Hn _ _].
  assert (0 <= main_weight (main_pc s)) by (unfold main_ok in Hm; destruct (main_pc s); simpl; lia).
  assert (0 <= consumer_weight (consumer s)).
  { destruct (consumer s) as [[]|]; simpl in *; lia. }
  lia.
Qed.

(** A producer that has not returned can always make a step, and it is work
    done. *)
Lemma produce_step_works k s p :
  inv s -> producers s !! k = Some p ->
  (p.1 <> PDone -> is_Some (produce_step P nitems k s)) /\
  forall s', produce_step P nitems k s = Some s' -> work_left s' < work_left s.
Proof.
  intros HI Hk. pose proof HI as [Hd _ _ [_ Hf] _ _]. unfold produce_step. rewrite Hk.
  assert (forall s1 q, main_pc s1 = main_pc s -> producers s1 = producers s ->
            consumer_weight (consumer s1) = consumer_weight (consumer s) ->
            producer_weight q - producer_weight p < 3 * (nput (glob s1) - nput (glob s)) ->
            work_left (with_producers s1 (<[k := q]> (producers s1))) < work_left s) as Hw.
  { intros s1 q Em Ep Ec Hlt. unfold work_left; simpl.
    rewrite Em, Ec, Ep, (zsum_insert _ _ _ _ _ Hk). lia. }
  assert (forall r, consumer_weight (consumer (after_section s r)) = consumer_weight (consumer s)) as Hcw.
  { intros r. destruct (after_section_fields s r) as (_&_&_&_&[[-> _]|(i&->&->)]); done. }
  destruct p as [[] c]; simpl.
  - destruct (Z_lt_dec (nput (glob s)) nitems) as [Hlt|Hge].
    + destruct (put_stores _ _ Hlt) as (r & -> & _ & Hn & _). split; [eauto|]. intros s' [= <-].
      destruct (after_section_fields s r) as (Eg & Eps & Em & _). apply Hw; auto.
      rewrite Eg, Hn. unfold producer_weight; destruct (has_publish P); simpl; lia.
    + rewrite put_full by lia. split; [eauto|]. intros s' [= <-]. apply Hw; auto.
      unfold producer_weight; simpl; lia.
  - assert (is_Some (publish P)) as [f Hp].
    { apply (bool_decide_eq_true_1 (is_Some (publish P))).
      apply (Forall_lookup_1 _ _ _ _ Hf Hk). done. }
    rewrite Hp. split; [eauto|]. intros s' [= <-].
    destruct (publish_announces f (glob s) Hp) as (_ & _ & En & _).
    destruct (after_section_fields s (f (glob s))) as (Eg & Eps & Em & _). apply Hw; auto.
    rewrite Eg, En. unfold producer_weight; simpl; lia.
  - split; [eauto|]. intros s' [= <-]. apply Hw; auto. unfold producer_weight; simpl; lia.
  - done.
Qed.

Lemma consume_step_works s s' :
  inv s -> consume_step P nitems s = Some s' -> work_left s' <= work_left s.
Proof.
  intros [_ [Hco _] _ _ _ _]. unfold consume_step, work_left.
  assert (forall i, taken (consumer s) = i -> 0 <= i < nitems ->
            consumer_weight (consumer s) = 2 * (Z.max 0 nitems - i) + 1 ->
            let s' := consume_section P i s in
            nput (glob s') = nput (glob s) /\ main_pc s' = main_pc s /\ producers s' = producers s /\
            consumer_weight (consumer s') <= consumer_weight (consumer s)) as Hsec.
  { intros i _ Hi Hw. unfold consume_section. destruct (get_ready P i (glob s)) eqn:Hg; simpl.
    - apply ready_takes in Hg as (_ & Hn & _). rewrite Hw. split_and!; try done. lia.
    - destruct (if_not_ready P); simpl; rewrite Hw; split_and!; try done; lia. }
  destruct (consumer s) as [[i|i|i|i|]|] eqn:Hc; try done.
  - destruct (Z.ltb_spec i nitems); intros [= <-]; [|simpl; lia].
    destruct (Hsec i) as (-> & -> & -> & ?); simpl in *; lia.
  - intros [= <-]. destruct (Hsec i) as (-> & -> & -> & ?); simpl in *; lia.
  - destruct (buff_at (glob s) i =? i); intros [= <-]; simpl; lia.
Qed.

Lemma main_step_works s s' :
  inv s -> main_step P nthreads s = Some s' -> work_left s' < work_left s.
Proof.
  intros [_ _ _ _ Hm _]. unfold main_step, work_left, main_ok in *.
  destruct (main_pc s) as [i|i| |]; [..|done].
  - destruct Hm as (Hi & _ & Hn). destruct (Z.ltb_spec i nthreads); intros [= <-].
    + simpl. rewrite zsum_app. change (zsum producer_weight [(PPut, 0)]) with 1. lia.
    + rewrite Hn. destruct (consumer_early P); simpl; rewrite ?Hn; simpl; lia.
  - destruct Hm as (Hi & Hl & _ & Hcons). destruct (Z.ltb_spec i nthreads).
    + destruct (producers s !! Z.to_nat i) as [[[] c]|]; try done. intros [= <-]. simpl. lia.
    + intros [= <-]. destruct (consumer_early P); simpl; [lia|].
      destruct (consumer s) eqn:E; [|simpl; lia].
      destruct Hcons as [Hcons _]. by specialize (Hcons ltac:(eauto)).
  - destruct (consumer s) as [[]|] eqn:E; try done. intros [= <-].
    destruct (prints_signals P); simpl; rewrite E; simpl; lia.
Qed.

Lemma exec_works w s s' :
  inv s -> exec P nitems nthreads w s = Some s' -> work_left s' <= work_left s.
Proof.
  intros HI. destruct w; simpl.
  - intros H. apply Z.lt_le_incl. by eapply main_step_works.
  - intros H. destruct (producers s !! k) as [p|] eqn:Hk.
    + apply Z.lt_le_incl. by eapply produce_step_works.
    + unfold produce_step in H. by rewrite Hk in H.
  - by apply consume_step_works.
  - destruct (consumer s) as [[]|] eqn:Hc; try done. intros [= <-]. unfold work_left. simpl. by rewrite Hc.
Qed.

(** With all producers returned the consumer is never blocked and always finds
    the next item ready. *)
Lemma consumer_progress s c :
  inv s -> Forall is_done (producers s) -> nitems <= nput (glob s) ->
  consumer s = Some c -> c <> CDone ->
  exists s', consume_step P nitems s = Some s' /\ work_left s' < work_left s.
Proof.
  intros [Hd [Hco _] Hcr _ _ _] Hall Hfull Hc Hnd.
  assert (zsum is_pending (producers s) = 0) as Hp.
  { clear -Hall. induction Hall as [|[[] n] l H]; done. }
  assert (forall i, taken (Some c) = i -> 0 <= i < nitems -> get_ready P i (glob s) <> None) as Hr.
  { intros i Ht Hi Hn%ready_none. unfold credit_ok in Hcr. rewrite Hc, Ht, Hp in Hcr.
    destruct (tracked P); lia. }
  assert (forall i, taken (Some c) = i -> 0 <= i < nitems ->
            consumer_weight (consumer s) = 2 * (Z.max 0 nitems - i) + 1 ->
            work_left (consume_section P i s) < work_left s) as Hsec.
  { intros i Ht Hi Hw. unfold consume_section. specialize (Hr i Ht Hi).
    destruct (get_ready P i (glob s)) eqn:Hg; [|done].
    apply ready_takes in Hg as (_ & Hn & _). unfold work_left. rewrite Hw. simpl. lia. }
  unfold consume_step. rewrite Hc in *. destruct c as [i|i|i|i|]; [| | | |done]; simpl in *.
  - destruct (Z.ltb_spec i nitems); eexists; (split; [reflexivity|]); [apply Hsec; simpl; lia|].
    unfold work_left; rewrite Hc; simpl; lia.
  - exfalso. unfold credit_ok in Hcr. rewrite Hp, Hc in Hcr. simpl in Hcr.
    destruct Hco as (? & Ht & ?). rewrite Ht in Hcr. lia.
  - eexists; split; [reflexivity|]. apply Hsec; simpl; lia.
  - eexists; split; [reflexivity|]. unfold work_left; rewrite Hc.
    destruct (buff_at (glob s) i =? i); simpl; lia.
Qed.

Lemma some_progress s :
  inv s -> main_pc s <> MExit ->
  exists w s', exec P nitems nthreads w s = Some s' /\ work_left s' < work_left s.
Proof.
  intros HI Hm.
  assert (Forall is_done (producers s) \/ exists k p, producers s !! k = Some p /\ p.1 <> PDone)
    as [Hall|(k & p & Hk & Hp)].
  { destruct (decide (Forall is_done (producers s))) as [H|H]; [by left|right].
    apply not_Forall_Exists in H; [|apply _]. apply Exists_exists in H as (p & Hin & Hp).
    apply list_elem_of_lookup in Hin as [k Hk]. eauto. }
  2: { destruct (produce_step_works k s p HI Hk) as [Hsome Hw].
       destruct (Hsome Hp) as [s' Hs']. exists (Producer k), s'. simpl. auto. }
  assert (forall s', main_step P nthreads s = Some s' ->
            exists w s', exec P nitems nthreads w s = Some s' /\ work_left s' < work_left s) as Hmain.
  { intros s' Hs'. exists Main, s'. split; [done|]. by eapply main_step_works. }
  pose proof HI as [_ _ _ Hps Hmo _]. unfold main_ok in Hmo. unfold main_step in Hmain.
  destruct (main_pc s) as [i|i| |]; [| | |done].
  - destruct (i <? nthreads); by eapply Hmain.
  - destruct Hmo as (Hi & Hl & _). destruct (Z.ltb_spec i nthreads); [|by eapply Hmain].
    destruct (lookup_lt_is_Some_2 (producers s) (Z.to_nat i)) as [[pc c] E]; [lia|].
    rewrite E in Hmain. pose proof (Forall_lookup_1 _ _ _ _ Hall E) as Hd.
    unfold is_done in Hd; simpl in Hd; subst pc. by eapply Hmain.
  - destruct Hmo as (Hl & _ & [c Hc]). rewrite Hc in Hmain.
    destruct (decide (c = CDone)) as [->|Hcd]; [by eapply Hmain|].
    destruct (consumer_progress s c) as (s' & Hs' & Hlt); try done; [by apply all_done_full|].
    by exists Consumer, s'.
Qed.
End Correct.

(** ** The programs *)

(** C4: In every interleaving of [prodcons2.c] to [prodcons7.c], started with
    three arguments and at least one producer, the consumer never finds a wrong
    item: the program prints only the count of each joined producer
    (and [prodcons7.c] its number of signals at the end).  The
    indices stored so far hold their own values and stay inside [buff], the
    producers' counts account for each of them, and there are never more
    threads than [count] has room for.  When [main] exits every item has been
    stored and checked and the counts it printed add up to their number. *)
Theorem mutex_prodcons_safe P argc a1 a2 nitems nthreads s :
  P ∈ programs -> main_args argc a1 a2 = Some (nitems, nthreads) -> 0 < nthreads ->
  rtc (step P nitems nthreads) state0 s ->
  output s = count_lines (take (joined nthreads (main_pc s)) (producers s)) ++ signals_line P s /\
  0 <= nput (glob s) <= MAXNITEMS /\
  (forall j, 0 <= j < nput (glob s) -> buff_at (glob s) j = j) /\
  zsum stored_by (producers s) = nput (glob s) /\
  Z.of_nat (length (producers s)) <= MAXNTHREADS /\
  (main_pc s = MExit ->
     consumer s = Some CDone /\ nput (glob s) = Z.max 0 nitems /\
     output s = count_lines (producers s) ++ signals_line P s /\ zsum snd (producers s) = Z.max 0 nitems).
Proof.
  intros HP Hargs Hn Hr. pose proof (programs_lawful P HP) as HL.
  unfold main_args in Hargs. destruct (argc =? 3); [|done]. injection Hargs as H1 H2.
  destruct (reachable_inv P nitems nthreads Hn s Hr) as [Hd _ _ Hp Hm Ho].
  pose proof Hd as [Hr1 _ Hb]. pose proof (proj1 Hp) as Hst.
  assert (Z.of_nat (length (producers s)) <= nthreads).
  { unfold main_ok in Hm. destruct (main_pc s); lia. }
  split_and!; try done; unfold MAXNITEMS, MAXNTHREADS in *; try lia.
  - intros j Hj. unfold buff_at. by rewrite Hb.
  - intros E. unfold main_ok in Hm. rewrite E in Hm, Ho. destruct Hm as (Hl & Hall & Hc).
    pose proof (all_done_full P nitems nthreads Hn s Hp Hl Hall).
    rewrite take_ge in Ho by (simpl; lia).
    assert (zsum snd (producers s) = zsum stored_by (producers s)) as ->.
    { clear -Hall. induction Hall as [|[pc c] l Hx _ IH]; [done|]. unfold is_done in Hx. simpl in *.
      subst pc. rewrite IH. unfold stored_by; simpl. lia. }
    split_and!; try done; lia.
Qed.

(** Two producers and a consumer of [prodcons6.c], run to the end. *)
Definition sched6 : list who :=
  [Main; Main; Main; Consumer; Producer 0; Producer 1; Producer 1; Producer 0; Consumer; Consumer;
   Consumer; Consumer; Producer 0; Producer 1; Producer 0; Producer 1; Main; Main; Main;
   Consumer; Main].

Lemma run_sched_reaches P nitems nthreads ws s s' :
  run_sched P nitems nthreads ws s = Some s' -> rtc (step P nitems nthreads) s s'.
Proof.
  unfold run_sched. revert s. induction ws as [|w ws IH]; simpl; intros s H; [by simplify_eq|].
  destruct (exec P nitems nthreads w s) as [s1|] eqn:E.
  - eapply rtc_l; [by exists w|]. by apply IH.
  - exfalso. clear IH E. induction ws; simpl in H; done || auto.
Qed.

Lemma mutex_prodcons_safe_witness :
  exists s, run_sched prodcons6 2 2 sched6 state0 = Some s /\ main_pc s = MExit /\
  output s = [CountLine 0 1; CountLine 1 1] /\
  output s = count_lines (take (joined 2 (main_pc s)) (producers s)) ++ signals_line prodcons6 s.
Proof.
  eexists; split; [vm_compute; reflexivity|]. split; [reflexivity|]. split; [reflexivity|].
  refine (proj1 (mutex_prodcons_safe prodcons6 3 2 2 2 2 _ _ _ _ _)).
  - apply list_elem_of_In. simpl. tauto.
  - reflexivity.
  - lia.
  - apply (run_sched_reaches prodcons6 2 2 sched6). vm_compute. reflexivity.
Defined.

(** In every reachable state of the programs (with at least one producer) in which [main] has not
    exited some thread has a step that does work (so nothing is deadlocked and
    no wakeup of the consumer is lost), no step undoes work, and the work left
    is never negative: only finitely many working steps separate any state from
    the exit. *)
Theorem mutex_prodcons_terminates P nitems nthreads s :
  P ∈ programs -> 0 < nthreads ->
  rtc (step P nitems nthreads) state0 s ->
  (main_pc s <> MExit -> exists w s', exec P nitems nthreads w s = Some s' /\
     work_left nitems nthreads s' < work_left nitems nthreads s) /\
  (forall w s', exec P nitems nthreads w s = Some s' ->
     work_left nitems nthreads s' <= work_left nitems nthreads s) /\
  0 <= work_left nitems nthreads s.
Proof.
  intros HP Hn Hr. pose proof (programs_lawful P HP) as HL.
  pose proof (reachable_inv P nitems nthreads Hn s Hr) as HI. split_and!.
  - by apply (some_progress P).
  - intros w s'. by apply (exec_works P).
  - by apply (work_left_nonneg P).
Qed.

Lemma mutex_prodcons_terminates_witness :
  exists s, run_sched prodcons5 2 1 [Main; Main; Consumer] state0 = Some s /\
  consumer s = Some (CAsleep 0) /\ main_pc s <> MExit /\
  exists w s', exec prodcons5 2 1 w s = Some s' /\ work_left 2 1 s' < work_left 2 1 s.
Proof.
  eexists; split; [vm_compute; reflexivity|]. split; [reflexivity|]. split; [discriminate|].
  refine (proj1 (mutex_prodcons_terminates prodcons5 2 1 _ _ _ _) _).
  - apply list_elem_of_In. simpl. tauto.
  - lia.
  - apply (run_sched_reaches prodcons5 2 1 [Main; Main; Consumer]). vm_compute. reflexivity.
  - discriminate.
Defined.

(** Without producers [prodcons2.c] checks an array nobody filled: started as
    [prodcons2 2 0] it reports [buff[1] = 0]. *)
Example prodcons2_no_producers :
  exists s, run_sched prodcons2 2 0 [Main; Main; Consumer; Consumer; Consumer; Consumer] state0 = Some s /\
  output s = [BuffLine 1 0].
Proof. eexists; split; vm_compute; reflexivity. Qed.
