(* ===== verification/PxSem.v ===== *)
(** * Producers and consumers over Posix semaphores: [unixipc/pxsem]

    [prodcons1.c] and [prodcons2.c] (one producer, one consumer), [prodcons3.c]
    (many producers), [prodcons4.c] (many producers and consumers) and
    [deadlock.c].  The programs share the shape of their threads and differ in how
    a thread finds its item and how it ends; a [program] collects the
    differences.  A step is one semaphore call or one access to the shared data.
    The semaphores are the system's: a value that a wait takes one from when it is
    positive.  The wrappers [Sem_*] and [Pthread_*] end the process when a call
    fails, so a run is one in which none has failed yet. *)
From S2P Require Import Prelude.

Definition NBUFF : Z := 10.
Definition MAXNTHREADS : Z := 100.

(** [shared]; where a program has a single producer (consumer) with a local [i],
    [nput] ([nget]) is that [i]. *)
Record shared := Shared {
  buff : list Z; nput : Z; nputval : Z; nget : Z; ngetval : Z;
  mutex : Z; nempty : Z; nstored : Z }.

Definition set_sems (s : shared) (mu ne ns : Z) : shared :=
  Shared (buff s) (nput s) (nputval s) (nget s) (ngetval s) mu ne ns.

(** The differences: [p_loop] and [c_loop] for threads of the form
    [for (i = 0; i < nitems; i++)], [p_posts] for producers that post [nstored]
    when they end, [mutex_first] for [deadlock.c]'s consumer. *)
Record program := MkProgram { p_loop : bool; p_posts : bool; c_loop : bool; mutex_first : bool }.

Definition prodcons2 : program := MkProgram true false true false.
Definition prodcons3 : program := MkProgram false false true false.
Definition prodcons4 : program := MkProgram false true false false.
Definition deadlock : program := MkProgram true false true true.

(** The next operation of a producer and of a consumer; [..q..] are the calls of
    a thread that has found all items done. *)
Inductive ppc :=
| P_nempty | P_mutex | P_crit | P_post_mutex | P_post_nstored | P_count
| Pq_nstored | Pq_nempty | Pq_mutex | P_done.
Inductive cpc :=
| C_nstored | C_mutex | C_crit | C_post_mutex | C_post_nempty | C_count
| Cq_nstored | Cq_mutex | C_done.

#[export] Instance ppc_eq_dec : EqDecision ppc.
Proof. solve_decision. Defined.
#[export] Instance cpc_eq_dec : EqDecision cpc.
Proof. solve_decision. Defined.

Section Threads.
Variable nbuff : Z.
Variable P : program.
Variable nitems : Z.

Definition slot (i : Z) : nat := Z.to_nat (i mod nbuff).

(** [Sem_wait] on a value. *)
Definition wait (v : Z) : option Z := if v >? 0 then Some (v - 1) else None.

(** One step of a producer with its count; [None] while it is blocked, and when it
    has returned. *)
Definition produce (pc : ppc) (count : Z) (s : shared) : option (ppc * Z * shared) :=
  match pc with
  | P_nempty =>
      if p_loop P && (nput s >=? nitems) then Some (P_done, count, s)
      else v ← wait (nempty s); Some (P_mutex, count, set_sems s (mutex s) v (nstored s))
  | P_mutex => v ← wait (mutex s); Some (P_crit, count, set_sems s v (nempty s) (nstored s))
  | P_crit =>
      if p_loop P then
        Some (P_post_mutex, count,
              Shared (<[slot (nput s) := nput s]> (buff s)) (nput s) (nputval s) (nget s) (ngetval s)
                (mutex s) (nempty s) (nstored s))
      else if nput s >=? nitems then Some (if p_posts P then Pq_nstored else Pq_nempty, count, s)
      else
        Some (P_post_mutex, count,
              Shared (<[slot (nput s) := nputval s]> (buff s)) (nput s + 1) (nputval s + 1) (nget s) (ngetval s)
                (mutex s) (nempty s) (nstored s))
  | P_post_mutex => Some (P_post_nstored, count, set_sems s (mutex s + 1) (nempty s) (nstored s))
  | P_post_nstored => Some (P_count, count, set_sems s (mutex s) (nempty s) (nstored s + 1))
  | P_count =>
      if p_loop P then
        Some (P_nempty, count,
              Shared (buff s) (nput s + 1) (nputval s) (nget s) (ngetval s) (mutex s) (nempty s) (nstored s))
      else Some (P_nempty, count + 1, s)
  | Pq_nstored => Some (Pq_nempty, count, set_sems s (mutex s) (nempty s) (nstored s + 1))
  | Pq_nempty => Some (Pq_mutex, count, set_sems s (mutex s) (nempty s + 1) (nstored s))
  | Pq_mutex => Some (P_done, count, set_sems s (mutex s + 1) (nempty s) (nstored s))
  | P_done => None
  end.

(** The consumer's two waits. *)
Definition wait_nstored (s : shared) : option shared :=
  v ← wait (nstored s); Some (set_sems s (mutex s) (nempty s) v).
Definition wait_mutex (s : shared) : option shared :=
  v ← wait (mutex s); Some (set_sems s v (nempty s) (nstored s)).

(** One step of a consumer, with the lines it prints: index and value of a wrong
    item. *)
Definition consume (pc : cpc) (count : Z) (s : shared) : option (cpc * Z * shared * list (Z * Z)) :=
  match pc with
  | C_nstored =>
      if c_loop P && (nget s >=? nitems) then Some (C_done, count, s, [])
      else s' ← (if mutex_first P then wait_mutex s else wait_nstored s); Some (C_mutex, count, s', [])
  | C_mutex => s' ← (if mutex_first P then wait_nstored s else wait_mutex s); Some (C_crit, count, s', [])
  | C_crit =>
      let v := default 0 (buff s !! slot (nget s)) in
      if c_loop P then
        Some (C_post_mutex, count, s, if negb (v =? nget s) then [(nget s, v)] else [])
      else if nget s >=? nitems then Some (Cq_nstored, count, s, [])
      else
        Some (C_post_mutex, count,
              Shared (buff s) (nput s) (nputval s) (nget s + 1) (ngetval s + 1) (mutex s) (nempty s) (nstored s),
              if negb (v =? ngetval s) then [(nget s mod nbuff, v)] else [])
  | C_post_mutex => Some (C_post_nempty, count, set_sems s (mutex s + 1) (nempty s) (nstored s), [])
  | C_post_nempty => Some (C_count, count, set_sems s (mutex s) (nempty s + 1) (nstored s), [])
  | C_count =>
      if c_loop P then
        Some (C_nstored, count,
              Shared (buff s) (nput s) (nputval s) (nget s + 1) (ngetval s) (mutex s) (nempty s) (nstored s), [])
      else Some (C_nstored, count + 1, s, [])
  | Cq_nstored => Some (Cq_mutex, count, set_sems s (mutex s) (nempty s) (nstored s + 1), [])
  | Cq_mutex => Some (C_done, count, set_sems s (mutex s + 1) (nempty s) (nstored s), [])
  | C_done => None
  end.

(** ** Runs *)

Record state := State { sh : shared; prods : list (ppc * Z); conss : list (cpc * Z); printed : list (Z * Z) }.

(** [main] up to the creation of the threads. *)
Definition main_init (nproducers nconsumers : Z) : state :=
  State (Shared (replicate (Z.to_nat nbuff) 0) 0 0 0 0 1 nbuff 0)
    (replicate (Z.to_nat nproducers) (P_nempty, 0)) (replicate (Z.to_nat nconsumers) (C_nstored, 0)) [].

Definition step_p (i : nat) (st : state) : option state :=
  '(pc, c) ← prods st !! i;
  '(pc', c', s') ← produce pc c (sh st);
  Some (State s' (<[i := (pc', c')]> (prods st)) (conss st) (printed st)).

Definition step_c (i : nat) (st : state) : option state :=
  '(pc, c) ← conss st !! i;
  '(pc', c', s', out) ← consume pc c (sh st);
  Some (State s' (prods st) (<[i := (pc', c')]> (conss st)) (printed st ++ out)).

Inductive step : state -> state -> Prop :=
| Step_p i st st' : step_p i st = Some st' -> step st st'
| Step_c i st st' : step_c i st = Some st' -> step st st'.

(** All threads have returned: [main] joins them and exits. *)
Definition finished (st : state) : Prop :=
  Forall (fun t => t.1 = P_done) (prods st) /\ Forall (fun t => t.1 = C_done) (conss st).

End Threads.

(** [main]'s arguments in [prodcons4.c]: the numbers of threads it starts. *)
Definition nthreads (n : Z) : Z := Z.min n MAXNTHREADS.

(** A schedule, for concrete runs: [inl] for a producer's step, [inr] for a consumer's. *)
Fixpoint exec (nbuff : Z) (P : program) (nitems : Z) (l : list (nat + nat)) (st : state) : option state :=
  match l with
  | [] => Some st
  | inl i :: l' => st' ← step_p nbuff P nitems i st; exec nbuff P nitems l' st'
  | inr i :: l' => st' ← step_c nbuff P nitems i st; exec nbuff P nitems l' st'
  end.

(** ** Counting threads *)

(** The sum of a weight of the program points of a list of threads. *)
Definition total {A} (w : A -> Z) (l : list (A * Z)) : Z := zsum (fun t => w t.1) l.
Definition counts {A} (l : list (A * Z)) : Z := zsum snd l.

Section Totals.
Context {A : Type}.
Implicit Types (w : A -> Z) (l : list (A * Z)).

Lemma total_insert w l i pc c t : l !! i = Some (pc, c) -> total w (<[i := t]> l) = total w l - w pc + w t.1.
Proof. intros E. by apply (zsum_insert (fun t => w t.1) _ _ _ _ E). Qed.

Lemma counts_insert l i pc c t : l !! i = Some (pc, c) -> counts (<[i := t]> l) = counts l - c + t.2.
Proof. intros E. by apply (zsum_insert snd _ _ _ _ E). Qed.

Lemma total_nonneg w l : (forall pc, 0 <= w pc) -> 0 <= total w l.
Proof. intros Hw. by apply zsum_nonneg. Qed.

Lemma total_ge w l i pc c : (forall pc, 0 <= w pc) -> l !! i = Some (pc, c) -> w pc <= total w l.
Proof. intros Hw E. by apply (zsum_ge (fun t => w t.1) _ i (pc, c)). Qed.

Lemma total_mono w w' l : (forall pc, w pc <= w' pc) -> total w l <= total w' l.
Proof. intros Hw. induction l as [|t l IH]; simpl; [done|]. specialize (Hw t.1). lia. Qed.

Lemma total_zero w l : Forall (fun t => w t.1 = 0) l -> total w l = 0.
Proof. induction 1 as [|t l E _ IH]; simpl; lia. Qed.

Lemma total_replicate w n t : total w (replicate n t) = Z.of_nat n * w t.1.
Proof. apply (zsum_replicate (fun t => w t.1)). Qed.

Lemma counts_replicate n (pc : A) : counts (replicate n (pc, 0)) = 0.
Proof. unfold counts. rewrite zsum_replicate. simpl. lia. Qed.

(** A thread alone. *)
Lemma total_single w l i pc c : length l = 1%nat -> l !! i = Some (pc, c) -> total w l = w pc.
Proof. destruct l as [|t [|]]; try done. intros _ E. destruct i; [injection E as ->; simpl; lia|done]. Qed.
End Totals.

(** ** The weights *)

(** Inside the mutex. *)
Definition pM (pc : ppc) : Z :=
  match pc with P_crit | P_post_mutex | Pq_nstored | Pq_nempty | Pq_mutex => 1 | _ => 0 end.
Definition cM (pc : cpc) : Z :=
  match pc with C_crit | C_post_mutex | Cq_nstored | Cq_mutex => 1 | _ => 0 end.
(** With an empty slot that is not used yet. *)
Definition pE (pc : ppc) : Z := match pc with P_mutex | P_crit | Pq_nstored | Pq_nempty => 1 | _ => 0 end.
(** With an item stored that is not posted yet; that is not counted yet. *)
Definition pT (pc : ppc) : Z := match pc with P_post_mutex | P_post_nstored => 1 | _ => 0 end.
Definition pI (pc : ppc) : Z := match pc with P_post_mutex | P_post_nstored | P_count => 1 | _ => 0 end.
(** Having posted [nstored] at the end; having seen that all items are stored. *)
Definition pX (pc : ppc) : Z := match pc with Pq_nempty | Pq_mutex | P_done => 1 | _ => 0 end.
Definition pQ (pc : ppc) : Z := match pc with Pq_nstored | Pq_nempty | Pq_mutex | P_done => 1 | _ => 0 end.
(** Inside the loop's body. *)
Definition pB (pc : ppc) : Z :=
  match pc with P_mutex | P_crit | P_post_mutex | P_post_nstored | P_count => 1 | _ => 0 end.
(** About to post [nstored] at the end. *)
Definition pN (pc : ppc) : Z := match pc with Pq_nstored => 1 | _ => 0 end.
(** The same for consumers: with a stored item taken from the semaphore, with an
    item fetched whose slot is not posted yet, or not counted yet. *)
Definition cS (pc : cpc) : Z := match pc with C_mutex | C_crit | Cq_nstored => 1 | _ => 0 end.
Definition cF (pc : cpc) : Z := match pc with C_post_mutex | C_post_nempty => 1 | _ => 0 end.
Definition cJ (pc : cpc) : Z := match pc with C_post_mutex | C_post_nempty | C_count => 1 | _ => 0 end.
Definition cQ (pc : cpc) : Z := match pc with Cq_nstored | Cq_mutex | C_done => 1 | _ => 0 end.
Definition cB (pc : cpc) : Z :=
  match pc with C_mutex | C_crit | C_post_mutex | C_post_nempty | C_count => 1 | _ => 0 end.

Lemma pM_nn pc : 0 <= pM pc. Proof. by destruct pc. Qed.
Lemma pE_nn pc : 0 <= pE pc. Proof. by destruct pc. Qed.
Lemma pT_nn pc : 0 <= pT pc. Proof. by destruct pc. Qed.
Lemma pI_nn pc : 0 <= pI pc. Proof. by destruct pc. Qed.
Lemma pX_nn pc : 0 <= pX pc. Proof. by destruct pc. Qed.
Lemma pQ_nn pc : 0 <= pQ pc. Proof. by destruct pc. Qed.
Lemma pB_nn pc : 0 <= pB pc. Proof. by destruct pc. Qed.
Lemma pN_nn pc : 0 <= pN pc. Proof. by destruct pc. Qed.
Lemma cM_nn pc : 0 <= cM pc. Proof. by destruct pc. Qed.
Lemma cS_nn pc : 0 <= cS pc. Proof. by destruct pc. Qed.
Lemma cF_nn pc : 0 <= cF pc. Proof. by destruct pc. Qed.
Lemma cJ_nn pc : 0 <= cJ pc. Proof. by destruct pc. Qed.
Lemma cQ_nn pc : 0 <= cQ pc. Proof. by destruct pc. Qed.
Lemma cB_nn pc : 0 <= cB pc. Proof. by destruct pc. Qed.

Section Invariant.
Variable nbuff : Z.
Variable P : program.
Variable nitems : Z.
Hypothesis Hnbuff : 0 < nbuff.
Hypothesis Horder : mutex_first P = false.
Hypothesis Hposts : p_loop P = true -> p_posts P = false.

Definition b2z (b : bool) : Z := if b then 1 else 0.

(** Items [get] to [put - 1] are in the buffer. *)
Definition buf_ok (b : list Z) (get put : Z) : Prop :=
  length b = Z.to_nat nbuff /\ forall k, get <= k < put -> b !! slot nbuff k = Some k.

(** [put] items have been stored and [get] fetched. *)
Record inv_at (st : state) (put get : Z) : Prop := {
  i_put : put = nput (sh st) + b2z (p_loop P) * total pI (prods st);
  i_get : get = nget (sh st) + b2z (c_loop P) * total cJ (conss st);
  i_mutex : mutex (sh st) + total pM (prods st) + total cM (conss st) = 1 /\ 0 <= mutex (sh st);
  i_nempty : nempty (sh st) + total pE (prods st) + (put - get) + total cF (conss st) = nbuff /\ 0 <= nempty (sh st);
  i_nstored : nstored (sh st) + total cS (conss st) + total pT (prods st) =
              put - get + b2z (p_posts P) * total pX (prods st) /\ 0 <= nstored (sh st);
  i_pQ : 0 < total pQ (prods st) -> nitems <= put;
  i_cQ : 0 < total cQ (conss st) -> nitems <= get;
  i_pN : p_posts P = false -> total pN (prods st) = 0;
  i_pB : p_loop P = true -> 0 < total pB (prods st) -> nput (sh st) < nitems;
  i_cB : c_loop P = true -> 0 < total cB (conss st) -> nget (sh st) < nitems;
  i_range : 0 <= get <= put /\ put <= Z.max 0 nitems;
  i_pval : p_loop P = false -> nputval (sh st) = nput (sh st);
  i_cval : c_loop P = false -> ngetval (sh st) = nget (sh st);
  i_buf : buf_ok (buff (sh st)) get put;
  i_printed : printed st = [];
  i_psingle : p_loop P = true -> length (prods st) = 1%nat;
  i_csingle : c_loop P = true -> length (conss st) = 1%nat;
  i_pcounts : p_loop P = false -> counts (prods st) + total pI (prods st) = put;
  i_ccounts : c_loop P = false -> counts (conss st) + total cJ (conss st) = get }.

Definition inv (st : state) : Prop := exists put get, inv_at st put get.

(** The weights of the thread that moves are part of the totals. *)
Ltac weights_p E :=
  pose proof (total_ge pM _ _ _ _ pM_nn E); pose proof (total_ge pE _ _ _ _ pE_nn E);
  pose proof (total_ge pT _ _ _ _ pT_nn E); pose proof (total_ge pI _ _ _ _ pI_nn E);
  pose proof (total_ge pX _ _ _ _ pX_nn E); pose proof (total_ge pQ _ _ _ _ pQ_nn E);
  pose proof (total_ge pB _ _ _ _ pB_nn E); pose proof (total_ge pN _ _ _ _ pN_nn E).
Ltac weights_c E :=
  pose proof (total_ge cM _ _ _ _ cM_nn E); pose proof (total_ge cS _ _ _ _ cS_nn E);
  pose proof (total_ge cF _ _ _ _ cF_nn E); pose proof (total_ge cJ _ _ _ _ cJ_nn E);
  pose proof (total_ge cQ _ _ _ _ cQ_nn E); pose proof (total_ge cB _ _ _ _ cB_nn E).
Ltac weights_nn st :=
  pose proof (total_nonneg pM (prods st) pM_nn); pose proof (total_nonneg pE (prods st) pE_nn);
  pose proof (total_nonneg pT (prods st) pT_nn); pose proof (total_nonneg pI (prods st) pI_nn);
  pose proof (total_nonneg pX (prods st) pX_nn); pose proof (total_nonneg pQ (prods st) pQ_nn);
  pose proof (total_nonneg pB (prods st) pB_nn);
  pose proof (total_nonneg cM (conss st) cM_nn); pose proof (total_nonneg cS (conss st) cS_nn);
  pose proof (total_nonneg cF (conss st) cF_nn); pose proof (total_nonneg cJ (conss st) cJ_nn);
  pose proof (total_nonneg cQ (conss st) cQ_nn); pose proof (total_nonneg cB (conss st) cB_nn).

(** The equations and bounds of a state after a step of thread [E]. *)
Ltac bool_facts :=
  repeat match goal with
  | H : p_loop P = _ |- context [p_loop P] => rewrite H
  | H : p_posts P = _ |- context [p_posts P] => rewrite H
  | H : c_loop P = _ |- context [c_loop P] => rewrite H
  end.
Ltac after_step E :=
  split; simpl; rewrite ?(total_insert _ _ _ _ _ _ E), ?(counts_insert _ _ _ _ _ E), ?length_insert; bool_facts;
  simpl; try done; try lia; try (intros; lia); try (split; lia).

Lemma wait_some v v' : wait v = Some v' -> 0 < v /\ v' = v - 1.
Proof. unfold wait. destruct (v >? 0) eqn:E; [|done]. intros [= <-]. lia. Qed.

(** Storing the item behind the last one. *)
Lemma buf_ok_put b get put :
  buf_ok b get put -> 0 <= get <= put -> put - get < nbuff -> buf_ok (<[slot nbuff put := put]> b) get (put + 1).
Proof.
  intros [Hl Hb] Hr Hlt. split; [by rewrite length_insert|]. intros k Hk.
  assert (slot nbuff put < length b)%nat.
  { unfold slot. rewrite Hl. apply Z2Nat.inj_lt; [apply Z.mod_pos_bound; lia|lia|apply Z.mod_pos_bound; lia]. }
  destruct (decide (k = put)) as [->|Hne]; [by rewrite list_lookup_insert_eq|].
  rewrite list_lookup_insert_ne; [apply Hb; lia|]. unfold slot. intros Es.
  pose proof (Z.mod_pos_bound put nbuff Hnbuff). pose proof (Z.mod_pos_bound k nbuff Hnbuff).
  assert (put mod nbuff = k mod nbuff) as Em by (apply Z2Nat.inj; tauto).
  pose proof (Z.div_mod put nbuff ltac:(lia)) as D1. pose proof (Z.div_mod k nbuff ltac:(lia)) as D2.
  rewrite <- Em in D2. set (d := put / nbuff - k / nbuff).
  assert (put - k = nbuff * d) as Ed by (unfold d; lia).
  destruct (Z.le_gt_cases d 0); [|assert (1 <= d) by lia]; nia.
Qed.

Lemma buf_ok_get b get put : buf_ok b get put -> buf_ok b (get + 1) put.
Proof. intros [Hl Hb]. split; [done|]. intros k Hk. apply Hb. lia. Qed.

(** A consumer with a stored item finds it, unless all are fetched. *)
Lemma item_there st put get :
  inv_at st put get -> 1 <= total cS (conss st) -> get < nitems -> get < put.
Proof.
  intros H HS Hg. destruct H as [_ _ _ _ [H5 H5'] H6 _ _ _ _ _ _ _ _ _ _ _ _ _].
  pose proof (total_nonneg pT (prods st) pT_nn). pose proof (total_nonneg pX (prods st) pX_nn).
  pose proof (total_mono pX pQ (prods st) ltac:(by intros [])).
  destruct (p_posts P); simpl in H5; [|lia]. destruct (Z.eq_dec (total pX (prods st)) 0); lia.
Qed.

Lemma buf_ok_read b get put : buf_ok b get put -> get < put -> default 0 (b !! slot nbuff get) = get.
Proof. intros [_ Hb] Hlt. by rewrite Hb by lia. Qed.

Lemma step_p_inv i st st' : inv st -> step_p nbuff P nitems i st = Some st' -> inv st'.
Proof.
  intros (put & get & H). unfold step_p. destruct (prods st !! i) as [[pc c]|] eqn:E; [|done]. simpl.
  destruct (produce nbuff P nitems pc c (sh st)) as [[[pc' c'] s']|] eqn:Ep; [|done]. simpl. intros [= <-].
  destruct H as [H1 H2 H3 H4 H5 H6 H7 HN H8 H9 H10 H11 H12 H13 H14 H15 H16 H17 H18].
  weights_nn st. weights_p E.
  assert (Hs : p_loop P = true -> total pI (prods st) = pI pc /\ total pB (prods st) = pB pc).
  { intros. split; eapply total_single; (try by apply H15); done. }
  destruct (p_loop P) eqn:Epl; [rewrite Hposts in * by done; destruct (Hs eq_refl) as [HsI HsB]|];
    destruct (p_posts P) eqn:Epp; try (by specialize (Hposts eq_refl)); simpl in H1, H5;
    try (specialize (HN eq_refl)).
  all: destruct pc; simpl in Ep; rewrite ?Epl, ?Epp in Ep; simpl in Ep; cbn [pM pE pT pI pX pQ pB pN] in *;
    try (destruct (_ >=? _) eqn:Et); try (destruct (wait _) as [v|] eqn:Ew; [|done]; apply wait_some in Ew as [? ->]);
    try (injection Ep as <- <- <-); try solve [exists put, get; after_step E].
  - assert (nput (sh st) = put) as Ei by lia. exists (put + 1), get. after_step E.
    rewrite Ei. apply buf_ok_put; [done|lia|]. simpl in *. lia.
  - assert (nput (sh st) = put) as Ei by lia. exists (put + 1), get. rewrite H11 in * by done. after_step E.
    rewrite Ei. apply buf_ok_put; [done|lia|]. simpl in *. lia.
  - assert (nput (sh st) = put) as Ei by lia. exists (put + 1), get. rewrite H11 in * by done. after_step E.
    rewrite Ei. apply buf_ok_put; [done|lia|]. simpl in *. lia.
Qed.

Lemma step_c_inv i st st' : inv st -> step_c nbuff P nitems i st = Some st' -> inv st'.
Proof.
  intros (put & get & H). pose proof (item_there _ _ _ H) as Hitem. unfold step_c.
  destruct (conss st !! i) as [[pc c]|] eqn:E; [|done]. simpl.
  destruct (consume nbuff P nitems pc c (sh st)) as [[[[pc' c'] s'] out]|] eqn:Ep; [|done]. simpl. intros [= <-].
  destruct H as [H1 H2 H3 H4 H5 H6 H7 HN H8 H9 H10 H11 H12 H13 H14 H15 H16 H17 H18].
  weights_nn st. weights_c E.
  assert (Hs : c_loop P = true -> total cJ (conss st) = cJ pc /\ total cB (conss st) = cB pc).
  { intros. split; eapply total_single; (try by apply H16); done. }
  destruct (c_loop P) eqn:Ecl; [destruct (Hs eq_refl) as [HsI HsB]|]; simpl in H2.
  all: destruct pc; simpl in Ep; rewrite ?Ecl, ?Horder in Ep; unfold wait_nstored, wait_mutex in Ep; simpl in Ep; cbn [cM cS cF cJ cQ cB] in *;
    try (destruct (_ >=? _) eqn:Et); try (destruct (wait _) as [v|] eqn:Ew; [|done]; apply wait_some in Ew as [? ->]);
    try (injection Ep as <- <- <- <-); rewrite ?app_nil_r; try solve [exists put, get; after_step E].
  - assert (nget (sh st) = get) as Ei by lia. assert (get < put) as Hlt by (apply Hitem; lia).
    rewrite Ei, (buf_ok_read _ _ _ H13 Hlt), Z.eqb_refl. simpl. rewrite app_nil_r. exists put, (get + 1). after_step E.
    by apply buf_ok_get.
  - assert (nget (sh st) = get) as Ei by lia. assert (get < put) as Hlt by (apply Hitem; lia).
    rewrite H12, Ei, (buf_ok_read _ _ _ H13 Hlt), Z.eqb_refl by done. simpl. rewrite app_nil_r.
    exists put, (get + 1). rewrite Ei in *. after_step E. by apply buf_ok_get.
Qed.

Lemma px_init_inv np nc :
  0 <= np -> 0 <= nc -> (p_loop P = true -> np = 1) -> (c_loop P = true -> nc = 1) ->
  inv (main_init nbuff np nc).
Proof.
  intros Hp Hc Hpl Hcl. exists 0, 0. split; simpl; rewrite ?total_replicate, ?counts_replicate, ?length_replicate; simpl;
    try done; try lia.
  - split; [by rewrite length_replicate|]. intros k Hk. lia.
  - intros E. by rewrite (Hpl E).
  - intros E. by rewrite (Hcl E).
Qed.

Lemma px_reachable_inv np nc st :
  0 <= np -> 0 <= nc -> (p_loop P = true -> np = 1) -> (c_loop P = true -> nc = 1) ->
  rtc (step nbuff P nitems) (main_init nbuff np nc) st -> inv st.
Proof.
  intros Hp Hc Hpl Hcl. apply rtc_invariant; [|by apply px_init_inv].
  intros x y Hx Hst. destruct Hst as [i x y E|i x y E]; [exact (step_p_inv i x y Hx E)|exact (step_c_inv i x y Hx E)].
Qed.

End Invariant.

(** ** Progress and termination *)

Lemma pick {A} (f : A -> bool) (l : list (A * Z)) :
  (exists i pc c, l !! i = Some (pc, c) /\ f pc = true) \/ Forall (fun t => f t.1 = false) l.
Proof.
  induction l as [|[pc c] l [(i & pc' & c' & E & Hf)|IH]]; [by right|left; by exists (S i), pc', c'|].
  destruct (f pc) eqn:Ef; [left; by exists 0%nat, pc, c|right; by constructor].
Qed.

(** Program points from which a thread can always go on. *)
Definition p_free (pc : ppc) : bool := match pc with P_nempty | P_mutex | P_done => false | _ => true end.
Definition c_free (pc : cpc) : bool := match pc with C_nstored | C_mutex | C_done => false | _ => true end.

Definition pW (pc : ppc) : Z :=
  match pc with
  | P_nempty => 7 | P_mutex => 6 | P_crit => 5 | P_post_mutex => 10 | P_post_nstored => 9 | P_count => 8
  | Pq_nstored => 4 | Pq_nempty => 3 | Pq_mutex => 2 | P_done => 0
  end.
Definition cW (pc : cpc) : Z :=
  match pc with
  | C_nstored => 7 | C_mutex => 6 | C_crit => 5 | C_post_mutex => 10 | C_post_nempty => 9 | C_count => 8
  | Cq_nstored => 4 | Cq_mutex => 3 | C_done => 0
  end.

Section Progress.
Variable nbuff : Z.
Variable P : program.
Variable nitems : Z.
Hypothesis Hnbuff : 0 < nbuff.
Hypothesis Horder : mutex_first P = false.
Hypothesis Hposts : p_loop P = true -> p_posts P = false.
Hypothesis Hends : p_posts P = true \/ c_loop P = true.

Definition can_step (st : state) : Prop := exists st', step nbuff P nitems st st'.

Lemma can_p st i pc c :
  prods st !! i = Some (pc, c) -> produce nbuff P nitems pc c (sh st) <> None -> can_step st.
Proof.
  intros E Hs. destruct (produce _ _ _ _ _ _) as [[[pc' c'] s']|] eqn:Ep; [|done]. eexists. apply (Step_p _ _ _ i). unfold step_p. rewrite E. simpl. by rewrite Ep.
Qed.

Lemma can_c st i pc c :
  conss st !! i = Some (pc, c) -> consume nbuff P nitems pc c (sh st) <> None -> can_step st.
Proof.
  intros E Hs. destruct (consume _ _ _ _ _ _) as [[[[pc' c'] s'] o]|] eqn:Ep; [|done]. eexists. apply (Step_c _ _ _ i). unfold step_c. rewrite E. simpl. by rewrite Ep.
Qed.

Lemma wait_pos v : 0 < v -> wait v = Some (v - 1).
Proof. intros. unfold wait. by replace (v >? 0) with true by lia. Qed.

Lemma p_free_step st i pc c : prods st !! i = Some (pc, c) -> p_free pc = true -> can_step st.
Proof.
  intros E Hf. destruct pc; try done; (eapply can_p; [exact E|]; simpl);
    repeat match goal with |- context [if ?b then _ else _] => destruct b end; discriminate.
Qed.

Lemma c_free_step st i pc c : conss st !! i = Some (pc, c) -> c_free pc = true -> can_step st.
Proof.
  intros E Hf. destruct pc; try done; (eapply can_c; [exact E|]; simpl);
    repeat match goal with |- context [if ?b then _ else _] => destruct b end; discriminate.
Qed.

(** Where every thread is when none is free to go on: at its first wait, or done. *)
Definition p_first (pc : ppc) : bool := match pc with P_nempty => true | _ => false end.
Definition c_first (pc : cpc) : bool := match pc with C_nstored => true | _ => false end.

Lemma blocked_shape st :
  inv nbuff P nitems st ->
  can_step st \/
  (Forall (fun t => t.1 = P_nempty \/ t.1 = P_done) (prods st) /\
   Forall (fun t => t.1 = C_nstored \/ t.1 = C_done) (conss st)).
Proof.
  intros (put & get & H). destruct (pick p_free (prods st)) as [(i & pc & c & E & Hf)|Hp]; [left; by eapply p_free_step|].
  destruct (pick c_free (conss st)) as [(i & pc & c & E & Hf)|Hc]; [left; by eapply c_free_step|].
  assert (mutex (sh st) = 1) as Hm.
  { destruct (i_mutex _ _ _ _ _ _ H) as [Hm _].
    rewrite (total_zero pM), (total_zero cM) in Hm; [lia|eapply Forall_impl; [exact Hc|]|eapply Forall_impl; [exact Hp|]];
      intros [[] ?]; done. }
  destruct (pick (fun pc => match pc with P_mutex => true | _ => false end) (prods st)) as [(i & pc & c & E & Hf)|Hp'].
  { left. destruct pc; try done. eapply can_p; [exact E|]. simpl. rewrite Hm. discriminate. }
  destruct (pick (fun pc => match pc with C_mutex => true | _ => false end) (conss st)) as [(i & pc & c & E & Hf)|Hc'].
  { left. destruct pc; try done. eapply can_c; [exact E|]. simpl. rewrite Horder. unfold wait_mutex. rewrite Hm. discriminate. }
  right. split.
  - clear -Hp Hp'. induction Hp as [|[pc c] l E _ IH]; [constructor|]. apply Forall_cons in Hp' as [E' Hp'].
    constructor; [destruct pc; auto; done|by apply IH].
  - clear -Hc Hc'. induction Hc as [|[pc c] l E _ IH]; [constructor|]. apply Forall_cons in Hc' as [E' Hc'].
    constructor; [destruct pc; auto; done|by apply IH].
Qed.

(** Threads that wait or are done weigh nothing. *)
Lemma p_resting w l :
  Forall (fun t => t.1 = P_nempty \/ t.1 = P_done) l -> w P_nempty = 0 -> w P_done = 0 -> total w l = 0.
Proof. intros HF H1 H2. apply total_zero. eapply Forall_impl; [exact HF|]. intros [pc c] [->| ->]; done. Qed.

Lemma c_resting w l :
  Forall (fun t => t.1 = C_nstored \/ t.1 = C_done) l -> w C_nstored = 0 -> w C_done = 0 -> total w l = 0.
Proof. intros HF H1 H2. apply total_zero. eapply Forall_impl; [exact HF|]. intros [pc c] [->| ->]; done. Qed.

(** If one kind of threads is done, its last post or its end is counted. *)
Lemma all_done_p w l : l <> [] -> Forall (fun t => t.1 = P_done) l -> w P_done = 1 -> 0 < total w l.
Proof.
  intros Hne HF Hw. destruct HF as [|t l E HF]; [done|]. simpl. rewrite E, Hw.
  enough (0 <= total w l) by lia. clear -HF Hw. induction HF as [|t' l E _ IH]; simpl; [done|]. rewrite E. lia.
Qed.
Lemma all_done_c w l : l <> [] -> Forall (fun t => t.1 = C_done) l -> w C_done = 1 -> 0 < total w l.
Proof.
  intros Hne HF Hw. destruct HF as [|t l E HF]; [done|]. simpl. rewrite E, Hw.
  enough (0 <= total w l) by lia. clear -HF Hw. induction HF as [|t' l E _ IH]; simpl; [done|]. rewrite E. lia.
Qed.

Lemma first_or_done {A} (a b : A) (f : A -> bool) l :
  Forall (fun t : A * Z => t.1 = a \/ t.1 = b) l -> f a = true -> f b = false ->
  (exists i c, l !! i = Some (a, c)) \/ Forall (fun t => t.1 = b) l.
Proof.
  intros HF Ha Hb. destruct (pick f l) as [(i & pc & c & E & Hf)|Hn].
  - left. exists i, c. apply (Forall_lookup_1 _ _ _ _ HF) in E as Hx. simpl in Hx. destruct Hx as [->| ->]; congruence.
  - right. clear -HF Hn Ha. induction HF as [|[pc c] l E _ IH]; [constructor|]. apply Forall_cons in Hn as [En Hn].
    constructor; [simpl in *; destruct E; congruence|by apply IH].
Qed.

Lemma px_progress st :
  inv nbuff P nitems st -> prods st <> [] -> conss st <> [] -> finished st \/ can_step st.
Proof.
  intros Hinv Hnp Hnc. destruct (blocked_shape st Hinv) as [?|[Hp Hc]]; [by right|].
  destruct Hinv as (put & get & H). destruct H as [H1 H2 _ [H4 _] [H5 H5'] H6 H7 _ H8 H9 H10 _ _ _ _ _ _ _ _].
  rewrite (p_resting pI), (p_resting pE), (p_resting pT), (c_resting cJ), (c_resting cF), (c_resting cS) in * by done.
  pose proof (total_nonneg pX (prods st) pX_nn).
  pose proof (first_or_done P_nempty P_done p_first _ Hp eq_refl eq_refl) as Hpf.
  pose proof (first_or_done C_nstored C_done c_first _ Hc eq_refl eq_refl) as Hcf.
  destruct Hpf as [(i & c & Ei)|Hpd], Hcf as [(j & d & Ej)|Hcd].
  - right. destruct (Z.le_gt_cases (nempty (sh st)) 0) as [Hle|Hgt].
    + eapply can_c; [exact Ej|]. simpl. rewrite Horder. unfold wait_nstored.
      assert (0 < nstored (sh st)) by (destruct (p_posts P); simpl in *; lia).
      rewrite wait_pos by done. destruct (_ && _); discriminate.
    + eapply can_p; [exact Ei|]. simpl. rewrite wait_pos by done. destruct (_ && _); discriminate.
  - right. pose proof (all_done_c cQ _ Hnc Hcd eq_refl). eapply can_p; [exact Ei|]. simpl.
    rewrite wait_pos by lia. destruct (_ && _); discriminate.
  - right. pose proof (all_done_p pQ _ Hnp Hpd eq_refl). pose proof (all_done_p pX _ Hnp Hpd eq_refl).
    eapply can_c; [exact Ej|]. simpl. rewrite Horder. unfold wait_nstored.
    destruct Hends as [Hpp|Hcl].
    + rewrite Hpp in H5. simpl in H5. rewrite wait_pos by lia. destruct (_ && _); discriminate.
    + destruct (c_loop P && (nget (sh st) >=? nitems)) eqn:Et; [discriminate|]. rewrite Hcl in Et. simpl in Et.
      rewrite wait_pos; [discriminate|]. destruct (p_posts P); simpl in *; lia.
  - left. by split.
Qed.

(** What is left to do. *)
Definition work (st : state) : Z :=
  8 * (Z.max 0 nitems - (nput (sh st) + b2z (p_loop P) * total pI (prods st))) +
  8 * (Z.max 0 nitems - (nget (sh st) + b2z (c_loop P) * total cJ (conss st))) +
  total pW (prods st) + total cW (conss st).

Lemma pW_nn pc : 0 <= pW pc. Proof. by destruct pc. Qed.
Lemma cW_nn pc : 0 <= cW pc. Proof. by destruct pc. Qed.

Lemma work_nonneg st : inv nbuff P nitems st -> 0 <= work st.
Proof.
  intros (put & get & [H1 H2 _ _ _ _ _ _ _ _ H10 _ _ _ _ _ _ _ _]). unfold work. rewrite <- H1, <- H2.
  pose proof (total_nonneg pW (prods st) pW_nn). pose proof (total_nonneg cW (conss st) cW_nn). lia.
Qed.

Lemma step_works st st' : step nbuff P nitems st st' -> work st' < work st.
Proof.
  intros [i x y E|i x y E].
  - unfold step_p in E. destruct (prods x !! i) as [[pc c]|] eqn:Ei; [|done]. simpl in E.
    destruct (produce _ _ _ pc c (sh x)) as [[[pc' c'] s']|] eqn:Ep; [|done]. simpl in E. injection E as <-.
    unfold work; simpl. rewrite !(total_insert _ _ _ _ _ _ Ei). simpl.
    destruct pc; simpl in Ep; destruct (p_loop P) eqn:Epl; simpl in *;
      try (destruct (_ >=? _)); try (destruct (wait _)); simplify_eq/=; try (destruct (p_posts P)); simpl; lia.
  - unfold step_c in E. destruct (conss x !! i) as [[pc c]|] eqn:Ei; [|done]. simpl in E.
    destruct (consume _ _ _ pc c (sh x)) as [[[[pc' c'] s'] o]|] eqn:Ep; [|done]. simpl in E. injection E as <-.
    unfold work; simpl. rewrite !(total_insert _ _ _ _ _ _ Ei). simpl.
    destruct pc; simpl in Ep; destruct (c_loop P) eqn:Epl; rewrite ?Horder in Ep; unfold wait_nstored, wait_mutex in Ep; simpl in *;
      try (destruct (_ >=? _)); try (destruct (wait _)); simplify_eq/=; simpl; lia.
Qed.

(** At the end all items are stored and fetched, and counted once. *)
Lemma finished_all st put get :
  inv_at nbuff P nitems st put get -> finished st -> prods st <> [] -> conss st <> [] ->
  put = Z.max 0 nitems /\ get = Z.max 0 nitems /\
  (p_loop P = false -> counts (prods st) = Z.max 0 nitems) /\ (c_loop P = false -> counts (conss st) = Z.max 0 nitems).
Proof.
  intros H [Hpd Hcd] Hnp Hnc. destruct H as [_ _ _ _ _ H6 H7 _ _ _ H10 _ _ _ _ _ _ H17 H18].
  pose proof (all_done_p pQ _ Hnp Hpd eq_refl). pose proof (all_done_c cQ _ Hnc Hcd eq_refl).
  assert (put = Z.max 0 nitems /\ get = Z.max 0 nitems) as [-> ->] by lia. split_and!; [done|done|..].
  - intros E. rewrite <- (H17 E), (total_zero pI); [lia|]. eapply Forall_impl; [exact Hpd|]. intros t Et. by rewrite Et.
  - intros E. rewrite <- (H18 E), (total_zero cJ); [lia|]. eapply Forall_impl; [exact Hcd|]. intros t Et. by rewrite Et.
Qed.

End Progress.

(** ** The programs *)

(** The programs with the threads [main] starts. *)
Definition runs (P : program) (np nc : Z) : Prop :=
  (P = prodcons2 /\ np = 1 /\ nc = 1) \/ (P = prodcons3 /\ 0 <= np /\ nc = 1) \/ (P = prodcons4 /\ 0 <= np /\ 0 <= nc).

Lemma runs_inv P np nc nitems st :
  runs P np nc -> rtc (step NBUFF P nitems) (main_init NBUFF np nc) st -> inv NBUFF P nitems st.
Proof.
  intros HP Hst. destruct HP as [(-> & -> & ->)|[(-> & ? & ->)|(-> & ? & ?)]];
    (eapply px_reachable_inv; [..|exact Hst]); done.
Qed.

Lemma runs_threads P np nc nitems st :
  rtc (step NBUFF P nitems) (main_init NBUFF np nc) st ->
  length (prods st) = Z.to_nat np /\ length (conss st) = Z.to_nat nc.
Proof.
  apply (rtc_invariant _ (fun st => length (prods st) = Z.to_nat np /\ length (conss st) = Z.to_nat nc));
    [|simpl; by rewrite !length_replicate].
  intros x y Hl Hst. destruct Hst as [i x y E|i x y E]; destruct Hl as [Hp Hc].
  - unfold step_p in E. destruct (prods x !! i) as [[pc c]|]; [|done]. simpl in E.
    destruct (produce _ _ _ _ _ _) as [[[? ?] ?]|]; [|done]. simpl in E. injection E as <-. simpl. by rewrite length_insert.
  - unfold step_c in E. destruct (conss x !! i) as [[pc c]|]; [|done]. simpl in E.
    destruct (consume _ _ _ _ _ _) as [[[[? ?] ?] ?]|]; [|done]. simpl in E. injection E as <-. simpl. by rewrite length_insert.
Qed.

(** C19: Safety of the Posix-semaphore programs: in every interleaving of any number of
    producers and consumers ([prodcons2.c]: one each, [prodcons3.c]: one
    consumer), no consumer finds a wrong item, at most one thread is inside the
    mutex, the items stored and not yet fetched are in their slots and are at most
    [NBUFF], and no item beyond [nitems] is stored. *)
Theorem pxsem_prodcons_safe (P : program) (np nc nitems : Z) (st : state) :
  runs P np nc -> rtc (step NBUFF P nitems) (main_init NBUFF np nc) st ->
  printed st = [] /\ total pM (prods st) + total cM (conss st) <= 1 /\
  exists put get, 0 <= get <= put /\ put - get <= NBUFF /\ put <= Z.max 0 nitems /\
    (forall k, get <= k < put -> buff (sh st) !! slot NBUFF k = Some k) /\
    (p_loop P = false -> nput (sh st) = put) /\ (c_loop P = false -> nget (sh st) = get).
Proof.
  intros HP Hst. destruct (runs_inv _ _ _ _ _ HP Hst) as (put & get & H).
  destruct H as [H1 H2 H3 H4 _ _ _ _ _ _ H10 _ _ [_ Hb] H14 _ _ _ _].
  pose proof (total_nonneg pE (prods st) pE_nn). pose proof (total_nonneg cF (conss st) cF_nn).
  split; [done|]. split; [lia|]. exists put, get. split; [lia|]. split; [lia|]. split; [lia|]. split; [done|].
  split; intros E; rewrite E in *; simpl in *; lia.
Qed.

(** The programs end: with at least one producer and one consumer, until all threads
    have returned some thread can go on (no deadlock, and every consumer is let
    go at the end), every step makes what is left to do smaller and it is never
    negative, so every run ends; and then all items have been stored and fetched,
    and the counts of the producers and of the consumers add up to [nitems]. *)
Theorem pxsem_prodcons_terminates (P : program) (np nc nitems : Z) (st : state) :
  runs P np nc -> 1 <= np -> 1 <= nc -> rtc (step NBUFF P nitems) (main_init NBUFF np nc) st ->
  (finished st \/ exists st', step NBUFF P nitems st st') /\
  (forall st', step NBUFF P nitems st st' -> 0 <= work P nitems st' < work P nitems st) /\
  (finished st ->
     (p_loop P = false -> counts (prods st) = Z.max 0 nitems) /\
     (c_loop P = false -> counts (conss st) = Z.max 0 nitems) /\
     (c_loop P = true -> nget (sh st) = Z.max 0 nitems)).
Proof.
  intros HP Hnp Hnc Hst. pose proof (runs_inv _ _ _ _ _ HP Hst) as Hinv.
  destruct (runs_threads _ _ _ _ _ Hst) as [Lp Lc].
  assert (prods st <> []) as Np by (intros E; rewrite E in Lp; simpl in Lp; lia).
  assert (conss st <> []) as Nc by (intros E; rewrite E in Lc; simpl in Lc; lia).
  assert (mutex_first P = false /\ (p_loop P = true -> p_posts P = false) /\ (p_posts P = true \/ c_loop P = true))
    as (Ho & Hpo & He).
  { destruct HP as [(-> & _)|[(-> & _)|(-> & _)]]; simpl; auto. }
  split_and!.
  - by apply px_progress.
  - intros st' Hs. split; [|by apply (step_works NBUFF)]. apply (work_nonneg NBUFF).
    eapply runs_inv; [exact HP|]. eapply rtc_r; [exact Hst|exact Hs].
  - intros Hfin. destruct Hinv as (put & get & H).
    destruct (finished_all _ _ _ _ _ _ H Hfin Np Nc) as (E1 & E2 & E3 & E4). split_and!; [done|done|].
    intros Ec. destruct H as [_ H2 _ _ _ _ _ _ _ _ _ _ _ _ _ _ _ _ _]. rewrite (total_zero cJ) in H2; [lia|].
    destruct Hfin as [_ Hcd]. eapply Forall_impl; [exact Hcd|]. intros t Et. by rewrite Et.
Qed.

(** A concrete run of [exec] is a run. *)
Lemma exec_rtc nbuff P nitems l : forall st st', exec nbuff P nitems l st = Some st' -> rtc (step nbuff P nitems) st st'.
Proof.
  induction l as [|[i|i] l IH]; intros st st' E; simpl in E; [injection E as <-; constructor|..].
  - destruct (step_p nbuff P nitems i st) as [st1|] eqn:Es; [|done]. eapply rtc_l; [by eapply Step_p|by apply IH].
  - destruct (step_c nbuff P nitems i st) as [st1|] eqn:Es; [|done]. eapply rtc_l; [by eapply Step_c|by apply IH].
Qed.

(** Two producers and two consumers with three items. *)
Definition demo_schedule : list (nat + nat) :=
  replicate 6 (inl 0%nat) ++ replicate 6 (inl 1%nat) ++ replicate 6 (inr 1%nat) ++ replicate 4 (inl 0%nat).

Lemma pxsem_prodcons_safe_witness :
  exists st, exec NBUFF prodcons4 3 demo_schedule (main_init NBUFF 2 2) = Some st /\ printed st = [].
Proof.
  eexists. split; [vm_compute; reflexivity|].
  eapply (pxsem_prodcons_safe prodcons4 2 2 3); [right; right; split; [reflexivity|lia]|].
  apply (exec_rtc NBUFF prodcons4 3 demo_schedule). vm_compute. reflexivity.
Defined.

Lemma pxsem_prodcons_terminates_witness :
  exists st st', exec NBUFF prodcons4 3 demo_schedule (main_init NBUFF 2 2) = Some st /\ step NBUFF prodcons4 3 st st'.
Proof.
  eexists. edestruct (pxsem_prodcons_terminates prodcons4 2 2 3) as [[Hf|[st' Hs]] _];
    [right; right; split; [reflexivity|lia]|lia|lia| | |].
  - apply (exec_rtc NBUFF prodcons4 3 demo_schedule). vm_compute. reflexivity.
  - exfalso. destruct Hf as [Hf _]. inversion Hf as [|x l Hx _]. discriminate Hx.
  - exists st'. split; [vm_compute; reflexivity|exact Hs].
Defined.

(** [deadlock.c] can deadlock: its consumer waits for [nstored] inside the mutex, and
    for any positive number of items a state is reachable in which neither thread
    has returned and neither can ever go on. *)
Theorem pxsem_deadlock_reachable (nitems : Z) :
  0 < nitems ->
  exists st, rtc (step 2 deadlock nitems) (main_init 2 1 1) st /\ ~ finished st /\
    forall st', ~ step 2 deadlock nitems st st'.
Proof.
  intros Hn. eexists. split_and!.
  - apply (exec_rtc 2 deadlock nitems [inr 0%nat; inl 0%nat]). simpl.
    unfold step_c; simpl. replace (0 >=? nitems) with false by lia. simpl.
    unfold step_p; simpl. replace (0 >=? nitems) with false by lia. simpl. reflexivity.
  - intros [Hf _]. inversion Hf as [|x l Hx _]. discriminate Hx.
  - intros st' Hs. inversion Hs as [i ? ? E|i ? ? E]; subst.
    + destruct i as [|i]; [discriminate E|]. destruct i; discriminate E.
    + destruct i as [|i]; [discriminate E|]. destruct i; discriminate E.
Qed.

Lemma pxsem_deadlock_reachable_witness :
  exists st, rtc (step 2 deadlock 5) (main_init 2 1 1) st /\ ~ finished st.
Proof. destruct (pxsem_deadlock_reachable 5) as (st & H1 & H2 & _); [lia|]. exists st. split; [exact H1|exact H2]. Defined.

(** Without producers the consumers of [prodcons4.c] wait for ever, even for no
    items. *)
Example prodcons4_no_producers :
  ~ finished (main_init NBUFF 0 1) /\ forall st', ~ step NBUFF prodcons4 0 (main_init NBUFF 0 1) st'.
Proof.
  split.
  - intros [_ Hf]. inversion Hf as [|x l Hx _]. discriminate Hx.
  - intros st' Hs. inversion Hs as [i ? ? E|i ? ? E]; subst; [done|].
    destruct i as [|i]; [discriminate E|]. destruct i; discriminate E.
Qed.
