(* ===== verification/MyCat.v ===== *)
(** * Copying a file with two threads: [unixipc/pxsem/mycat2.c]

    The reader thread fills a ring of [NBUFF] buffers, the writer thread writes
    them out; the mutex protects nothing, the semaphores [nempty] and [nstored]
    hand the buffers over.  A step is one semaphore call, one [Read] or [Write], or
    one test of a shared count.  [Read] returns any number of bytes the file still
    has, at most [BUFFSIZE], and 0 only at its end.  The wrappers [Read], [Write]
    (which demands a full count) and [Sem_*] end the process when a call fails, so
    a run is one in which none has failed yet.

    [mycat2_copies]: in every interleaving the output is what was read, in order,
    and both threads end with the whole file written; [mycat1_same]: the loop of
    [mycat1.c] writes the same. *)
From S2P Require Import Prelude PxSem.

Module MyCat.

Definition NBUFF : nat := 8.
Definition BUFFSIZE : Z := 8192.

Record buffer := Buffer { data : list Z; n : Z }.

(** The next operation of [produce] and of [consume]. *)
Inductive ppc := P_nempty | P_mutex | P_unmutex | P_read | P_test | P_post | P_last | P_done.
Inductive cpc := C_nstored | C_mutex | C_unmutex | C_test | C_write | C_post | C_done.

(** [shared], the local [i] of each thread, the bytes [fd] still has and standard
    output. *)
Record state := State {
  buff : list buffer; mutex : Z; nempty : Z; nstored : Z;
  prod : ppc; pi : nat; cons : cpc; ci : nat; input : list Z; output : list Z }.

(** [if (++i >= NBUFF) i = 0;] *)
Definition next (i : nat) : nat := if (NBUFF <=? S i)%nat then 0%nat else S i.

Definition main_init (file : list Z) : state :=
  State (replicate NBUFF (Buffer (replicate (Z.to_nat BUFFSIZE) 0) 0)) 1 (Z.of_nat NBUFF) 0
    P_nempty 0 C_nstored 0 file [].

(** [k] bytes are a possible result of [Read]. *)
Definition read_ok (k : nat) (input : list Z) : bool :=
  (Z.of_nat k <=? BUFFSIZE) && (k <=? length input)%nat && (negb (k =? 0)%nat || (length input =? 0)%nat).

(** One step of the reader; [k] is the result of its [Read]. *)
Definition produce (k : nat) (s : state) : option state :=
  let goto pc mu ne ns i := State (buff s) mu ne ns pc i (cons s) (ci s) (input s) (output s) in
  match prod s with
  | P_nempty => v ← wait (nempty s); Some (goto P_mutex (mutex s) v (nstored s) (pi s))
  | P_mutex => v ← wait (mutex s); Some (goto P_unmutex v (nempty s) (nstored s) (pi s))
  | P_unmutex => Some (goto P_read (mutex s + 1) (nempty s) (nstored s) (pi s))
  | P_read =>
      b ← buff s !! pi s;
      if read_ok k (input s) then
        let b' := Buffer (memcpy_into (data b) (take k (input s))) (Z.of_nat k) in
        Some (State (<[pi s := b']> (buff s)) (mutex s) (nempty s) (nstored s) P_test (pi s) (cons s) (ci s)
                (drop k (input s)) (output s))
      else None
  | P_test =>
      b ← buff s !! pi s;
      if n b =? 0 then Some (goto P_last (mutex s) (nempty s) (nstored s) (pi s))
      else Some (goto P_post (mutex s) (nempty s) (nstored s) (next (pi s)))
  | P_post => Some (goto P_nempty (mutex s) (nempty s) (nstored s + 1) (pi s))
  | P_last => Some (goto P_done (mutex s) (nempty s) (nstored s + 1) (pi s))
  | P_done => None
  end.

(** One step of the writer. *)
Definition consume (s : state) : option state :=
  let goto pc mu ne ns i out := State (buff s) mu ne ns (prod s) (pi s) pc i (input s) out in
  match cons s with
  | C_nstored => v ← wait (nstored s); Some (goto C_mutex (mutex s) (nempty s) v (ci s) (output s))
  | C_mutex => v ← wait (mutex s); Some (goto C_unmutex v (nempty s) (nstored s) (ci s) (output s))
  | C_unmutex => Some (goto C_test (mutex s + 1) (nempty s) (nstored s) (ci s) (output s))
  | C_test =>
      b ← buff s !! ci s;
      Some (goto (if n b =? 0 then C_done else C_write) (mutex s) (nempty s) (nstored s) (ci s) (output s))
  | C_write =>
      b ← buff s !! ci s;
      Some (goto C_post (mutex s) (nempty s) (nstored s) (next (ci s)) (output s ++ take (Z.to_nat (n b)) (data b)))
  | C_post => Some (goto C_nstored (mutex s) (nempty s + 1) (nstored s) (ci s) (output s))
  | C_done => None
  end.

Inductive step : state -> state -> Prop :=
| step_produce k s s' : produce k s = Some s' -> step s s'
| step_consume s s' : consume s = Some s' -> step s s'.

(** [main] joins both threads. *)
Definition finished (s : state) : Prop := prod s = P_done /\ cons s = C_done.

(** The loop of [mycat1.c]: [Read] and [Write] until the end of the file, which the
    results [ks] of [Read] reach. *)
Fixpoint mycat1 (ks : list nat) (input : list Z) : option (list Z) :=
  match ks with
  | [] => None
  | k :: ks =>
      if read_ok k input then
        if (0 <? k)%nat then out ← mycat1 ks (drop k input); Some (take k input ++ out) else Some []
      else None
  end.

(** ** Invariant *)

(** What the positions of the threads mean for the counts: the reader has taken an
    empty buffer; it has filled one that is not announced; the writer has taken a
    full buffer; it has written one that is not given back. *)
Definition taken (pc : ppc) : nat := match pc with P_mutex | P_unmutex | P_read => 1 | _ => 0 end.
Definition filled (pc : ppc) : nat := match pc with P_test | P_post | P_last => 1 | _ => 0 end.
Definition holds (pc : cpc) : nat := match pc with C_mutex | C_unmutex | C_test | C_write | C_done => 1 | _ => 0 end.
Definition written (pc : cpc) : nat := match pc with C_post => 1 | _ => 0 end.
Definition p_inside (pc : ppc) : nat := match pc with P_unmutex => 1 | _ => 0 end.
Definition c_inside (pc : cpc) : nat := match pc with C_unmutex => 1 | _ => 0 end.

(** The reader's index is still that of the buffer it filled. *)
Definition behind (pc : ppc) : bool := match pc with P_test | P_last | P_done => true | _ => false end.
Definition at_end (pc : ppc) : bool := match pc with P_last | P_done => true | _ => false end.

(** The buffers hold the chunks from [get] on. *)
Definition ring (bs : list buffer) (chunks : list (list Z)) (get : nat) : Prop :=
  length bs = NBUFF /\ forall j c, (get <= j)%nat -> chunks !! j = Some c ->
    exists b, bs !! (j mod NBUFF)%nat = Some b /\ n b = Z.of_nat (length c) /\ take (length c) (data b) = c.

Record inv_at (file : list Z) (s : state) (chunks : list (list Z)) (get : nat) : Prop := {
  i_read : concat chunks ++ input s = file;
  i_written : output s = concat (take get chunks);
  i_ring : ring (buff s) chunks get;
  i_get : (get + holds (cons s) <= length chunks)%nat;
  i_pi : if behind (prod s) then pi s = ((length chunks - 1) mod NBUFF)%nat /\ (0 < length chunks)%nat
         else pi s = (length chunks mod NBUFF)%nat;
  i_ci : ci s = (get mod NBUFF)%nat;
  i_nstored : nstored s = Z.of_nat (length chunks) - Z.of_nat (filled (prod s)) - Z.of_nat get - Z.of_nat (holds (cons s));
  i_nempty : nempty s = Z.of_nat NBUFF - Z.of_nat (length chunks) - Z.of_nat (taken (prod s)) + Z.of_nat get - Z.of_nat (written (cons s));
  i_mutex : mutex s = 1 - Z.of_nat (p_inside (prod s)) - Z.of_nat (c_inside (cons s));
  i_nonneg : 0 <= nstored s /\ 0 <= nempty s /\ 0 <= mutex s;
  i_nonempty j c : chunks !! j = Some c -> c = [] -> S j = length chunks /\ behind (prod s) = true /\ input s = [];
  i_past j c : (j < get)%nat -> chunks !! j = Some c -> c <> [];
  i_end : at_end (prod s) = true -> chunks !! (length chunks - 1)%nat = Some [];
  i_cons : match cons s with
           | C_write => exists c, chunks !! get = Some c /\ c <> []
           | C_done => chunks !! get = Some []
           | _ => True
           end }.

Definition inv (file : list Z) (s : state) : Prop := exists chunks get, inv_at file s chunks get.

#[local] Arguments Nat.modulo : simpl never.

Lemma mycat_next_mod k : next (k mod NBUFF) = (S k mod NBUFF)%nat.
Proof.
  unfold next, NBUFF. pose proof (Nat.mod_upper_bound k 8 ltac:(lia)). pose proof (Nat.div_mod_eq k 8) as D.
  destruct (Nat.leb_spec 8 (S (k mod 8))).
  - replace (S k) with (S (k / 8) * 8)%nat by lia. by rewrite Nat.Div0.mod_mul.
  - apply (Nat.mod_unique _ _ (k / 8)); lia.
Qed.

(** Two chunks less than [NBUFF] apart are in different buffers. *)
Lemma slot_ne j k : (j < k < j + NBUFF)%nat -> (j mod NBUFF <> k mod NBUFF)%nat.
Proof.
  unfold NBUFF. intros H E. pose proof (Nat.div_mod_eq j 8). pose proof (Nat.div_mod_eq k 8). rewrite E in *. lia.
Qed.

(** [Read] into the buffer behind the last chunk. *)
Lemma ring_read bs chunks get b chunk :
  ring bs chunks get -> (get <= length chunks)%nat -> (length chunks < get + NBUFF)%nat ->
  bs !! (length chunks mod NBUFF)%nat = Some b ->
  ring (<[(length chunks mod NBUFF)%nat := Buffer (memcpy_into (data b) chunk) (Z.of_nat (length chunk))]> bs)
    (chunks ++ [chunk]) get.
Proof.
  intros [Hl Hb] Hg Hlt Eb. split; [by rewrite length_insert|]. intros j c Hj Ec.
  apply lookup_app_Some in Ec as [Ec|[Hlen Ec]].
  - rewrite list_lookup_insert_ne; [by eapply Hb|]. apply lookup_lt_Some in Ec. apply not_eq_sym, slot_ne. lia.
  - apply list_lookup_singleton_Some in Ec as [Ej <-]. assert (j = length chunks) as -> by lia.
    eexists. rewrite list_lookup_insert_eq by (by eapply lookup_lt_Some). split; [done|]. simpl.
    split; [done|]. apply memcpy_into_take.
Qed.

Lemma read_ok_spec k input :
  read_ok k input = true -> Z.of_nat k <= BUFFSIZE /\ (k <= length input)%nat /\ (k = 0%nat -> input = []).
Proof.
  unfold read_ok. intros H. apply andb_true_iff in H as [H H3]. apply andb_true_iff in H as [H1 H2].
  apply Z.leb_le in H1. apply Nat.leb_le in H2. split; [done|]. split; [done|]. intros ->.
  simpl in H3. apply Nat.eqb_eq in H3. by destruct input.
Qed.

Ltac same_chunks := split; simpl in *; rewrite ?app_nil_r in *; try done; try lia.

Lemma mycat_produce_inv file k s s' : inv file s -> produce k s = Some s' -> inv file s'.
Proof.
  intros (chunks & get & I). pose proof I as [H1 H2 H3 H4 H5 H6 H7 H8 H9 (H10 & H10' & H10'') H11 HP H12 H13].
  unfold produce. destruct (prod s) eqn:Ep; simpl in *.
  - destruct (wait _) as [v|] eqn:Ew; [|done]. apply wait_some in Ew as [? ->]. intros [= <-].
    exists chunks, get. same_chunks.
  - destruct (wait _) as [v|] eqn:Ew; [|done]. apply wait_some in Ew as [? ->]. intros [= <-].
    exists chunks, get. same_chunks.
  - intros [= <-]. exists chunks, get. same_chunks.
  - destruct (buff s !! pi s) as [b|] eqn:Eb; [|done]. simpl. destruct (read_ok k (input s)) eqn:Er; [|done].
    apply read_ok_spec in Er as (Hk & Hk' & Hk0). intros [= <-].
    set (chunk := take k (input s)). assert (length chunk = k) as Hc by (unfold chunk; rewrite length_take; lia).
    exists (chunks ++ [chunk]), get. rewrite H5 in *.
    split; simpl; rewrite ?length_app; simpl; try done; try lia.
    + rewrite concat_app, <- app_assoc. simpl. rewrite app_nil_r. unfold chunk. by rewrite take_drop.
    + rewrite take_app_le by lia. done.
    + rewrite <- Hc. apply ring_read; [done|lia| |done]. unfold NBUFF in *. lia.
    + split; [|lia]. f_equal. lia.
    + intros j c Ej Ec. apply lookup_app_Some in Ej as [Ej|[Hlen Ej]].
      * by destruct (H11 j c Ej Ec) as (_ & ? & _).
      * apply list_lookup_singleton_Some in Ej as [? ->]. split; [lia|]. split; [done|].
        rewrite (Hk0 ltac:(by rewrite <- Hc, Ec)). by rewrite drop_nil.
    + intros j c Hj Ej. rewrite lookup_app_l in Ej by lia. by eapply HP.
    + destruct (cons s); try done.
      * destruct H13 as (c & Ec & Hne). exists c. split; [by apply lookup_app_l_Some|done].
      * by apply lookup_app_l_Some.
  - destruct (buff s !! pi s) as [b|] eqn:Eb; [|done]. simpl. destruct H5 as [H5 Hpos].
    destruct (chunks !! (length chunks - 1)%nat) as [c|] eqn:Ec; [|apply lookup_ge_None in Ec; lia].
    assert (Z.of_nat (length chunks) - 1 - Z.of_nat get >= 0) as Hge by lia.
    destruct H3 as [Hl Hb]. destruct (Hb (length chunks - 1)%nat c ltac:(lia) Ec) as (b' & Eb' & Hn & Hd).
    rewrite <- H5, Eb in Eb'. injection Eb' as <-.
    destruct (Z.eqb_spec (n b) 0) as [E0|E0]; intros [= <-]; exists chunks, get; same_chunks.
    + intros _. assert (c = []) as -> by (destruct c; [done|simpl in Hn; lia]).
      done.
    + rewrite H5, mycat_next_mod. f_equal. lia.
    + intros j c' Ej Ec'. destruct (H11 j c' Ej Ec') as (Hj & _). assert (j = (length chunks - 1)%nat) as -> by lia.
      rewrite Ec in Ej. injection Ej as <-. subst c. simpl in Hn. lia.
  - intros [= <-]. exists chunks, get. same_chunks.
  - intros [= <-]. exists chunks, get. same_chunks. 
  - done.
Qed.

Lemma take_S_concat {A} (l : list (list A)) i x : l !! i = Some x -> concat (take (S i) l) = concat (take i l) ++ x.
Proof. intros E. rewrite (take_S_r _ _ x) by done. rewrite concat_app. simpl. by rewrite app_nil_r. Qed.

Lemma mycat_consume_inv file s s' : inv file s -> consume s = Some s' -> inv file s'.
Proof.
  intros (chunks & get & I). pose proof I as [H1 H2 H3 H4 H5 H6 H7 H8 H9 (H10 & H10' & H10'') H11 HP H12 H13].
  assert (Hslot : (get < length chunks)%nat -> exists c b, chunks !! get = Some c /\ buff s !! ci s = Some b /\
            n b = Z.of_nat (length c) /\ take (length c) (data b) = c).
  { intros Hlt. destruct (chunks !! get) as [c|] eqn:Ec; [|apply lookup_ge_None in Ec; lia].
    destruct H3 as [_ Hb]. destruct (Hb get c (le_n _) Ec) as (b & Eb & ? & ?). exists c, b. by rewrite H6. }
  unfold consume. destruct (cons s) eqn:Ec; simpl in *.
  - destruct (wait _) as [v|] eqn:Ew; [|done]. apply wait_some in Ew as [? ->]. intros [= <-].
    exists chunks, get. same_chunks.
  - destruct (wait _) as [v|] eqn:Ew; [|done]. apply wait_some in Ew as [? ->]. intros [= <-].
    exists chunks, get. same_chunks.
  - intros [= <-]. exists chunks, get. same_chunks.
  - destruct Hslot as (c & b & Eg & Eb & Hn & Hd); [lia|]. rewrite Eb. simpl. intros [= <-].
    exists chunks, get. destruct (Z.eqb_spec (n b) 0) as [E0|E0]; same_chunks.
    + rewrite Eg. f_equal. by destruct c; [|simpl in Hn; lia].
    + exists c. split; [done|]. intros ->. simpl in Hn. lia.
  - destruct Hslot as (c & b & Eg & Eb & Hn & Hd); [lia|]. rewrite Eb. simpl. intros [= <-].
    exists chunks, (S get). same_chunks.
    + rewrite (take_S_concat _ _ c) by done. rewrite Hn, Nat2Z.id, Hd. by rewrite H2.
    + destruct H3 as [Hl Hb]. split; [done|]. intros j c' Hj. apply Hb. lia.
    + rewrite H6. apply mycat_next_mod.
    + intros j c' Hj Ej. destruct (decide (j = get)) as [->|]; [|eapply HP; [|exact Ej]; lia].
      destruct H13 as (c'' & Ec'' & Hne). congruence.
  - intros [= <-]. exists chunks, get. same_chunks.
  - done.
Qed.

Lemma mycat_init_inv file : inv file (main_init file).
Proof.
  by exists [], 0%nat.
Qed.

Lemma mycat_reachable_inv file s : rtc step (main_init file) s -> inv file s.
Proof.
  apply rtc_invariant; [|apply mycat_init_inv]. intros x y Hx Hs.
  destruct Hs as [k x y E|x y E]; [by eapply mycat_produce_inv|by eapply mycat_consume_inv].
Qed.

(** ** Progress and termination *)

(** What is left to do: bytes to read, buffers to write, and the rest of each
    thread's round; the reader's round is not over if it has read something. *)
Definition p_left (s : state) : Z :=
  match prod s with
  | P_nempty => 15 | P_mutex => 14 | P_unmutex => 13 | P_read => 12
  | P_test => match buff s !! pi s with Some b => if n b =? 0 then 11 else 31 | None => 0 end
  | P_post => 30 | P_last => 10 | P_done => 0
  end.
Definition c_left (pc : cpc) : Z :=
  match pc with C_nstored => 1 | C_mutex => 7 | C_unmutex => 6 | C_test => 5 | C_write => 4 | C_post => 2 | C_done => 0 end.
Definition work (s : state) : Z := 20 * Z.of_nat (length (input s)) + p_left s + 8 * nstored s + c_left (cons s).

Lemma mycat_work_nonneg file s : inv file s -> 0 <= work s.
Proof.
  intros (chunks & get & I). destruct (i_nonneg _ _ _ _ I) as (? & _). unfold work.
  assert (0 <= p_left s) by (unfold p_left; destruct (prod s); try lia; destruct (_ !! _) as [b|]; [destruct (n b =? 0)|]; lia).
  assert (0 <= c_left (cons s)) by (by destruct (cons s)). lia.
Qed.

Lemma mycat_step_works s s' : step s s' -> work s' < work s.
Proof.
  intros Hs. destruct Hs as [k s s' E|s s' E].
  - unfold produce in E. unfold work, p_left. destruct (prod s) eqn:Ep; simpl in E.
    1-2: (destruct (wait _) as [v|] eqn:Ew; [|done]; apply wait_some in Ew as [? ->]; injection E as <-; simpl; lia).
    1: (injection E as <-; simpl; lia).
    + destruct (buff s !! pi s) as [b|] eqn:Eb; [|done]. simpl in E. destruct (read_ok k (input s)) eqn:Er; [|done].
      apply read_ok_spec in Er as (_ & Hk & _). injection E as <-. simpl.
      rewrite list_lookup_insert_eq by (by eapply lookup_lt_Some). simpl. rewrite length_drop.
      destruct (Z.eqb_spec (Z.of_nat k) 0); lia.
    + destruct (buff s !! pi s) as [b|] eqn:Eb; [|done]. simpl in E.
      destruct (n b =? 0); injection E as <-; simpl; lia.
    + injection E as <-. simpl. lia.
    + injection E as <-. simpl. lia.
    + done.
  - unfold consume in E. unfold work. destruct (cons s) eqn:Ec; simpl in E.
    1-2: (destruct (wait _) as [v|] eqn:Ew; [|done]; apply wait_some in Ew as [? ->]; injection E as <-; unfold p_left; simpl; lia).
    1: (injection E as <-; unfold p_left; simpl; lia).
    + destruct (buff s !! ci s) as [b|]; [|done]. injection E as <-. unfold p_left; simpl. destruct (n b =? 0); simpl; lia.
    + destruct (buff s !! ci s) as [b|]; [|done]. injection E as <-. unfold p_left; simpl. lia.
    + injection E as <-. unfold p_left; simpl. lia.
    + done.
Qed.

(** A thread that waits for nothing can go on. *)
Lemma reader_goes file s :
  inv file s -> match prod s with P_nempty => 0 < nempty s | P_mutex => 0 < mutex s | P_done => False | _ => True end ->
  exists s', step s s'.
Proof.
  intros (chunks & get & I) Hpc. pose proof (i_ring _ _ _ _ I) as [Hl _]. pose proof (i_pi _ _ _ _ I) as Hpi.
  assert (exists b, buff s !! pi s = Some b) as [b Eb].
  { apply lookup_lt_is_Some_2. rewrite Hl. unfold NBUFF in *.
    destruct (behind (prod s)); [destruct Hpi as [-> _]|rewrite Hpi]; by apply Nat.mod_upper_bound. }
  set (k := Nat.min (length (input s)) (Z.to_nat BUFFSIZE)).
  assert (read_ok k (input s) = true) as Hk.
  { unfold read_ok, k. apply andb_true_iff. split; [apply andb_true_iff; split|].
    - apply Z.leb_le. unfold BUFFSIZE in *. lia.
    - apply Nat.leb_le. lia.
    - destruct (input s) as [|x l]; [done|]. apply orb_true_iff. left. apply negb_true_iff, Nat.eqb_neq.
      unfold BUFFSIZE. simpl length. lia. }
  enough (exists s', produce k s = Some s') as [s' Hs] by (exists s'; by eapply step_produce).
  unfold produce. destruct (prod s); try done; rewrite ?Eb, ?Hk, ?wait_pos by done; simpl; try by eexists.
  destruct (n b =? 0); by eexists.
Qed.

Lemma writer_goes file s :
  inv file s -> match cons s with C_nstored => 0 < nstored s | C_mutex => 0 < mutex s | C_done => False | _ => True end ->
  exists s', step s s'.
Proof.
  intros (chunks & get & I) Hpc. pose proof (i_ring _ _ _ _ I) as [Hl _]. pose proof (i_ci _ _ _ _ I) as Hci.
  assert (exists b, buff s !! ci s = Some b) as [b Eb].
  { apply lookup_lt_is_Some_2. rewrite Hl, Hci. unfold NBUFF. by apply Nat.mod_upper_bound. }
  enough (exists s', consume s = Some s') as [s' Hs] by (exists s'; by eapply step_consume).
  unfold consume. destruct (cons s); try done; rewrite ?Eb, ?wait_pos by done; simpl; by eexists.
Qed.

(** Until both threads have returned one of them can go on. *)
Lemma mycat_progress file s : inv file s -> ~ finished s -> exists s', step s s'.
Proof.
  intros Hi Hf. pose proof Hi as (chunks & get & I).
  destruct I as [H1 H2 H3 H4 H5 H6 H7 H8 H9 (H10 & H10' & H10'') H11 HP H12 H13].
  destruct (decide (0 < mutex s)) as [Hm|Hm]; cycle 1.
  { destruct (prod s) eqn:Ep, (cons s) eqn:Ec; simpl in *; try lia;
      first [apply (reader_goes file); [done|by rewrite Ep]|apply (writer_goes file); [done|by rewrite Ec]]. }
  destruct (prod s) eqn:Ep; try (apply (reader_goes file); [done|by rewrite Ep]).
  - destruct (decide (0 < nempty s)) as [He|He]; [apply (reader_goes file); [done|by rewrite Ep]|].
    apply (writer_goes file); [done|]. destruct (cons s); simpl in *; unfold NBUFF in *; try done; try lia.
    destruct (H11 _ _ H13 eq_refl) as (_ & ? & _). done.
  - apply (writer_goes file); [done|]. destruct (cons s) eqn:Ec; simpl in *; try done.
    + assert (get <> length chunks); [|lia]. intros ->. destruct H5 as [_ H5].
      by destruct (HP (length chunks - 1)%nat [] ltac:(lia) (H12 eq_refl)).
    + by destruct Hf.
Qed.

(** The whole file is out. *)
Lemma finished_output file s : inv file s -> finished s -> output s = file.
Proof.
  intros (chunks & get & I) [Ep Ec]. destruct I as [H1 H2 H3 H4 H5 H6 H7 H8 H9 _ H11 HP H12 H13].
  rewrite Ec in H13. destruct (H11 _ _ H13 eq_refl) as (Hl & _ & Hin).
  rewrite H2, <- H1, Hin, app_nil_r. rewrite <- (firstn_all chunks) at 2. rewrite <- Hl.
  rewrite (take_S_concat _ _ _ H13). by rewrite app_nil_r.
Qed.

(** Two threads: exclusion on the buffers. *)
Definition buffers_apart (s : state) : Prop :=
  prod s = P_read -> cons s = C_write -> pi s <> ci s.

Lemma inv_apart file s : inv file s -> buffers_apart s.
Proof.
  intros (chunks & get & I) Ep Ec. destruct I as [H1 H2 H3 H4 H5 H6 H7 H8 H9 (_ & H10 & _) H11 HP H12 H13].
  rewrite Ep, Ec in *. simpl in *. rewrite H5, H6. apply not_eq_sym, slot_ne. unfold NBUFF in *. lia.
Qed.

(** C39: [mycat2.c] copies the file: in every interleaving of its two threads, and
    however [Read] cuts the file, what is written is a beginning of the file; the
    reader never fills the buffer the writer is writing; until both threads have
    returned one of them can go on, every step makes the work that is left
    smaller, and it is never negative; and when they have returned, the whole
    file has been written. *)
Theorem mycat2_copies (file : list Z) (s : state) :
  rtc step (main_init file) s ->
  output s `prefix_of` file /\ buffers_apart s /\
  (~ finished s -> exists s', step s s') /\ 0 <= work s /\ (forall s', step s s' -> work s' < work s) /\
  (finished s -> output s = file).
Proof.
  intros Hs. apply mycat_reachable_inv in Hs. split.
  { destruct Hs as (chunks & get & I). destruct I as [H1 H2 _ _ _ _ _ _ _ _ _ _ _ _].
    rewrite H2, <- H1. exists (concat (drop get chunks) ++ input s).
    by rewrite app_assoc, <- concat_app, take_drop. }
  split; [by eapply inv_apart|]. split; [by apply (mycat_progress file)|]. split; [by eapply mycat_work_nonneg|].
  split; [intros s'; apply mycat_step_works|by apply finished_output].
Qed.

(** The plain loop of [mycat1.c] writes the file as well, however it is read. *)
Lemma mycat1_same ks : forall file out, mycat1 ks file = Some out -> out = file.
Proof.
  induction ks as [|k ks IH]; intros file out; simpl; [done|]. destruct (read_ok k file) eqn:Er; [|done].
  apply read_ok_spec in Er as (_ & _ & H0). destruct (Nat.ltb_spec 0 k) as [Hk|Hk].
  - destruct (mycat1 ks (drop k file)) as [out'|] eqn:E; [|done]. intros [= <-]. apply IH in E as ->. apply take_drop.
  - intros [= <-]. by rewrite H0 by lia.
Qed.

(** A run: the threads take turns, [true] for the reader. *)
Fixpoint run_turns (turns : list (bool * nat)) (s : state) : option state :=
  match turns with
  | [] => Some s
  | (reader, k) :: turns => s ← (if reader : bool then produce k s else consume s); run_turns turns s
  end.

Lemma run_turns_steps turns : forall s s', run_turns turns s = Some s' -> rtc step s s'.
Proof.
  induction turns as [|[r k] turns IH]; intros s s'; simpl; [intros [= <-]; apply rtc_refl|].
  destruct r; [destruct (produce k s) as [s1|] eqn:E|destruct (consume s) as [s1|] eqn:E]; try done; simpl; intros H;
    (eapply rtc_l; [|by apply IH]); [by eapply step_produce|by eapply step_consume].
Qed.

(** A file of three bytes, read as two and one. *)
Definition demo_turns : list (bool * nat) :=
  replicate 6 (true, 2%nat) ++ replicate 6 (true, 1%nat) ++ replicate 3 (false, 0%nat) ++ replicate 6 (true, 0%nat) ++
  replicate 13 (false, 0%nat).

Lemma mycat2_copies_witness :
  exists s, run_turns demo_turns (main_init [1; 2; 3]) = Some s /\ finished s /\ output s = [1; 2; 3].
Proof.
  destruct (run_turns demo_turns (main_init [1; 2; 3])) as [s|] eqn:E; [|vm_compute in E; discriminate E].
  exists s. split; [done|]. assert (finished s) as Hf.
  { vm_compute in E. injection E as <-. by split. }
  split; [done|]. destruct (mycat2_copies [1; 2; 3] s (run_turns_steps _ _ _ E)) as (_ & _ & _ & _ & _ & H). by apply H.
Defined.

End MyCat.
