(* ===== verification/Handoff.v ===== *)
(** * Two threads that take turns: [multiThread/thread_sem/sem_thread.c]

    Two threads hand a turn to each other with two semaphores until a time is
    reached.  A step is one call, one access to [var] or a tick of the clock; the
    value of [var], which grows by one in a round of at least a second for 300
    seconds, is kept as an integer.

    [handoff_alternates]: the threads print alternately, with the values 0, 1, 2
    and so on, and no increment is lost; a thread can fail to end only if it waits
    for a turn and the other thread has returned.  [handoff_hangs]: this happens,
    since the time is tested before the wait. *)
From S2P Require Import Prelude PxSem.

Module Handoff.

(** The next operation of a thread: the loop's test, [sem_wait], the [printf] of
    [var], [var += 1] as a load and a store, [sem_post], [sleep]. *)
Inductive pc := T_test | T_wait | T_print | T_load | T_store (v : Z) | T_post | T_sleep | T_done.

(** [PrivInfo], the clock, the threads and the lines printed: by thread 1 or not,
    with the value. *)
Record state := State {
  s1 : Z; s2 : Z; var : Z; end_time : Z; now : Z; pt_1 : pc; pt_2 : pc; out : list (bool * Z) }.

(** [info_init], at the time [t]. *)
Definition info_init (t times : Z) : state := State 1 0 0 (t + times) t T_test T_test [].

(** One step of [pthread_func_1] ([one] true) or [pthread_func_2], which differ in
    the semaphores only. *)
Definition pthread_func (one : bool) (s : state) : option state :=
  let set pc s1 s2 var out :=
    if one then State s1 s2 var (end_time s) (now s) pc (pt_2 s) out
    else State s1 s2 var (end_time s) (now s) (pt_1 s) pc out in
  match (if one then pt_1 s else pt_2 s) with
  | T_test => Some (set (if now s <? end_time s then T_wait else T_done) (s1 s) (s2 s) (var s) (out s))
  | T_wait =>
      if one then v ← wait (s2 s); Some (set T_print (s1 s) v (var s) (out s))
      else v ← wait (s1 s); Some (set T_print v (s2 s) (var s) (out s))
  | T_print => Some (set T_load (s1 s) (s2 s) (var s) (out s ++ [(one, var s)]))
  | T_load => Some (set (T_store (var s)) (s1 s) (s2 s) (var s) (out s))
  | T_store v => Some (set T_post (s1 s) (s2 s) (v + 1) (out s))
  | T_post =>
      if one then Some (set T_sleep (s1 s + 1) (s2 s) (var s) (out s))
      else Some (set T_sleep (s1 s) (s2 s + 1) (var s) (out s))
  | T_sleep => Some (set T_test (s1 s) (s2 s) (var s) (out s))
  | T_done => None
  end.

Definition tick (s : state) : state :=
  State (s1 s) (s2 s) (var s) (end_time s) (now s + 1) (pt_1 s) (pt_2 s) (out s).

Inductive step : state -> state -> Prop :=
| step_thread one s s' : pthread_func one s = Some s' -> step s s'
| step_tick s : step s (tick s).

(** ** Invariant *)

(** The turn is with a thread from its wait to its post. *)
Definition has_turn (p : pc) : bool := match p with T_print | T_load | T_store _ | T_post => true | _ => false end.

(** The lines expected: thread 2 first. *)
Definition lines (k : nat) : list (bool * Z) := (fun i => (Nat.odd i, Z.of_nat i)) <$> seq 0 k.

Lemma lines_S k : lines (S k) = lines k ++ [(Nat.odd k, Z.of_nat k)].
Proof. unfold lines. rewrite seq_S, fmap_app. done. Qed.

(** A thread that has the turn: [k] increments are done, by turns. *)
Definition turn_ok (one : bool) (p : pc) (k : nat) (o : list (bool * Z)) : Prop :=
  match p with
  | T_print => one = Nat.odd k /\ o = lines k
  | T_load => one = Nat.odd k /\ o = lines (S k)
  | T_store v => one = Nat.odd k /\ v = Z.of_nat k /\ o = lines (S k)
  | T_post => one = negb (Nat.odd k) /\ o = lines k
  | _ => False
  end.

(** Where the turn is: in a semaphore or with a thread. *)
Inductive turn (s : state) (k : nat) : Prop :=
| in_s1 : s1 s = 1 -> s2 s = 0 -> has_turn (pt_1 s) = false -> has_turn (pt_2 s) = false ->
    Nat.odd k = false -> out s = lines k -> turn s k
| in_s2 : s1 s = 0 -> s2 s = 1 -> has_turn (pt_1 s) = false -> has_turn (pt_2 s) = false ->
    Nat.odd k = true -> out s = lines k -> turn s k
| with_1 : s1 s = 0 -> s2 s = 0 -> has_turn (pt_2 s) = false -> turn_ok true (pt_1 s) k (out s) -> turn s k
| with_2 : s1 s = 0 -> s2 s = 0 -> has_turn (pt_1 s) = false -> turn_ok false (pt_2 s) k (out s) -> turn s k.

Definition inv (s : state) : Prop := exists k, var s = Z.of_nat k /\ turn s k.

Lemma turn_ok_has one p k o : turn_ok one p k o -> has_turn p = true.
Proof. by destruct p. Qed.

(** A thread that does not have the turn does not touch it, unless it takes it. *)
Lemma thread_inv one s s' : inv s -> pthread_func one s = Some s' -> inv s'.
Proof.
  intros (k & Hv & Ht). unfold pthread_func.
  destruct Ht as [A1 A2 A3 A4 A5 A6|A1 A2 A3 A4 A5 A6|A1 A2 A3 A4|A1 A2 A3 A4]; destruct one.
  - destruct (pt_1 s) eqn:E; try done; rewrite ?A2; simpl; intros [= <-]; exists k; (split; [done|]);
      apply in_s1; simpl; try done. by destruct (_ <? _).
  - destruct (pt_2 s) eqn:E; try done; rewrite ?A1; simpl; intros [= <-]; exists k; (split; [done|]).
    + apply in_s1; simpl; try done. by destruct (_ <? _).
    + apply with_2; simpl; first [done|by rewrite A5].
    + by apply in_s1.
  - destruct (pt_1 s) eqn:E; try done; rewrite ?A2; simpl; intros [= <-]; exists k; (split; [done|]).
    + apply in_s2; simpl; try done. by destruct (_ <? _).
    + apply with_1; simpl; first [done|by rewrite A5].
    + by apply in_s2.
  - destruct (pt_2 s) eqn:E; try done; rewrite ?A1; simpl; intros [= <-]; exists k; (split; [done|]);
      apply in_s2; simpl; try done. by destruct (_ <? _).
  - destruct (pt_1 s) eqn:E; try done; simpl in *; intros [= <-].
    + exists k. split; [done|]. apply with_1; simpl; try done. destruct A4 as [-> ->]. by rewrite lines_S, Hv.
    + exists k. split; [done|]. apply with_1; simpl; try done. by destruct A4.
    + exists (S k). destruct A4 as (H1 & -> & H2). split; [simpl; lia|]. apply with_1; simpl; try done.
      split; [|done]. by rewrite Nat.odd_succ, Nat.negb_even.
    + exists k. split; [done|]. destruct A4 as [H1 ->]. rewrite A1. apply in_s1; simpl; try done.
      symmetry in H1. by apply negb_true_iff in H1.
  - destruct (pt_2 s) eqn:E; try done; rewrite ?A1; simpl; try done; intros [= <-]; exists k; (split; [done|]); apply with_1; simpl; try done.
    by destruct (_ <? _).
  - destruct (pt_1 s) eqn:E; try done; rewrite ?A2; simpl; try done; intros [= <-]; exists k; (split; [done|]); apply with_2; simpl; try done.
    by destruct (_ <? _).
  - destruct (pt_2 s) eqn:E; try done; simpl in *; intros [= <-].
    + exists k. split; [done|]. apply with_2; simpl; try done. destruct A4 as [H ->]. by rewrite lines_S, Hv, H.
    + exists k. split; [done|]. apply with_2; simpl; try done. by destruct A4.
    + exists (S k). destruct A4 as (H1 & -> & H2). split; [simpl; lia|]. apply with_2; simpl; try done.
      split; [|done]. by rewrite Nat.odd_succ, Nat.negb_even.
    + exists k. split; [done|]. destruct A4 as [H1 ->]. rewrite A2. apply in_s2; simpl; try done.
      symmetry in H1. by apply negb_false_iff in H1.
Qed.

Lemma handoff_inv t times s : rtc step (info_init t times) s -> inv s.
Proof.
  apply rtc_invariant.
  - intros x y Hx Hs. destruct Hs as [one x y E|x]; [by eapply thread_inv|].
    destruct Hx as (k & Hv & Ht). exists k. split; [done|]. destruct Ht; [by apply in_s1|by apply in_s2|by apply with_1|by apply with_2].
  - exists 0%nat. split; [done|]. by apply in_s1.
Qed.

(** Neither thread can go on. *)
Definition stuck (s : state) : Prop := pthread_func true s = None /\ pthread_func false s = None.

(** A thread can always go on unless it has returned or waits. *)
Lemma thread_blocked one s :
  pthread_func one s = None ->
  (if one then pt_1 s else pt_2 s) = T_done \/
  (if one then pt_1 s else pt_2 s) = T_wait /\ (if one then s2 s else s1 s) <= 0.
Proof.
  unfold pthread_func. destruct (if one then pt_1 s else pt_2 s); try done; [|destruct one; done|auto].
  intros E. right. split; [done|]. destruct one; unfold wait in E; destruct (_ >? _) eqn:Ev; try done; lia.
Qed.

(** The threads print alternately, beginning with thread 2, the values 0, 1, 2, ...;
    [var] is the number of increments; both are never inside at once; and neither
    can go on only when both have returned, or one has and the other waits. *)
Theorem handoff_alternates (t times : Z) (s : state) :
  rtc step (info_init t times) s ->
  (exists k, out s = lines k) /\
  (has_turn (pt_1 s) && has_turn (pt_2 s) = false) /\
  (stuck s -> pt_1 s = T_done /\ pt_2 s = T_done \/ pt_1 s = T_wait /\ pt_2 s = T_done \/
              pt_1 s = T_done /\ pt_2 s = T_wait).
Proof.
  intros Hs. apply handoff_inv in Hs as (k & Hv & Ht). split_and!.
  - destruct Ht as [? ? ? ? ? ->|? ? ? ? ? ->|_ _ _ H|_ _ _ H]; [by eexists..| |].
    + destruct (pt_1 s); simpl in H; try done; [| | |]; destruct H as [_ H]; [by eexists..|by destruct H; eexists|by eexists].
    + destruct (pt_2 s); simpl in H; try done; [| | |]; destruct H as [_ H]; [by eexists..|by destruct H; eexists|by eexists].
  - destruct Ht as [? ? -> -> _ _|? ? -> -> _ _|_ _ -> _|_ _ -> _]; [done..|apply andb_false_r|done].
  - intros [B1 B2]. apply thread_blocked in B1 as [B1|[B1 W1]], B2 as [B2|[B2 W2]]; auto.
    exfalso. destruct Ht as [A1 A2 _ _ _ _|A1 A2 _ _ _ _|_ _ _ H|_ _ _ H]; try lia;
      [rewrite B1 in H|rewrite B2 in H]; done.
Qed.

(** A schedule: a thread, or the clock. *)
Fixpoint run (sched : list (option bool)) (s : state) : option state :=
  match sched with
  | [] => Some s
  | Some one :: sched => s ← pthread_func one s; run sched s
  | None :: sched => run sched (tick s)
  end.

Lemma run_steps sched : forall s s', run sched s = Some s' -> rtc step s s'.
Proof.
  induction sched as [|[one|] sched IH]; intros s s'; simpl; [intros [= <-]; apply rtc_refl|..].
  - destruct (pthread_func one s) as [s1'|] eqn:E; [|done]. simpl. intros H. eapply rtc_l; [by eapply step_thread|by apply IH].
  - intros H. eapply rtc_l; [apply step_tick|by apply IH].
Qed.

(** Each thread has had its turn; thread 1 tests the time and waits, the time is
    up, thread 2 tests it and returns. *)
Definition hang_schedule : list (option bool) :=
  replicate 7 (Some false) ++ replicate 8 (Some true) ++ replicate 300 None ++ [Some false].

(** Thread 1 then waits for ever, and [pthread_join] in [main] with it. *)
Theorem handoff_hangs :
  exists s, rtc step (info_init 0 300) s /\ stuck s /\ pt_1 s = T_wait /\
    forall s', rtc step s s' -> stuck s' /\ pt_1 s' = T_wait.
Proof.
  assert (Hst : forall s, pt_1 s = T_wait -> pt_2 s = T_done -> s2 s = 0 -> stuck s).
  { intros s0 A1 A2 A3. unfold stuck, pthread_func. by rewrite A1, A2, A3. }
  assert (exists s, run hang_schedule (info_init 0 300) = Some s /\ pt_1 s = T_wait /\ pt_2 s = T_done /\ s2 s = 0)
    as (s & E & H1 & H2 & H3) by (vm_compute; eexists; split; [reflexivity|]; by split_and!).
  apply run_steps in E.
  exists s. split; [exact E|]. split; [by apply Hst|]. split; [done|].
  assert (Hinv : forall s', rtc step s s' -> pt_1 s' = T_wait /\ pt_2 s' = T_done /\ s2 s' = 0).
  { intros s'. apply (rtc_invariant step (fun x => pt_1 x = T_wait /\ pt_2 x = T_done /\ s2 x = 0)); [|done]. intros x y (A1 & A2 & A3) Hs. destruct (Hst x A1 A2 A3) as [B1 B2].
    destruct Hs as [[] x y E'|x]; [congruence|congruence|done]. }
  intros s' Hs. apply Hinv in Hs as (A1 & A2 & A3). split; [by apply Hst|done].
Qed.

End Handoff.
