(* ===== verification/MyMq.v ===== *)
(** * Posix message queues over mapped memory: [unixipc/my_pxmsg_mmap]

    The queue lives in a mapped file: a header followed by fixed-size message
    slots, linked by byte offsets into a list of messages ([mqh_head], by
    decreasing priority) and a list of free slots ([mqh_free]).  The region is
    modelled with its offsets and links; the theorems show that the operations
    implement a priority queue and how they behave under concurrency. *)
From S2P Require Import Prelude Monitor.

Module MyMq.

(** ** Data *)

Record mymq_attr := Attr { mq_flags : Z; mq_maxmsg : Z; mq_msgsize : Z; mq_curmsgs : Z }.

(** The fields of [struct sigevent] the code uses. *)
Record sigevent := Sigev { sigev_notify : Z; sigev_signo : Z; sigev_value : Z }.
Definition SIGEV_SIGNAL : Z := 0.

Record mymq_hdr := Hdr {
  mqh_attr : mymq_attr;
  mqh_head : Z;
  mqh_free : Z;
  mqh_nwait : Z;
  mqh_pid : Z;
  mqh_event : sigevent }.

(** One message slot: [mymsg_hdr] and the data bytes that follow it. *)
Record mymsg_hdr := Msg { msg_next : Z; msg_len : Z; msg_prio : Z; msg_data : list Z }.

(** The mapped region: the header, and the slots by byte offset. *)
Record region := Region { hdr : mymq_hdr; slots : gmap Z mymsg_hdr }.

(** [struct mymq_info], one per [mq_open]. *)
Record mymq_info := Info { mqi_magic : Z; mqi_flags : Z }.

Definition MQI_MAGIC : Z := 0x98765432.
Definition O_NONBLOCK : Z := 2048.

(** Sizes of the structures and of [long] (LP64). *)
Definition sizeof_long : Z := 8.
Definition sizeof_mymsg_hdr : Z := 24.
Definition sizeof_mymq_hdr : Z := 216.

(** In [size_t] arithmetic. *)
Definition MSGSIZE (i : Z) : Z := u64 (i + sizeof_long - 1) / sizeof_long * sizeof_long.

Definition set_curmsgs (a : mymq_attr) (n : Z) : mymq_attr :=
  Attr (mq_flags a) (mq_maxmsg a) (mq_msgsize a) n.

Definition set_hdr (h : mymq_hdr) (cur head free nwait pid : Z) : mymq_hdr :=
  Hdr (set_curmsgs (mqh_attr h) cur) head free nwait pid (mqh_event h).

Definition set_next (m : mymsg_hdr) (n : Z) : mymsg_hdr :=
  Msg n (msg_len m) (msg_prio m) (msg_data m).

Abbreviation curmsgs r := (mq_curmsgs (mqh_attr (hdr r))).
Abbreviation maxmsg r := (mq_maxmsg (mqh_attr (hdr r))).
Abbreviation msgsize r := (mq_msgsize (mqh_attr (hdr r))).

(** ** Creation (the initialisation inside [mymq_open]) *)

(** The file is zero-filled: a slot's fields are 0 until the code sets them. *)
Definition zero_slot (msgsz next : Z) : mymsg_hdr := Msg next 0 0 (replicate (Z.to_nat msgsz) 0).

(** The loop [for (i = 0; i < n; i++)] with an [int i] and a [long index]; the fuel
    is the number of turns, which [i] reaches unless it overflows. *)
Fixpoint link_slots (fuel : nat) (i n : Z) (index msgsz : Z) (sl : gmap Z mymsg_hdr) : Z * gmap Z mymsg_hdr :=
  match fuel with
  | O => (index, sl)
  | S fuel' =>
    if i <? n then
      let index' := s64 (index + (sizeof_mymsg_hdr + msgsz)) in
      link_slots fuel' (int_inc i) n index' msgsz (<[index := zero_slot msgsz index']> sl)
    else (index, sl)
  end.

Definition init_region (a : mymq_attr) : region :=
  let msgsz := s64 (MSGSIZE (mq_msgsize a)) in
  let index := sizeof_mymq_hdr in
  let '(last, sl) := link_slots (Z.to_nat (mq_maxmsg a - 1)) 0 (mq_maxmsg a - 1) index msgsz ∅ in
  Region (Hdr (Attr 0 (mq_maxmsg a) (mq_msgsize a) 0) 0 index 0 0 (Sigev 0 0 0))
         (<[last := zero_slot msgsz 0]> sl).

(** ** [mymq_send] *)

(** Results of the two message operations: [sigqueue] calls appear in the result
    of the send that makes them. *)
Inductive mqres :=
| SendOk (sig : option (Z * Z * Z))
| RecvOk (data : list Z) (prio : Z)
| MqErr (e : errno).

Inductive cond := mqh_wait.

#[export] Instance cond_eq_dec : EqDecision cond.
Proof. solve_decision. Defined.

Abbreviation outc := (outcome region mqres cond).

(** A pointer to something whose first member is the link: the header's
    [mqh_head] or a slot. *)
Inductive linkptr := HeadPtr | SlotPtr (i : Z).

(** [p->msg_next = v] *)
Definition write_link (p : linkptr) (v : Z) (r : region) : option region :=
  match p with
  | HeadPtr =>
    Some (Region (set_hdr (hdr r) (curmsgs r) v (mqh_free (hdr r)) (mqh_nwait (hdr r))
                    (mqh_pid (hdr r))) (slots r))
  | SlotPtr i =>
    m ← slots r !! i; Some (Region (hdr r) (<[i := set_next m v]> (slots r)))
  end.

(** The search loop: it stops at the first message of lower priority, or at the
    end ([index] 0), with [pmsghdr] the link to change.  [None]: a link leads
    outside the region, or the list is longer than [fuel]. *)
Fixpoint find_place (fuel : nat) (sl : gmap Z mymsg_hdr) (prio index : Z) (pm : linkptr)
    : option (Z * linkptr) :=
  match fuel with
  | O => None
  | S fuel' =>
    if index =? 0 then Some (0, pm)
    else
      m ← sl !! index;
      if prio >? msg_prio m then Some (index, pm)
      else find_place fuel' sl prio (msg_next m) (SlotPtr index)
  end.

(** Enough for any list without repetition. *)
Definition list_fuel (r : region) : nat := S (size (slots r)).

(** From the test for a free slot to the return; [sig] is the notification
    already sent.  [None] stands for an access outside the region. *)
Definition send_store (r : region) (ptr : list Z) (prio : Z) : option region :=
  let freeindex := mqh_free (hdr r) in
  n ← slots r !! freeindex;
  let n' := Msg (msg_next n) (Z.of_nat (length ptr)) prio (memcpy_into (msg_data n) ptr) in
  let r1 := Region (set_hdr (hdr r) (curmsgs r) (mqh_head (hdr r)) (msg_next n)
                      (mqh_nwait (hdr r)) (mqh_pid (hdr r)))
                   (<[freeindex := n']> (slots r)) in
  '(index, pm) ← find_place (list_fuel r) (slots r1) prio (mqh_head (hdr r1)) HeadPtr;
  if index =? 0 then
    r2 ← write_link pm freeindex r1;
    write_link (SlotPtr freeindex) 0 r2
  else
    r2 ← write_link (SlotPtr freeindex) index r1;
    write_link pm freeindex r2.

Definition send_commit (r : region) (ptr : list Z) (prio : Z) (sig : option (Z * Z * Z)) : outc :=
  if mqh_free (hdr r) =? 0 then Dump
  else
    match send_store r ptr prio with
    | None => Dump
    | Some r' =>
      Return (Region (set_hdr (hdr r') (long_inc (curmsgs r')) (mqh_head (hdr r')) (mqh_free (hdr r'))
                        (mqh_nwait (hdr r')) (mqh_pid (hdr r'))) (slots r'))
             (SendOk sig)
             (if curmsgs r' =? 0 then [Signal mqh_wait] else [])
    end.

(** Notification of the registered process when a message arrives on an empty
    queue nobody is waiting on: the [sigqueue] arguments, and the header with
    the registration removed. *)
Definition notify_registered (h : mymq_hdr) : option (Z * Z * Z) * mymq_hdr :=
  if negb (mqh_pid h =? 0) && (mqh_nwait h =? 0) then
    ((if sigev_notify (mqh_event h) =? SIGEV_SIGNAL then
        Some (mqh_pid h, sigev_signo (mqh_event h), sigev_value (mqh_event h))
      else None),
     set_hdr h (mq_curmsgs (mqh_attr h)) (mqh_head h) (mqh_free h) (mqh_nwait h) 0)
  else (None, h).

(** [mymq_send] up to its return or its first wait; [lk] is what
    [pthread_mutex_lock] returns. *)
Definition mymq_send (mqd : mymq_info) (lk : option errno) (ptr : list Z) (prio : Z)
    (r : region) : outc :=
  if negb (mqi_magic mqd =? MQI_MAGIC) then Return r (MqErr EBADF) []
  else match lk with
  | Some e => Return r (MqErr e) []
  | None =>
    if Z.of_nat (length ptr) >? u64 (msgsize r) then Return r (MqErr EMSGSIZE) []
    else if curmsgs r =? 0 then
      let '(sig, h) := notify_registered (hdr r) in
      send_commit (Region h (slots r)) ptr prio sig
    else if curmsgs r >=? maxmsg r then
      if has_flag (mqi_flags mqd) O_NONBLOCK then Return r (MqErr EAGAIN) []
      else Wait r mqh_wait
    else send_commit r ptr prio None
  end.

(** The same when a wait for room returns: the loop's test, then the rest. *)
Definition send_resume (ptr : list Z) (prio : Z) (r : region) : outc :=
  if curmsgs r >=? maxmsg r then Wait r mqh_wait else send_commit r ptr prio None.

(** ** [mymq_receive] *)

Definition recv_take (r : region) : outc :=
  let index := mqh_head (hdr r) in
  if index =? 0 then Dump
  else
    match slots r !! index with
    | None => Dump
    | Some m =>
      let h := hdr r in
      Return
        (Region (set_hdr h (long_dec (curmsgs r)) (msg_next m) index (mqh_nwait h) (mqh_pid h))
                (<[index := set_next m (mqh_free h)]> (slots r)))
        (RecvOk (take (Z.to_nat (msg_len m)) (msg_data m)) (msg_prio m))
        (if curmsgs r =? maxmsg r then [Signal mqh_wait] else [])
    end.

Definition set_nwait (r : region) (n : Z) : region :=
  Region (set_hdr (hdr r) (curmsgs r) (mqh_head (hdr r)) (mqh_free (hdr r)) n (mqh_pid (hdr r)))
         (slots r).

Definition mymq_receive (mqd : mymq_info) (lk : option errno) (maxlen : Z) (r : region) : outc :=
  if negb (mqi_magic mqd =? MQI_MAGIC) then Return r (MqErr EBADF) []
  else match lk with
  | Some e => Return r (MqErr e) []
  | None =>
    if maxlen <? u64 (msgsize r) then Return r (MqErr EMSGSIZE) []
    else if curmsgs r =? 0 then
      if has_flag (mqi_flags mqd) O_NONBLOCK then Return r (MqErr EAGAIN) []
      else Wait (set_nwait r (long_inc (mqh_nwait (hdr r)))) mqh_wait
    else recv_take r
  end.

Definition recv_resume (r : region) : outc :=
  if curmsgs r =? 0 then Wait r mqh_wait
  else recv_take (set_nwait r (long_dec (mqh_nwait (hdr r)))).

(** ** The other operations *)

(** [mymq_notify]: [pid] is the caller, [ntf] its argument ([None] for [NULL]),
    [kill0] the result of [kill(mqh_pid, 0)]. *)
Definition mymq_notify (mqd : mymq_info) (lk : option errno) (pid : Z) (ntf : option sigevent)
    (kill0 : option errno) (r : region) : region * cres unit :=
  if negb (mqi_magic mqd =? MQI_MAGIC) then (r, Err EBADF)
  else match lk with
  | Some e => (r, Err e)
  | None =>
    let h := hdr r in
    match ntf with
    | None =>
      if mqh_pid h =? pid then
        (Region (set_hdr h (curmsgs r) (mqh_head h) (mqh_free h) (mqh_nwait h) 0) (slots r), Ok tt)
      else (r, Ok tt)
    | Some ev =>
      if negb (mqh_pid h =? 0) && negb (bool_decide (kill0 = Some ESRCH)) then (r, Err EBUSY)
      else (Region (Hdr (mqh_attr h) (mqh_head h) (mqh_free h) (mqh_nwait h) pid ev) (slots r), Ok tt)
    end
  end.

(** [mymq_close]: the unregistration, the size it unmaps, its result; [unm] is
    the result of [munmap].  On success the structure is freed with its magic
    number cleared. *)
Definition filesize (a : mymq_attr) : Z :=
  s64 (u64 (sizeof_mymq_hdr
            + u64 (u64 (mq_maxmsg a) * u64 (sizeof_mymsg_hdr + MSGSIZE (mq_msgsize a))))).

Definition mymq_close (mqd : mymq_info) (lk : option errno) (pid : Z) (unm : option errno)
    (r : region) : region * mymq_info * option Z * cres unit :=
  if negb (mqi_magic mqd =? MQI_MAGIC) then (r, mqd, None, Err EBADF)
  else
    let '(r', res) := mymq_notify mqd lk pid None None r in
    match res with
    | Err e => (r', mqd, None, Err e)
    | Ok _ =>
      let size := filesize (mqh_attr (hdr r')) in
      match unm with
      | Some e => (r', mqd, Some size, Err e)
      | None => (r', Info 0 (mqi_flags mqd), Some size, Ok tt)
      end
    end.

Definition mymq_getattr (mqd : mymq_info) (lk : option errno) (r : region) : cres mymq_attr :=
  if negb (mqi_magic mqd =? MQI_MAGIC) then Err EBADF
  else match lk with
  | Some e => Err e
  | None => Ok (Attr (mqi_flags mqd) (maxmsg r) (msgsize r) (curmsgs r))
  end.

(** [mymq_setattr] changes the per-open flag only and reports the old
    attributes. *)
Definition mymq_setattr (mqd : mymq_info) (lk : option errno) (mqstat : mymq_attr) (r : region)
    : mymq_info * cres mymq_attr :=
  if negb (mqi_magic mqd =? MQI_MAGIC) then (mqd, Err EBADF)
  else match lk with
  | Some e => (mqd, Err e)
  | None =>
    let old := Attr (mqi_flags mqd) (maxmsg r) (msgsize r) (curmsgs r) in
    if has_flag (mq_flags mqstat) O_NONBLOCK
    then (Info (mqi_magic mqd) (set_flag (mqi_flags mqd) O_NONBLOCK), Ok old)
    else (Info (mqi_magic mqd) (clear_flag (mqi_flags mqd) O_NONBLOCK), Ok old)
  end.

Definition mymq_unlink (ul : option errno) : cres unit :=
  match ul with Some e => Err e | None => Ok tt end.

(** The wrappers. *)
Definition mq_checked (r : mqres) : wrapped mqres :=
  match r with MqErr e => ErrSys e | _ => Going r end.
Definition cres_checked {A} (r : cres A) : wrapped A :=
  match r with Ok a => Going a | Err e => ErrSys e end.

Definition Mymq_send mqd lk ptr prio r := outcome_map mq_checked (mymq_send mqd lk ptr prio r).
Definition Mymq_receive mqd lk maxlen r := outcome_map mq_checked (mymq_receive mqd lk maxlen r).
Definition Mymq_notify mqd lk pid ntf kill0 r :=
  cres_checked (mymq_notify mqd lk pid ntf kill0 r).2.
Definition Mymq_close mqd lk pid unm r := cres_checked (mymq_close mqd lk pid unm r).2.
Definition Mymq_getattr mqd lk r := cres_checked (mymq_getattr mqd lk r).
Definition Mymq_setattr mqd lk st r := cres_checked (mymq_setattr mqd lk st r).2.
Definition Mymq_unlink ul := cres_checked (mymq_unlink ul).

(** ** Linked lists in the region *)

(** Following the links from [i] visits the slots [l] and leads to [j]. *)
Fixpoint seg (sl : gmap Z mymsg_hdr) (i : Z) (l : list Z) (j : Z) : Prop :=
  match l with
  | [] => i = j
  | x :: l' => i = x /\ x <> 0 /\ exists m, sl !! x = Some m /\ seg sl (msg_next m) l' j
  end.

Lemma seg_app sl l1 : forall i l2 j,
  seg sl i (l1 ++ l2) j <-> exists k, seg sl i l1 k /\ seg sl k l2 j.
Proof.
  induction l1 as [|x l1 IH]; intros i l2 j; simpl; [naive_solver|]. split.
  - intros (-> & Hx & m & Hm & Hs). apply IH in Hs as (k & H1 & H2). naive_solver.
  - intros (k & (-> & Hx & m & Hm & H1) & H2). split_and!; try done. exists m.
    split; [done|]. apply IH. eauto.
Qed.

Lemma seg_ext sl sl' l : forall i j,
  (forall x, x ∈ l -> sl' !! x = sl !! x) -> seg sl i l j -> seg sl' i l j.
Proof.
  induction l as [|x l IH]; intros i j He; simpl; [done|].
  intros (-> & Hx & m & Hm & Hs). split_and!; try done. exists m.
  rewrite He by set_solver. split; [done|]. apply IH; [|done]. intros; apply He; set_solver.
Qed.

(** A slot that is not on the list can be written freely. *)
Lemma seg_insert sl i l j x m : x ∉ l -> seg sl i l j -> seg (<[x := m]> sl) i l j.
Proof. intros Hx. apply seg_ext. intros y Hy. apply lookup_insert_ne. by intros ->. Qed.

Lemma seg_hd sl i l : seg sl i l 0 -> i = hd 0 l.
Proof. destruct l; simpl; naive_solver. Qed.

Lemma seg_lookup sl i l j x : seg sl i l j -> x ∈ l -> x <> 0 /\ exists m, sl !! x = Some m.
Proof.
  revert i. induction l as [|y l IH]; intros i; simpl; [set_solver|].
  intros (-> & Hy & m & Hm & Hs) [->|Hin]%elem_of_cons; [eauto|eauto].
Qed.

(** Redirecting the last link of a list. *)
Lemma seg_redirect sl i l x m j k :
  seg sl i (l ++ [x]) j -> x ∉ l -> sl !! x = Some m ->
  seg (<[x := set_next m k]> sl) i (l ++ [x]) k.
Proof.
  intros (y & H1 & (-> & Hx & _))%seg_app Hnin Hm. apply seg_app. exists x.
  split; [by apply seg_insert|]. simpl. split_and!; try done. eexists.
  rewrite lookup_insert_eq. done.
Qed.

Lemma seg_size sl i l j : seg sl i l j -> NoDup l -> (length l <= size sl)%nat.
Proof.
  intros Hs Hn. rewrite <- (size_dom sl).
  rewrite <- (size_list_to_set (C := gset Z) l) by done. apply subseteq_size.
  intros x Hx%elem_of_list_to_set. apply elem_of_dom.
  destruct (seg_lookup _ _ _ _ _ Hs Hx) as (_ & m & Hm). eauto.
Qed.

(** What a reader sees in a slot: its priority and its message. *)
Definition msg_at (sl : gmap Z mymsg_hdr) (i : Z) : Z * list Z :=
  match sl !! i with
  | Some m => (msg_prio m, take (Z.to_nat (msg_len m)) (msg_data m))
  | None => (0, [])
  end.

Definition contents (sl : gmap Z mymsg_hdr) (l : list Z) : list (Z * list Z) := msg_at sl <$> l.

Lemma msg_at_insert_ne sl x m y : x <> y -> msg_at (<[x := m]> sl) y = msg_at sl y.
Proof. intros. unfold msg_at. by rewrite lookup_insert_ne. Qed.

Lemma msg_at_set_next sl x m n y :
  sl !! x = Some m -> msg_at (<[x := set_next m n]> sl) y = msg_at sl y.
Proof.
  intros Hm. unfold msg_at. rewrite lookup_insert. case_decide; [|done]. subst. by rewrite Hm.
Qed.

Lemma contents_insert_ne sl x m l : x ∉ l -> contents (<[x := m]> sl) l = contents sl l.
Proof.
  intros Hx. unfold contents. apply list_fmap_ext. intros i y Hy.
  apply msg_at_insert_ne. intros ->. apply Hx, list_elem_of_lookup. eauto.
Qed.

Lemma contents_set_next sl x m n l :
  sl !! x = Some m -> contents (<[x := set_next m n]> sl) l = contents sl l.
Proof. intros. apply list_fmap_ext. intros. by apply msg_at_set_next. Qed.

(** The search loop stops behind the messages of at least the new priority. *)
Lemma find_place_spec sl prio l : forall fuel i pm,
  seg sl i l 0 -> (length l < fuel)%nat ->
  exists l1 l2, l = l1 ++ l2 /\
    find_place fuel sl prio i pm =
      Some (hd 0 l2, match last l1 with Some x => SlotPtr x | None => pm end) /\
    Forall (fun x => prio <= (msg_at sl x).1) l1 /\
    match l2 with x :: _ => (msg_at sl x).1 < prio | [] => True end.
Proof.
  induction l as [|x l IH]; intros [|fuel] i pm Hs Hl; simpl in Hs, Hl; try lia.
  - subst. exists [], []. done.
  - destruct Hs as (-> & Hx & m & Hm & Hs). simpl.
    rewrite (proj2 (Z.eqb_neq x 0) Hx), Hm. simpl.
    assert ((msg_at sl x).1 = msg_prio m) as Ep by (unfold msg_at; by rewrite Hm).
    destruct (prio >? msg_prio m) eqn:E; bool_to_prop.
    + exists [], (x :: l). split_and!; try done. by rewrite Ep.
    + destruct (IH fuel (msg_next m) (SlotPtr x) Hs ltac:(lia)) as (l1 & l2 & -> & -> & HF & Hh).
      exists (x :: l1), l2. split_and!; try done; [|constructor; [lia|done]].
      destruct l1 as [|y l1]; [done|]. rewrite last_cons_cons.
      by destruct (last (y :: l1)) eqn:E1; [|apply last_None in E1].
Qed.

(** ** The representation invariant *)

(** [used] and [free] are the slots on the two lists. *)
Record repr (r : region) (used free : list Z) : Prop := {
  r_used : seg (slots r) (mqh_head (hdr r)) used 0;
  r_free : seg (slots r) (mqh_free (hdr r)) free 0;
  r_nodup : NoDup (used ++ free);
  r_cur : curmsgs r = Z.of_nat (length used);
  r_max : maxmsg r = Z.of_nat (length used + length free);
  r_pos : (0 < length used + length free)%nat;
  r_size : 0 < msgsize r < 2 ^ 63 /\ maxmsg r < 2 ^ 63;
  r_data : forall i m, slots r !! i = Some m ->
    Z.of_nat (length (msg_data m)) = MSGSIZE (msgsize r);
  r_prio : StronglySorted (fun a b => b.1 <= a.1) (contents (slots r) used) }.

(** A region that holds the queue [q]. *)
Definition models (r : region) (q : list (Z * list Z)) : Prop :=
  exists used free, repr r used free /\ q = contents (slots r) used.

(** The specification: insert behind every message of at least that priority. *)
Fixpoint spec_insert (p : Z) (d : list Z) (q : list (Z * list Z)) : list (Z * list Z) :=
  match q with
  | [] => [(p, d)]
  | x :: q' => if p >? x.1 then (p, d) :: q else x :: spec_insert p d q'
  end.

Lemma spec_insert_split p d q1 q2 :
  Forall (fun x => p <= x.1) q1 -> match q2 with x :: _ => x.1 < p | [] => True end ->
  spec_insert p d (q1 ++ q2) = q1 ++ (p, d) :: q2.
Proof.
  intros H1 H2. induction H1 as [|x q1 Hx _ IH]; simpl.
  - destruct q2 as [|x q2]; simpl; [done|]. by rewrite Z.gtb_ltb, (proj2 (Z.ltb_lt _ _) H2).
  - rewrite Z.gtb_ltb, (proj2 (Z.ltb_ge _ _) Hx). by rewrite IH.
Qed.

(** On a queue in order the new message goes behind those of its priority (first
    in, first out among equals) and the queue stays in order. *)
Lemma spec_insert_sorted p d q :
  StronglySorted (fun a b => b.1 <= a.1) q ->
  StronglySorted (fun a b => b.1 <= a.1) (spec_insert p d q).
Proof.
  induction 1 as [|x q Hs IH HF]; simpl; [by repeat constructor|].
  destruct (p >? x.1) eqn:E; bool_to_prop.
  - constructor; [by constructor|]. constructor; [simpl; lia|].
    eapply Forall_impl; [exact HF|]. simpl. intros; lia.
  - constructor; [done|]. clear IH Hs. induction HF as [|y q Hy _ IH]; simpl.
    + by repeat constructor.
    + destruct (p >? y.1); [|by constructor]. repeat constructor; try done.
      (* everything behind is unchanged *)
      clear -IH E. induction q as [|z q IHq]; simpl in *; [constructor|].
      destruct (p >? z.1); inversion IH; subst; [|constructor; auto].
      match goal with H : Forall _ (z :: q) |- _ => exact H end.
Qed.

Lemma MSGSIZE_ge n : 0 < n < 2 ^ 63 -> n <= MSGSIZE n.
Proof.
  intros. unfold MSGSIZE, sizeof_long. rewrite uwrap_small by lia.
  pose proof (Z.div_mod (n + 8 - 1) 8). pose proof (Z.mod_pos_bound (n + 8 - 1) 8). lia.
Qed.

(** ** What the store does *)

Definition spliced (sl1 : gmap Z mymsg_hdr) (f : Z) (n' : mymsg_hdr) (l1 l2 : list Z)
    : gmap Z mymsg_hdr :=
  <[f := set_next n' (hd 0 l2)]>
    match last l1 with
    | Some y => match sl1 !! y with Some m => <[y := set_next m f]> sl1 | None => sl1 end
    | None => sl1
    end.

(** The slot the new message goes into, filled. *)
Definition filled (n : mymsg_hdr) (ptr : list Z) (prio : Z) : mymsg_hdr :=
  Msg (msg_next n) (Z.of_nat (length ptr)) prio (memcpy_into (msg_data n) ptr).

Lemma last_elem {A} (l : list A) x : last l = Some x -> x ∈ l.
Proof. intros [l' ->]%last_Some. set_solver. Qed.

#[local] Arguments find_place : simpl never.

Lemma send_store_result r used f free n ptr prio :
  repr r used (f :: free) -> slots r !! f = Some n ->
  exists l1 l2, used = l1 ++ l2 /\
    Forall (fun x => prio <= (msg_at (slots r) x).1) l1 /\
    match l2 with x :: _ => (msg_at (slots r) x).1 < prio | [] => True end /\
    send_store r ptr prio =
      Some (Region (set_hdr (hdr r) (curmsgs r) (if last l1 then mqh_head (hdr r) else f)
                      (msg_next n) (mqh_nwait (hdr r)) (mqh_pid (hdr r)))
              (spliced (<[f := filled n ptr prio]> (slots r)) f (filled n ptr prio) l1 l2)).
Proof.
  intros [Hu Hf Hn _ _ _ _ _ _] Hlk. destruct Hf as (Hfe & Hf0 & _).
  assert (f ∉ used) as Hfu by (apply NoDup_app in Hn; set_solver).
  set (sl1 := <[f := filled n ptr prio]> (slots r)).
  assert (seg sl1 (mqh_head (hdr r)) used 0) as Hu1 by (by apply seg_insert).
  destruct (find_place_spec sl1 prio used (list_fuel r) _ HeadPtr Hu1) as (l1 & l2 & E & Hfp & HF & Hh).
  { unfold list_fuel. apply NoDup_app in Hn as (Hn & _). pose proof (seg_size _ _ _ _ Hu Hn). lia. }
  assert (forall x, x ∈ used -> msg_at sl1 x = msg_at (slots r) x) as Hat.
  { intros x Hx. apply msg_at_insert_ne. by intros ->. }
  exists l1, l2. split; [done|]. subst used.
  split. { rewrite Forall_forall in HF |- *. intros x Hx. rewrite <- Hat; [by apply HF|set_solver]. }
  split. { destruct l2; [done|]. rewrite <- Hat; [done|set_solver]. }
  unfold send_store. rewrite Hfe, Hlk. simpl. fold (filled n ptr prio). fold sl1. rewrite Hfp. simpl.
  assert (sl1 !! f = Some (filled n ptr prio)) as Hf1 by apply lookup_insert_eq.
  unfold spliced. destruct (last l1) as [y|] eqn:El.
  - apply last_elem in El as Hy.
    assert (f <> y) by (intros ->; set_solver).
    destruct (seg_lookup _ _ _ _ y Hu1) as (_ & m & Hm); [set_solver|].
    rewrite Hm. destruct l2 as [|x l2].
    + simpl. rewrite Hm. simpl. rewrite lookup_insert_ne, Hf1 by done. done.
    + assert (x <> 0) by (eapply (seg_lookup _ _ _ _ x Hu1); set_solver).
      simpl. rewrite (proj2 (Z.eqb_neq x 0)) by done. rewrite Hf1. simpl.
      rewrite lookup_insert_ne, Hm by done. simpl. by rewrite insert_insert_ne by done.
  - destruct l2 as [|x l2].
    + simpl. rewrite Hf1. done.
    + assert (x <> 0) by (eapply (seg_lookup _ _ _ _ x Hu1); set_solver).
      simpl. rewrite (proj2 (Z.eqb_neq x 0)) by done. rewrite Hf1. done.
Qed.

Lemma spliced_other sl1 f n' l1 l2 i l j :
  seg sl1 i l j -> f ∉ l -> (forall y, y ∈ l1 -> y ∉ l) -> seg (spliced sl1 f n' l1 l2) i l j.
Proof.
  intros Hs Hf Hy. unfold spliced. apply seg_insert; [done|].
  destruct (last l1) as [y|] eqn:El; [|done]. destruct (sl1 !! y); [|done].
  apply seg_insert; [|done]. by apply Hy, last_elem.
Qed.

Lemma spliced_seg sl1 h f n' l1 l2 :
  seg sl1 h (l1 ++ l2) 0 -> NoDup (l1 ++ l2) -> f ∉ l1 ++ l2 -> f <> 0 ->
  seg (spliced sl1 f n' l1 l2) (if last l1 then h else f) (l1 ++ f :: l2) 0.
Proof.
  intros Hs Hn Hf Hf0. apply seg_app in Hs as (k & H1 & H2).
  pose proof (seg_hd _ _ _ H2) as ->.
  apply NoDup_app in Hn as (Hn1 & Hd & Hn2).
  assert (seg (spliced sl1 f n' l1 l2) f (f :: l2) 0) as Hrest.
  { simpl. split_and!; try done. eexists. split; [apply lookup_insert_eq|]. simpl.
    apply spliced_other; [done|set_solver|done]. }
  apply seg_app. exists f. split; [|exact Hrest].
  destruct l1 as [|y l1 _] using rev_ind; [done|].
  rewrite last_snoc. unfold spliced. rewrite last_snoc.
  destruct (seg_lookup _ _ _ _ y H1) as (_ & m & Hm); [set_solver|]. rewrite Hm.
  apply seg_insert; [set_solver|]. apply (seg_redirect _ _ _ _ _ _ _ H1); [|done].
  apply NoDup_app in Hn1 as (_ & Hny & _). intros Hin. apply (Hny y); set_solver.
Qed.

Lemma spliced_contents sl1 f n' l1 l2 l :
  sl1 !! f = Some n' -> f ∉ l1 -> contents (spliced sl1 f n' l1 l2) l = contents sl1 l.
Proof.
  intros Hf Hnin. unfold spliced. destruct (last l1) as [y|] eqn:El.
  - assert (f <> y) by (intros ->; by apply Hnin, last_elem).
    destruct (sl1 !! y) as [m|] eqn:Hm; [|by apply contents_set_next].
    rewrite contents_set_next by (by rewrite lookup_insert_ne). by apply contents_set_next.
  - by apply contents_set_next.
Qed.

Lemma spliced_data sl1 f n' l1 l2 i m :
  sl1 !! f = Some n' -> spliced sl1 f n' l1 l2 !! i = Some m ->
  exists m0, sl1 !! i = Some m0 /\ msg_data m = msg_data m0.
Proof.
  intros Hf. unfold spliced. rewrite lookup_insert. case_decide; subst.
  { intros; simplify_eq. eauto. }
  destruct (last l1) as [y|]; [|eauto]. destruct (sl1 !! y) as [my|] eqn:Hy; [|eauto].
  rewrite lookup_insert. case_decide; subst; [|eauto]. intros; simplify_eq. eauto.
Qed.

(** The header fields no message operation changes. *)
Definition same_limits (r r' : region) : Prop :=
  maxmsg r' = maxmsg r /\ msgsize r' = msgsize r.

(** With room in the queue, the store succeeds and inserts the message. *)
Lemma send_commit_spec r used free ptr prio sig :
  repr r used free -> curmsgs r < maxmsg r -> Z.of_nat (length ptr) <= msgsize r ->
  exists r', send_commit r ptr prio sig =
      Return r' (SendOk sig) (if curmsgs r =? 0 then [Signal mqh_wait] else []) /\
    models r' (spec_insert prio ptr (contents (slots r) used)) /\
    curmsgs r' = curmsgs r + 1 /\ same_limits r r'.
Proof.
  intros Hr Hroom Hlen. pose proof Hr as [Hu Hfr Hn Hc Hm Hpos Hsz Hd Hp].
  assert (long_inc (curmsgs r) = curmsgs r + 1) as Einc by (apply long_inc_small; unfold LONG_MAX; lia).
  destruct free as [|f free]; simpl in *; [lia|].
  destruct Hfr as (Ef & Hf0 & n & Hlk & Hfr).
  destruct (send_store_result r used f free n ptr prio Hr Hlk)
    as (l1 & l2 & E & HF & Hh & Hst).
  unfold send_commit. rewrite Ef, (proj2 (Z.eqb_neq f 0) Hf0), Hst. simpl. eexists. split; [done|].
  set (sl1 := <[f := filled n ptr prio]> (slots r)) in *.
  assert (sl1 !! f = Some (filled n ptr prio)) as Hf1 by apply lookup_insert_eq.
  assert (f ∉ used /\ f ∉ free /\ NoDup used /\ NoDup free /\ (forall y, y ∈ used -> y ∉ free))
    as (Hfu & Hff & Hnu & Hnf & Hdj).
  { apply NoDup_app in Hn as (? & Hdis & (? & ?)%NoDup_cons). split_and!; set_solver. }
  assert (length (msg_data n) >= length ptr)%nat as Hroomy.
  { pose proof (Hd _ _ Hlk). pose proof (MSGSIZE_ge (msgsize r) ltac:(lia)). lia. }
  assert (contents (spliced sl1 f (filled n ptr prio) l1 l2) (l1 ++ f :: l2)
          = spec_insert prio ptr (contents (slots r) used)) as Hcont.
  { rewrite spliced_contents by (done || set_solver). subst used.
    unfold contents. rewrite !fmap_app. rewrite spec_insert_split.
    - simpl. f_equal; [apply contents_insert_ne; set_solver|].
      f_equal; [|apply contents_insert_ne; set_solver].
      unfold msg_at. rewrite Hf1. simpl. by rewrite Nat2Z.id, memcpy_into_take.
    - by apply Forall_fmap.
    - by destruct l2. }
  split_and!; simpl; try done.
  exists (l1 ++ f :: l2), free. split; [|symmetry; exact Hcont].
  constructor; simpl.
  - subst used. apply spliced_seg; try done. by apply seg_insert.
  - apply spliced_other; [by apply seg_insert|done|set_solver].
  - rewrite <- app_assoc. simpl. rewrite <- Permutation_middle. subst used.
    by rewrite app_assoc, Permutation_middle.
  - rewrite Einc, Hc. subst used. rewrite !length_app. simpl. lia.
  - rewrite Hm. subst used. rewrite !length_app. simpl. lia.
  - rewrite length_app. simpl. lia.
  - done.
  - intros i m Hi. apply spliced_data in Hi as (m0 & Hi & ->); [|done].
    unfold sl1 in Hi. rewrite lookup_insert in Hi. case_decide; simplify_eq; [|by eapply Hd].
    simpl. rewrite memcpy_into_length by lia. by eapply Hd.
  - rewrite Hcont. by apply spec_insert_sorted.
Qed.

(** Taking the first message. *)
Lemma recv_take_spec r used free :
  repr r used free -> 0 < curmsgs r ->
  exists p d q r', contents (slots r) used = (p, d) :: q /\
    recv_take r = Return r' (RecvOk d p) (if curmsgs r =? maxmsg r then [Signal mqh_wait] else []) /\
    models r' q /\ curmsgs r' = curmsgs r - 1 /\ same_limits r r'.
Proof.
  intros [Hu Hfr Hn Hc Hm Hpos Hsz Hd Hp] Hne.
  assert (long_dec (curmsgs r) = curmsgs r - 1) as Edec by (apply long_dec_small; unfold LONG_MAX; lia).
  destruct used as [|x used]; simpl in *; [lia|].
  destruct Hu as (Ex & Hx0 & m & Hlk & Hu).
  apply NoDup_cons in Hn as [Hx Hn].
  assert (contents (<[x := set_next m (mqh_free (hdr r))]> (slots r)) used
          = contents (slots r) used) as Hcont by (by apply contents_set_next).
  eexists _, _, _, _. split; [unfold contents; simpl; unfold msg_at at 1; by rewrite Hlk|].
  unfold recv_take. rewrite Ex, (proj2 (Z.eqb_neq x 0) Hx0), Hlk. split; [done|].
  split_and!; simpl; try done.
  exists used, (x :: free). split; [|done].
  constructor; simpl.
  - apply seg_insert; [set_solver|done].
  - split_and!; try done. eexists. split; [apply lookup_insert_eq|]. simpl.
    apply seg_insert; [set_solver|done].
  - rewrite <- Permutation_middle. by constructor.
  - lia.
  - lia.
  - lia.
  - done.
  - intros i m' Hi. rewrite lookup_insert in Hi. case_decide; simplify_eq; [exact (Hd _ _ Hlk)|by eapply Hd].
  - rewrite Hcont. by inversion Hp.
Qed.

(** ** The whole operations against the specification *)

(** The representation depends on the attributes, the two list heads and the
    slots only. *)
Lemma repr_hdr r h used free :
  repr r used free -> mqh_attr h = mqh_attr (hdr r) -> mqh_head h = mqh_head (hdr r) ->
  mqh_free h = mqh_free (hdr r) -> repr (Region h (slots r)) used free.
Proof. intros [] Ea Eh Ef. constructor; simpl; rewrite ?Ea, ?Eh, ?Ef; done. Qed.

Lemma models_hdr r h q :
  models r q -> mqh_attr h = mqh_attr (hdr r) -> mqh_head h = mqh_head (hdr r) ->
  mqh_free h = mqh_free (hdr r) -> models (Region h (slots r)) q.
Proof. intros (used & free & Hr & ->) ? ? ?. exists used, free. eauto using repr_hdr. Qed.

Lemma models_cur r q :
  models r q -> curmsgs r = Z.of_nat (length q) /\ curmsgs r <= maxmsg r /\
                0 < maxmsg r /\ 0 < msgsize r < 2 ^ 63.
Proof.
  intros (used & free & [Hu Hf Hn Hc Hm Hpos Hsz _ _] & ->). unfold contents.
  rewrite length_fmap. lia.
Qed.

Lemma set_curmsgs_id a : set_curmsgs a (mq_curmsgs a) = a.
Proof. by destruct a. Qed.

Lemma notify_registered_hdr h :
  mqh_attr (notify_registered h).2 = mqh_attr h /\
  mqh_head (notify_registered h).2 = mqh_head h /\ mqh_free (notify_registered h).2 = mqh_free h /\
  mqh_nwait (notify_registered h).2 = mqh_nwait h.
Proof. unfold notify_registered. split_test; simpl; rewrite ?set_curmsgs_id; done. Qed.

Lemma models_set_nwait r q n : models r q -> models (set_nwait r n) q.
Proof. intros. apply models_hdr; simpl; rewrite ?set_curmsgs_id; done. Qed.

(** [send_commit] and [recv_take] on a region that models a queue. *)
Lemma send_commit_models r q ptr prio sig :
  models r q -> curmsgs r < maxmsg r -> Z.of_nat (length ptr) <= msgsize r ->
  exists r', send_commit r ptr prio sig =
      Return r' (SendOk sig) (if curmsgs r =? 0 then [Signal mqh_wait] else []) /\
    models r' (spec_insert prio ptr q) /\ same_limits r r' /\
    mqh_nwait (hdr r') = mqh_nwait (hdr r).
Proof.
  intros (used & free & Hr & ->) Hc Hl.
  destruct (send_commit_spec r used free ptr prio sig Hr Hc Hl) as (r' & E & Hm & _ & Hlim).
  exists r'. split_and!; try done.
  revert E. unfold send_commit. destruct (mqh_free (hdr r) =? 0); [done|].
  destruct (send_store r ptr prio) as [r1|] eqn:Es; [|done]. intros [= <- _]. simpl.
  pose proof Hr as [_ Hf _ _ _ _ _ _ _]. destruct free as [|f free].
  { exfalso. destruct Hr as [_ _ _ Hcur Hmx _ _ _ _]. simpl in *. lia. }
  destruct Hf as (_ & _ & n & Hlk & _).
  destruct (send_store_result r used f free n ptr prio Hr Hlk) as (l1 & l2 & _ & _ & _ & Es').
  rewrite Es in Es'. by simplify_eq.
Qed.

Lemma recv_take_models r q :
  models r q -> 0 < curmsgs r ->
  exists p d q' r', q = (p, d) :: q' /\
    recv_take r = Return r' (RecvOk d p) (if curmsgs r =? maxmsg r then [Signal mqh_wait] else []) /\
    models r' q' /\ same_limits r r' /\ mqh_nwait (hdr r') = mqh_nwait (hdr r).
Proof.
  intros (used & free & Hr & ->) Hc.
  destruct (recv_take_spec r used free Hr Hc) as (p & d & q' & r' & E & Et & Hm & _ & Hlim).
  exists p, d, q', r'. split_and!; try done.
  revert Et. unfold recv_take. split_test; [done|]. destruct (slots r !! _); [|done].
  by intros [= <- _ _].
Qed.

Lemma u64_msgsize z : 0 < z < 2 ^ 63 -> u64 z = z.
Proof. intros. apply uwrap_small. lia. Qed.

(** *** Creation *)

Fixpoint offs (n : nat) (index stride : Z) : list Z :=
  match n with O => [index] | S n' => index :: offs n' (index + stride) stride end.

Lemma offs_ge n index stride x : 0 < stride -> x ∈ offs n index stride -> index <= x.
Proof.
  intros Hs. revert index. induction n as [|n IH]; intros index; simpl; [set_solver by lia|].
  intros [->|Hx]%elem_of_cons; [lia|]. apply IH in Hx. lia.
Qed.

Lemma offs_nodup n index stride : 0 < stride -> NoDup (offs n index stride).
Proof.
  intros Hs. revert index. induction n as [|n IH]; intros index; simpl; [apply NoDup_singleton|].
  constructor; [|apply IH]. intros Hx. apply offs_ge in Hx; lia.
Qed.

Lemma offs_length n index stride : length (offs n index stride) = S n.
Proof. revert index. induction n as [|n IH]; intros; simpl; [done|by rewrite IH]. Qed.

(** The loop without overflow. *)
Fixpoint chain_slots (n : nat) (index msgsz : Z) (sl : gmap Z mymsg_hdr) : Z * gmap Z mymsg_hdr :=
  match n with
  | O => (index, sl)
  | S n' =>
    let index' := index + (sizeof_mymsg_hdr + msgsz) in
    chain_slots n' index' msgsz (<[index := zero_slot msgsz index']> sl)
  end.

Lemma link_slots_chain fuel : forall i n index msgsz sl,
  0 <= i -> i + Z.of_nat fuel = n -> n <= INT_MAX -> 0 <= index -> 0 <= msgsz ->
  index + Z.of_nat fuel * (sizeof_mymsg_hdr + msgsz) < 2 ^ 63 ->
  link_slots fuel i n index msgsz sl = chain_slots fuel index msgsz sl.
Proof.
  induction fuel as [|fuel IH]; intros i n index msgsz sl Hi Hn Hm H0 Hz Hov; cbn [link_slots chain_slots]; [done|].
  unfold sizeof_mymsg_hdr in *. rewrite (proj2 (Z.ltb_lt i n)) by lia. rewrite int_inc_small by lia.
  assert (s64 (index + (24 + msgsz)) = index + (24 + msgsz)) as -> by (apply swrap_small; [lia|]; change (64 - 1) with 63; nia).
  apply IH; try lia.
Qed.

(** Limits with which the layout fits: the loop counter does not overflow an [int]
    nor the size of the file a [long]. *)
Definition layout_ok (a : mymq_attr) : Prop :=
  0 < mq_maxmsg a <= 2 ^ 31 /\ 0 < mq_msgsize a < 2 ^ 63 /\
  sizeof_mymq_hdr + mq_maxmsg a * (sizeof_mymsg_hdr + MSGSIZE (mq_msgsize a)) < 2 ^ 63.

Lemma init_region_exact a :
  layout_ok a ->
  init_region a =
    let msgsz := MSGSIZE (mq_msgsize a) in
    let '(last, sl) := chain_slots (Z.to_nat (mq_maxmsg a - 1)) sizeof_mymq_hdr msgsz ∅ in
    Region (Hdr (Attr 0 (mq_maxmsg a) (mq_msgsize a) 0) 0 sizeof_mymq_hdr 0 0 (Sigev 0 0 0))
           (<[last := zero_slot msgsz 0]> sl).
Proof.
  intros (Hx & Hs & Hov). pose proof (MSGSIZE_ge _ Hs). unfold init_region, sizeof_mymq_hdr, sizeof_mymsg_hdr in *.
  assert (s64 (MSGSIZE (mq_msgsize a)) = MSGSIZE (mq_msgsize a)) as ->.
  { apply swrap_small; [lia|]. change (64 - 1) with 63. nia. }
  rewrite link_slots_chain; [done|unfold INT_MAX, sizeof_mymsg_hdr; nia..].
Qed.

Lemma chain_slots_seg n : forall index msgsz sl last sl' fin,
  0 < index -> 0 <= msgsz -> msg_next fin = 0 ->
  chain_slots n index msgsz sl = (last, sl') ->
  let slF := <[last := fin]> sl' in
  seg slF index (offs n index (sizeof_mymsg_hdr + msgsz)) 0 /\
  (forall x, x < index -> slF !! x = sl !! x) /\
  (forall i m, slF !! i = Some m -> m = fin \/ (exists k, m = zero_slot msgsz k) \/ sl !! i = Some m).
Proof.
  induction n as [|n IH]; intros index msgsz sl last sl' fin Hi Hm Hfin; simpl.
  - intros [= <- <-]. split_and!; try lia.
    + exists fin. by rewrite lookup_insert_eq.
    + intros x Hx. apply lookup_insert_ne. lia.
    + intros i m Hl. rewrite lookup_insert in Hl. case_decide; simplify_eq; auto.
  - intros E. unfold sizeof_mymsg_hdr in *.
    apply IH with (fin := fin) in E as (Hs & Hlow & Hall); [|lia..|done].
    split_and!; try lia.
    + eexists. rewrite Hlow by lia. rewrite lookup_insert_eq. split; [done|]. exact Hs.
    + intros x Hx. rewrite Hlow by lia. apply lookup_insert_ne. lia.
    + intros i m Hl. apply Hall in Hl as [->|[[k ->]|Hl]]; eauto.
      rewrite lookup_insert in Hl. case_decide; simplify_eq; eauto.
Qed.

Lemma init_region_models a : layout_ok a -> models (init_region a) [].
Proof.
  intros Hlay. rewrite init_region_exact by done. destruct Hlay as (Hmax & Hsz & Hov). simpl.
  assert (0 <= MSGSIZE (mq_msgsize a)) as Hms by (pose proof (MSGSIZE_ge (mq_msgsize a) Hsz); lia).
  destruct (chain_slots _ _ _ _) as [last sl] eqn:E.
  eapply (chain_slots_seg _ _ _ _ _ _ (zero_slot (MSGSIZE (mq_msgsize a)) 0))
    in E as (Hs & _ & Hall); [|done..].
  eexists [], _. split; [|done]. constructor; simpl; try exact Hs; try done.
  - apply offs_nodup. unfold sizeof_mymsg_hdr. lia.
  - rewrite offs_length. lia.
  - rewrite offs_length. lia.
  - lia.
  - intros i m Hi. apply Hall in Hi as [->|[[k ->]|Hi]]; simpl;
      rewrite ?length_replicate; try lia. by rewrite lookup_empty in Hi.
  - constructor.
Qed.

(** ** Threads sharing a queue *)

Inductive op :=
| OpSend (mqd : mymq_info) (ptr : list Z) (prio : Z)
| OpRecv (mqd : mymq_info) (maxlen : Z).

Definition enter (o : op) : region -> outc :=
  match o with
  | OpSend mqd ptr prio => mymq_send mqd None ptr prio
  | OpRecv mqd maxlen => mymq_receive mqd None maxlen
  end.

Definition resume (o : op) : region -> outc :=
  match o with
  | OpSend _ ptr prio => send_resume ptr prio
  | OpRecv _ _ => recv_resume
  end.

Definition is_recv (o : op) : bool := match o with OpRecv _ _ => true | _ => false end.

(** A run with the messages sent and received so far (in the order of the
    returns). *)
Record hist := Hist {
  mon : conf region op cond;
  sent : list (Z * list Z);
  received : list (Z * list Z) }.

(** [mqh_nwait] is a [long]. *)
Definition room (c : conf region op cond) : Prop := Z.of_nat (size (threads c)) < LONG_MAX.

Inductive hstep : hist -> hist -> Prop :=
| hstep_intro c sn rc t o r c' :
    room c ->
    mstep enter resume c (t, o, r) c' ->
    hstep (Hist c sn rc)
      (Hist c' (match o, r with OpSend _ ptr prio, Some (SendOk _) => (prio, ptr) :: sn | _, _ => sn end)
               (match r with Some (RecvOk d p) => (p, d) :: rc | _ => rc end)).

Definition init_hist (a : mymq_attr) : hist := Hist (Conf (init_region a) ∅ false) [] [].

(** A sender that waits has passed the size check. *)
Definition fits (msz : Z) (o : op) : Prop :=
  match o with OpSend _ ptr _ => Z.of_nat (length ptr) <= msz | _ => True end.

Definition hinv (a : mymq_attr) (h : hist) : Prop :=
  dumped (mon h) = false /\
  (exists q, models (shared (mon h)) q /\ sent h ≡ₚ received h ++ q) /\
  msgsize (shared (mon h)) = mq_msgsize a /\ maxmsg (shared (mon h)) = mq_maxmsg a /\
  mqh_nwait (hdr (shared (mon h))) = nops is_recv (ops (threads (mon h))) /\
  (forall t o, ops (threads (mon h)) !! t = Some o -> fits (mq_msgsize a) o).

Lemma spec_insert_perm p d q : spec_insert p d q ≡ₚ (p, d) :: q.
Proof.
  induction q as [|x q IH]; simpl; [done|]. destruct (p >? x.1); [done|].
  rewrite IH. apply perm_swap.
Qed.

(** What a section does, whichever it is: [waiting] says whether the thread is
    already counted in [mqh_nwait]. *)
Definition section_post (a : mymq_attr) (o : op) (r : region) (q : list (Z * list Z))
    (waiting : bool) (out : outc) : Prop :=
  let was := if waiting && is_recv o then 1 else 0 in
  match out with
  | Return r' res _ =>
    msgsize r' = mq_msgsize a /\ maxmsg r' = mq_maxmsg a /\
    mqh_nwait (hdr r') = mqh_nwait (hdr r) - was /\
    exists q', models r' q' /\
      match o, res with
      | OpSend _ ptr prio, SendOk _ => q' ≡ₚ (prio, ptr) :: q
      | OpRecv _ _, RecvOk d p => q = (p, d) :: q'
      | _, MqErr _ => q' = q
      | _, _ => False
      end
  | Wait r' _ =>
    models r' q /\ msgsize r' = mq_msgsize a /\ maxmsg r' = mq_maxmsg a /\
    mqh_nwait (hdr r') = mqh_nwait (hdr r) - was + (if is_recv o then 1 else 0) /\
    fits (mq_msgsize a) o
  | Dump => False
  end.

Lemma enter_post a o r q :
  models r q -> 0 <= mqh_nwait (hdr r) < LONG_MAX -> msgsize r = mq_msgsize a -> maxmsg r = mq_maxmsg a ->
  section_post a o r q false (enter o r).
Proof.
  intros Hm Hnw Hs Hx. destruct (models_cur r q Hm) as (Hc & Hle & Hpos & Hsz).
  destruct o as [mqd ptr prio|mqd maxlen]; simpl; unfold section_post; simpl.
  - unfold mymq_send. rewrite u64_msgsize by done.
    destruct (mqi_magic mqd =? MQI_MAGIC); simpl; [|split_and!; eauto; lia].
    destruct (Z.of_nat (length ptr) >? msgsize r) eqn:El; bool_to_prop; [split_and!; eauto; lia|].
    destruct (curmsgs r =? 0) eqn:E0; bool_to_prop.
    + destruct (notify_registered (hdr r)) as [sig h] eqn:En.
      destruct (notify_registered_hdr (hdr r)) as (Ea & Eh & Ef & Enw). rewrite En in *; simpl in *.
      destruct (send_commit_models (Region h (slots r)) q ptr prio sig) as (r' & -> & Hm' & [Hl1 Hl2] & Hw);
        simpl; rewrite ?Ea; [by apply models_hdr|lia|lia|].
      simpl in *. rewrite Ea in *. split_and!; [congruence|congruence|lia|].
      eexists. split; [done|apply spec_insert_perm].
    + destruct (curmsgs r >=? maxmsg r) eqn:Ef; bool_to_prop.
      * destruct (has_flag _ _); simpl; split_and!; eauto; lia.
      * destruct (send_commit_models r q ptr prio None) as (r' & -> & Hm' & [Hl1 Hl2] & Hw);
          [done|lia|lia|]. simpl. split_and!; [congruence|congruence|lia|].
        eexists. split; [done|apply spec_insert_perm].
  - unfold mymq_receive. rewrite u64_msgsize by done.
    destruct (mqi_magic mqd =? MQI_MAGIC); simpl; [|split_and!; eauto; lia].
    destruct (maxlen <? msgsize r); [split_and!; eauto; lia|].
    destruct (curmsgs r =? 0) eqn:E0; bool_to_prop.
    + destruct (has_flag _ _); simpl; in_range; split_and!; eauto using models_set_nwait; lia.
    + destruct (recv_take_models r q) as (p & d & q' & r' & -> & -> & Hm' & [Hl1 Hl2] & Hw);
        [done|lia|]. simpl. split_and!; [congruence|congruence|lia|]. eauto.
Qed.

Lemma resume_post a o r q :
  models r q -> 0 <= mqh_nwait (hdr r) < LONG_MAX -> msgsize r = mq_msgsize a -> maxmsg r = mq_maxmsg a -> fits (mq_msgsize a) o ->
  section_post a o r q true (resume o r).
Proof.
  intros Hm Hnw Hs Hx Hfit. destruct (models_cur r q Hm) as (Hc & Hle & Hpos & Hsz).
  destruct o as [mqd ptr prio|mqd maxlen]; simpl in *; unfold section_post; simpl.
  - unfold send_resume. destruct (curmsgs r >=? maxmsg r) eqn:Ef; bool_to_prop.
    + split_and!; eauto; lia.
    + destruct (send_commit_models r q ptr prio None) as (r' & -> & Hm' & [Hl1 Hl2] & Hw);
        [done|lia|lia|]. simpl. split_and!; [congruence|congruence|lia|].
      eexists. split; [done|apply spec_insert_perm].
  - unfold recv_resume. destruct (curmsgs r =? 0) eqn:E0; bool_to_prop.
    + split_and!; eauto; lia.
    + in_range. destruct (recv_take_models (set_nwait r (mqh_nwait (hdr r) - 1)) q)
        as (p & d & q' & r' & -> & -> & Hm' & [Hl1 Hl2] & Hw); [by apply models_set_nwait|done || simpl; lia|].
      simpl in *. split_and!; [congruence|congruence|lia|]. eauto.
Qed.

(** One section of thread [t], finished. *)
Lemma hinv_finish a s th sn rc t o w out r c' :
  hinv a (Hist (Conf s th false) sn rc) ->
  (forall q, models s q -> section_post a o s q w out) ->
  ops th !! t = (if w then Some o else None) ->
  finish t o out th r c' ->
  hinv a (Hist c'
    (match o, r with OpSend _ ptr prio, Some (SendOk _) => (prio, ptr) :: sn | _, _ => sn end)
    (match r with Some (RecvOk d p) => (p, d) :: rc | _ => rc end)).
Proof.
  intros (_ & (q & Hm & Hp) & Hs & Hx & Hw & Hfit) Hpost Hot Hf; simpl in *.
  specialize (Hpost q Hm). pose proof (finish_ops _ _ _ _ _ _ Hf) as Ho.
  destruct Hf as [s' res acts th0 th' Ha|s' cc th0|]; [..|done]; simpl in *.
  - destruct Hpost as (H1 & H2 & H3 & q' & Hm' & Hq), Ho as [_ Ho].
    unfold hinv; simpl. rewrite Ho. split_and!; try done.
    + exists q'. split; [done|]. destruct o, res; try done; subst; try done.
      * rewrite Hq, Hp. apply Permutation_middle.
      * rewrite Hp. simpl. symmetry. apply Permutation_middle.
    + rewrite H3, Hw. destruct w; simpl.
      * rewrite (nops_delete _ _ t o) by done. by destruct (is_recv o).
      * rewrite delete_id by done. lia.
    + intros t' o' Hin. apply lookup_delete_Some in Hin as [_ Hin]. eauto.
  - destruct Hpost as (H1 & H2 & H3 & H4 & H5), Ho as [_ Ho].
    unfold hinv; simpl. rewrite Ho. split_and!; try done.
    + exists q. split; [done|]. by destruct o.
    + rewrite H4, Hw. destruct w; simpl.
      * rewrite (insert_id (ops th0)) by done. destruct (is_recv o); lia.
      * rewrite nops_insert by done. destruct (is_recv o); lia.
    + intros t' o' Hin. apply lookup_insert_Some in Hin as [[_ <-]|[_ Hin]]; eauto.
Qed.

Lemma mq_hinv_step a h h' : hinv a h -> hstep h h' -> hinv a h'.
Proof.
  intros Hi Hs. pose proof Hi as (_ & _ & Hs1 & Hx1 & Hw1 & Hfit).
  destruct Hs as [c sn rc t o r c' Hroom Hm]. simpl in *.
  assert (0 <= mqh_nwait (hdr (shared c)) < LONG_MAX) as Hnw.
  { rewrite Hw1. pose proof (nops_nonneg is_recv (ops (threads c))). pose proof (nops_le_size is_recv (threads c)).
    unfold room in Hroom. lia. }
  inversion Hm as [s th t0 o0 r0 c0 Ht Hf|s th t0 o0 r0 c0 Ht Hf|s th t0 cc o0 Ht]; subst; simpl in *.
  - eapply (hinv_finish a s th sn rc t o false); eauto; [|by rewrite ops_lookup, Ht].
    intros q Hq. by apply enter_post.
  - assert (ops th !! t = Some o) as Hot by (by rewrite ops_lookup, Ht).
    eapply (hinv_finish a s th sn rc t o true); eauto.
    intros q Hq. apply resume_post; eauto.
  - destruct Hi as (? & ? & ? & ? & ? & ?). unfold hinv; simpl in *.
    rewrite ops_insert, (insert_id (ops th)) by (by rewrite ops_lookup, Ht).
    split_and!; try done. by destruct o.
Qed.

Lemma hinv_reachable a h : layout_ok a -> rtc hstep (init_hist a) h -> hinv a h.
Proof.
  intros Hlay. apply rtc_invariant; [intros; by eapply mq_hinv_step|].
  pose proof (init_region_models a Hlay) as H.
  unfold hinv, init_hist, ops; simpl. rewrite fmap_empty, nops_empty. rewrite init_region_exact in * by done. simpl in *.
  destruct (chain_slots _ _ _ _) as [last sl]. split_and!; try done. by exists [].
Qed.

(** ** The abstract queue

    What the interface promises: a bounded queue of prioritised messages, with
    the limits [max] and [msz]; an operation returns a result and the new queue,
    or has to wait. *)
Inductive spec_res := SpecRet (q : list (Z * list Z)) (res : cres (option (Z * list Z))) | SpecWait.

Definition spec_send (mqd : mymq_info) (lk : option errno) (max msz : Z) (d : list Z) (p : Z)
    (q : list (Z * list Z)) : spec_res :=
  if bool_decide (mqi_magic mqd <> MQI_MAGIC) then SpecRet q (Err EBADF)
  else match lk with Some e => SpecRet q (Err e) | None =>
    if bool_decide (msz < Z.of_nat (length d)) then SpecRet q (Err EMSGSIZE)
    else if bool_decide (Z.of_nat (length q) < max) then
      SpecRet (filter (fun m => p <= m.1) q ++ (p, d) :: filter (fun m => m.1 < p) q) (Ok None)
    else if has_flag (mqi_flags mqd) O_NONBLOCK then SpecRet q (Err EAGAIN)
    else SpecWait
  end.

Definition spec_receive (mqd : mymq_info) (lk : option errno) (msz maxlen : Z)
    (q : list (Z * list Z)) : spec_res :=
  if bool_decide (mqi_magic mqd <> MQI_MAGIC) then SpecRet q (Err EBADF)
  else match lk with Some e => SpecRet q (Err e) | None =>
    if bool_decide (maxlen < msz) then SpecRet q (Err EMSGSIZE)
    else match q with
    | m :: q' => SpecRet q' (Ok (Some m))
    | [] => if has_flag (mqi_flags mqd) O_NONBLOCK then SpecRet q (Err EAGAIN) else SpecWait
    end
  end.

Definition result_of (res : mqres) : cres (option (Z * list Z)) :=
  match res with
  | SendOk _ => Ok None
  | RecvOk d p => Ok (Some (p, d))
  | MqErr e => Err e
  end.

(** An outcome on [r], which holds [q], implements a step of the specification;
    a failing operation leaves the region as it was. *)
Definition implements (r : region) (q : list (Z * list Z)) (out : outc) (sp : spec_res) : Prop :=
  match out, sp with
  | Return r' res _, SpecRet q' res' =>
    result_of res = res' /\ models r' q' /\ same_limits r r' /\
    match res with MqErr _ => r' = r | _ => True end
  | Wait r' _, SpecWait => models r' q /\ same_limits r r'
  | _, _ => False
  end.

Lemma spec_insert_filter p d q :
  StronglySorted (fun a b => b.1 <= a.1) q ->
  spec_insert p d q = filter (fun m => p <= m.1) q ++ (p, d) :: filter (fun m => m.1 < p) q.
Proof.
  induction 1 as [|x q Hs IH HF]; simpl; [done|]. rewrite !filter_cons.
  destruct (p >? x.1) eqn:E; bool_to_prop.
  - rewrite decide_False, decide_True by lia.
    rewrite list_filter_none, (list_filter_all _ q); [done|..];
      rewrite Forall_forall in *; intros y Hy; specialize (HF y Hy); simpl in HF; lia.
  - rewrite decide_True, decide_False by lia. by rewrite IH.
Qed.

Lemma models_sorted r q : models r q -> StronglySorted (fun a b => b.1 <= a.1) q.
Proof. intros (used & free & [] & ->). done. Qed.

(** C5: [mymq_send] implements the abstract bounded priority queue: on a region
    that holds the queue [q], whatever the descriptor, the lock's result, the
    message and the priority, it fails with the error the specification gives
    (the region unchanged), waits exactly when the queue is full and the
    descriptor blocks, and otherwise returns with the message behind all those
    of at least its priority and before all others; it never aborts or leaves
    the region. *)
Theorem mq_send_refines (mqd : mymq_info) (lk : option errno) (ptr : list Z) (prio : Z)
    (r : region) (q : list (Z * list Z)) :
  models r q ->
  implements r q (mymq_send mqd lk ptr prio r)
    (spec_send mqd lk (maxmsg r) (msgsize r) ptr prio q).
Proof.
  intros Hm. destruct (models_cur r q Hm) as (Hc & Hle & Hpos & Hsz).
  unfold mymq_send, spec_send. rewrite u64_msgsize by done.
  destruct (mqi_magic mqd =? MQI_MAGIC) eqn:Emg; bool_to_prop;
    [rewrite bool_decide_false by lia|by rewrite bool_decide_true by lia].
  simpl. destruct lk as [e|]; [done|].
  destruct (Z.of_nat (length ptr) >? msgsize r) eqn:El; bool_to_prop;
    [by rewrite bool_decide_true by lia|rewrite (bool_decide_false (_ < _)) by lia].
  rewrite <- spec_insert_filter by (by eapply models_sorted).
  destruct (curmsgs r =? 0) eqn:E0; bool_to_prop.
  - destruct (notify_registered (hdr r)) as [sig h] eqn:En.
    destruct (notify_registered_hdr (hdr r)) as (Ea & Eh & Ef & Enw). rewrite En in *; simpl in *.
    rewrite bool_decide_true by lia.
    destruct (send_commit_models (Region h (slots r)) q ptr prio sig) as (r' & -> & Hm' & [Hl1 Hl2] & Hw);
      simpl; rewrite ?Ea; [by apply models_hdr|lia|lia|]. simpl in *. rewrite Ea in *. done.
  - destruct (curmsgs r >=? maxmsg r) eqn:Ef; bool_to_prop.
    + rewrite bool_decide_false by lia. by destruct (has_flag _ _).
    + rewrite bool_decide_true by lia.
      destruct (send_commit_models r q ptr prio None) as (r' & -> & Hm' & Hl & Hw); [done|lia|lia|done].
Qed.

(** C6: [mymq_receive] implements the abstract queue: it fails with the error
    the specification gives (the region unchanged), waits exactly when the queue
    is empty and the descriptor blocks, and otherwise returns the bytes and the
    priority of the first message, which is the oldest of the highest priority,
    and removes it. *)
Theorem mq_receive_refines (mqd : mymq_info) (lk : option errno) (maxlen : Z)
    (r : region) (q : list (Z * list Z)) :
  models r q ->
  implements r q (mymq_receive mqd lk maxlen r) (spec_receive mqd lk (msgsize r) maxlen q) /\
  match mymq_receive mqd lk maxlen r with
  | Return _ (RecvOk _ p) _ => Forall (fun m => m.1 <= p) q
  | _ => True
  end.
Proof.
  intros Hm. destruct (models_cur r q Hm) as (Hc & Hle & Hpos & Hsz).
  unfold mymq_receive, spec_receive. rewrite u64_msgsize by done.
  destruct (mqi_magic mqd =? MQI_MAGIC) eqn:Emg; bool_to_prop;
    [rewrite bool_decide_false by lia|by rewrite bool_decide_true by lia].
  simpl. destruct lk as [e|]; [done|].
  destruct (maxlen <? msgsize r) eqn:El; bool_to_prop;
    [by rewrite bool_decide_true by lia|rewrite (bool_decide_false (_ < _)) by lia].
  destruct (curmsgs r =? 0) eqn:E0; bool_to_prop.
  - destruct q; [|simpl in *; lia]. destruct (has_flag _ _); [done|].
    split; [|done]. split; [by apply models_set_nwait|done].
  - pose proof (models_sorted _ _ Hm) as Hso.
    destruct (recv_take_models r q) as (p & d & q' & r' & -> & -> & Hm' & Hl & Hw); [done|lia|].
    split; [done|]. inversion Hso; subst. by constructor.
Qed.

(** C7: Exactly-once delivery under concurrency: in every run of any number of
    threads (fewer than [LONG_MAX]) that send and receive on a queue created with
    positive limits, at most 2^31 messages and a file size within a [long], the
    process never aborts, the region holds a queue ordered by priority and the
    messages sent are, up to order, those received plus those queued; the count
    stays within [mq_maxmsg], and [mqh_nwait] is the number of receivers inside
    a wait. *)
Theorem mq_exactly_once (a : mymq_attr) (h : hist) :
  layout_ok a -> rtc hstep (init_hist a) h ->
  dumped (mon h) = false /\
  0 <= curmsgs (shared (mon h)) <= mq_maxmsg a /\
  mqh_nwait (hdr (shared (mon h))) = nops is_recv (ops (threads (mon h))) /\
  exists q, models (shared (mon h)) q /\ sent h ≡ₚ received h ++ q /\ decreasing q.*1.
Proof.
  intros Hlay Hr. destruct (hinv_reachable a h Hlay Hr) as (Hd & (q & Hm & Hp) & _ & Hmx & Hw & _).
  destruct (models_cur _ _ Hm) as (Hc & Hle & _). split_and!; try done; try lia.
  exists q. split_and!; try done. apply models_sorted in Hm. clear -Hm. unfold decreasing.
  induction Hm as [|x q _ IH HF]; simpl; constructor; [done|]. by apply Forall_fmap.
Qed.

(** ** Memory bounds *)

Lemma offs_elem n index stride x :
  x ∈ offs n index stride -> exists k, (k <= n)%nat /\ x = index + Z.of_nat k * stride.
Proof.
  revert index. induction n as [|n IH]; intros index; simpl.
  - intros ->%list_elem_of_singleton. exists 0%nat. lia.
  - intros [->|Hx]%elem_of_cons; [exists 0%nat; lia|].
    apply IH in Hx as (k & Hk & ->). exists (S k). lia.
Qed.

Lemma chain_slots_dom n : forall index msgsz sl last sl' fin,
  chain_slots n index msgsz sl = (last, sl') ->
  dom (<[last := fin]> sl') = list_to_set (offs n index (sizeof_mymsg_hdr + msgsz)) ∪ dom sl.
Proof.
  induction n as [|n IH]; intros index msgsz sl last sl' fin; simpl.
  - intros [= <- <-]. set_solver.
  - intros E. rewrite (IH _ _ _ _ _ _ E). set_solver.
Qed.

(** The offsets of the slots of a new region. *)
Lemma init_region_offsets a i :
  layout_ok a -> i ∈ dom (slots (init_region a)) ->
  exists k, 0 <= k < mq_maxmsg a /\
    i = sizeof_mymq_hdr + k * (sizeof_mymsg_hdr + MSGSIZE (mq_msgsize a)).
Proof.
  intros Hlay. rewrite init_region_exact by done. destruct Hlay as (Hx & _). simpl.
  destruct (chain_slots _ _ _ _) as [last sl] eqn:E. simpl.
  rewrite (chain_slots_dom _ _ _ _ _ _ _ E), dom_empty_L, union_empty_r_L, elem_of_list_to_set.
  intros (k & Hk & ->)%offs_elem. exists (Z.of_nat k). lia.
Qed.

Lemma insert_present_dom {A} (m : gmap Z A) i x y :
  m !! i = Some x -> dom (<[i := y]> m) = dom m.
Proof. intros. apply dom_insert_lookup_L. eauto. Qed.

Lemma write_link_dom p v r r' : write_link p v r = Some r' -> dom (slots r') = dom (slots r).
Proof.
  destruct p; simpl; [by intros [= <-]|]. destruct (slots r !! i) eqn:E; simpl; [|done].
  intros [= <-]. by eapply insert_present_dom.
Qed.

#[local] Arguments write_link : simpl never.

Lemma send_store_dom r ptr prio r' : send_store r ptr prio = Some r' -> dom (slots r') = dom (slots r).
Proof.
  unfold send_store. destruct (slots r !! _) as [n|] eqn:En; simpl; [|done].
  destruct (find_place _ _ _ _ _) as [[index pm]|]; simpl; [|done].
  set (r1 := Region _ _). assert (dom (slots r1) = dom (slots r)) as <- by (by eapply insert_present_dom).
  destruct (index =? 0).
  - destruct (write_link pm _ r1) as [r2|] eqn:E2; [|done]. cbn [mbind option_bind].
    intros E3. by rewrite (write_link_dom _ _ _ _ E3), (write_link_dom _ _ _ _ E2).
  - destruct (write_link (SlotPtr _) index r1) as [r2|] eqn:E2; [|done]. cbn [mbind option_bind].
    intros E3. by rewrite (write_link_dom _ _ _ _ E3), (write_link_dom _ _ _ _ E2).
Qed.

(** No section adds or removes a slot. *)
Definition keeps_dom (r : region) (out : outc) : Prop :=
  match out with
  | Return r' _ _ | Wait r' _ => dom (slots r') = dom (slots r)
  | Dump => True
  end.

Lemma send_commit_dom r ptr prio sig : keeps_dom r (send_commit r ptr prio sig).
Proof.
  unfold send_commit. destruct (_ =? 0); [done|].
  destruct (send_store r ptr prio) eqn:E; [|done]. simpl. by eapply send_store_dom.
Qed.

Lemma recv_take_dom r : keeps_dom r (recv_take r).
Proof.
  unfold recv_take. destruct (_ =? 0); [done|]. destruct (slots r !! _) eqn:E; [|done].
  simpl. by eapply insert_present_dom.
Qed.

Lemma enter_dom o r : keeps_dom r (enter o r).
Proof.
  destruct o; simpl; [unfold mymq_send|unfold mymq_receive]; repeat case_match; try done;
    first [apply recv_take_dom|exact (send_commit_dom (Region _ (slots r)) _ _ _)
          |apply send_commit_dom].
Qed.

Lemma resume_dom o r : keeps_dom r (resume o r).
Proof.
  destruct o; simpl; [unfold send_resume|unfold recv_resume]; case_match; try done;
    [apply send_commit_dom|exact (recv_take_dom (set_nwait r _))].
Qed.

Lemma hstep_dom h h' :
  hstep h h' -> dumped (mon h') = false ->
  dom (slots (shared (mon h'))) = dom (slots (shared (mon h))).
Proof.
  destruct 1 as [c sn rc t o r c' _ Hm]. simpl.
  inversion Hm as [s th t0 o0 r0 c0 _ Hf|s th t0 o0 r0 c0 _ Hf|]; subst; [..|done]; intros Hd.
  - pose proof (enter_dom o s) as H. by destruct Hf.
  - pose proof (resume_dom o s) as H. by destruct Hf.
Qed.

Lemma reachable_dom a h :
  layout_ok a -> rtc hstep (init_hist a) h ->
  dom (slots (shared (mon h))) = dom (slots (init_region a)).
Proof.
  intros Hlay Hr.
  apply (rtc_invariant hstep
    (fun h => hinv a h /\ dom (slots (shared (mon h))) = dom (slots (init_region a)))
    (init_hist a) h); [|split; [by apply hinv_reachable|done]|done].
  intros h1 h2 [Hi Hd] Hst. pose proof (mq_hinv_step _ _ _ Hi Hst) as Hi2. split; [done|].
  rewrite <- Hd. apply hstep_dom; [done|apply Hi2].
Qed.

Lemma filesize_exact a :
  layout_ok a ->
  filesize a = sizeof_mymq_hdr + mq_maxmsg a * (sizeof_mymsg_hdr + MSGSIZE (mq_msgsize a)).
Proof.
  intros (Hx & Hs & Hov). pose proof (MSGSIZE_ge _ Hs) as Hge. unfold filesize.
  unfold sizeof_mymq_hdr, sizeof_mymsg_hdr in *. set (ms := MSGSIZE _) in *.
  assert (2 ^ 64 = 2 * 2 ^ 63) as E64 by done. assert (0 < 2 ^ 63) by done.
  rewrite (uwrap_small 64 (mq_maxmsg a)), (uwrap_small 64 (24 + ms)) by nia.
  rewrite (uwrap_small 64 (_ * _)) by nia. rewrite (uwrap_small 64) by nia.
  apply swrap_small; [done|]. change (64 - 1) with 63. nia.
Qed.

(** C8: Memory safety of the region: when there are at most 2^31 messages (the loop
    counter is an [int]) and the size computed at creation does not overflow a
    [long], every slot any run can reach lies between the header and
    the end of the mapping ([filesize] bytes), has exactly the rounded message
    size of data bytes, and distinct slots never overlap. *)
Theorem mq_slots_in_mapping (a : mymq_attr) (h : hist) :
  layout_ok a ->
  rtc hstep (init_hist a) h ->
  forall i m, slots (shared (mon h)) !! i = Some m ->
    sizeof_mymq_hdr <= i /\
    i + sizeof_mymsg_hdr + Z.of_nat (length (msg_data m)) <= filesize a /\
    Z.of_nat (length (msg_data m)) = MSGSIZE (mq_msgsize a) /\
    (forall j m', slots (shared (mon h)) !! j = Some m' -> i < j ->
       i + sizeof_mymsg_hdr + Z.of_nat (length (msg_data m)) <= j).
Proof.
  intros Hlay Hr i m Hi. pose proof Hlay as (Hx & Hs & Hov). pose proof (MSGSIZE_ge _ Hs) as Hge.
  destruct (hinv_reachable a h Hlay Hr) as (_ & (q & (u & f & Hrep & _) & _) & Hmz & _).
  pose proof (reachable_dom a h Hlay Hr) as Hdom.
  rewrite (r_data _ _ _ Hrep i m Hi), Hmz.
  assert (forall k mk, slots (shared (mon h)) !! k = Some mk -> k ∈ dom (slots (init_region a))) as Hin.
  { intros k mk Hk. rewrite <- Hdom. by eapply elem_of_dom_2. }
  destruct (init_region_offsets a i Hlay (Hin _ _ Hi)) as (k & Hk & Ei).
  rewrite filesize_exact by done. unfold sizeof_mymq_hdr, sizeof_mymsg_hdr in *.
  split_and!; [nia|nia|done|].
  intros j m' Hj Hlt. destruct (init_region_offsets a j Hlay (Hin _ _ Hj)) as (k' & Hk' & Ej).
  unfold sizeof_mymq_hdr, sizeof_mymsg_hdr in *. set (st := 24 + _) in *.
  assert (0 < st) by lia. assert (k + 1 <= k') by nia. nia.
Qed.

(** ** Notification and attributes *)

Lemma send_empty r q mqd ptr prio :
  models r q -> q = [] -> mqi_magic mqd = MQI_MAGIC -> Z.of_nat (length ptr) <= msgsize r ->
  mymq_send mqd None ptr prio r =
    send_commit (Region (notify_registered (hdr r)).2 (slots r)) ptr prio (notify_registered (hdr r)).1.
Proof.
  intros Hm -> Hmg Hl. destruct (models_cur r [] Hm) as (Hc & _ & _ & Hsz).
  unfold mymq_send. rewrite Hmg, Z.eqb_refl, u64_msgsize by done. simpl.
  rewrite Z.gtb_ltb, (proj2 (Z.ltb_ge _ _)) by lia. rewrite Hc. simpl.
  by destruct (notify_registered (hdr r)).
Qed.

(** A store keeps the registration. *)
Lemma send_commit_pid r ptr prio sig r' res acts :
  send_commit r ptr prio sig = Return r' res acts -> mqh_pid (hdr r') = mqh_pid (hdr r).
Proof.
  assert (forall p v r1 r2, write_link p v r1 = Some r2 -> mqh_pid (hdr r2) = mqh_pid (hdr r1)) as Hw.
  { intros p v r1 r2. unfold write_link. destruct p; [by intros [= <-]|].
    destruct (slots r1 !! i); simpl; [by intros [= <-]|done]. }
  unfold send_commit. destruct (_ =? 0); [done|].
  destruct (send_store r ptr prio) as [r3|] eqn:E; [|done]. intros [= <- _ _]; simpl. revert E.
  unfold send_store. destruct (slots r !! _) as [n|]; simpl; [|done].
  destruct (find_place _ _ _ _ _) as [[index pm]|]; simpl; [|done]. set (r1 := Region _ _).
  destruct (index =? 0).
  - destruct (write_link pm _ r1) as [r2|] eqn:E2; [|done]. cbn [mbind option_bind].
    intros E3. by rewrite (Hw _ _ _ _ E3), (Hw _ _ _ _ E2).
  - destruct (write_link (SlotPtr _) index r1) as [r2|] eqn:E2; [|done]. cbn [mbind option_bind].
    intros E3. by rewrite (Hw _ _ _ _ E3), (Hw _ _ _ _ E2).
Qed.

(** A registration notifies at most once: after [mymq_notify] registers
    process [pid] on an empty queue, another process gets [EBUSY] while [pid] is
    alive; the next [mymq_send] queues the signal to [pid] if nobody is waiting
    in [mymq_receive] and the event asks for a signal, and then the
    registration is gone; with a receiver waiting the receiver gets the message
    and the registration stays. *)
Theorem mq_notify_once (mqd : mymq_info) (pid pid2 : Z) (ev ev2 : sigevent)
    (k : option errno) (ptr : list Z) (prio : Z) (r : region) :
  models r [] -> mqi_magic mqd = MQI_MAGIC -> Z.of_nat (length ptr) <= msgsize r ->
  mqh_pid (hdr r) = 0 -> pid <> 0 -> k <> Some ESRCH ->
  exists r1 r2 sig acts, mymq_notify mqd None pid (Some ev) None r = (r1, Ok tt) /\
    mymq_notify mqd None pid2 (Some ev2) k r1 = (r1, Err EBUSY) /\
    mymq_send mqd None ptr prio r1 = Return r2 (SendOk sig) acts /\
    models r2 [(prio, ptr)] /\
    (mqh_nwait (hdr r) = 0 ->
     mqh_pid (hdr r2) = 0 /\
     sig = (if bool_decide (sigev_notify ev = SIGEV_SIGNAL)
            then Some (pid, sigev_signo ev, sigev_value ev) else None)) /\
    (mqh_nwait (hdr r) <> 0 -> mqh_pid (hdr r2) = pid /\ sig = None).
Proof.
  intros Hm Hmg Hl Hp0 Hpid Hk.
  set (r1 := Region (Hdr (mqh_attr (hdr r)) (mqh_head (hdr r)) (mqh_free (hdr r))
                       (mqh_nwait (hdr r)) pid ev) (slots r)).
  assert (models r1 []) as Hm1 by (by apply models_hdr).
  destruct (notify_registered_hdr (hdr r1)) as (Ea & Eh & Ef & Enw).
  destruct (models_cur _ _ Hm1) as (Hc & _ & Hpos & _).
  destruct (send_commit_models (Region (notify_registered (hdr r1)).2 (slots r1)) [] ptr prio
              (notify_registered (hdr r1)).1) as (r2 & E & Hm2 & _ & _).
  { by apply models_hdr. } { cbn [hdr] in *. rewrite Ea, Hc. done. }
  { cbn [hdr] in *. by rewrite Ea. }
  eexists r1, r2, _, _. split_and!.
  - unfold mymq_notify. by rewrite Hmg, Hp0.
  - unfold mymq_notify. rewrite Hmg, Z.eqb_refl. simpl. rewrite (proj2 (Z.eqb_neq pid 0)) by done.
    simpl. by rewrite bool_decide_false.
  - rewrite (send_empty r1 []) by done. exact E.
  - exact Hm2.
  - intros Hn. apply send_commit_pid in E. rewrite E. cbn [hdr] in *. unfold notify_registered. simpl.
    rewrite (proj2 (Z.eqb_neq pid 0)), Hn by done. simpl. split; [done|].
    case_bool_decide as Hs; [by rewrite Hs|by rewrite (proj2 (Z.eqb_neq _ _) Hs)].
  - intros Hn. apply send_commit_pid in E. rewrite E. cbn [hdr] in *. unfold notify_registered. simpl.
    by rewrite (proj2 (Z.eqb_neq pid 0)), (proj2 (Z.eqb_neq _ _) Hn).
Qed.

(** [mymq_setattr] governs blocking and nothing else: it reports what
    [mymq_getattr] reported before the call, afterwards only the [O_NONBLOCK]
    flag [mymq_getattr] shows can differ, and a receive on the empty queue
    through the new descriptor returns [EAGAIN] if the flag was set and waits if
    it was cleared. *)
Theorem mq_setattr_governs_blocking (mqd : mymq_info) (st : mymq_attr) (maxlen : Z) (r : region) :
  mqi_magic mqd = MQI_MAGIC -> models r [] -> msgsize r <= maxlen ->
  exists mqd' old new, mymq_setattr mqd None st r = (mqd', Ok old) /\
    mymq_getattr mqd None r = Ok old /\ mymq_getattr mqd' None r = Ok new /\
    clear_flag (mq_flags new) O_NONBLOCK = clear_flag (mq_flags old) O_NONBLOCK /\
    has_flag (mq_flags new) O_NONBLOCK = has_flag (mq_flags st) O_NONBLOCK /\
    mq_maxmsg new = mq_maxmsg old /\ mq_msgsize new = mq_msgsize old /\
    mq_curmsgs new = mq_curmsgs old /\
    mymq_receive mqd' None maxlen r =
      (if has_flag (mq_flags st) O_NONBLOCK then Return r (MqErr EAGAIN) []
       else Wait (set_nwait r (long_inc (mqh_nwait (hdr r)))) mqh_wait).
Proof.
  intros Hmg Hm Hlen. destruct (models_cur _ _ Hm) as (Hc & _ & _ & Hsz).
  unfold mymq_setattr, mymq_getattr, mymq_receive. rewrite Hmg, Z.eqb_refl. simpl.
  destruct (has_flag (mq_flags st) O_NONBLOCK) eqn:E; eexists _, _, _; (split; [done|]);
    simpl; rewrite ?Hmg, ?Z.eqb_refl, (u64_msgsize (msgsize r)) by done; simpl;
    rewrite (proj2 (Z.ltb_ge maxlen _) Hlen), Hc; simpl;
    rewrite ?has_flag_set, ?has_flag_clear by done; split_and!; try done.
  all: simpl; first [apply clear_flag_set|apply clear_flag_clear|by apply has_flag_set
                    |apply has_flag_clear].
Qed.

(** ** A run that loses a wakeup *)

(** A queue of three messages of 8 bytes, and a blocking descriptor. *)
Definition attr3 : mymq_attr := Attr 0 3 8 0.
Definition mqd0 : mymq_info := Info MQI_MAGIC 0.
Definition recv8 : op := OpRecv mqd0 8.
Definition send8 (b : Z) : op := OpSend mqd0 [b] 1.

Definition region_after (out : outc) (r : region) : region :=
  match out with Return r' _ _ | Wait r' _ => r' | Dump => r end.

Definition enters (o : op) (r : region) : region := region_after (enter o r) r.

(** Two receivers wait, two messages are sent, the receiver that was unblocked
    takes the first. *)
Definition two_waiting : region := enters recv8 (enters recv8 (init_region attr3)).
Definition two_sent : region := enters (send8 8) (enters (send8 7) two_waiting).
Definition one_taken : region := region_after (resume recv8 two_sent) two_sent.

Definition drowsy : hist :=
  Hist (Conf one_taken {[2%nat := Asleep mqh_wait recv8]} false) [(1, [8]); (1, [7])] [(1, [7])].

Lemma drowsy_reachable : rtc hstep (init_hist attr3) drowsy.
Proof.
  apply (rtc_l _ _ (Hist (Conf (enters recv8 (init_region attr3))
    {[1%nat := Asleep mqh_wait recv8]} false) [] [])).
  { apply (hstep_intro _ _ _ 1%nat recv8 None); [done|]. apply step_enter; [done|].
    apply (finish_wait 1%nat recv8 (enters recv8 (init_region attr3)) mqh_wait ∅). }
  apply (rtc_l _ _ (Hist (Conf two_waiting
    {[1%nat := Asleep mqh_wait recv8; 2%nat := Asleep mqh_wait recv8]} false) [] [])).
  { apply (hstep_intro _ _ _ 2%nat recv8 None); [done|].
    change (Conf two_waiting _ _) with
      (Conf two_waiting (<[2%nat := Asleep mqh_wait recv8]> {[1%nat := Asleep mqh_wait recv8]}) false).
    apply step_enter; [done|]. apply (finish_wait 2%nat recv8 two_waiting mqh_wait). }
  apply (rtc_l _ _ (Hist (Conf (enters (send8 7) two_waiting)
    {[1%nat := Woken recv8; 2%nat := Asleep mqh_wait recv8]} false) [(1, [7])] [])).
  { apply (hstep_intro _ _ _ 3%nat (send8 7) (Some (SendOk None))); [done|]. apply step_enter; [done|].
    apply (finish_return _ _ (enters (send8 7) two_waiting) (SendOk None) [Signal mqh_wait]).
    rewrite delete_id by done. eapply acts_cons; [|apply acts_nil].
    rewrite <- (insert_insert_eq {[2%nat := Asleep mqh_wait recv8]} 1%nat (Woken recv8) (Asleep mqh_wait recv8)).
    by apply signal_one. }
  apply (rtc_l _ _ (Hist (Conf two_sent
    {[1%nat := Woken recv8; 2%nat := Asleep mqh_wait recv8]} false) [(1, [8]); (1, [7])] [])).
  { apply (hstep_intro _ _ _ 3%nat (send8 8) (Some (SendOk None))); [done|]. apply step_enter; [done|].
    apply (finish_return _ _ two_sent (SendOk None) []). rewrite delete_id by done. apply acts_nil. }
  apply (rtc_l _ _ drowsy); [|apply rtc_refl].
  apply (hstep_intro _ _ _ 1%nat recv8 (Some (RecvOk [7] 1))); [done|]. apply step_resume; [done|].
  apply (finish_return _ _ one_taken (RecvOk [7] 1) []). rewrite delete_insert_id by done. apply acts_nil.
Qed.

(** A wakeup can be lost: a state is reachable in which a message is queued
    while a receiver sleeps in [mymq_receive] and no thread has been unblocked;
    [mymq_send] signals only when it finds the queue empty, so with two
    receivers waiting the second of two sends unblocks nobody, and neither does
    a further send. *)
Theorem mq_lost_wakeup :
  exists h, rtc hstep (init_hist attr3) h /\
    curmsgs (shared (mon h)) = 1 /\
    threads (mon h) !! 2%nat = Some (Asleep mqh_wait recv8) /\
    (forall t o, threads (mon h) !! t <> Some (Woken o)) /\
    match mymq_send mqd0 None [9] 1 (shared (mon h)) with
    | Return _ (SendOk None) acts => acts = []
    | _ => False
    end.
Proof.
  exists drowsy. split; [apply drowsy_reachable|]. split_and!; try (by vm_compute).
  intros t o. simpl. destruct (decide (t = 2%nat)) as [->|]; by simplify_map_eq.
Qed.

(** ** Concrete instances *)

Lemma attr3_ok : layout_ok attr3.
Proof. unfold layout_ok. vm_compute. by split_and!. Qed.

Lemma mq_send_refines_witness :
  implements (init_region attr3) [] (mymq_send mqd0 None [5; 6] 2 (init_region attr3))
    (SpecRet [(2, [5; 6])] (Ok None)).
Proof. apply (mq_send_refines mqd0 None [5; 6] 2 (init_region attr3) []). exact (init_region_models attr3 attr3_ok). Defined.

Lemma mq_receive_refines_witness :
  implements (init_region attr3) [] (mymq_receive (Info MQI_MAGIC O_NONBLOCK) None 8 (init_region attr3))
    (SpecRet [] (Err EAGAIN)).
Proof.
  apply (mq_receive_refines (Info MQI_MAGIC O_NONBLOCK) None 8 (init_region attr3) []).
  exact (init_region_models attr3 attr3_ok).
Defined.

Lemma mq_exactly_once_witness : mqh_nwait (hdr one_taken) = nops is_recv {[2%nat := recv8]}.
Proof.
  rewrite <- (map_fmap_singleton op_of 2%nat (Asleep mqh_wait recv8)).
  refine (proj1 (proj2 (proj2 (mq_exactly_once attr3 drowsy attr3_ok drowsy_reachable)))).
Defined.

Lemma mq_slots_in_mapping_witness :
  exists m, slots one_taken !! 248 = Some m /\
    248 + sizeof_mymsg_hdr + Z.of_nat (length (msg_data m)) <= filesize attr3.
Proof.
  destruct (slots one_taken !! 248) as [m|] eqn:E; [|by vm_compute in E].
  exists m. split; [done|].
  apply (mq_slots_in_mapping attr3 drowsy) with (i := 248) (m := m);
    [exact attr3_ok|apply drowsy_reachable|exact E].
Defined.

Lemma mq_notify_once_witness :
  exists r1, mymq_notify mqd0 None 100 (Some (Sigev SIGEV_SIGNAL 10 0)) None (init_region attr3) = (r1, Ok tt) /\
    mymq_notify mqd0 None 200 (Some (Sigev SIGEV_SIGNAL 12 0)) None r1 = (r1, Err EBUSY).
Proof.
  destruct (mq_notify_once mqd0 100 200 (Sigev SIGEV_SIGNAL 10 0) (Sigev SIGEV_SIGNAL 12 0) None [1] 0
              (init_region attr3)) as (r1 & _ & _ & _ & H1 & H2 & _);
    [exact (init_region_models attr3 attr3_ok)|done..|]. by exists r1.
Defined.

Lemma mq_setattr_governs_blocking_witness :
  exists mqd', mymq_receive mqd' None 8 (init_region attr3) = Return (init_region attr3) (MqErr EAGAIN) [].
Proof.
  destruct (mq_setattr_governs_blocking mqd0 (Attr O_NONBLOCK 0 0 0) 8 (init_region attr3))
    as (mqd' & _ & _ & _ & _ & _ & _ & _ & _ & _ & _ & H); [done|exact (init_region_models attr3 attr3_ok)|done|].
  by exists mqd'.
Defined.

End MyMq.
