(* ===== verification/IpcOpen.v ===== *)
(** * Opening the IPC objects: [mymq_open] and the three [mysem_open]

    The open functions are system-call protocols: the first process to create
    the file initialises the object and then clears the user-execute bit, the
    others wait for that; every failure path has to give back what was
    acquired.  They are programs over the calls below ([Prog]); the theorems
    hold for every sequence of replies. *)
From S2P Require Import Prelude Monitor Prog MySem MyMq.
Open Scope prog_scope.

(** ** Calls and replies *)

(** The calls on the one pathname the function was given; [SetXxx] and
    [InitRegion] are the stores into the mapped object. *)
Inductive call :=
| Open (flags mode : Z)
| Close (fd : Z)
| Unlink
| Lseek (fd off : Z)
| Write (fd len : Z)
| Mmap (len fd : Z)
| Munmap (len : Z)
| Malloc (len : Z)
| Free
| Fchmod (fd mode : Z)
| Stat
| Sleep (secs : Z)
| Sysconf
| Mutexattr_init | Mutexattr_setpshared | Mutex_init | Mutexattr_destroy
| Condattr_init | Condattr_setpshared | Cond_init | Condattr_destroy
| Mkfifo (mode : Z)
| Fcntl_getfl (fd : Z)
| Fcntl_setfl (fd flags : Z)
| Ftok
| Semget (key nsems flag : Z)
| Semctl_setval (semid v : Z)
| Semctl_stat (semid : Z)
| Semctl_rmid (semid : Z)
| Semop (semid sem_op : Z)
| InitRegion (r : MyMq.region)
| SetCount (v : Z)
| SetMagic (m : Z).

(** A call succeeds with up to two values ([stat]: the mode and the size), or
    fails with an error number. *)
Inductive reply :=
| Rok (v w : Z)
| Rerr (e : errno).

Abbreviation iprog := (prog call reply).

Definition O_RDONLY : Z := 0.
Definition O_WRONLY : Z := 1.
Definition O_RDWR : Z := 2.
Definition O_CREAT : Z := 0x40.
Definition O_EXCL : Z := 0x80.
Definition O_NONBLOCK : Z := MyMq.O_NONBLOCK.
Definition S_IXUSR : Z := 0x40.
Definition IPC_CREAT : Z := 0x200.
Definition IPC_EXCL : Z := 0x400.
Definition SVSEM_MODE : Z := 0x1A4.
Definition MAX_TRIES : nat := 10.

(** What an open function returns: the object (for [mymq_open] the descriptor,
    for the semaphores the structure), or a failure with [errno] ([None] when
    the failing test leaves [errno] as it was).  [Retrying] marks a run that
    used up its [fuel] of [goto again]. *)
Inductive open_res (A : Type) :=
| Opened (a : A)
| Failed (e : option errno)
| Retrying.
Arguments Opened {A} _.
Arguments Failed {A} _.
Arguments Retrying {A}.

(** The wrappers call [err_sys] on a failure. *)
Definition open_checked {A} (r : open_res A) : option (wrapped A) :=
  match r with
  | Opened a => Some (Going a)
  | Failed e => Some (ErrSys (default (Eother 0) e))
  | Retrying => None
  end.

(** ** Counting the events of a trace *)

Definition mmap_ok (e : call * reply) : bool :=
  match e with (Mmap _ _, Rok _ _) => true | _ => false end.
Definition munmaps (e : call * reply) : bool :=
  match e with (Munmap _, _) => true | _ => false end.
Definition malloc_ok (e : call * reply) : bool :=
  match e with (Malloc _, Rok _ _) => true | _ => false end.
Definition malloc_failed (e : call * reply) : bool :=
  match e with (Malloc _, Rerr _) => true | _ => false end.
Definition frees (e : call * reply) : bool :=
  match e with (Free, _) => true | _ => false end.
(** [open] returned descriptor [k]; a [close] of descriptor [k]. *)
Definition opens (k : Z) (e : call * reply) : bool :=
  match e with (Open _ _, Rok fd _) => fd =? k | _ => false end.
Definition closes (k : Z) (e : call * reply) : bool :=
  match e with (Close fd, _) => fd =? k | _ => false end.
(** The name was created by this call; the name is removed. *)
Definition creates (e : call * reply) : bool :=
  match e with
  | (Open flags _, Rok _ _) => has_flag flags O_CREAT
  | (Mkfifo _, Rok _ _) => true
  | _ => false
  end.
Definition unlinks (e : call * reply) : bool :=
  match e with (Unlink, _) => true | _ => false end.
(** The name turned out to be missing. *)
Definition enoent (e : call * reply) : bool :=
  match e with (_, Rerr ENOENT) => true | _ => false end.

Definition opened1 {A} (r : open_res A) : Z := match r with Opened _ => 1 | _ => 0 end.
Definition failed1 {A} (r : open_res A) : Z := match r with Failed _ => 1 | _ => 0 end.

(** ** [mymq_open] *)
Module MqOpen.
Import MyMq.

Definition defattr : mymq_attr := Attr 0 128 1024 0.
Definition sizeof_mymq_info : Z := 24.

(** The label [err]: [mptr] is the size of the mapping, if there is one. *)
Definition err (e : errno) (created : bool) (mptr : option Z) (mqinfo : bool) (fd : Z)
    : iprog (open_res mymq_info) :=
  let close_fd := Close fd ;; Ret (Failed (Some e)) in
  let free_info := if mqinfo then Free ;; close_fd else close_fd in
  let unmap := match mptr with Some filesize => Munmap filesize ;; free_info | None => free_info end in
  if created then Unlink ;; unmap else unmap.

(** The initialisation of the mutex and the condition variable, up to the
    [return]; a failing call of these returns its error number. *)
Definition init_sync (fd mode nonblock filesize : Z) : iprog (open_res mymq_info) :=
  let pthreaderr e := err e true (Some filesize) true fd in
  r <- Mutexattr_init ;;
  match r with Rerr e => pthreaderr e | Rok _ _ =>
  Mutexattr_setpshared ;;
  i <- Mutex_init ;;
  Mutexattr_destroy ;;
  match i with Rerr e => pthreaderr e | Rok _ _ =>
  r <- Condattr_init ;;
  match r with Rerr e => pthreaderr e | Rok _ _ =>
  Condattr_setpshared ;;
  i <- Cond_init ;;
  Condattr_destroy ;;
  match i with Rerr e => pthreaderr e | Rok _ _ =>
  r <- Fchmod fd mode ;;
  match r with Rerr e => err e true (Some filesize) true fd | Rok _ _ =>
  Close fd ;;
  Ret (Opened (Info MQI_MAGIC nonblock))
  end end end end end.

(** The file was created: size it, map it, initialise the region. *)
Definition create (fd mode nonblock : Z) (attr : option mymq_attr) : iprog (open_res mymq_info) :=
  let a := default defattr attr in
  if match attr with Some a => (mq_maxmsg a <=? 0) || (mq_msgsize a <=? 0) | None => false end
  then err EINVAL true None false fd
  else
    r <- Lseek fd (filesize a - 1) ;;
    match r with Rerr e => err e true None false fd | Rok _ _ =>
    r <- Write fd 1 ;;
    match r with Rerr e => err e true None false fd | Rok _ _ =>
    r <- Mmap (filesize a) fd ;;
    match r with Rerr e => err e true None false fd | Rok _ _ =>
    r <- Malloc sizeof_mymq_info ;;
    match r with Rerr e => err e true (Some (filesize a)) false fd | Rok _ _ =>
    InitRegion (init_region a) ;;
    init_sync fd mode nonblock (filesize a)
    end end end end.

(** After the wait: map the file, close it, allocate the descriptor. *)
Definition attach (fd nonblock st_size : Z) : iprog (open_res mymq_info) :=
  r <- Mmap st_size fd ;;
  match r with Rerr e => err e false None false fd | Rok _ _ =>
  Close fd ;;
  r <- Malloc sizeof_mymq_info ;;
  match r with Rerr e => err e false (Some st_size) false fd | Rok _ _ =>
  Ret (Opened (Info MQI_MAGIC nonblock))
  end end.

(** The loop that waits for the initialisation, [tries] turns left. *)
Fixpoint wait_init (tries : nat) (oflag fd nonblock : Z) (again : iprog (open_res mymq_info))
    : iprog (open_res mymq_info) :=
  match tries with
  | O => err ETIMEDOUT false None false fd
  | S tries' =>
    r <- Stat ;;
    match r with
    | Rerr e =>
      if bool_decide (e = ENOENT) && has_flag oflag O_CREAT then Close fd ;; again
      else err e false None false fd
    | Rok st_mode st_size =>
      if negb (has_flag st_mode S_IXUSR) then attach fd nonblock st_size
      else Sleep 1 ;; wait_init tries' oflag fd nonblock again
    end
  end.

(** The label [exists]. *)
Definition exists_ (oflag nonblock : Z) (again : iprog (open_res mymq_info))
    : iprog (open_res mymq_info) :=
  r <- Open O_RDWR 0 ;;
  match r with
  | Rerr e =>
    if bool_decide (e = ENOENT) && has_flag oflag O_CREAT then again
    else err e false None false (-1)
  | Rok fd _ => wait_init MAX_TRIES oflag fd nonblock again
  end.

(** The label [again]; [oflag] without [O_NONBLOCK]. *)
Fixpoint open_again (fuel : nat) (oflag nonblock mode : Z) (attr : option mymq_attr)
    : iprog (open_res mymq_info) :=
  match fuel with
  | O => Ret Retrying
  | S fuel' =>
    let again := open_again fuel' oflag nonblock mode attr in
    if has_flag oflag O_CREAT then
      let mode' := clear_flag mode S_IXUSR in
      r <- Open (set_flag (set_flag oflag O_EXCL) O_RDWR) (set_flag mode' S_IXUSR) ;;
      match r with
      | Rerr e =>
        if bool_decide (e = EEXIST) && negb (has_flag oflag O_EXCL)
        then exists_ oflag nonblock again
        else Ret (Failed (Some e))
      | Rok fd _ => create fd mode' nonblock attr
      end
    else exists_ oflag nonblock again
  end.

Definition mymq_open (fuel : nat) (oflag mode : Z) (attr : option mymq_attr)
    : iprog (open_res mymq_info) :=
  open_again fuel (clear_flag oflag O_NONBLOCK) (Z.land oflag O_NONBLOCK) mode attr.

Definition Mymq_open fuel oflag mode attr := pmap open_checked (mymq_open fuel oflag mode attr).

End MqOpen.

(** ** [mysem_open] of [my_pxsem_mmap] *)
Module SemMmapOpen.
Import SemMmap.

Definition sizeof_mysem_t : Z := 96.

(** The function returns the address of the mapping; its stores into it are
    calls of the trace.  [sem] says whether the variable of that name
    holds a mapping; it keeps its value across [goto again]. *)
Definition err (e : option errno) (created sem : bool) (fd : Z) : iprog (open_res unit) :=
  let close_fd := Close fd ;; Ret (Failed e) in
  let unmap := if sem then Munmap sizeof_mysem_t ;; close_fd else close_fd in
  if created then Unlink ;; unmap else unmap.

(** The mutex, the condition variable and the value; [r] of [Sysconf] is the
    limit [_SC_SEM_VALUE_MAX]. *)
Definition init_sync (fd mode value : Z) : iprog (open_res unit) :=
  let pthreaderr e := err (Some e) true true fd in
  r <- Mutexattr_init ;;
  match r with Rerr e => pthreaderr e | Rok _ _ =>
  Mutexattr_setpshared ;;
  i <- Mutex_init ;;
  Mutexattr_destroy ;;
  match i with Rerr e => pthreaderr e | Rok _ _ =>
  r <- Condattr_init ;;
  match r with Rerr e => pthreaderr e | Rok _ _ =>
  Condattr_setpshared ;;
  i <- Cond_init ;;
  Condattr_destroy ;;
  match i with Rerr e => pthreaderr e | Rok _ _ =>
  SetCount value ;;
  lim <- Sysconf ;;
  if value >? match lim with Rok v _ => v | Rerr _ => -1 end then err (Some EINVAL) true true fd
  else
  r <- Fchmod fd mode ;;
  match r with Rerr e => err (Some e) true true fd | Rok _ _ =>
  Close fd ;;
  SetMagic SEM_MAGIC ;;
  Ret (Opened tt)
  end end end end end.

Definition create (fd mode value : Z) (sem : bool) : iprog (open_res unit) :=
  r <- Write fd sizeof_mysem_t ;;
  match r with
  | Rerr e => err (Some e) true sem fd
  | Rok n _ =>
    if negb (n =? sizeof_mysem_t) then err None true sem fd
    else
    r <- Mmap sizeof_mysem_t fd ;;
    match r with Rerr e => err (Some e) true false fd | Rok _ _ =>
    init_sync fd mode value
    end
  end.

Fixpoint wait_init (tries : nat) (oflag fd : Z) (again : iprog (open_res unit))
    : iprog (open_res unit) :=
  match tries with
  | O => err (Some ETIMEDOUT) false true fd
  | S tries' =>
    r <- Stat ;;
    match r with
    | Rerr e =>
      if bool_decide (e = ENOENT) && has_flag oflag O_CREAT then Close fd ;; again
      else err (Some e) false true fd
    | Rok st_mode _ =>
      if negb (has_flag st_mode S_IXUSR) then
        Close fd ;; SetMagic SEM_MAGIC ;; Ret (Opened tt)
      else Sleep 1 ;; wait_init tries' oflag fd again
    end
  end.

(** [again sem] is the code from the label on, with the variable [sem]. *)
Definition exists_ (oflag : Z) (sem : bool) (again : bool -> iprog (open_res unit))
    : iprog (open_res unit) :=
  r <- Open O_RDWR 0 ;;
  match r with
  | Rerr e =>
    if bool_decide (e = ENOENT) && has_flag oflag O_CREAT then again sem
    else err (Some e) false sem (-1)
  | Rok fd _ =>
    r <- Mmap sizeof_mysem_t fd ;;
    match r with
    | Rerr e => err (Some e) false false fd
    | Rok _ _ => wait_init MAX_TRIES oflag fd (again true)
    end
  end.

Fixpoint open_again (fuel : nat) (oflag mode value : Z) (sem : bool) : iprog (open_res unit) :=
  match fuel with
  | O => Ret Retrying
  | S fuel' =>
    let again := open_again fuel' oflag mode value in
    if has_flag oflag O_CREAT then
      let mode' := clear_flag mode S_IXUSR in
      r <- Open (set_flag (set_flag oflag O_EXCL) O_RDWR) (set_flag mode' S_IXUSR) ;;
      match r with
      | Rerr e =>
        if bool_decide (e = EEXIST) && negb (has_flag oflag O_EXCL) then exists_ oflag sem again
        else Ret (Failed (Some e))
      | Rok fd _ => create fd mode' value sem
      end
    else exists_ oflag sem again
  end.

Definition mysem_open (fuel : nat) (oflag mode value : Z) : iprog (open_res unit) :=
  open_again fuel oflag mode value false.

Definition Mysem_open fuel oflag mode value := pmap open_checked (mysem_open fuel oflag mode value).

End SemMmapOpen.

(** ** [mysem_open] of [my_pxsem_fifo] *)
Module SemFifoOpen.
Import SemFifo.

Definition sizeof_mysem_t : Z := 12.

Definition error (e : option errno) (oflag fd0 fd1 : Z) : iprog (open_res mysem_t) :=
  let closes := Close fd0 ;; Close fd1 ;; Free ;; Ret (Failed e) in
  if has_flag oflag O_CREAT then Unlink ;; closes else closes.

(** The loop that writes [n] more bytes. *)
Fixpoint fill (n : nat) (oflag fd0 fd1 : Z) : iprog (open_res mysem_t) :=
  match n with
  | O => Ret (Opened (Sem fd0 fd1 SEM_MAGIC))
  | S n' =>
    r <- Write fd1 1 ;;
    match r with
    | Rerr e => error (Some e) oflag fd0 fd1
    | Rok k _ => if k =? 1 then fill n' oflag fd0 fd1 else error None oflag fd0 fd1
    end
  end.

Definition open_ends (oflag value : Z) : iprog (open_res mysem_t) :=
  r <- Open (set_flag O_RDONLY O_NONBLOCK) 0 ;;
  match r with Rerr e => error (Some e) oflag (-1) (-1) | Rok fd0 _ =>
  r <- Open (set_flag O_WRONLY O_NONBLOCK) 0 ;;
  match r with Rerr e => error (Some e) oflag fd0 (-1) | Rok fd1 _ =>
  r <- Fcntl_getfl fd0 ;;
  match r with Rerr e => error (Some e) oflag fd0 fd1 | Rok flags _ =>
  r <- Fcntl_setfl fd0 (clear_flag flags O_NONBLOCK) ;;
  match r with Rerr e => error (Some e) oflag fd0 fd1 | Rok _ _ =>
  fill (if has_flag oflag O_CREAT then Z.to_nat value else 0) oflag fd0 fd1
  end end end end.

Definition alloc (oflag value : Z) : iprog (open_res mysem_t) :=
  r <- Malloc sizeof_mysem_t ;;
  match r with Rerr e => Ret (Failed (Some e)) | Rok _ _ => open_ends oflag value end.

Definition mysem_open (oflag mode value : Z) : iprog (open_res mysem_t) :=
  if has_flag oflag O_CREAT then
    r <- Mkfifo mode ;;
    match r with
    | Rerr e =>
      if bool_decide (e = EEXIST) && negb (has_flag oflag O_EXCL)
      then alloc (clear_flag oflag O_CREAT) value
      else Ret (Failed (Some e))
    | Rok _ _ => alloc oflag value
    end
  else alloc oflag value.

Definition Mysem_open oflag mode value := pmap open_checked (mysem_open oflag mode value).

End SemFifoOpen.

(** ** [mysem_open] of [my_pxsem_svsem] *)
Module SemSvsemOpen.
Import SemSvsem.

Definition sizeof_mysem_t : Z := 8.

(** The label [err]; [semid] is -1 when no set was obtained. *)
Definition err (e : errno) (semid : Z) : iprog (open_res mysem_t) :=
  if negb (semid =? -1) then Semctl_rmid semid ;; Ret (Failed (Some e)) else Ret (Failed (Some e)).

Definition finish (semid : Z) : iprog (open_res mysem_t) :=
  r <- Malloc sizeof_mysem_t ;;
  match r with
  | Rerr e => err e semid
  | Rok _ _ => Ret (Opened (Sem semid SEM_MAGIC))
  end.

(** The loop; the first value of the [Semctl_stat] reply is [sem_otime]. *)
Fixpoint wait_init (tries : nat) (semid : Z) : iprog (open_res mysem_t) :=
  match tries with
  | O => err ETIMEDOUT semid
  | S tries' =>
    r <- Semctl_stat semid ;;
    match r with
    | Rerr e => err e semid
    | Rok sem_otime _ =>
      if negb (sem_otime =? 0) then finish semid else Sleep 1 ;; wait_init tries' semid
    end
  end.

(** From the second part of the function on; [semid] is -1 here. *)
Definition open_existing (semflag : Z) : iprog (open_res mysem_t) :=
  r <- Ftok ;;
  match r with Rerr e => err e (-1) | Rok key _ =>
  r <- Semget key 0 semflag ;;
  match r with Rerr e => err e (-1) | Rok semid _ => wait_init MAX_TRIES semid end
  end.

Definition init_sem (semid value : Z) : iprog (open_res mysem_t) :=
  r <- Semctl_setval semid 0 ;;
  match r with Rerr e => err e semid | Rok _ _ =>
  if value >? SEMVMX then err EINVAL semid
  else
  r <- Semop semid value ;;
  match r with Rerr e => err e semid | Rok _ _ => finish semid end
  end.

Definition mysem_open (oflag mode value : Z) : iprog (open_res mysem_t) :=
  if has_flag oflag O_CREAT then
    r <- Open oflag mode ;;
    match r with Rerr e => Ret (Failed (Some e)) | Rok fd _ =>
    Close fd ;;
    r <- Ftok ;;
    match r with Rerr e => Ret (Failed (Some e)) | Rok key _ =>
    let semflag0 := set_flag IPC_CREAT (Z.land mode 0x1FF) in
    let semflag := if has_flag oflag O_EXCL then set_flag semflag0 IPC_EXCL else semflag0 in
    r <- Semget key 1 (set_flag semflag IPC_EXCL) ;;
    match r with
    | Rok semid _ => init_sem semid value
    | Rerr e =>
      if negb (bool_decide (e = EEXIST)) || has_flag semflag IPC_EXCL then err e (-1)
      else open_existing semflag
    end end end
  else open_existing SVSEM_MODE.

Definition Mysem_open oflag mode value := pmap open_checked (mysem_open oflag mode value).

End SemSvsemOpen.

(** ** Resource balance of [mymq_open] *)

(** Symbolic execution of a program: all replies, all branches. *)
Ltac wp_exec :=
  repeat (cbn [wp];
    match goal with
    | |- forall r, _ => intros ?
    | |- wp (match ?r with Rok _ _ => _ | Rerr _ => _ end) _ _ => destruct r
    | |- wp (if ?b then _ else _) _ _ => destruct b eqn:?
    end); cbn [wp].

(** A leaf of a run that began with a trace whose counts [H] gives: the counts of
    its events, by arithmetic. *)
Ltac count_from H :=
  rewrite ?count_cons; rewrite ?H by done; rewrite ?count_cons; simpl.

(** The change from [tr] to [tr'] made by a run that ends in [res]. *)
Definition mq_balance (k : Z) (tr : trace call reply) (res : open_res MyMq.mymq_info)
    (tr' : trace call reply) : Prop :=
  count mmap_ok tr' - count munmaps tr' = count mmap_ok tr - count munmaps tr + opened1 res /\
  count malloc_ok tr' - count frees tr' = count malloc_ok tr - count frees tr + opened1 res /\
  count unlinks tr' - count unlinks tr = failed1 res * (count creates tr' - count creates tr) /\
  0 <= count creates tr' - count creates tr <= 1 /\
  count (opens k) tr' - count (opens k) tr <= count (closes k) tr' - count (closes k) tr /\
  (count malloc_failed tr' = count malloc_failed tr ->
   count (closes k) tr' - count (closes k) tr = count (opens k) tr' - count (opens k) tr) /\
  count malloc_failed tr <= count malloc_failed tr'.

Section MqOpenBalance.
Context (k : Z) (Hk : k <> -1).

Lemma mq_create_balance cf cm fd w mode nonblock attr tr :
  has_flag cf O_CREAT = true ->
  wp (MqOpen.create fd mode nonblock attr) (mq_balance k tr) ((Open cf cm, Rok fd w) :: tr).
Proof.
  intros Hc. unfold MqOpen.create, MqOpen.init_sync, MqOpen.err.
  wp_exec; unfold mq_balance; rewrite ?count_cons; simpl; rewrite Hc; destruct (fd =? k); lia.
Qed.

(** The wait and what follows, given what [again] does. *)
Lemma mq_wait_init_balance tries oflag fd w nonblock again tr :
  (forall tr, wp again (mq_balance k tr) tr) ->
  forall tr0, (forall P, (forall m s, P (Stat, Rok m s) = false) -> (forall s, P (Sleep 1, s) = false) ->
     count P tr0 = count P ((Open O_RDWR 0, Rok fd w) :: tr)) ->
  wp (MqOpen.wait_init tries oflag fd nonblock again) (mq_balance k tr) tr0.
Proof.
  intros Ha. induction tries as [|tries IH]; intros tr0 Htr.
  - unfold MqOpen.wait_init, MqOpen.err. wp_exec.
    unfold mq_balance. count_from Htr.
    destruct (fd =? k); lia.
  - cbn [MqOpen.wait_init]. unfold MqOpen.attach, MqOpen.err. cbn [wp]. intros [m s|e].
    + destruct (has_flag m S_IXUSR); simpl.
      * intros r. apply IH. intros P H1 H2. rewrite !count_cons, H1, H2. by rewrite Htr, count_cons.
      * wp_exec; unfold mq_balance; count_from Htr;
          destruct (fd =? k); lia.
    + wp_exec.
      * eapply wp_mono; [|apply Ha]. intros res tr' Hb. revert Hb. unfold mq_balance.
        count_from Htr. destruct (fd =? k); lia.
      * unfold mq_balance. count_from Htr.
        destruct (fd =? k); lia.
Qed.

Lemma mq_exists_balance oflag nonblock again tr :
  (forall tr, wp again (mq_balance k tr) tr) ->
  wp (MqOpen.exists_ oflag nonblock again) (mq_balance k tr) tr.
Proof.
  intros Ha. unfold MqOpen.exists_. assert ((-1 =? k) = false) as Ek by lia. revert Ek.
  generalize (-1). intros none Ek. cbn [wp]. intros [fd w|e].
  - by eapply mq_wait_init_balance.
  - unfold MqOpen.err. wp_exec.
    + eapply wp_mono; [|apply Ha]. intros res tr'. unfold mq_balance. rewrite !count_cons. simpl. lia.
    + unfold mq_balance. rewrite !count_cons. simpl. rewrite Ek. lia.
Qed.

Lemma mq_open_again_balance fuel oflag nonblock mode attr : forall tr,
  wp (MqOpen.open_again fuel oflag nonblock mode attr) (mq_balance k tr) tr.
Proof.
  induction fuel as [|fuel IH]; intros tr; simpl; [unfold mq_balance; simpl; lia|].
  destruct (has_flag oflag O_CREAT) eqn:Hc; [|by apply mq_exists_balance].
  cbn [wp]. intros [fd w|e].
  - apply mq_create_balance. by do 2 apply has_flag_set_mono.
  - destruct (_ && _).
    + eapply wp_mono; [|by apply mq_exists_balance].
      intros res tr'. unfold mq_balance. rewrite !count_cons. simpl. lia.
    + simpl. unfold mq_balance. rewrite !count_cons. simpl. lia.
Qed.
End MqOpenBalance.

(** [goto again] needs a name that was missing, once each time. *)
Definition used_fuel {A} (fuel : nat) (tr : trace call reply) (res : open_res A)
    (tr' : trace call reply) : Prop :=
  res = Retrying -> count enoent tr + Z.of_nat fuel <= count enoent tr'.

Lemma count_enoent_ge e tr : count enoent tr <= count enoent (e :: tr).
Proof. rewrite count_cons. destruct (enoent e); lia. Qed.

Lemma count_enoent c tr : count enoent ((c, Rerr ENOENT) :: tr) = 1 + count enoent tr.
Proof. apply count_cons. Qed.

Lemma used_fuel_from {A} fuel tr0 tr (p : iprog (open_res A)) :
  count enoent tr <= count enoent tr0 ->
  wp p (used_fuel fuel tr0) tr0 -> wp p (used_fuel fuel tr) tr0.
Proof. intros Hc. apply wp_mono. unfold used_fuel. intros; specialize (H H0); lia. Qed.

(** One retry: the missing name, then the code from [again] on. *)
Lemma used_fuel_again {A} fuel tr0 tr (p : iprog (open_res A)) :
  count enoent tr + 1 <= count enoent tr0 ->
  wp p (used_fuel fuel tr0) tr0 -> wp p (used_fuel (S fuel) tr) tr0.
Proof. intros Hc. apply wp_mono. unfold used_fuel. intros; specialize (H H0); lia. Qed.

(** A run that has to report the missing names it met. *)
Ltac fuel_ge :=
  repeat match goal with
  | |- context [count enoent ((?c, Rerr ENOENT) :: ?t)] =>
      rewrite (count_enoent c t)
  | |- context [count enoent (?e :: ?t)] =>
      generalize (count_enoent_ge e t); generalize (count enoent (e :: t))
  end; intros; lia.

Lemma mq_wait_init_fuel fuel tries oflag fd nonblock again tr :
  (forall tr, wp again (used_fuel fuel tr) tr) ->
  wp (MqOpen.wait_init tries oflag fd nonblock again) (used_fuel (S fuel) tr) tr.
Proof.
  intros Ha. revert tr. induction tries as [|tries IH]; intros tr.
  - unfold MqOpen.wait_init, MqOpen.err. by wp_exec.
  - cbn [MqOpen.wait_init]. unfold MqOpen.attach, MqOpen.err. wp_exec; try done.
    + eapply used_fuel_from; [|apply IH]. fuel_ge.
    + bool_to_prop; subst. eapply used_fuel_again; [|apply Ha]. fuel_ge.
Qed.

Lemma mq_open_again_fuel fuel oflag nonblock mode attr : forall tr,
  wp (MqOpen.open_again fuel oflag nonblock mode attr) (used_fuel fuel tr) tr.
Proof.
  induction fuel as [|fuel IH]; intros tr; cbn [MqOpen.open_again]; [simpl; unfold used_fuel; lia|].
  assert (forall tr, wp (MqOpen.exists_ oflag nonblock (MqOpen.open_again fuel oflag nonblock mode attr))
            (used_fuel (S fuel) tr) tr) as He.
  { clear tr. intros tr. unfold MqOpen.exists_, MqOpen.err. wp_exec; try done.
    - eapply used_fuel_from; [|by apply mq_wait_init_fuel]. fuel_ge.
    - bool_to_prop; subst. eapply used_fuel_again; [|apply IH]. fuel_ge. }
  destruct (has_flag oflag O_CREAT); [|done]. cbn [wp]. intros [fd w|e].
  - unfold MqOpen.create, MqOpen.init_sync, MqOpen.err. by wp_exec.
  - destruct (_ && _); [|done]. eapply used_fuel_from; [|apply He]. fuel_ge.
Qed.

(** C9: [mymq_open] gives back what it does not return: whatever the system
    answers, when it succeeds there is exactly one mapping and one allocated
    descriptor left, when it fails none; a name it created is unlinked exactly
    when it fails, and one it did not create never is; every descriptor number
    [open] returned is closed, exactly as often as it was opened unless the
    allocation failed; and it retries at most once per name found missing. *)
Theorem mq_open_resources (fuel : nat) (oflag mode : Z) (attr : option MyMq.mymq_attr)
    (orc : nat -> reply) (k : Z) :
  k <> -1 ->
  let '(res, tr) := run (MqOpen.mymq_open fuel oflag mode attr) orc 0 [] in
  count mmap_ok tr = count munmaps tr + opened1 res /\
  count malloc_ok tr = count frees tr + opened1 res /\
  count unlinks tr = failed1 res * count creates tr /\
  count (opens k) tr <= count (closes k) tr /\
  (count malloc_failed tr = 0 -> count (closes k) tr = count (opens k) tr) /\
  (res = Retrying -> Z.of_nat fuel <= count enoent tr).
Proof.
  intros Hk. unfold MqOpen.mymq_open. set (p := MqOpen.open_again _ _ _ _ _).
  pose proof (wp_run p (mq_balance k []) orc 0 [] (mq_open_again_balance k Hk _ _ _ _ _ [])) as Hb.
  pose proof (wp_run p (used_fuel fuel []) orc 0 [] (mq_open_again_fuel _ _ _ _ _ [])) as Hf.
  destruct (run p orc 0 []) as [res tr]. simpl in *. revert Hb Hf. unfold mq_balance, used_fuel.
  rewrite !count_nil, !Z.sub_0_r. intros (H1 & H2 & H3 & _ & H5 & H6 & _) Hf.
  split_and!; [lia|lia|lia|lia|lia|]. intros E. specialize (Hf E). lia.
Qed.

Lemma mq_open_resources_witness :
  let '(res, tr) := run (MqOpen.mymq_open 2 O_CREAT 0x1A4 (Some (MyMq.Attr 0 1 8 0)))
                      (fun n => match n with 0%nat => Rok 3 0 | 8%nat => Rerr EAGAIN | _ => Rok 1 0 end) 0 [] in
  res = Failed (Some EAGAIN) /\ count unlinks tr = 1 /\ count (closes 3) tr = count (opens 3) tr.
Proof.
  pose proof (mq_open_resources 2 O_CREAT 0x1A4 (Some (MyMq.Attr 0 1 8 0))
    (fun n => match n with 0%nat => Rok 3 0 | 8%nat => Rerr EAGAIN | _ => Rok 1 0 end) 3 ltac:(lia)) as H.
  destruct (run _ _ _ _) as [res tr] eqn:E. destruct H as (_ & _ & Hu & _ & Hc & _).
  vm_compute in E. injection E as <- <-. split; [done|]. split; [exact Hu|]. by apply Hc.
Defined.

(** ** Initialisation before publication *)

(** Stores of the initial contents, and the calls that complete the
    initialisation. *)
Definition stores (e : call * reply) : bool :=
  match e with (InitRegion _, _) | (SetCount _, _) => true | _ => false end.
Definition mutex_inited (e : call * reply) : bool :=
  match e with (Mutex_init, Rok _ _) => true | _ => false end.
Definition cond_inited (e : call * reply) : bool :=
  match e with (Cond_init, Rok _ _) => true | _ => false end.
Definition fchmods (e : call * reply) : bool :=
  match e with (Fchmod _ _, _) => true | _ => false end.
Definition fchmod_ok (e : call * reply) : bool :=
  match e with (Fchmod _ _, Rok _ _) => true | _ => false end.
Definition ready (e : call * reply) : bool :=
  match e with (Stat, Rok m _) => negb (has_flag m S_IXUSR) | _ => false end.

(** Every [fchmod] (it clears the user-execute bit) comes after the initial
    contents are stored and the mutex and the condition variable are made, and
    no initial contents are stored after one. *)
Fixpoint init_first (tr : trace call reply) : Prop :=
  match tr with
  | [] => True
  | (Fchmod _ m, _) :: pre =>
    has_flag m S_IXUSR = false /\ 0 < count stores pre /\ 0 < count mutex_inited pre /\
    0 < count cond_inited pre /\ init_first pre
  | (InitRegion _, _) :: pre | (SetCount _, _) :: pre => count fchmods pre = 0 /\ init_first pre
  | _ :: pre => init_first pre
  end.

(** A run that returned the object either made it, storing [val], or saw the bit
    cleared and stored nothing. *)
Definition publishes {A} (val : call) (res : open_res A) (tr : trace call reply) : Prop :=
  init_first tr /\
  (opened1 res = 1 ->
   (count fchmod_ok tr = 1 /\ exists r, (val, r) ∈ tr) \/
   (0 < count ready tr /\ count stores tr = 0)).

(** Before the file is created nothing of this has happened. *)
Record quiet (tr : trace call reply) : Prop := {
  q_stores : count stores tr = 0;
  q_fchmods : count fchmods tr = 0;
  q_fchmod_ok : count fchmod_ok tr = 0;
  q_first : init_first tr }.

Lemma quiet_facts tr :
  quiet tr -> count stores tr = 0 /\ count fchmods tr = 0 /\ count fchmod_ok tr = 0 /\
  init_first tr /\ 0 <= count mutex_inited tr /\ 0 <= count cond_inited tr.
Proof. intros []. split_and!; try done; apply count_nonneg. Qed.

Ltac publish_leaf Hq :=
  destruct (quiet_facts _ Hq) as (? & ? & ? & ? & ? & ?); unfold publishes; simpl init_first;
  rewrite ?count_cons; simpl; split_and!; rewrite ?has_flag_clear; try lia; try done; intros; try lia.

(** An event that is none of these keeps a trace quiet. *)
Lemma quiet_cons e tr :
  quiet tr -> stores e = false -> fchmods e = false -> fchmod_ok e = false -> quiet (e :: tr).
Proof.
  intros [] H1 H2 H3. split; rewrite ?count_cons, ?H1, ?H2, ?H3; try lia.
  destruct e as [[] r]; done.
Qed.

Lemma quiet_nil : quiet [].
Proof. by split. Qed.

Ltac find_elem := eexists; repeat first [apply list_elem_of_here | apply list_elem_of_further].

Lemma mq_create_publishes fd mode nonblock attr tr :
  quiet tr ->
  wp (MqOpen.create fd (clear_flag mode S_IXUSR) nonblock attr)
    (publishes (InitRegion (MyMq.init_region (default MqOpen.defattr attr)))) tr.
Proof.
  intros Hq. unfold MqOpen.create, MqOpen.init_sync, MqOpen.err. wp_exec.
  all: publish_leaf Hq. left. split; [lia|find_elem].
Qed.

Lemma mq_wait_init_publishes val tries oflag fd nonblock again : forall tr,
  quiet tr -> (forall tr, quiet tr -> wp again (publishes val) tr) ->
  wp (MqOpen.wait_init tries oflag fd nonblock again) (publishes val) tr.
Proof.
  induction tries as [|tries IH]; intros tr Hq Ha.
  - unfold MqOpen.wait_init, MqOpen.err. wp_exec. publish_leaf Hq.
  - cbn [MqOpen.wait_init]. unfold MqOpen.attach, MqOpen.err. wp_exec.
    all: try first [apply IH; [by repeat apply quiet_cons|done]|apply Ha; by repeat apply quiet_cons].
    all: pose proof (count_nonneg ready tr); publish_leaf Hq.
    right. rewrite Heqb. split; [simpl; lia|lia].
Qed.

Lemma mq_open_again_publishes fuel oflag nonblock mode attr : forall tr,
  quiet tr ->
  wp (MqOpen.open_again fuel oflag nonblock mode attr)
    (publishes (InitRegion (MyMq.init_region (default MqOpen.defattr attr)))) tr.
Proof.
  induction fuel as [|fuel IH]; intros tr Hq; cbn [MqOpen.open_again].
  { simpl. publish_leaf Hq. }
  set (val := InitRegion _) in *.
  assert (forall tr, quiet tr ->
    wp (MqOpen.exists_ oflag nonblock (MqOpen.open_again fuel oflag nonblock mode attr))
       (publishes val) tr) as He.
  { clear tr Hq. intros tr Hq. unfold MqOpen.exists_, MqOpen.err. wp_exec.
    - apply mq_wait_init_publishes; [by apply quiet_cons|done].
    - by apply IH, quiet_cons.
    - publish_leaf Hq. }
  destruct (has_flag oflag O_CREAT); [|by apply He]. cbn [wp]. intros [fd w|e].
  - by apply mq_create_publishes, quiet_cons.
  - destruct (_ && _); [by apply He, quiet_cons|]. simpl. publish_leaf Hq.
Qed.

(** Initialisation before publication: in every run of [mymq_open], the
    user-execute bit is cleared only after the region's header and free list are
    stored and the mutex and condition variable are initialised, and nothing of
    this is stored afterwards; the call succeeds only as the creator, with the
    region of the requested attributes stored, or, storing nothing, after
    [stat] showed the bit cleared. *)
Theorem mq_open_publication (fuel : nat) (oflag mode : Z) (attr : option MyMq.mymq_attr)
    (orc : nat -> reply) :
  let '(res, tr) := run (MqOpen.mymq_open fuel oflag mode attr) orc 0 [] in
  publishes (InitRegion (MyMq.init_region (default MqOpen.defattr attr))) res tr.
Proof.
  unfold MqOpen.mymq_open.
  pose proof (wp_run _ _ orc 0 []
    (mq_open_again_publishes fuel (clear_flag oflag O_NONBLOCK) (Z.land oflag O_NONBLOCK) mode attr
       [] quiet_nil)) as H.
  by destruct (run _ orc 0 []).
Qed.

(** ** [mysem_open] over mapped memory *)

Definition stat_enoent (e : call * reply) : bool :=
  match e with (Stat, Rerr ENOENT) => true | _ => false end.

(** A run only adds events. *)
Lemma wp_count_mono {A} (P : call * reply -> bool) (p : iprog A) : forall tr,
  wp p (fun _ tr' => count P tr <= count P tr') tr.
Proof.
  induction p as [a|c k IH]; intros tr; simpl; [lia|]. intros r.
  eapply wp_mono; [|apply IH]. simpl. intros _ tr'. rewrite count_cons. destruct (P _); lia.
Qed.

(** The change made by a run; the mapping is accounted for when the run starts
    without one and never met a name that vanished under it. *)
Definition sem_balance (k : Z) (sem : bool) (tr : trace call reply) (res : open_res unit)
    (tr' : trace call reply) : Prop :=
  (sem = false -> count stat_enoent tr' = count stat_enoent tr ->
   count mmap_ok tr' - count munmaps tr' = count mmap_ok tr - count munmaps tr + opened1 res) /\
  count unlinks tr' - count unlinks tr = failed1 res * (count creates tr' - count creates tr) /\
  count (closes k) tr' - count (closes k) tr = count (opens k) tr' - count (opens k) tr.

Section SemOpenBalance.
Context (k : Z) (Hk : k <> -1).

Lemma sem_create_balance cf cm fd w mode value sem tr :
  has_flag cf O_CREAT = true ->
  wp (SemMmapOpen.create fd mode value sem) (sem_balance k sem tr) ((Open cf cm, Rok fd w) :: tr).
Proof.
  intros Hc. unfold SemMmapOpen.create, SemMmapOpen.init_sync, SemMmapOpen.err.
  destruct sem; wp_exec; unfold sem_balance; rewrite ?count_cons; simpl; rewrite Hc;
    destruct (fd =? k); split_and!; intros; lia || done.
Qed.

Lemma sem_wait_init_balance tries oflag fd w n v v' sem again tr :
  (forall tr, wp again (sem_balance k true tr) tr) ->
  forall tr0, (forall P, (forall m s, P (Stat, Rok m s) = false) -> (forall s, P (Sleep 1, s) = false) ->
     count P tr0 = count P ((Mmap n fd, Rok v v') :: (Open O_RDWR 0, Rok fd w) :: tr)) ->
  wp (SemMmapOpen.wait_init tries oflag fd again) (sem_balance k sem tr) tr0.
Proof.
  intros Ha. induction tries as [|tries IH]; intros tr0 Htr.
  - unfold SemMmapOpen.wait_init, SemMmapOpen.err. wp_exec.
    unfold sem_balance. count_from Htr. destruct (fd =? k); lia.
  - cbn [SemMmapOpen.wait_init]. unfold SemMmapOpen.err. cbn [wp]. intros [m s|e].
    + destruct (has_flag m S_IXUSR); simpl.
      * intros r. apply IH. intros P H1 H2. rewrite !count_cons, H1, H2. by rewrite Htr, !count_cons.
      * intros. unfold sem_balance. count_from Htr. destruct (fd =? k); lia.
    + wp_exec; [|unfold sem_balance; count_from Htr; destruct (fd =? k); destruct e; lia].
      bool_to_prop; subst.
      eapply wp_mono; [|apply wp_and; [apply Ha|apply (wp_count_mono stat_enoent)]].
      intros res tr'. unfold sem_balance. count_from Htr. destruct (fd =? k); lia.
Qed.

Lemma sem_open_again_balance fuel oflag mode value : forall sem tr,
  wp (SemMmapOpen.open_again fuel oflag mode value sem) (sem_balance k sem tr) tr.
Proof.
  induction fuel as [|fuel IH]; intros sem tr; cbn [SemMmapOpen.open_again].
  { simpl. unfold sem_balance. simpl. lia. }
  assert (forall tr, wp (SemMmapOpen.exists_ oflag sem (SemMmapOpen.open_again fuel oflag mode value))
            (sem_balance k sem tr) tr) as He.
  { clear tr. intros tr. unfold SemMmapOpen.exists_, SemMmapOpen.err.
    assert ((-1 =? k) = false) as Ek by lia. revert Ek. generalize (-1). intros none Ek.
    destruct sem; wp_exec.
    all: try (by eapply sem_wait_init_balance).
    all: try (eapply wp_mono; [|apply IH]; intros res tr').
    all: unfold sem_balance; rewrite ?count_cons; simpl; rewrite ?Ek; try (destruct (_ =? k); lia); lia. }
  destruct (has_flag oflag O_CREAT) eqn:Hc; [|by apply He]. cbn [wp]. intros [fd w|e].
  - apply sem_create_balance. by do 2 apply has_flag_set_mono.
  - destruct (_ && _).
    + eapply wp_mono; [|apply He]. intros res tr'. unfold sem_balance. rewrite !count_cons. simpl.
      destruct sem; lia.
    + simpl. unfold sem_balance. rewrite !count_cons. simpl. lia.
Qed.
End SemOpenBalance.

Lemma sem_create_publishes fd mode value sem tr :
  quiet tr ->
  wp (SemMmapOpen.create fd (clear_flag mode S_IXUSR) value sem) (publishes (SetCount value)) tr.
Proof.
  intros Hq. unfold SemMmapOpen.create, SemMmapOpen.init_sync, SemMmapOpen.err.
  destruct sem; wp_exec; publish_leaf Hq; left; (split; [lia|find_elem]).
Qed.

Lemma sem_wait_init_publishes val tries oflag fd again : forall tr,
  quiet tr -> (forall tr, quiet tr -> wp again (publishes val) tr) ->
  wp (SemMmapOpen.wait_init tries oflag fd again) (publishes val) tr.
Proof.
  induction tries as [|tries IH]; intros tr Hq Ha.
  - unfold SemMmapOpen.wait_init, SemMmapOpen.err. wp_exec. publish_leaf Hq.
  - cbn [SemMmapOpen.wait_init]. unfold SemMmapOpen.err. wp_exec.
    all: try first [apply IH; [by repeat apply quiet_cons|done]|apply Ha; by repeat apply quiet_cons].
    all: pose proof (count_nonneg ready tr); publish_leaf Hq.
    right. rewrite Heqb. split; [simpl; lia|lia].
Qed.

Lemma sem_open_again_publishes fuel oflag mode value : forall sem tr,
  quiet tr -> wp (SemMmapOpen.open_again fuel oflag mode value sem) (publishes (SetCount value)) tr.
Proof.
  induction fuel as [|fuel IH]; intros sem tr Hq; cbn [SemMmapOpen.open_again].
  { simpl. publish_leaf Hq. }
  assert (forall tr, quiet tr ->
    wp (SemMmapOpen.exists_ oflag sem (SemMmapOpen.open_again fuel oflag mode value))
       (publishes (SetCount value)) tr) as He.
  { clear tr Hq. intros tr Hq. unfold SemMmapOpen.exists_, SemMmapOpen.err. destruct sem; wp_exec.
    all: try first [apply sem_wait_init_publishes; [by repeat apply quiet_cons|by apply IH]
                   |by apply IH, quiet_cons].
    all: publish_leaf Hq. }
  destruct (has_flag oflag O_CREAT); [|by apply He]. cbn [wp]. intros [fd w|e].
  - by apply sem_create_publishes, quiet_cons.
  - destruct (_ && _); [by apply He, quiet_cons|]. simpl. publish_leaf Hq.
Qed.

(** [mysem_open] over mapped memory: in every run the initial value, the
    mutex and the condition variable are in place before the user-execute bit is
    cleared, and success means that this call stored the value or saw the bit
    cleared; every descriptor is closed exactly as often as it was opened; a name
    is unlinked exactly when this call created it and fails; and if no name
    vanished between [open] and [stat], one mapping is left on success and none
    on failure. *)
Theorem sem_mmap_open_protocol (fuel : nat) (oflag mode value : Z) (orc : nat -> reply) (k : Z) :
  k <> -1 ->
  let '(res, tr) := run (SemMmapOpen.mysem_open fuel oflag mode value) orc 0 [] in
  publishes (SetCount value) res tr /\
  count (closes k) tr = count (opens k) tr /\
  count unlinks tr = failed1 res * count creates tr /\
  (count stat_enoent tr = 0 -> count mmap_ok tr = count munmaps tr + opened1 res).
Proof.
  intros Hk. unfold SemMmapOpen.mysem_open. set (p := SemMmapOpen.open_again _ _ _ _ _).
  pose proof (wp_run p (sem_balance k false []) orc 0 []
                (sem_open_again_balance k Hk _ _ _ _ false [])) as Hb.
  pose proof (wp_run p _ orc 0 [] (sem_open_again_publishes _ _ _ _ false [] quiet_nil)) as Hp.
  destruct (run p orc 0 []) as [res tr]. simpl in *. revert Hb. unfold sem_balance.
  rewrite !count_nil, !Z.sub_0_r. intros (H1 & H2 & H3). split_and!; [done|lia|lia|].
  intros He. specialize (H1 eq_refl He). lia.
Qed.

(** Replies given in order, then successes. *)
Definition replies (l : list reply) (n : nat) : reply := default (Rok 1 0) (l !! n).

Lemma sem_mmap_open_protocol_witness :
  let '(res, tr) := run (SemMmapOpen.mysem_open 1 0 0 0) (replies [Rok 3 0; Rok 1 0; Rok 0x40 0; Rok 0 0; Rok 0 0]) 0 [] in
  res = Opened tt /\ count (closes 3) tr = 1 /\ count mmap_ok tr = 1.
Proof.
  pose proof (sem_mmap_open_protocol 1 0 0 0 (replies [Rok 3 0; Rok 1 0; Rok 0x40 0; Rok 0 0; Rok 0 0]) 3
                ltac:(lia)) as H.
  destruct (run _ _ _ _) as [res tr] eqn:E. destruct H as (_ & Hc & _ & Hm).
  vm_compute in E. injection E as <- <-. split; [done|]. split; [exact Hc|]. by apply Hm.
Defined.

(** The mapping made before [stat] is lost on a retry: when the name vanishes
    between [open] and [stat] and the second attempt cannot create it, the call
    fails with its mapping still in place (no [munmap] is made).  The descriptor
    is given back. *)
Theorem sem_mmap_open_leak :
  let '(res, tr) := run (SemMmapOpen.mysem_open 2 O_CREAT 0x1A4 1)
    (replies [Rerr EEXIST; Rok 3 0; Rok 1 0; Rerr ENOENT; Rok 0 0; Rerr EACCES]) 0 [] in
  res = Failed (Some EACCES) /\ count mmap_ok tr = 1 /\ count munmaps tr = 0 /\
  count (closes 3) tr = count (opens 3) tr.
Proof. by vm_compute. Qed.

(** In [mymq_open] a failing allocation after the file was mapped closes the
    descriptor a second time. *)
Example mq_open_double_close :
  let '(res, tr) := run (MqOpen.mymq_open 1 0 0 None)
    (replies [Rok 3 0; Rok 0 1000; Rok 1 0; Rok 0 0; Rerr ENOMEM]) 0 [] in
  res = Failed (Some ENOMEM) /\ count (opens 3) tr = 1 /\ count (closes 3) tr = 2.
Proof. by vm_compute. Qed.

(** ** [mysem_open] over a FIFO *)

Definition writes1 (e : call * reply) : bool :=
  match e with (Write _ n, Rok m _) => (n =? 1) && (m =? 1) | _ => false end.

(** The descriptors a result carries. *)
Definition held (k : Z) (r : open_res SemFifo.mysem_t) : Z :=
  match r with
  | Opened s => (if SemFifo.sem_fd0 s =? k then 1 else 0) + (if SemFifo.sem_fd1 s =? k then 1 else 0)
  | _ => 0
  end.

Definition fifo_post (k value : Z) (res : open_res SemFifo.mysem_t)
    (tr : trace call reply) : Prop :=
  count malloc_ok tr = count frees tr + opened1 res /\
  count (opens k) tr = count (closes k) tr + held k res /\
  (count malloc_failed tr = 0 -> count unlinks tr = failed1 res * count creates tr) /\
  (opened1 res = 1 -> count writes1 tr = count creates tr * Z.max 0 value) /\
  res <> Retrying.

(** What has happened when the bytes are written. *)
Record fifo_ready (k oflag fd0 fd1 : Z) (tr : trace call reply) : Prop := {
  fr_malloc : count malloc_ok tr = count frees tr + 1;
  fr_failed : count malloc_failed tr = 0;
  fr_opens : count (opens k) tr =
    count (closes k) tr + (if fd0 =? k then 1 else 0) + (if fd1 =? k then 1 else 0);
  fr_unlinks : count unlinks tr = 0;
  fr_creates : count creates tr = if has_flag oflag O_CREAT then 1 else 0 }.

Section FifoOpen.
Context (k : Z) (Hk : k <> -1).

Lemma fifo_error_post e value oflag' fd0 fd1 tr :
  fifo_ready k oflag' fd0 fd1 tr ->
  wp (SemFifoOpen.error e oflag' fd0 fd1) (fifo_post k value) tr.
Proof.
  intros [H1 H2 H3 H4 H5]. unfold SemFifoOpen.error.
  destruct (has_flag oflag' O_CREAT); wp_exec; unfold fifo_post; rewrite !count_cons; simpl;
    split_and!; intros; try done; lia.
Qed.

Lemma fifo_fill_post value oflag' fd0 fd1 n : forall tr,
  fifo_ready k oflag' fd0 fd1 tr ->
  count writes1 tr + Z.of_nat n = (if has_flag oflag' O_CREAT then Z.max 0 value else 0) ->
  wp (SemFifoOpen.fill n oflag' fd0 fd1) (fifo_post k value) tr.
Proof.
  induction n as [|n IH]; intros tr Hr Hn; cbn [SemFifoOpen.fill].
  - simpl. destruct Hr as [H1 H2 H3 H4 H5]. unfold fifo_post. simpl.
    split_and!; intros; try done; try lia. rewrite H5. destruct (has_flag oflag' O_CREAT); lia.
  - cbn [wp]. intros [m s|e].
    + destruct (m =? 1) eqn:Em.
      * apply IH; [|rewrite count_cons; simpl; rewrite Em; simpl; lia].
        destruct Hr as [H1 H2 H3 H4 H5]. split; rewrite !count_cons; simpl; lia.
      * apply fifo_error_post. destruct Hr as [H1 H2 H3 H4 H5]. split; rewrite !count_cons; simpl; lia.
    + apply fifo_error_post. destruct Hr as [H1 H2 H3 H4 H5]. split; rewrite !count_cons; simpl; lia.
Qed.

(** From the allocation on, for a call that did ([oflag'] has [O_CREAT]) or did
    not create the FIFO. *)
Lemma fifo_alloc_post value oflag' tr :
  count malloc_ok tr = 0 -> count frees tr = 0 -> count malloc_failed tr = 0 ->
  count (opens k) tr = 0 -> count (closes k) tr = 0 -> count unlinks tr = 0 ->
  count writes1 tr = 0 ->
  count creates tr = (if has_flag oflag' O_CREAT then 1 else 0) ->
  wp (SemFifoOpen.alloc oflag' value) (fifo_post k value) tr.
Proof.
  intros H1 H2 H3 H4 H5 H6 H7 H8. unfold SemFifoOpen.alloc, SemFifoOpen.open_ends.
  assert ((-1 =? k) = false) as Ek by lia. revert Ek. generalize (-1). intros none Ek.
  wp_exec.
  all: try (apply fifo_error_post; split; rewrite !count_cons; simpl; rewrite ?Ek; lia).
  - apply fifo_fill_post; [split; rewrite !count_cons; simpl; lia|].
    rewrite !count_cons; simpl. rewrite H7. destruct (has_flag oflag' O_CREAT); lia.
  - unfold fifo_post. rewrite !count_cons. simpl. split_and!; intros; try done; lia.
Qed.
End FifoOpen.

(** [mysem_open] over a FIFO: in every run the function returns; on success it
    keeps one allocation and exactly the two descriptors of the result, and the
    FIFO was given one byte per unit of the initial value if this call was asked
    to create it and did; on failure every descriptor is closed and the memory
    freed, and, unless it was the allocation that failed, the FIFO is unlinked
    exactly when this call created it. *)
Theorem sem_fifo_open_resources (oflag mode value : Z) (orc : nat -> reply) (k : Z) :
  k <> -1 ->
  let '(res, tr) := run (SemFifoOpen.mysem_open oflag mode value) orc 0 [] in
  res <> Retrying /\
  count malloc_ok tr = count frees tr + opened1 res /\
  count (opens k) tr = count (closes k) tr + held k res /\
  (count malloc_failed tr = 0 -> count unlinks tr = failed1 res * count creates tr) /\
  (opened1 res = 1 -> count writes1 tr = count creates tr * Z.max 0 value).
Proof.
  intros Hk. assert (wp (SemFifoOpen.mysem_open oflag mode value) (fifo_post k value) []) as Hw.
  { unfold SemFifoOpen.mysem_open. destruct (has_flag oflag O_CREAT) eqn:Hc.
    - wp_exec; [apply fifo_alloc_post; rewrite ?Hc; done| |].
      + apply fifo_alloc_post; rewrite ?has_flag_clear; done.
      + unfold fifo_post. rewrite !count_cons. simpl. split_and!; done.
    - apply fifo_alloc_post; rewrite ?Hc; done. }
  apply (wp_run _ _ orc 0) in Hw. destruct (run _ orc 0 []) as [res tr]. simpl in Hw.
  destruct Hw as (H1 & H2 & H3 & H4 & H5). by split_and!.
Qed.

Lemma sem_fifo_open_resources_witness :
  let '(res, tr) := run (SemFifoOpen.mysem_open O_CREAT 0x1A4 2) (replies [Rok 0 0; Rok 1 0; Rok 3 0; Rok 4 0]) 0 [] in
  res = Opened (SemFifo.Sem 3 4 SemFifo.SEM_MAGIC) /\ count writes1 tr = 2 /\
  count (opens 4) tr = count (closes 4) tr + 1.
Proof.
  pose proof (sem_fifo_open_resources O_CREAT 0x1A4 2 (replies [Rok 0 0; Rok 1 0; Rok 3 0; Rok 4 0]) 4
                ltac:(lia)) as H.
  destruct (run _ _ _ _) as [res tr] eqn:E. destruct H as (_ & _ & Ho & _ & Hw).
  vm_compute in E. injection E as <- <-. split; [done|]. split; [by apply Hw|exact Ho].
Defined.

(** When the allocation fails the FIFO this call made is left behind. *)
Example sem_fifo_open_leaves_fifo :
  let '(res, tr) := run (SemFifoOpen.mysem_open O_CREAT 0x1A4 2) (replies [Rok 0 0; Rerr ENOMEM]) 0 [] in
  res = Failed (Some ENOMEM) /\ count creates tr = 1 /\ count unlinks tr = 0.
Proof. by vm_compute. Qed.

(** ** [mysem_open] over System V semaphores *)

(** [semget] returned the set [id]; the set [id] is removed. *)
Definition semgets (id : Z) (e : call * reply) : bool :=
  match e with (Semget _ _ _, Rok i _) => i =? id | _ => false end.
Definition rmids (id : Z) (e : call * reply) : bool :=
  match e with (Semctl_rmid i, _) => i =? id | _ => false end.

Definition svsem_balance (id : Z) (tr : trace call reply) (res : open_res SemSvsem.mysem_t)
    (tr' : trace call reply) : Prop :=
  count (rmids id) tr' = count (rmids id) tr + failed1 res * (count (semgets id) tr' - count (semgets id) tr) /\
  count malloc_ok tr' = count malloc_ok tr + opened1 res /\
  match res with
  | Opened s => SemSvsem.sem_semid s = id -> count (semgets id) tr' = count (semgets id) tr + 1
  | Failed _ => True
  | Retrying => False
  end.

Section SvsemOpen.
Context (id : Z) (Hid : id <> -1).

Ltac svsem_leaf := unfold svsem_balance; rewrite ?count_cons; simpl.

(** The error path and the end of the function for a set that was just
    obtained. *)
Lemma svsem_err_balance e semid key n f w tr tr0 :
  (forall P, (P = rmids id \/ P = semgets id \/ P = malloc_ok) ->
     count P tr0 = count P ((Semget key n f, Rok semid w) :: tr)) ->
  wp (SemSvsemOpen.err e semid) (svsem_balance id tr) tr0.
Proof.
  intros Htr. unfold SemSvsemOpen.err. destruct (semid =? -1) eqn:E; wp_exec; svsem_leaf;
    rewrite !Htr by eauto; rewrite !count_cons; simpl; bool_to_prop; subst;
    destruct (_ =? id) eqn:E2; bool_to_prop; split_and!; done || lia.
Qed.

Lemma svsem_finish_balance semid key n f w tr tr0 :
  (forall P, (P = rmids id \/ P = semgets id \/ P = malloc_ok) ->
     count P tr0 = count P ((Semget key n f, Rok semid w) :: tr)) ->
  wp (SemSvsemOpen.finish semid) (svsem_balance id tr) tr0.
Proof.
  intros Htr. unfold SemSvsemOpen.finish. cbn [wp]. intros [v v'|e].
  - cbn [wp]. svsem_leaf. rewrite !Htr by eauto. rewrite !count_cons. simpl.
    destruct (semid =? id) eqn:E; bool_to_prop; split_and!; lia.
  - eapply (svsem_err_balance _ _ key n f w). intros P [->|[->| ->]]; rewrite count_cons; simpl; eauto.
Qed.

Lemma svsem_wait_init_balance tries semid key n f w tr : forall tr0,
  (forall P, (P = rmids id \/ P = semgets id \/ P = malloc_ok) ->
     count P tr0 = count P ((Semget key n f, Rok semid w) :: tr)) ->
  wp (SemSvsemOpen.wait_init tries semid) (svsem_balance id tr) tr0.
Proof.
  induction tries as [|tries IH]; intros tr0 Htr; cbn [SemSvsemOpen.wait_init].
  - by eapply svsem_err_balance.
  - wp_exec; [eapply (svsem_finish_balance _ key n f w)|apply IH|eapply (svsem_err_balance _ _ key n f w)];
      intros P HP; rewrite !count_cons, (Htr P HP), count_cons; destruct HP as [->|[->| ->]]; reflexivity.
Qed.

Lemma svsem_none_err e tr : wp (SemSvsemOpen.err e (-1)) (svsem_balance id tr) tr.
Proof. simpl. svsem_leaf. split_and!; lia. Qed.

Lemma svsem_mono_from tr tr0 p :
  count (rmids id) tr0 = count (rmids id) tr -> count (semgets id) tr0 = count (semgets id) tr ->
  count malloc_ok tr0 = count malloc_ok tr ->
  wp p (svsem_balance id tr0) tr0 -> wp p (svsem_balance id tr) tr0.
Proof.
  intros H1 H2 H3. apply wp_mono. intros res tr'. unfold svsem_balance. by rewrite H1, H2, H3.
Qed.

Lemma svsem_existing_balance semflag tr :
  wp (SemSvsemOpen.open_existing semflag) (svsem_balance id tr) tr.
Proof.
  unfold SemSvsemOpen.open_existing. wp_exec.
  - eapply (svsem_wait_init_balance _ _ 0 0 0 0). intros P [->|[->| ->]]; rewrite !count_cons; simpl; reflexivity.
  - apply svsem_mono_from; [by rewrite !count_cons..|]. apply svsem_none_err.
  - apply svsem_mono_from; [by rewrite !count_cons..|]. apply svsem_none_err.
Qed.

Lemma svsem_open_balance oflag mode value tr :
  wp (SemSvsemOpen.mysem_open oflag mode value) (svsem_balance id tr) tr.
Proof.
  unfold SemSvsemOpen.mysem_open, SemSvsemOpen.init_sem. wp_exec.
  all: try (apply svsem_mono_from; [by rewrite ?count_cons..|];
            first [apply svsem_none_err|apply svsem_existing_balance]).
  all: try (svsem_leaf; split_and!; lia).
  all: first [eapply (svsem_finish_balance _ 0 0 0 0)|eapply (svsem_err_balance _ _ 0 0 0 0)];
    intros P [->|[->| ->]]; rewrite !count_cons; simpl; try reflexivity.
Qed.
End SvsemOpen.

(** A failing [mysem_open] over System V semaphores removes the set it
    obtained, whoever created it: in every run, with or without [O_CREAT], the
    number of [IPC_RMID] calls on a set is the number of times [semget] returned
    it if the call fails (a timeout while another process initialises it, a
    failing [IPC_STAT] or allocation) and 0 if it succeeds. *)
Theorem sem_svsem_open_removes (oflag mode value : Z) (orc : nat -> reply) (id : Z) :
  id <> -1 ->
  let '(res, tr) := run (SemSvsemOpen.mysem_open oflag mode value) orc 0 [] in
  count (rmids id) tr = failed1 res * count (semgets id) tr /\
  count malloc_ok tr = opened1 res /\
  match res with
  | Opened s => SemSvsem.sem_semid s = id -> count (semgets id) tr = 1
  | Failed _ => True
  | Retrying => False
  end.
Proof.
  intros Hid. pose proof (wp_run _ _ orc 0 [] (svsem_open_balance id Hid oflag mode value [])) as H.
  destruct (run _ orc 0 []) as [res tr]. revert H. unfold svsem_balance. simpl.
  rewrite !count_nil, Z.sub_0_r. intros (H1 & H2 & H3). split_and!; [lia|lia|].
  by destruct res.
Qed.

Lemma sem_svsem_open_removes_witness :
  let '(res, tr) := run (SemSvsemOpen.mysem_open 0 0 0) (fun n => match n with 1%nat => Rok 7 0 | _ => Rok 0 0 end) 0 [] in
  res = Failed (Some ETIMEDOUT) /\ count (rmids 7) tr = 1.
Proof.
  pose proof (sem_svsem_open_removes 0 0 0 (fun n => match n with 1%nat => Rok 7 0 | _ => Rok 0 0 end) 7
                ltac:(lia)) as H.
  destruct (run _ _ _ _) as [res tr] eqn:E. destruct H as (Hr & _).
  vm_compute in E. injection E as <- <-. split; [done|exact Hr].
Defined.
