(* ===== verification/Inet.v ===== *)
(** * Internet addresses as text: [unixNetV1/libfree]

    [inet_ntop.c], [inet_pton.c], [inet_aton.c] and the IPv4-only
    [inet_ntop_ipv4.c] and [inet_pton_ipv4.c].  A C string is the list of its
    character codes before the terminating NUL; a parser returns [None] where
    the code returns 0 (and leaves the destination alone) and [Some] bytes where
    it returns 1 and stores them. *)
From S2P Require Import Prelude.

(** Character codes. *)
Definition chr_dot : Z := 46.
Definition chr_colon : Z := 58.

Definition AF_INET : Z := 2.
Definition AF_INET6 : Z := 10.

(** ** Formatting numbers ([sprintf] with [%u] and [%x]) *)

(** The digits of [n], the most significant first. *)
Fixpoint digits (fuel : nat) (base n : Z) : list Z :=
  match fuel with
  | O => []
  | S fuel' => if n <? base then [n] else digits fuel' base (n / base) ++ [n mod base]
  end.

Definition digit_chr (d : Z) : Z := if d <? 10 then 48 + d else 87 + d.

(** Ten digits are enough for 32 bits in any base from ten on. *)
Definition fmt_u (n : Z) : list Z := digit_chr <$> digits 10 10 n.
Definition fmt_x (n : Z) : list Z := digit_chr <$> digits 10 16 n.

(** ** [inet_ntop] *)

Module Ntop.

(** [inet_ntop4]: the text copied to [dst], or [None] for [NULL] with [ENOSPC]. *)
Definition inet_ntop4 (src : list Z) (size : Z) : option (list Z) :=
  let tmp := fmt_u (src !!! 0%nat) ++ [chr_dot] ++ fmt_u (src !!! 1%nat) ++ [chr_dot]
             ++ fmt_u (src !!! 2%nat) ++ [chr_dot] ++ fmt_u (src !!! 3%nat) in
  if Z.of_nat (length tmp) >? size then None else Some tmp.

(** The first loop: two bytes make a word. *)
Fixpoint words_loop (i : nat) (src : list Z) (words : list Z) : list Z :=
  match src with
  | [] => words
  | b :: src' =>
    let w := Z.lor (words !!! (i / 2)%nat) (Z.shiftl b (Z.shiftl (1 - Z.of_nat i mod 2) 3)) in
    words_loop (S i) src' (<[(i / 2)%nat := w]> words)
  end.

Definition to_words (src : list Z) : list Z := words_loop 0 src (replicate 8 0).

(** A run of zero words; [base] is -1 when there is none. *)
Record run := Run { base : Z; len : Z }.

Definition better (best cur : run) : run :=
  if (base best =? -1) || (len cur >? len best) then cur else best.

(** The search loop from word [i] on. *)
Fixpoint best_loop (i : Z) (words : list Z) (best cur : run) : run * run :=
  match words with
  | [] => (best, cur)
  | w :: words' =>
    if w =? 0 then
      best_loop (i + 1) words' best
        (if base cur =? -1 then Run i 1 else Run (base cur) (len cur + 1))
    else if negb (base cur =? -1) then best_loop (i + 1) words' (better best cur) (Run (-1) (len cur))
    else best_loop (i + 1) words' best cur
  end.

(** The run that is abbreviated; the lengths start at an arbitrary value the
    code does not set. *)
Definition best_run (len0 : Z) (words : list Z) : run :=
  let '(best, cur) := best_loop 0 words (Run (-1) len0) (Run (-1) len0) in
  let best := if negb (base cur =? -1) then better best cur else best in
  if negb (base best =? -1) && (len best <? 2) then Run (-1) (len best) else best.

Definition sizeof_tmp : Z := 46.

(** The formatting loop from word [i] on; [tmp] is the text so far. *)
Fixpoint format_loop (i : Z) (ws words src tmp : list Z) (best : run) : option (list Z) :=
  match ws with
  | [] => Some tmp
  | w :: ws' =>
    if negb (base best =? -1) && (i >=? base best) && (i <? base best + len best) then
      format_loop (i + 1) ws' words src (if i =? base best then tmp ++ [chr_colon] else tmp) best
    else
      let tmp := if negb (i =? 0) then tmp ++ [chr_colon] else tmp in
      if (i =? 6) && (base best =? 0) &&
         ((len best =? 6) || ((len best =? 5) && ((words !!! 5%nat) =? 0xffff))) then
        t ← inet_ntop4 (drop 12 src) (sizeof_tmp - Z.of_nat (length tmp));
        Some (tmp ++ t)
      else format_loop (i + 1) ws' words src (tmp ++ fmt_x w) best
  end.

(** The text before the terminating NUL. *)
Definition ntop6_text (len0 : Z) (src : list Z) : option (list Z) :=
  let words := to_words src in
  let best := best_run len0 words in
  tmp ← format_loop 0 words words src [] best;
  Some (if negb (base best =? -1) && (base best + len best =? 8) then tmp ++ [chr_colon] else tmp).

Definition inet_ntop6 (len0 : Z) (src : list Z) (size : Z) : option (list Z) :=
  tmp ← ntop6_text len0 src;
  if Z.of_nat (length tmp) + 1 >? size then None else Some tmp.

Definition inet_ntop (len0 af : Z) (src : list Z) (size : Z) : cres (list Z) :=
  if af =? AF_INET then match inet_ntop4 src size with Some t => Ok t | None => Err ENOSPC end
  else if af =? AF_INET6 then
    match inet_ntop6 len0 src size with Some t => Ok t | None => Err ENOSPC end
  else Err EAFNOSUPPORT.

End Ntop.

(** ** [inet_pton] *)

Module Pton.

(** [strchr(digits, ch) - digits] *)
Definition digit_of (ch : Z) : option Z :=
  if (48 <=? ch) && (ch <=? 57) then Some (ch - 48) else None.

(** The same in [xdigits_l], then in [xdigits_u]. *)
Definition xdigit_of (ch : Z) : option Z :=
  if (48 <=? ch) && (ch <=? 57) then Some (ch - 48)
  else if (97 <=? ch) && (ch <=? 102) then Some (ch - 87)
  else if (65 <=? ch) && (ch <=? 70) then Some (ch - 55)
  else None.

(** The loop of [inet_pton4]: [cur] is [*tp] and [prev] the octets before it, the
    last one first. *)
Fixpoint pton4_loop (src : list Z) (saw_digit : bool) (octets cur : Z) (prev : list Z)
    : option (Z * list Z) :=
  match src with
  | [] => if octets <? 4 then None else Some (cur, prev)
  | ch :: src' =>
    match digit_of ch with
    | Some d =>
      let new := cur * 10 + d in
      if new >? 255 then None
      else if saw_digit then pton4_loop src' true octets new prev
      else if octets + 1 >? 4 then None
      else pton4_loop src' true (octets + 1) new prev
    | None =>
      if (ch =? chr_dot) && saw_digit then
        if octets =? 4 then None else pton4_loop src' false octets 0 (cur :: prev)
      else None
    end
  end.

Definition inet_pton4 (src : list Z) : option (list Z) :=
  '(cur, prev) ← pton4_loop src false 0 0 [];
  Some (reverse (cur :: prev)).

(** The state of [inet_pton6]: the buffer of 16 bytes, the index [tp] of the next
    byte, that of [colonp] if it is set. *)
Record st6 := St6 { tmp : list Z; tp : nat; colonp : option nat }.

(** [if (tp + INT16SZ > endp) return 0; *tp++ = ...; *tp++ = ...;] *)
Definition put_word (s : st6) (val : Z) : option st6 :=
  if (16 <? tp s + 2)%nat then None
  else Some (St6 (<[S (tp s) := Z.land val 0xff]> (<[tp s := Z.land (Z.shiftr val 8) 0xff]> (tmp s)))
               (tp s + 2) (colonp s)).

(** [inet_pton4(curtok, tp) > 0], its four bytes stored, [tp += 4]. *)
Definition put_v4 (s : st6) (curtok : list Z) : option st6 :=
  if (tp s + 4 <=? 16)%nat then
    bs ← inet_pton4 curtok;
    Some (St6 (take (tp s) (tmp s) ++ bs ++ drop (tp s + 4) (tmp s)) (tp s + 4) (colonp s))
  else None.

(** The loop; it ends with the state and whether a word is pending. *)
Fixpoint pton6_loop (src : list Z) (curtok : list Z) (saw_xdigit : bool) (val : Z) (s : st6)
    : option (st6 * bool * Z) :=
  match src with
  | [] => Some (s, saw_xdigit, val)
  | ch :: src' =>
    match xdigit_of ch with
    | Some d =>
      let val := Z.lor (Z.shiftl val 4) d in
      if val >? 0xffff then None else pton6_loop src' curtok true val s
    | None =>
      if ch =? chr_colon then
        if negb saw_xdigit then
          match colonp s with
          | Some _ => None
          | None => pton6_loop src' src' saw_xdigit val (St6 (tmp s) (tp s) (Some (tp s)))
          end
        else
          s' ← put_word s val;
          pton6_loop src' src' false 0 s'
      else if ch =? chr_dot then s' ← put_v4 s curtok; Some (s', false, val)
      else None
    end
  end.

(** [for (i = 1; i <= n; i++) { endp[-i] = colonp[n - i]; colonp[n - i] = 0; }] with
    [k] turns left. *)
Fixpoint shift_loop (k : nat) (i n c : nat) (buf : list Z) : list Z :=
  match k with
  | O => buf
  | S k' =>
    let buf := <[(16 - i)%nat := buf !!! (c + n - i)%nat]> buf in
    shift_loop k' (S i) n c (<[(c + n - i)%nat := 0]> buf)
  end.

(** From the end of the loop on. *)
Definition pton6_finish (s : st6) (saw_xdigit : bool) (val : Z) : option (list Z) :=
  s ← (if saw_xdigit then put_word s val else Some s);
  match colonp s with
  | Some c => Some (shift_loop (tp s - c) 1 (tp s - c) c (tmp s))
  | None => if negb (tp s =? 16)%nat then None else Some (tmp s)
  end.

(** A leading colon must be the first of two. *)
Definition pton6_start (src : list Z) : option (list Z) :=
  match src with
  | ch :: src' =>
    if ch =? chr_colon then
      match src' with
      | ch' :: _ => if ch' =? chr_colon then Some src' else None
      | [] => None
      end
    else Some src
  | [] => Some src
  end.

Definition inet_pton6 (src : list Z) : option (list Z) :=
  src ← pton6_start src;
  '(s, saw, val) ← pton6_loop src src false 0 (St6 (replicate 16 0) 0 None);
  pton6_finish s saw val.

(** 1, 0 or -1 with the bytes stored. *)
Definition inet_pton (af : Z) (src : list Z) : cres (option (list Z)) :=
  if af =? AF_INET then Ok (inet_pton4 src)
  else if af =? AF_INET6 then Ok (inet_pton6 src)
  else Err EAFNOSUPPORT.

End Pton.

(** ** The IPv4-only functions *)

Module Ipv4Only.

(** [inet_aton]: [u_long] has 64 bits.  The address is the value before
    [htonl]. *)
Fixpoint aton_loop (cp : list Z) (dots acc addr : Z) : option (Z * Z) :=
  match cp with
  | [] => if acc >? 255 then None else Some (dots, u64 (Z.lor (Z.shiftl addr 8) acc))
  | cc :: cp' =>
    match Pton.digit_of cc with
    | Some d => aton_loop cp' dots (u64 (acc * 10 + d)) addr
    | None =>
      if cc =? chr_dot then
        if dots + 1 >? 3 then None
        else if acc >? 255 then None
        else aton_loop cp' (dots + 1) 0 (u64 (Z.lor (Z.shiftl addr 8) acc))
      else None
    end
  end.

Definition inet_aton (cp : list Z) : option Z :=
  '(dots, addr) ← aton_loop cp 0 0 0;
  Some (u32 (if dots <? 3 then u64 (Z.shiftl addr (8 * (3 - dots))) else addr)).

(** The four bytes of an address in network order. *)
Definition in_addr_bytes (a : Z) : list Z :=
  [Z.shiftr a 24; Z.land (Z.shiftr a 16) 255; Z.land (Z.shiftr a 8) 255; Z.land a 255].

Definition inet_pton (family : Z) (strptr : list Z) : cres (option (list Z)) :=
  if family =? AF_INET then Ok (in_addr_bytes <$> inet_aton strptr) else Err EAFNOSUPPORT.

Definition inet_ntop (family : Z) (p : list Z) (len : Z) : cres (list Z) :=
  if family =? AF_INET then
    let temp := fmt_u (p !!! 0%nat) ++ [chr_dot] ++ fmt_u (p !!! 1%nat) ++ [chr_dot]
                ++ fmt_u (p !!! 2%nat) ++ [chr_dot] ++ fmt_u (p !!! 3%nat) in
    if Z.of_nat (length temp) >=? len then Err ENOSPC else Ok temp
  else Err EAFNOSUPPORT.

End Ipv4Only.

(** ** Digits *)

(** The value of a list of digits read on from [v]. *)
Definition value_from (base v : Z) (ds : list Z) : Z := fold_left (fun v d => v * base + d) ds v.

Lemma value_from_app base v ds1 ds2 :
  value_from base v (ds1 ++ ds2) = value_from base (value_from base v ds1) ds2.
Proof. apply fold_left_app. Qed.

(** Reading on never makes the value smaller. *)
Lemma value_from_ge base v ds :
  1 <= base -> 0 <= v -> Forall (fun d => 0 <= d) ds -> v <= value_from base v ds.
Proof.
  intros Hb. revert v. induction ds as [|d ds IH]; intros v Hv HF; simpl; [lia|].
  apply Forall_cons in HF as [Hd HF]. etrans; [|apply IH; [nia|done]]. nia.
Qed.

Lemma digits_spec fuel base n :
  2 <= base -> 0 <= n < base ^ Z.of_nat fuel ->
  (0 < fuel)%nat ->
  Forall (fun d => 0 <= d < base) (digits fuel base n) /\ digits fuel base n <> [] /\
  value_from base 0 (digits fuel base n) = n.
Proof.
  intros Hb. revert n. induction fuel as [|fuel IH]; intros n Hn Hf; [lia|]. simpl.
  destruct (n <? base) eqn:E; bool_to_prop.
  - split_and!; [repeat constructor; lia|done|simpl; lia].
  - assert (0 <= n / base < base ^ Z.of_nat fuel) as Hq.
    { split; [apply Z.div_pos; lia|]. apply Z.div_lt_upper_bound; [lia|].
      replace (Z.of_nat (S fuel)) with (Z.succ (Z.of_nat fuel)) in Hn by lia.
      rewrite Z.pow_succ_r in Hn by lia. lia. }
    assert (0 < fuel)%nat as Hf'.
    { destruct fuel; [|lia]. simpl in Hn. lia. }
    destruct (IH _ Hq Hf') as (HF & Hne & Hv).
    split_and!.
    + apply Forall_app. split; [done|]. repeat constructor; apply Z.mod_pos_bound; lia.
    + by destruct (digits fuel base (n / base)).
    + rewrite value_from_app, Hv. simpl. pose proof (Z.div_mod n base). lia.
Qed.

Lemma digits_length fuel base n k :
  2 <= base -> 0 <= n < base ^ Z.of_nat (S k) -> (length (digits fuel base n) <= S k)%nat.
Proof.
  intros Hb. revert n k. induction fuel as [|fuel IH]; intros n k Hn; simpl; [lia|].
  destruct (n <? base) eqn:E; bool_to_prop; simpl; [lia|].
  rewrite length_app. simpl. destruct k as [|k]; [simpl in Hn; lia|].
  assert (length (digits fuel base (n / base)) <= S k)%nat; [|lia].
  apply IH. split; [apply Z.div_pos; lia|]. apply Z.div_lt_upper_bound; [lia|].
  replace (Z.of_nat (S (S k))) with (Z.succ (Z.of_nat (S k))) in Hn by lia.
  rewrite Z.pow_succ_r in Hn by lia. lia.
Qed.

(** ** Decimal strings and [inet_pton4] *)

Definition is_digit (c : Z) : Prop := 48 <= c <= 57.

(** The number a string of decimal digits stands for. *)
Definition dec_val (s : list Z) : Z := value_from 10 0 ((fun c => c - 48) <$> s).

(** The decimal numbers [inet_pton4] takes: at least one digit, at most 255. *)
Definition octet_text (s : list Z) : Prop := s <> [] /\ Forall is_digit s /\ dec_val s <= 255.

Lemma digit_of_some c : is_digit c -> Pton.digit_of c = Some (c - 48).
Proof.
  unfold is_digit, Pton.digit_of. intros.
  by rewrite (proj2 (Z.leb_le 48 c)), (proj2 (Z.leb_le c 57)) by lia.
Qed.

Lemma digit_of_inv c d : Pton.digit_of c = Some d -> is_digit c /\ d = c - 48.
Proof.
  unfold is_digit, Pton.digit_of. destruct ((48 <=? c) && (c <=? 57)) eqn:E; [|done].
  intros [= <-]. bool_to_prop. lia.
Qed.

Lemma digit_of_dot : Pton.digit_of chr_dot = None.
Proof. done. Qed.

(** Digits are read one by one as long as the number stays within a byte. *)
Lemma pton4_digits ds rest octets cur prev :
  Forall is_digit ds -> 0 <= cur -> value_from 10 cur ((fun c => c - 48) <$> ds) <= 255 ->
  Pton.pton4_loop (ds ++ rest) true octets cur prev =
  Pton.pton4_loop rest true octets (value_from 10 cur ((fun c => c - 48) <$> ds)) prev.
Proof.
  revert cur. induction ds as [|c ds IH]; intros cur HF Hc Hv; [done|].
  apply Forall_cons in HF as [Hd HF]. cbn [app Pton.pton4_loop]. rewrite digit_of_some by done.
  unfold is_digit in Hd. simpl in Hv.
  assert (cur * 10 + (c - 48) <= 255) as Hn.
  { etrans; [|exact Hv]. apply value_from_ge; [lia|lia|].
    apply Forall_fmap. eapply Forall_impl; [exact HF|]. unfold is_digit. simpl. lia. }
  rewrite Z.gtb_ltb, (proj2 (Z.ltb_ge _ _) Hn). apply IH; [done|lia|done].
Qed.

Lemma pton4_octet s rest octets prev :
  octet_text s -> octets < 4 ->
  Pton.pton4_loop (s ++ rest) false octets 0 prev =
  Pton.pton4_loop rest true (octets + 1) (dec_val s) prev.
Proof.
  intros (Hne & HF & Hv) Ho. destruct s as [|c s]; [done|].
  apply Forall_cons in HF as [Hd HF]. cbn [app Pton.pton4_loop]. rewrite digit_of_some by done.
  unfold is_digit in Hd. unfold dec_val in *. simpl in Hv.
  assert (0 * 10 + (c - 48) <= 255) as Hn by lia.
  rewrite Z.gtb_ltb, (proj2 (Z.ltb_ge _ _) Hn).
  rewrite Z.gtb_ltb, (proj2 (Z.ltb_ge _ _)) by lia.
  etrans; [apply pton4_digits; [done|lia|done]|done].
Qed.

Lemma pton4_dot rest octets cur prev :
  octets <> 4 ->
  Pton.pton4_loop (chr_dot :: rest) true octets cur prev =
  Pton.pton4_loop rest false octets 0 (cur :: prev).
Proof. intros Ho. cbn [Pton.pton4_loop]. rewrite digit_of_dot. simpl. by rewrite (proj2 (Z.eqb_neq _ _) Ho). Qed.

(** Dotted text. *)
Definition dotted (l : list (list Z)) : list Z :=
  match l with [] => [] | s :: l' => s ++ concat ((fun t => chr_dot :: t) <$> l') end.

Lemma pton4_complete a b c d :
  octet_text a -> octet_text b -> octet_text c -> octet_text d ->
  Pton.inet_pton4 (dotted [a; b; c; d]) = Some [dec_val a; dec_val b; dec_val c; dec_val d].
Proof.
  intros Ha Hb Hc Hd. unfold Pton.inet_pton4, dotted. simpl concat. rewrite app_nil_r.
  rewrite pton4_octet, pton4_dot by (done || lia).
  rewrite pton4_octet, pton4_dot by (done || lia).
  rewrite pton4_octet, pton4_dot by (done || lia).
  rewrite <- (app_nil_r d), pton4_octet by (done || lia). rewrite app_nil_r. done.
Qed.

(** What an accepting run of the loop has read. *)
Lemma pton4_loop_sound src : forall saw octets cur prev cur' prev',
  0 <= cur <= 255 -> octets <= 4 -> (saw = false -> octets < 4 /\ cur = 0) ->
  Pton.pton4_loop src saw octets cur prev = Some (cur', prev') ->
  exists first rest, src = dotted (first :: rest) /\ Forall is_digit first /\
    value_from 10 cur ((fun c => c - 48) <$> first) <= 255 /\ (saw = false -> first <> []) /\
    Forall octet_text rest /\ octets + (if saw then 0 else 1) + Z.of_nat (length rest) = 4 /\
    reverse (cur' :: prev') =
      reverse prev ++ value_from 10 cur ((fun c => c - 48) <$> first) :: (dec_val <$> rest).
Proof.
  induction src as [|ch src IH]; intros saw octets cur prev cur' prev' Hc Ho Hs; cbn [Pton.pton4_loop].
  - destruct (octets <? 4) eqn:E; [done|]. intros [= <- <-]. bool_to_prop.
    destruct saw; [|lia]. exists [], []. split_and!; try done; simpl; try lia.
    by rewrite reverse_cons.
  - destruct (Pton.digit_of ch) as [d|] eqn:Ed.
    + apply digit_of_inv in Ed as [Hd ->]. unfold is_digit in Hd.
      destruct (cur * 10 + (ch - 48) >? 255) eqn:E1; [done|]. bool_to_prop.
      assert (forall oct', oct' = octets + (if saw then 0 else 1) -> oct' <= 4 ->
        Pton.pton4_loop src true oct' (cur * 10 + (ch - 48)) prev = Some (cur', prev') ->
        exists first rest, ch :: src = dotted (first :: rest) /\ Forall is_digit first /\
          value_from 10 cur ((fun c => c - 48) <$> first) <= 255 /\ (saw = false -> first <> []) /\
          Forall octet_text rest /\ octets + (if saw then 0 else 1) + Z.of_nat (length rest) = 4 /\
          reverse (cur' :: prev') =
            reverse prev ++ value_from 10 cur ((fun c => c - 48) <$> first) :: (dec_val <$> rest)) as Hgo.
      { intros oct' -> Ho' Hl. apply IH in Hl as (f & r & -> & Hf & Hv & _ & Hr & Hn & E); [|lia|lia|done].
        exists (ch :: f), r. split_and!; try done. by constructor. lia. }
      destruct saw; [intros Hl; apply (Hgo octets); [lia|lia|done]|].
      destruct (octets + 1 >? 4) eqn:E2; [done|]. bool_to_prop. intros Hl. apply (Hgo (octets + 1)); [lia|lia|done].
    + destruct ((ch =? chr_dot) && saw) eqn:E1; [|done]. bool_to_prop. subst.
      destruct (octets =? 4) eqn:E2; [done|]. bool_to_prop. intros Hl.
      apply IH in Hl as (f & r & -> & Hf & Hv & Hne & Hr & Hn & E); [|lia|lia|intros; lia].
      exists [], (f :: r). split_and!; try done; simpl; try lia.
      * constructor; [|done]. split_and!; [by apply Hne|done|done].
      * rewrite E, reverse_cons, <- app_assoc. done.
Qed.

Lemma pton4_sound s bs :
  Pton.inet_pton4 s = Some bs ->
  exists a b c d, octet_text a /\ octet_text b /\ octet_text c /\ octet_text d /\
    s = dotted [a; b; c; d] /\ bs = [dec_val a; dec_val b; dec_val c; dec_val d].
Proof.
  unfold Pton.inet_pton4. destruct (Pton.pton4_loop s false 0 0 []) as [[cur prev]|] eqn:E; [|done].
  simpl. intros [= <-].
  apply pton4_loop_sound in E as (a & r & -> & Hf & Hv & Hne & Hr & Hn & E); [|lia|lia|intros; lia].
  destruct r as [|b [|c [|d [|]]]]; simpl in Hn; try lia.
  apply Forall_cons in Hr as [Hb Hr]. apply Forall_cons in Hr as [Hc Hr].
  apply Forall_cons in Hr as [Hd _]. exists a, b, c, d. split_and!; try done.
  split_and!; [by apply Hne|done|done].
Qed.

(** C10: The language of [inet_pton4] is exactly the dotted quads: it accepts a
    string if and only if it is four decimal numbers of at least one digit and at
    most 255 with single dots between them, and then stores their values. *)
Theorem pton4_language (s bs : list Z) :
  Pton.inet_pton4 s = Some bs <->
  exists a b c d, octet_text a /\ octet_text b /\ octet_text c /\ octet_text d /\
    s = dotted [a; b; c; d] /\ bs = [dec_val a; dec_val b; dec_val c; dec_val d].
Proof.
  split; [apply pton4_sound|]. intros (a & b & c & d & Ha & Hb & Hc & Hd & -> & ->).
  by apply pton4_complete.
Qed.

(** ** IPv4 round trips *)

Definition byte (b : Z) : Prop := 0 <= b < 256.

Lemma digit_chr_dec d : 0 <= d < 10 -> digit_chr d = 48 + d.
Proof. intros. unfold digit_chr. by rewrite (proj2 (Z.ltb_lt d 10)) by lia. Qed.

Lemma fmt_u_digits n :
  0 <= n < 10 ^ 10 -> Forall is_digit (fmt_u n) /\ fmt_u n <> [] /\ dec_val (fmt_u n) = n.
Proof.
  intros Hn. destruct (digits_spec 10 10 n) as (HF & Hne & Hv); [lia|done|lia|].
  unfold fmt_u, dec_val. split_and!.
  - apply Forall_fmap. eapply Forall_impl; [exact HF|]. intros d Hd. simpl in *.
    rewrite digit_chr_dec by done. unfold is_digit. lia.
  - by destruct (digits 10 10 n).
  - rewrite <- list_fmap_compose. etrans; [|exact Hv]. f_equal. etrans; [|apply list_fmap_id].
    apply list_fmap_ext. intros i d Hd. rewrite Forall_lookup in HF. specialize (HF i d Hd).
    simpl in *. rewrite digit_chr_dec by done. lia.
Qed.

Lemma fmt_u_octet b : byte b -> octet_text (fmt_u b) /\ dec_val (fmt_u b) = b /\ (length (fmt_u b) <= 3)%nat.
Proof.
  unfold byte. intros Hb. destruct (fmt_u_digits b) as (HF & Hne & Hv); [lia|].
  split_and!; [split_and!; [done|done|lia]|done|]. unfold fmt_u. rewrite length_fmap.
  apply (digits_length 10 10 b 2); [lia|simpl; lia].
Qed.

(** The text of four bytes. *)
Definition v4_text (bs : list Z) : list Z := dotted (fmt_u <$> bs).

Lemma ntop4_text a b c d size :
  Ntop.inet_ntop4 [a; b; c; d] size =
    if Z.of_nat (length (v4_text [a; b; c; d])) >? size then None else Some (v4_text [a; b; c; d]).
Proof.
  unfold Ntop.inet_ntop4, v4_text, dotted. simpl. by rewrite app_nil_r.
Qed.

Lemma v4_text_length a b c d :
  byte a -> byte b -> byte c -> byte d -> (length (v4_text [a; b; c; d]) <= 15)%nat.
Proof.
  intros Ha Hb Hc Hd. unfold v4_text, dotted. simpl.
  repeat (rewrite ?length_app; simpl).
  pose proof (proj2 (proj2 (fmt_u_octet a Ha))). pose proof (proj2 (proj2 (fmt_u_octet b Hb))).
  pose proof (proj2 (proj2 (fmt_u_octet c Hc))). pose proof (proj2 (proj2 (fmt_u_octet d Hd))). lia.
Qed.

Lemma pton4_v4_text a b c d :
  byte a -> byte b -> byte c -> byte d -> Pton.inet_pton4 (v4_text [a; b; c; d]) = Some [a; b; c; d].
Proof.
  intros Ha Hb Hc Hd. unfold v4_text.
  change (fmt_u <$> [a; b; c; d]) with [fmt_u a; fmt_u b; fmt_u c; fmt_u d].
  destruct (fmt_u_octet a Ha) as (Oa & Ea & _), (fmt_u_octet b Hb) as (Ob & Eb & _).
  destruct (fmt_u_octet c Hc) as (Oc & Ec & _), (fmt_u_octet d Hd) as (Od & Ed & _).
  rewrite pton4_complete by done. by rewrite Ea, Eb, Ec, Ed.
Qed.

(** *** [inet_aton] on dotted quads *)

Lemma u64_small z : 0 <= z < 2 ^ 64 -> u64 z = z.
Proof. apply uwrap_small. Qed.

Lemma aton_digits ds rest dots acc addr :
  Forall is_digit ds -> 0 <= acc -> value_from 10 acc ((fun c => c - 48) <$> ds) <= 255 ->
  Ipv4Only.aton_loop (ds ++ rest) dots acc addr =
  Ipv4Only.aton_loop rest dots (value_from 10 acc ((fun c => c - 48) <$> ds)) addr.
Proof.
  revert acc. induction ds as [|c ds IH]; intros acc HF Hc Hv; [done|].
  apply Forall_cons in HF as [Hd HF]. cbn [app Ipv4Only.aton_loop]. rewrite digit_of_some by done.
  unfold is_digit in Hd. simpl in Hv.
  assert (acc * 10 + (c - 48) <= 255) as Hn.
  { etrans; [|exact Hv]. apply value_from_ge; [lia|lia|].
    apply Forall_fmap. eapply Forall_impl; [exact HF|]. unfold is_digit. simpl. lia. }
  rewrite u64_small by lia. apply IH; [done|lia|done].
Qed.

Lemma dec_val_nonneg s : Forall is_digit s -> 0 <= dec_val s.
Proof.
  intros HF. apply value_from_ge; [lia|lia|]. apply Forall_fmap. eapply Forall_impl; [exact HF|].
  unfold is_digit. simpl. lia.
Qed.

(** One octet and its separator: the dot, or the end of the string. *)
Lemma aton_octet_dot s rest dots addr :
  octet_text s -> 0 <= addr < 2 ^ 24 -> dots < 3 ->
  Ipv4Only.aton_loop (s ++ chr_dot :: rest) dots 0 addr =
  Ipv4Only.aton_loop rest (dots + 1) 0 (addr * 256 + dec_val s).
Proof.
  intros (_ & HF & Hv) Ha Hd. rewrite aton_digits by (done || lia). fold (dec_val s).
  pose proof (dec_val_nonneg s HF) as H0.
  cbn [Ipv4Only.aton_loop]. rewrite digit_of_dot. simpl.
  rewrite Z.gtb_ltb, (proj2 (Z.ltb_ge 3 _)) by lia.
  rewrite Z.gtb_ltb, (proj2 (Z.ltb_ge 255 _)) by lia.
  rewrite lor_shiftl by lia. change (2 ^ 8) with 256. by rewrite u64_small by lia.
Qed.

Lemma aton_octet_end s dots addr :
  octet_text s -> 0 <= addr < 2 ^ 24 ->
  Ipv4Only.aton_loop s dots 0 addr = Some (dots, addr * 256 + dec_val s).
Proof.
  intros (_ & HF & Hv) Ha. rewrite <- (app_nil_r s) at 1. rewrite aton_digits by (done || lia).
  fold (dec_val s).
  pose proof (dec_val_nonneg s HF) as H0.
  cbn [Ipv4Only.aton_loop].
  rewrite Z.gtb_ltb, (proj2 (Z.ltb_ge 255 _)) by lia.
  rewrite lor_shiftl by lia. change (2 ^ 8) with 256. by rewrite u64_small by lia.
Qed.

Lemma in_addr_bytes_quad a b c d :
  byte a -> byte b -> byte c -> byte d ->
  Ipv4Only.in_addr_bytes (((a * 256 + b) * 256 + c) * 256 + d) = [a; b; c; d].
Proof.
  unfold byte, Ipv4Only.in_addr_bytes. intros. change 255 with (Z.ones 8).
  rewrite !Z.land_ones, !Z.shiftr_div_pow2 by lia. change (2 ^ 24) with 16777216.
  change (2 ^ 16) with 65536. change (2 ^ 8) with 256.
  repeat f_equal; Z.div_mod_to_equations; lia.
Qed.

Lemma octet_byte s : octet_text s -> byte (dec_val s).
Proof.
  intros (_ & HF & Hv). pose proof (dec_val_nonneg s HF). unfold byte. lia.
Qed.

(** [inet_aton] agrees with [inet_pton4] wherever the latter accepts: on every
    dotted quad the IPv4-only [inet_pton] stores the same four bytes. *)
Theorem aton_extends_pton4 (s bs : list Z) :
  Pton.inet_pton4 s = Some bs -> Ipv4Only.inet_pton AF_INET s = Ok (Some bs).
Proof.
  intros (a & b & c & d & Ha & Hb & Hc & Hd & -> & ->)%pton4_sound.
  pose proof (octet_byte a Ha) as Ba. pose proof (octet_byte b Hb) as Bb.
  pose proof (octet_byte c Hc) as Bc. pose proof (octet_byte d Hd) as Bd. unfold byte in *.
  unfold Ipv4Only.inet_pton, Ipv4Only.inet_aton, dotted. simpl concat. rewrite app_nil_r.
  rewrite aton_octet_dot, aton_octet_dot, aton_octet_dot by (done || lia).
  rewrite aton_octet_end by (done || lia). simpl.
  rewrite uwrap_small by lia. do 2 f_equal.
  rewrite <- (in_addr_bytes_quad (dec_val a)) by done. done.
Qed.

Lemma aton_extends_pton4_witness : Ipv4Only.inet_pton AF_INET (v4_text [127; 0; 0; 1]) = Ok (Some [127; 0; 0; 1]).
Proof. apply (aton_extends_pton4 (v4_text [127; 0; 0; 1]) [127; 0; 0; 1]). vm_compute. reflexivity. Defined.

Lemma v4_text_eq a b c d :
  fmt_u a ++ chr_dot :: fmt_u b ++ chr_dot :: fmt_u c ++ chr_dot :: fmt_u d = v4_text [a; b; c; d].
Proof. unfold v4_text, dotted. simpl. by rewrite app_nil_r. Qed.

(** IPv4 round trip: for all four bytes and every buffer of at least 16
    characters, both versions of [inet_ntop] produce the same text, and
    [inet_pton] reads it back as the same bytes. *)
Theorem inet4_roundtrip (a b c d size len0 : Z) :
  byte a -> byte b -> byte c -> byte d -> 16 <= size ->
  exists t, Ntop.inet_ntop len0 AF_INET [a; b; c; d] size = Ok t /\
    Ipv4Only.inet_ntop AF_INET [a; b; c; d] size = Ok t /\
    Pton.inet_pton AF_INET t = Ok (Some [a; b; c; d]).
Proof.
  intros Ha Hb Hc Hd Hs. pose proof (v4_text_length a b c d Ha Hb Hc Hd) as Hl.
  exists (v4_text [a; b; c; d]). split_and!.
  - unfold Ntop.inet_ntop. rewrite ntop4_text. simpl.
    by rewrite Z.gtb_ltb, (proj2 (Z.ltb_ge _ _)) by lia.
  - unfold Ipv4Only.inet_ntop. simpl. rewrite v4_text_eq.
    by rewrite Z.geb_leb, (proj2 (Z.leb_gt _ _)) by lia.
  - unfold Pton.inet_pton. simpl. by rewrite pton4_v4_text.
Qed.

Lemma inet4_roundtrip_witness :
  exists t, Ntop.inet_ntop 0 AF_INET [10; 0; 255; 1] 16 = Ok t /\
    Pton.inet_pton AF_INET t = Ok (Some [10; 0; 255; 1]).
Proof.
  destruct (inet4_roundtrip 10 0 255 1 16 0) as (t & H1 & _ & H3); unfold byte; try lia. eauto.
Defined.

(** ** Words *)

Definition word (w : Z) : Prop := 0 <= w < 65536.

Definition word_bytes (w : Z) : list Z := [Z.land (Z.shiftr w 8) 0xff; Z.land w 0xff].

Lemma word_bytes_join h l : byte h -> byte l -> word_bytes (h * 256 + l) = [h; l] /\ word (h * 256 + l).
Proof.
  unfold byte, word, word_bytes. intros Hh Hl. split; [|lia]. change 0xff with (Z.ones 8).
  change (h * 256) with (h * 2 ^ 8). rewrite (shiftr_word h l 8) by lia. rewrite land_ones_small by lia.
  rewrite Z.land_ones by lia. do 2 f_equal. change (2 ^ 8) with 256.
  rewrite Z.add_comm, Z_mod_plus_full. apply Z.mod_small. lia.
Qed.

Fixpoint bytes_of (ws : list Z) : list Z :=
  match ws with [] => [] | w :: ws' => word_bytes w ++ bytes_of ws' end.

Lemma bytes_of_length ws : length (bytes_of ws) = (2 * length ws)%nat.
Proof. induction ws as [|w ws IH]; [done|]. cbn [bytes_of]. rewrite length_app, IH. simpl. lia. Qed.

Lemma bytes_of_app ws1 ws2 : bytes_of (ws1 ++ ws2) = bytes_of ws1 ++ bytes_of ws2.
Proof. induction ws1 as [|w ws1 IH]; [done|]. cbn [bytes_of app]. by rewrite IH, <- app_assoc. Qed.

(** The words of 16 bytes and back. *)
Lemma to_words_bytes bs :
  length bs = 16%nat -> Forall byte bs ->
  length (Ntop.to_words bs) = 8%nat /\ Forall word (Ntop.to_words bs) /\
  bytes_of (Ntop.to_words bs) = bs.
Proof.
  intros Hl HF. do 16 (destruct bs as [|?b bs]; [done|]). destruct bs; [|done].
  assert (forall h l, byte h -> byte l ->
    Z.lor (Z.lor 0 (Z.shiftl h 8)) (Z.shiftl l 0) = h * 256 + l) as Ew.
  { unfold byte. intros h l Hh Hlo. rewrite Z.lor_0_l, Z.shiftl_0_r.
    by rewrite lor_shiftl by lia. }
  repeat match goal with H : Forall _ (_ :: _) |- _ => apply Forall_cons in H; destruct H end.
  unfold Ntop.to_words. cbn -[Z.lor Z.shiftl word_bytes]. rewrite !Ew by done.
  repeat match goal with |- context [word_bytes (?h * 256 + ?l)] =>
    rewrite (proj1 (word_bytes_join h l ltac:(assumption) ltac:(assumption))) end.
  split_and!; [done| |done]. repeat constructor; by apply word_bytes_join.
Qed.

(** ** Hexadecimal text *)

Lemma xdigit_of_chr d : 0 <= d < 16 -> Pton.xdigit_of (digit_chr d) = Some d.
Proof.
  intros Hd. unfold Pton.xdigit_of, digit_chr.
  destruct (d <? 10) eqn:E; bool_to_prop.
  - rewrite (proj2 (Z.leb_le _ _)), (proj2 (Z.leb_le _ 57)) by lia. simpl. f_equal. lia.
  - rewrite (proj2 (Z.leb_gt (87 + d) 57)) by lia. rewrite andb_false_r.
    rewrite (proj2 (Z.leb_le 97 _)), (proj2 (Z.leb_le _ 102)) by lia. simpl. f_equal. lia.
Qed.

Lemma pton6_hex ds : forall rest curtok saw val s,
  Forall (fun d => 0 <= d < 16) ds -> 0 <= val -> value_from 16 val ds <= 0xffff ->
  Pton.pton6_loop ((digit_chr <$> ds) ++ rest) curtok saw val s =
  Pton.pton6_loop rest curtok (if ds is [] then saw else true) (value_from 16 val ds) s.
Proof.
  induction ds as [|d ds IH]; intros rest curtok saw val s HF Hv Hle; [done|].
  apply Forall_cons in HF as [Hd HF]. cbn [fmap list_fmap app Pton.pton6_loop].
  rewrite xdigit_of_chr by done. rewrite lor_shiftl by lia. change (2 ^ 4) with 16.
  simpl in Hle. assert (val * 16 + d <= 0xffff) as Hn.
  { etrans; [|exact Hle]. apply value_from_ge; [lia|lia|]. eapply Forall_impl; [exact HF|]. simpl. lia. }
  rewrite Z.gtb_ltb, (proj2 (Z.ltb_ge _ _) Hn). rewrite IH by (done || lia). by destruct ds.
Qed.

(** A formatted word is read as a pending word. *)
Lemma pton6_word w rest curtok s :
  word w ->
  Pton.pton6_loop (fmt_x w ++ rest) curtok false 0 s = Pton.pton6_loop rest curtok true w s.
Proof.
  unfold word. intros Hw. destruct (digits_spec 10 16 w) as (HF & Hne & Hv); [lia|lia|lia|].
  unfold fmt_x. rewrite pton6_hex by (done || lia). rewrite Hv. by destruct (digits 10 16 w).
Qed.

Lemma fmt_x_length w : word w -> (length (fmt_x w) <= 4)%nat.
Proof. unfold word. intros. unfold fmt_x. rewrite length_fmap. apply (digits_length 10 16 w 3); lia. Qed.

(** ** The buffer of [inet_pton6] *)

(** [W] has been written, the rest is zero. *)
Definition written (W : list Z) (c : option nat) : Pton.st6 :=
  Pton.St6 (W ++ replicate (16 - length W) 0) (length W) c.

Lemma put_word_written W c w :
  (length W + 2 <= 16)%nat -> Pton.put_word (written W c) w = Some (written (W ++ word_bytes w) c).
Proof.
  intros Hl. unfold Pton.put_word, written. cbn [Pton.tp Pton.tmp Pton.colonp].
  rewrite (proj2 (Nat.ltb_ge _ _)) by lia. rewrite length_app. simpl length.
  replace (16 - length W)%nat with (S (S (16 - (length W + 2)))) by lia. simpl replicate.
  rewrite insert_app_r_alt by lia. rewrite Nat.sub_diag. cbn [insert list_insert].
  rewrite insert_app_r_alt by lia. replace (S (length W) - length W)%nat with 1%nat by lia.
  cbn [insert list_insert]. by rewrite <- app_assoc.
Qed.

Lemma put_v4_written W c t bs :
  (length W + 4 <= 16)%nat -> length bs = 4%nat -> Pton.inet_pton4 t = Some bs ->
  Pton.put_v4 (written W c) t = Some (written (W ++ bs) c).
Proof.
  intros Hl Hb Ht. unfold Pton.put_v4, written. cbn [Pton.tp Pton.tmp Pton.colonp].
  rewrite (proj2 (Nat.leb_le _ _)) by lia. rewrite Ht. simpl. rewrite length_app, Hb.
  rewrite take_app_length, drop_app_ge by lia. rewrite drop_replicate, <- app_assoc.
  do 4 f_equal. f_equal. lia.
Qed.

(** ** The shift at the end *)

Lemma shift_loop_spec pre g s1 s2 :
  (0 < g)%nat -> (length pre + length s1 + g + length s2 = 16)%nat ->
  Pton.shift_loop (length s1) (S (length s2)) (length s1 + length s2) (length pre)
    (pre ++ s1 ++ replicate g 0 ++ s2) = pre ++ replicate g 0 ++ s1 ++ s2.
Proof.
  intros Hg. revert s2. induction s1 as [|x s1 IH] using rev_ind; intros s2 Hl; [done|].
  rewrite !length_app in *. simpl length in *.
  replace (length s1 + 1)%nat with (S (length s1)) by lia. cbn [Pton.shift_loop].
  replace (length pre + (S (length s1) + length s2) - S (length s2))%nat
    with (length pre + length s1)%nat by lia.
  assert ((pre ++ (s1 ++ [x]) ++ replicate g 0 ++ s2) !!! (length pre + length s1)%nat = x) as ->.
  { apply list_lookup_total_correct. rewrite lookup_app_r by lia.
    rewrite <- app_assoc, lookup_app_r by lia.
    by replace (length pre + length s1 - length pre - length s1)%nat with 0%nat by lia. }
  assert (forall y z : Z, <[(length pre + length s1)%nat := z]>
      (<[(16 - S (length s2))%nat := y]> (pre ++ (s1 ++ [x]) ++ replicate g 0 ++ s2)) =
      pre ++ s1 ++ z :: replicate (g - 1) 0 ++ y :: s2) as Hw.
  { intros y z. destruct g as [|g]; [lia|]. rewrite replicate_S_end, <- !app_assoc.
    rewrite (insert_app_r_alt pre) by lia. rewrite (insert_app_r_alt s1) by lia.
    rewrite (insert_app_r_alt [x]) by (simpl; lia). rewrite (insert_app_r_alt (replicate g 0)) by (rewrite length_replicate; simpl; lia).
    rewrite length_replicate. simpl length.
    replace (16 - S (length s2) - length pre - length s1 - 1 - g)%nat with 0%nat by lia.
    rewrite (insert_app_r_alt pre) by lia. rewrite (insert_app_r_alt s1) by lia.
    replace (length pre + length s1 - length pre - length s1)%nat with 0%nat by lia. simpl.
    by rewrite Nat.sub_0_r. }
  rewrite Hw.
  replace (0 :: replicate (g - 1) 0 ++ x :: s2) with (replicate g 0 ++ x :: s2)
    by (destruct g; [lia|simpl; by rewrite Nat.sub_0_r]).
  replace (S (length s1) + length s2)%nat with (length s1 + length (x :: s2))%nat by (simpl; lia).
  etrans; [apply (IH (x :: s2)); simpl; lia|]. by rewrite <- !app_assoc.
Qed.

(** ** Reading groups of words *)

(** Words each followed by a colon, each behind a colon, with colons between. *)
Fixpoint t_words (ws : list Z) : list Z :=
  match ws with [] => [] | w :: ws' => fmt_x w ++ chr_colon :: t_words ws' end.
Fixpoint colon_words (ws : list Z) : list Z :=
  match ws with [] => [] | w :: ws' => chr_colon :: fmt_x w ++ colon_words ws' end.
Definition hexjoin (ws : list Z) : list Z :=
  match ws with [] => [] | w :: ws' => fmt_x w ++ colon_words ws' end.

Lemma colon_words_snoc ws w : colon_words (ws ++ [w]) = chr_colon :: t_words ws ++ fmt_x w.
Proof.
  induction ws as [|u ws IH]; simpl; [by rewrite app_nil_r|]. by rewrite IH, <- app_assoc.
Qed.

Lemma hexjoin_snoc ws w : hexjoin (ws ++ [w]) = t_words ws ++ fmt_x w.
Proof.
  destruct ws as [|v ws]; simpl; [by rewrite app_nil_r|]. by rewrite colon_words_snoc, <- app_assoc.
Qed.

Lemma hexjoin_colon w ws rest : hexjoin (w :: ws) ++ chr_colon :: rest = t_words (w :: ws) ++ rest.
Proof.
  simpl. rewrite <- !app_assoc. f_equal. revert rest. induction ws as [|u ws IH]; intros rest; [done|].
  simpl. rewrite <- !app_assoc. by rewrite IH.
Qed.

(** Words followed by colons are written. *)
Lemma pton6_t_words ws : forall W c rest curtok,
  (length W + 2 * length ws <= 16)%nat -> Forall word ws ->
  Pton.pton6_loop (t_words ws ++ rest) curtok false 0 (written W c) =
  Pton.pton6_loop rest (if ws is [] then curtok else rest) false 0 (written (W ++ bytes_of ws) c).
Proof.
  induction ws as [|w ws IH]; intros W c rest curtok Hl HF.
  { simpl. by rewrite app_nil_r. }
  apply Forall_cons in HF as [Hw HF]. simpl in Hl. cbn [t_words].
  rewrite <- !app_assoc, pton6_word by done. cbn [app Pton.pton6_loop]. simpl.
  rewrite put_word_written by lia. cbn [mbind option_bind].
  rewrite IH by (done || rewrite length_app; simpl; lia).
  rewrite <- app_assoc. by destruct ws.
Qed.

(** The end of the text: nothing, or a last word. *)
Lemma pton6_tail ws W c curtok :
  (length W + 2 * length ws <= 16)%nat -> Forall word ws ->
  ('(s, saw, val) ← Pton.pton6_loop (hexjoin ws) curtok false 0 (written W c);
   Pton.pton6_finish s saw val) = Pton.pton6_finish (written (W ++ bytes_of ws) c) false 0.
Proof.
  destruct ws as [|w ws _] using rev_ind; intros Hl HF.
  { simpl. by rewrite app_nil_r. }
  apply Forall_app in HF as [HF Hw]. apply Forall_cons in Hw as [Hw _].
  rewrite length_app in Hl. simpl in Hl. rewrite hexjoin_snoc, pton6_t_words by (done || lia).
  rewrite <- (app_nil_r (fmt_x w)), pton6_word by done. simpl.
  unfold Pton.pton6_finish. rewrite put_word_written by (rewrite length_app, bytes_of_length; lia).
  cbn [mbind option_bind].
  rewrite bytes_of_app, app_assoc. cbn [bytes_of]. by rewrite app_nil_r.
Qed.

(** The gap is filled with zeros. *)
Lemma pton6_finish_gap pre suf :
  (length pre + length suf < 16)%nat ->
  Pton.pton6_finish (written (pre ++ suf) (Some (length pre))) false 0 =
    Some (pre ++ replicate (16 - length pre - length suf) 0 ++ suf).
Proof.
  intros Hl. unfold Pton.pton6_finish, written. simpl. rewrite length_app.
  replace (length pre + length suf - length pre)%nat with (length suf) by lia.
  pose proof (shift_loop_spec pre (16 - length pre - length suf) suf []) as H.
  simpl in H. rewrite !app_nil_r, !Nat.add_0_r in H. rewrite <- app_assoc.
  replace (16 - (length pre + length suf))%nat with (16 - length pre - length suf)%nat by lia.
  rewrite H by lia. done.
Qed.

(** The second of two colons marks the gap. *)
Lemma pton6_gap W rest curtok :
  Pton.pton6_loop (chr_colon :: rest) curtok false 0 (written W None) =
  Pton.pton6_loop rest rest false 0 (written W (Some (length W))).
Proof. done. Qed.

(** A text with a gap, from its first colon or word on. *)
Lemma fmt_x_head w rest : word w -> exists c r, fmt_x w ++ rest = c :: r /\ c <> chr_colon.
Proof.
  unfold word. intros Hw. destruct (digits_spec 10 16 w) as (HF & Hne & _); [lia|lia|lia|].
  unfold fmt_x. destruct (digits 10 16 w) as [|d ds]; [done|]. apply Forall_cons in HF as [Hd _].
  eexists _, _. split; [done|]. unfold digit_chr, chr_colon. destruct (d <? 10) eqn:E; bool_to_prop; lia.
Qed.

Lemma pton6_start_word w rest :
  word w -> Pton.pton6_start (fmt_x w ++ rest) = Some (fmt_x w ++ rest).
Proof.
  intros Hw. destruct (fmt_x_head w rest Hw) as (c & r & -> & Hc). simpl.
  by rewrite (proj2 (Z.eqb_neq _ _) Hc).
Qed.

Lemma pton6_start_gap pre rest :
  Forall word pre ->
  Pton.pton6_start (hexjoin pre ++ chr_colon :: chr_colon :: rest) =
    Some (t_words pre ++ chr_colon :: rest).
Proof.
  destruct pre as [|w pre]; [done|]. intros HF. apply Forall_cons in HF as [Hw _].
  rewrite hexjoin_colon. cbn [t_words]. rewrite <- app_assoc. by apply pton6_start_word.
Qed.

(** Reading back a text without a gap, and one with a gap. *)
Lemma pton6_full ws :
  length ws = 8%nat -> Forall word ws -> Pton.inet_pton6 (hexjoin ws) = Some (bytes_of ws).
Proof.
  intros Hl HF. unfold Pton.inet_pton6.
  assert (Pton.pton6_start (hexjoin ws) = Some (hexjoin ws)) as ->.
  { destruct ws as [|w ws]; [done|]. apply Forall_cons in HF as [Hw _]. by apply pton6_start_word. }
  cbn [mbind option_bind]. change (Pton.St6 (replicate 16 0) 0 None) with (written [] None).
  rewrite pton6_tail by (done || simpl; lia). unfold Pton.pton6_finish, written. simpl.
  rewrite bytes_of_length, Hl. simpl. by rewrite app_nil_r.
Qed.

Lemma pton6_with_gap pre suf :
  (length pre + length suf < 8)%nat -> Forall word pre -> Forall word suf ->
  Pton.inet_pton6 (hexjoin pre ++ chr_colon :: chr_colon :: hexjoin suf) =
    Some (bytes_of pre ++ replicate (16 - 2 * length pre - 2 * length suf) 0 ++ bytes_of suf).
Proof.
  intros Hl Hp Hs. unfold Pton.inet_pton6. rewrite pton6_start_gap by done. cbn [mbind option_bind].
  change (Pton.St6 (replicate 16 0) 0 None) with (written [] None).
  rewrite pton6_t_words by (done || simpl; lia). rewrite pton6_gap, app_nil_l, bytes_of_length.
  rewrite pton6_tail by (done || rewrite bytes_of_length; lia).
  rewrite <- (bytes_of_length pre), pton6_finish_gap by (rewrite !bytes_of_length; lia).
  by rewrite !bytes_of_length.
Qed.

(** The same with an IPv4 address at the end. *)
Lemma pton6_dotted a b c d rest curtok W col :
  byte a -> byte b -> byte c -> byte d -> (length W + 4 <= 16)%nat ->
  curtok = v4_text [a; b; c; d] -> rest = v4_text [a; b; c; d] ->
  exists v, Pton.pton6_loop rest curtok false 0 (written W col) =
    Some (written (W ++ [a; b; c; d]) col, false, v).
Proof.
  intros Ha Hb Hc Hd Hl Ect ->.
  assert (exists r, v4_text [a; b; c; d] = fmt_u a ++ chr_dot :: r) as [r Er]
    by (eexists; symmetry; apply v4_text_eq).
  destruct (digits_spec 10 10 a) as (HF & Hne & Hv); [lia|unfold byte in *; lia|lia|].
  assert (value_from 16 0 (digits 10 10 a) <= 0xffff) as Hx.
  { unfold byte in *. assert (length (digits 10 10 a) <= 3)%nat as Hlen
      by (apply (digits_length 10 10 a 2); simpl; lia).
    destruct (digits 10 10 a) as [|x [|y [|z [|]]]]; simpl in *; try lia;
      repeat match goal with H : Forall _ (_ :: _) |- _ => apply Forall_cons in H; destruct H end; lia. }
  rewrite Er. unfold fmt_u. rewrite pton6_hex; [|eapply Forall_impl; [exact HF|simpl; lia]|lia|done].
  cbn [Pton.pton6_loop]. simpl. rewrite (put_v4_written _ _ _ [a; b; c; d]); [simpl; eauto|done|done|].
  subst curtok. by apply pton4_v4_text.
Qed.

(** ** The abbreviated run *)

(** [r] is no run, or a run of zero words before word [i]. *)
Definition zero_run (words : list Z) (i : Z) (r : Ntop.run) : Prop :=
  Ntop.base r = -1 \/
  (0 <= Ntop.base r /\ 1 <= Ntop.len r /\ Ntop.base r + Ntop.len r <= i /\
   forall j, Ntop.base r <= j < Ntop.base r + Ntop.len r -> words !! Z.to_nat j = Some 0).

Lemma zero_run_mono words i i' r : i <= i' -> zero_run words i r -> zero_run words i' r.
Proof. intros Hi [H|(H1 & H2 & H3 & H4)]; [by left|right]. split_and!; try done; lia. Qed.

Lemma better_zero_run words i best cur :
  zero_run words i best -> zero_run words i cur -> zero_run words i (Ntop.better best cur).
Proof. intros Hb Hc. unfold Ntop.better. by destruct (_ || _). Qed.

Lemma best_loop_zero_run words ws : forall pre best cur,
  words = pre ++ ws -> let i := Z.of_nat (length pre) in
  zero_run words i best -> zero_run words i cur ->
  (Ntop.base cur <> -1 -> Ntop.base cur + Ntop.len cur = i) ->
  let '(b, c) := Ntop.best_loop i ws best cur in
  zero_run words (Z.of_nat (length words)) b /\ zero_run words (Z.of_nat (length words)) c.
Proof.
  induction ws as [|w ws IH]; intros pre best cur E i Hb Hc Hend.
  { rewrite app_nil_r in E. by subst words. }
  assert (words = (pre ++ [w]) ++ ws) as E' by (by rewrite <- app_assoc).
  assert (Z.of_nat (length (pre ++ [w])) = i + 1) as Ei by (rewrite length_app; simpl; lia).
  assert (words !! Z.to_nat i = Some w) as Hw by (subst words i; by rewrite Nat2Z.id, list_lookup_middle).
  cbn [Ntop.best_loop]. rewrite <- Ei. destruct (w =? 0) eqn:Ew; bool_to_prop.
  - subst w. apply IH; rewrite ?Ei; try done; [by eapply zero_run_mono; [|exact Hb]; lia|..].
    + right. destruct (Ntop.base cur =? -1) eqn:Ec; bool_to_prop; simpl.
      * split_and!; try lia. intros j Hj. by replace j with i by lia.
      * destruct Hc as [|(H1 & H2 & H3 & H4)]; [done|]. specialize (Hend Ec). split_and!; try lia.
        intros j Hj. destruct (decide (j = i)) as [->|]; [done|]. apply H4. lia.
    + destruct (Ntop.base cur =? -1) eqn:Ec; bool_to_prop; simpl; [lia|]. specialize (Hend Ec). lia.
  - destruct (negb (Ntop.base cur =? -1)) eqn:Ec; bool_to_prop.
    + apply IH; rewrite ?Ei; try done; [|by left].
      eapply zero_run_mono; [|by apply better_zero_run]. lia.
    + apply IH; rewrite ?Ei; try done; [by eapply zero_run_mono; [|exact Hb]; lia|
        by eapply zero_run_mono; [|exact Hc]; lia].
Qed.

(** Splitting the words around a run. *)
Lemma zeros_at words b l :
  (forall j, Z.of_nat b <= j < Z.of_nat b + Z.of_nat l -> words !! Z.to_nat j = Some 0) ->
  words = take b words ++ replicate l 0 ++ drop (b + l) words.
Proof.
  intros H. rewrite <- (take_drop b words) at 1. f_equal.
  rewrite <- (take_drop l (drop b words)), drop_drop. f_equal.
  apply list_eq. intros i. destruct (decide (i < l)%nat) as [Hi|Hi].
  - rewrite lookup_take_lt, lookup_drop, lookup_replicate_2 by done.
    rewrite <- (H (Z.of_nat (b + i))) by lia. by rewrite Nat2Z.id.
  - rewrite lookup_take_ge by lia. symmetry. apply lookup_replicate_None. lia.
Qed.

Lemma best_run_split len0 words :
  length words = 8%nat ->
  let r := Ntop.best_run len0 words in
  Ntop.base r = -1 \/
  exists b l, Ntop.base r = Z.of_nat b /\ Ntop.len r = Z.of_nat l /\ (2 <= l)%nat /\ (b + l <= 8)%nat /\
    words = take b words ++ replicate l 0 ++ drop (b + l) words.
Proof.
  intros Hl. unfold Ntop.best_run.
  pose proof (best_loop_zero_run words words [] (Ntop.Run (-1) len0) (Ntop.Run (-1) len0) eq_refl) as H.
  simpl in H. destruct (Ntop.best_loop _ _ _ _) as [best cur].
  destruct H as [Hb Hc]; [by left|by left|done|]. rewrite Hl in *.
  set (r1 := if negb (Ntop.base cur =? -1) then Ntop.better best cur else best).
  assert (zero_run words 8 r1) as Hr.
  { unfold r1. destruct (negb _); [by apply better_zero_run|done]. }
  clearbody r1. cbn zeta. destruct (negb (Ntop.base r1 =? -1) && (Ntop.len r1 <? 2)) eqn:E; [by left|].
  destruct Hr as [|(H1 & H2 & H3 & H4)]; [by left|]. right.
  exists (Z.to_nat (Ntop.base r1)), (Z.to_nat (Ntop.len r1)).
  split_and!; try lia. apply zeros_at. intros j Hj. apply H4. lia.
Qed.

(** ** What [inet_ntop6] prints *)

Definition in_run (r : Ntop.run) (i : Z) : bool :=
  negb (Ntop.base r =? -1) && (i >=? Ntop.base r) && (i <? Ntop.base r + Ntop.len r).

(** The test for an encapsulated IPv4 address. *)
Definition v4_run (r : Ntop.run) (words : list Z) : bool :=
  (Ntop.base r =? 0) &&
  ((Ntop.len r =? 6) || ((Ntop.len r =? 5) && ((words !!! 5%nat) =? 0xffff))).

Fixpoint sep_words (i : Z) (ws : list Z) : list Z :=
  match ws with
  | [] => []
  | w :: ws' => (if i =? 0 then [] else [chr_colon]) ++ fmt_x w ++ sep_words (i + 1) ws'
  end.

Lemma sep_words_colon ws : forall i, 0 < i -> sep_words i ws = colon_words ws.
Proof.
  induction ws as [|w ws IH]; intros i Hi; [done|]. simpl.
  rewrite (proj2 (Z.eqb_neq i 0)) by lia. simpl. by rewrite IH by lia.
Qed.

Lemma sep_words_0 ws : sep_words 0 ws = hexjoin ws.
Proof. destruct ws; [done|]. simpl. by rewrite sep_words_colon by lia. Qed.

(** Words outside the run are printed. *)
Lemma format_out ws rest words src r : forall i tmp,
  (forall j, i <= j < i + Z.of_nat (length ws) ->
     in_run r j = false /\ (j = 6 -> v4_run r words = false)) ->
  Ntop.format_loop i (ws ++ rest) words src tmp r =
  Ntop.format_loop (i + Z.of_nat (length ws)) rest words src (tmp ++ sep_words i ws) r.
Proof.
  induction ws as [|w ws IH]; intros i tmp H.
  { simpl. by rewrite app_nil_r, Z.add_0_r. }
  destruct (H i) as [Hr Hv]; [simpl; lia|]. cbn [app Ntop.format_loop].
  unfold in_run in Hr. rewrite Hr.
  assert ((i =? 6) && (Ntop.base r =? 0) &&
    ((Ntop.len r =? 6) || ((Ntop.len r =? 5) && ((words !!! 5%nat) =? 0xffff))) = false) as ->.
  { rewrite <- andb_assoc. fold (v4_run r words). destruct (i =? 6) eqn:E; [|done].
    bool_to_prop. by apply Hv. }
  rewrite IH by (intros j Hj; apply H; simpl; lia).
  simpl length. replace (i + 1 + Z.of_nat (length ws)) with (i + Z.of_nat (S (length ws))) by lia.
  f_equal. simpl. destruct (i =? 0); simpl; by rewrite <- !app_assoc.
Qed.

(** Words inside it are not, but for the colon at its beginning. *)
Lemma format_in ws rest words src r : forall i tmp,
  (forall j, i <= j < i + Z.of_nat (length ws) -> in_run r j = true /\ j <> Ntop.base r) ->
  Ntop.format_loop i (ws ++ rest) words src tmp r =
  Ntop.format_loop (i + Z.of_nat (length ws)) rest words src tmp r.
Proof.
  induction ws as [|w ws IH]; intros i tmp H.
  { simpl. by rewrite Z.add_0_r. }
  destruct (H i) as [Hr Hv]; [simpl; lia|]. cbn [app Ntop.format_loop].
  unfold in_run in Hr. rewrite Hr, (proj2 (Z.eqb_neq _ _) Hv).
  rewrite IH by (intros j Hj; apply H; simpl; lia). f_equal. simpl. lia.
Qed.

(** The whole run: one colon. *)
Lemma format_run l rest words src r tmp :
  0 <= Ntop.base r -> Ntop.len r = Z.of_nat (S l) ->
  Ntop.format_loop (Ntop.base r) (replicate (S l) 0 ++ rest) words src tmp r =
  Ntop.format_loop (Ntop.base r + Ntop.len r) rest words src (tmp ++ [chr_colon]) r.
Proof.
  intros Hb Hl.
  assert (forall j, Ntop.base r <= j < Ntop.base r + Ntop.len r -> in_run r j = true) as Hin.
  { intros j Hj. unfold in_run. rewrite (proj2 (Z.eqb_neq _ _)) by lia.
    rewrite Z.geb_leb, (proj2 (Z.leb_le _ _)), (proj2 (Z.ltb_lt _ _)) by lia. done. }
  cbn [replicate app Ntop.format_loop].
  pose proof (Hin (Ntop.base r) ltac:(lia)) as Hr. unfold in_run in Hr. rewrite Hr, Z.eqb_refl.
  rewrite format_in by (rewrite length_replicate; intros j Hj; split; [apply Hin; lia|lia]).
  rewrite length_replicate. f_equal. lia.
Qed.

(** The address inside the text of an IPv4-compatible or IPv4-mapped address. *)
Lemma format_v4 w1 w2 words src r tmp a b c d :
  v4_run r words = true -> drop 12 src = [a; b; c; d] ->
  byte a -> byte b -> byte c -> byte d -> (length tmp <= 20)%nat ->
  Ntop.format_loop 6 [w1; w2] words src tmp r =
    Some (tmp ++ chr_colon :: v4_text [a; b; c; d]).
Proof.
  intros Hv Hd Ha Hb Hc Hdd Hl. pose proof (v4_text_length a b c d Ha Hb Hc Hdd) as Hl4.
  cbn [Ntop.format_loop].
  assert (in_run r 6 = false) as Hr.
  { unfold v4_run in Hv. unfold in_run. apply andb_true_iff in Hv as [H0 Hv]. bool_to_prop.
    apply andb_false_iff. right. apply Z.ltb_ge. apply orb_true_iff in Hv as [Hv|Hv]; bool_to_prop; lia. }
  unfold in_run in Hr. rewrite Hr. rewrite <- andb_assoc. fold (v4_run r words). rewrite Hv. simpl.
  rewrite Hd, ntop4_text. rewrite Z.gtb_ltb, (proj2 (Z.ltb_ge _ _)).
  - simpl. by rewrite <- app_assoc.
  - rewrite length_app. unfold Ntop.sizeof_tmp. simpl. lia.
Qed.

(** The end of the text of an address with an IPv4 address inside. *)
Lemma format_v4_run l words src r suf a b c d :
  v4_run r words = true -> Ntop.len r = Z.of_nat l -> length words = 8%nat ->
  words = replicate l 0 ++ suf -> drop 12 src = [a; b; c; d] ->
  byte a -> byte b -> byte c -> byte d ->
  exists hs v, (hs = [] \/ hs = [0xffff]) /\ suf = hs ++ v /\ length v = 2%nat /\
    Ntop.format_loop (Ntop.base r + Ntop.len r) suf words src [chr_colon] r =
      Some (chr_colon :: chr_colon :: t_words hs ++ v4_text [a; b; c; d]).
Proof.
  intros Hv Hl Hw Ew Hd Ha Hb Hc Hdd.
  pose proof Hv as Hv'. unfold v4_run in Hv'. apply andb_true_iff in Hv' as [H0 Hl56].
  apply Z.eqb_eq in H0. assert (length words = l + length suf)%nat as Hlen
    by (by rewrite Ew, length_app, length_replicate).
  apply orb_true_iff in Hl56 as [H6|H5].
  - bool_to_prop. destruct suf as [|w1 [|w2 [|]]]; simpl in Hlen; try lia.
    exists [], [w1; w2]. split_and!; try done; [by left|]. rewrite H0, H6.
    by rewrite (format_v4 _ _ _ _ _ _ a b c d) by (done || simpl; lia).
  - bool_to_prop. destruct suf as [|w0 [|w1 [|w2 [|]]]]; simpl in Hlen; try lia.
    assert (l = 5%nat) as -> by lia.
    assert (w0 = 0xffff) as ->.
    { match goal with H : words !!! _ = _ |- _ => revert H end. by rewrite Ew. }
    exists [0xffff], [w1; w2]. split_and!; try done; [by right|]. rewrite H0, Hl.
    change [65535; w1; w2] with ([65535] ++ [w1; w2]). rewrite format_out.
    + by rewrite (format_v4 _ _ _ _ _ _ a b c d) by (done || simpl; lia).
    + intros j Hj. simpl in Hj. assert (j = 5) as -> by lia. split; [|lia].
      unfold in_run. rewrite H0, Hl. done.
Qed.

(** The three shapes of the text: all words, words around a gap, and a gap before
    an IPv4 address. *)
Lemma ntop6_text_shape len0 bs a b c d :
  length bs = 16%nat -> Forall byte bs -> drop 12 bs = [a; b; c; d] ->
  byte a -> byte b -> byte c -> byte d ->
  let ws := Ntop.to_words bs in
  Ntop.ntop6_text len0 bs = Some (hexjoin ws) \/
  (exists pre l suf, ws = pre ++ replicate (S (S l)) 0 ++ suf /\
     Ntop.ntop6_text len0 bs = Some (hexjoin pre ++ chr_colon :: chr_colon :: hexjoin suf)) \/
  (exists l hs v, (hs = [] \/ hs = [0xffff]) /\ ws = replicate (S (S l)) 0 ++ hs ++ v /\ length v = 2%nat /\
     Ntop.ntop6_text len0 bs = Some (chr_colon :: chr_colon :: t_words hs ++ v4_text [a; b; c; d])).
Proof.
  intros Hl HF Ed Ba Bb Bc Bd. destruct (to_words_bytes bs Hl HF) as (Hlw & HFw & _). cbn zeta.
  unfold Ntop.ntop6_text. set (ws := Ntop.to_words bs) in *. cbn zeta.
  destruct (best_run_split len0 ws Hlw) as [Hno|(n & l & Eb & El & Hl2 & Hbl & Ews)];
    set (r := Ntop.best_run len0 ws) in *.
  - left. rewrite <- (app_nil_r ws) at 1. rewrite format_out.
    + simpl. rewrite Hno, sep_words_0. done.
    + intros j Hj. unfold in_run, v4_run. rewrite Hno. done.
  - right. set (pre := take n ws) in *. set (suf := drop (n + l) ws) in *.
    assert (length pre = n) as Hpre by (unfold pre; rewrite length_take; lia).
    assert (length suf = 8 - (n + l))%nat as Hsuf by (unfold suf; rewrite length_drop; lia).
    destruct l as [|[|l]]; [lia|lia|].
    assert (Ntop.format_loop 0 ws ws bs [] r =
      Ntop.format_loop (Ntop.base r + Ntop.len r) suf ws bs (hexjoin pre ++ [chr_colon]) r) as ->.
    { rewrite Ews at 1. rewrite format_out.
      - rewrite sep_words_0, Hpre, Z.add_0_l, <- Eb. apply format_run; lia.
      - intros j Hj. rewrite Hpre in Hj. split.
        + unfold in_run. rewrite Z.geb_leb, (proj2 (Z.leb_gt (Ntop.base r) j)) by lia. by rewrite andb_false_r.
        + intros ->. unfold v4_run. by rewrite (proj2 (Z.eqb_neq _ _)) by lia. }
    rewrite (proj2 (Z.eqb_neq (Ntop.base r) (-1))) by lia.
    destruct (v4_run r ws) eqn:Hv.
    + right. assert (n = 0%nat) as ->.
      { unfold v4_run in Hv. apply andb_true_iff in Hv as [H0 _]. lia. }
      rewrite (nil_length_inv _ Hpre) in *. simpl app in Ews.
      destruct (format_v4_run (S (S l)) ws bs r suf a b c d) as (hs & v & Hhs & Esuf & Hv2 & Ef); try done.
      exists l, hs, v. split_and!; try done; [by rewrite <- Esuf|].
      simpl hexjoin. rewrite app_nil_l, Ef. cbn [mbind option_bind].
      rewrite (proj2 (Z.eqb_neq (_ + _) 8)); [done|].
      assert (length suf <> 0)%nat; [|lia]. rewrite Esuf, length_app. lia.
    + left. exists pre, l, suf. split; [done|].
      rewrite <- (app_nil_r suf), format_out, app_nil_r.
      * cbn [Ntop.format_loop mbind option_bind]. f_equal. rewrite sep_words_colon by lia.
        destruct (Ntop.base r + Ntop.len r =? 8) eqn:E8; bool_to_prop; simpl.
        -- rewrite (nil_length_inv suf) by lia. simpl. by rewrite app_nil_r, <- app_assoc.
        -- destruct suf as [|w suf']; [simpl in Hsuf; lia|]. simpl. by rewrite <- app_assoc.
      * intros j Hj. split; [|done]. unfold in_run. rewrite (proj2 (Z.ltb_ge j _)) by lia. by rewrite andb_false_r.
Qed.

(** ** IPv6 round trip *)

Lemma t_words_length ws : Forall word ws -> (length (t_words ws) <= 5 * length ws)%nat.
Proof.
  induction 1 as [|w ws Hw _ IH]; simpl; [lia|]. rewrite length_app. simpl.
  pose proof (fmt_x_length w Hw). lia.
Qed.

Lemma hexjoin_length ws : Forall word ws -> (length (hexjoin ws) <= 5 * length ws)%nat.
Proof.
  destruct ws as [|w ws _] using rev_ind; [simpl; lia|]. intros [HF Hw]%Forall_app.
  apply Forall_cons in Hw as [Hw _]. rewrite hexjoin_snoc, !length_app.
  pose proof (t_words_length ws HF). pose proof (fmt_x_length w Hw). simpl. lia.
Qed.

Lemma bytes_of_zeros n : bytes_of (replicate n 0) = replicate (2 * n) 0.
Proof.
  induction n as [|n IH]; [done|]. cbn [replicate bytes_of]. rewrite IH.
  by replace (2 * S n)%nat with (S (S (2 * n)))%nat by lia.
Qed.

(** An IPv4 address behind a gap. *)
Lemma pton6_v4_gap hs a b c d :
  (length hs <= 5)%nat -> Forall word hs -> byte a -> byte b -> byte c -> byte d ->
  Pton.inet_pton6 (chr_colon :: chr_colon :: t_words hs ++ v4_text [a; b; c; d]) =
    Some (replicate (12 - 2 * length hs) 0 ++ bytes_of hs ++ [a; b; c; d]).
Proof.
  intros Hl HF Ha Hb Hc Hd. unfold Pton.inet_pton6.
  change (Pton.pton6_start (chr_colon :: chr_colon :: t_words hs ++ v4_text [a; b; c; d]))
    with (Some (chr_colon :: t_words hs ++ v4_text [a; b; c; d])). cbn [mbind option_bind].
  change (Pton.St6 (replicate 16 0) 0 None) with (written [] None). rewrite pton6_gap.
  rewrite pton6_t_words by (done || simpl; lia). rewrite app_nil_l.
  destruct (pton6_dotted a b c d (v4_text [a; b; c; d])
    (if hs is [] then t_words hs ++ v4_text [a; b; c; d] else v4_text [a; b; c; d])
    (bytes_of hs) (Some (length ([] : list Z)))) as [v ->]; try done.
  { rewrite bytes_of_length. lia. } { by destruct hs. }
  cbn [mbind option_bind].
  pose proof (pton6_finish_gap [] (bytes_of hs ++ [a; b; c; d])) as H. simpl app in H.
  unfold Pton.pton6_finish in *. cbn [mbind option_bind] in *. rewrite H.
  - rewrite length_app, bytes_of_length. simpl. do 3 f_equal. lia.
  - rewrite length_app, bytes_of_length. simpl. lia.
Qed.

(** The text is read back, and it fits the code's buffer with its NUL. *)
Lemma ntop6_read_back len0 bs :
  length bs = 16%nat -> Forall byte bs ->
  exists t, Ntop.ntop6_text len0 bs = Some t /\ Pton.inet_pton6 t = Some bs /\
    Z.of_nat (length t) + 1 <= Ntop.sizeof_tmp.
Proof.
  intros Hl HF. destruct (to_words_bytes bs Hl HF) as (Hlw & HFw & Hb).
  assert (exists a b c d, drop 12 bs = [a; b; c; d] /\ byte a /\ byte b /\ byte c /\ byte d)
    as (a & b & c & d & Ed & Ba & Bb & Bc & Bd).
  { clear Hlw HFw Hb. do 16 (destruct bs as [|? bs]; [done|]). destruct bs; [|done].
    repeat match goal with H : Forall _ (_ :: _) |- _ => apply Forall_cons in H; destruct H end.
    by eexists _, _, _, _. }
  destruct (ntop6_text_shape len0 bs a b c d Hl HF Ed Ba Bb Bc Bd)
    as [E|[(pre & l & suf & Ew & E)|(l & hs & v & Hhs & Ew & Hv & E)]]; eexists; (split; [exact E|]);
    unfold Ntop.sizeof_tmp; clear E.
  - split; [by rewrite pton6_full, Hb|]. pose proof (hexjoin_length _ HFw). lia.
  - rewrite Ew in Hlw, HFw. rewrite !length_app, length_replicate in Hlw.
    apply Forall_app in HFw as [Hp HFw]. apply Forall_app in HFw as [_ Hs]. split.
    + rewrite pton6_with_gap by (done || lia). rewrite <- Hb, Ew, !bytes_of_app, bytes_of_zeros.
      do 4 f_equal. lia.
    + rewrite length_app. simpl. pose proof (hexjoin_length _ Hp). pose proof (hexjoin_length _ Hs). lia.
  - rewrite Ew in Hlw, HFw. rewrite !length_app, length_replicate in Hlw.
    apply Forall_app in HFw as [_ HFw]. apply Forall_app in HFw as [Hh _].
    assert (length hs <= 1)%nat as Hh1 by (destruct Hhs as [->| ->]; simpl; lia). split.
    + rewrite pton6_v4_gap by (done || lia). f_equal. rewrite app_assoc, <- Ed.
      rewrite <- (take_drop 12 bs) at 2. f_equal. rewrite <- Hb, Ew, !bytes_of_app, bytes_of_zeros, app_assoc.
      rewrite take_app_le, take_ge by (rewrite length_app, length_replicate, bytes_of_length; lia).
      do 2 f_equal. lia.
    + simpl. rewrite length_app. pose proof (v4_text_length a b c d Ba Bb Bc Bd).
      pose proof (t_words_length _ Hh). lia.
Qed.

(** C11: IPv6 round trip: for every 16 bytes and every buffer of at least 46
    characters, [inet_ntop] produces a text (with [::] for the longest run of
    zero words and a dotted quad for IPv4-mapped and -compatible addresses) which
    [inet_pton] reads back as the same 16 bytes; the text and its NUL always fit
    the function's own 46-byte buffer. *)
Theorem inet6_roundtrip (len0 size : Z) (bs : list Z) :
  length bs = 16%nat -> Forall byte bs -> 46 <= size ->
  exists t, Ntop.inet_ntop len0 AF_INET6 bs size = Ok t /\
    Pton.inet_pton AF_INET6 t = Ok (Some bs) /\ Z.of_nat (length t) + 1 <= Ntop.sizeof_tmp.
Proof.
  intros Hl HF Hs. destruct (ntop6_read_back len0 bs Hl HF) as (t & Et & Ep & Hlt).
  exists t. unfold Ntop.sizeof_tmp in *. split_and!; [|unfold Pton.inet_pton; simpl; by rewrite Ep|done].
  unfold Ntop.inet_ntop, Ntop.inet_ntop6. rewrite Et. simpl.
  by rewrite Z.gtb_ltb, (proj2 (Z.ltb_ge _ _)) by lia.
Qed.

Lemma inet6_roundtrip_witness :
  exists t, Ntop.inet_ntop 7 AF_INET6 [254; 128; 0; 0; 0; 0; 0; 0; 2; 0; 0; 255; 0; 0; 0; 1] 46 = Ok t /\
    Pton.inet_pton AF_INET6 t = Ok (Some [254; 128; 0; 0; 0; 0; 0; 0; 2; 0; 0; 255; 0; 0; 0; 1]).
Proof.
  destruct (inet6_roundtrip 7 46 [254; 128; 0; 0; 0; 0; 0; 0; 2; 0; 0; 255; 0; 0; 0; 1])
    as (t & H1 & H2 & _); [done|repeat constructor; unfold byte; lia|lia|eauto].
Defined.

(** ** Bounds and divergences *)

(** Buffer sizes: the IPv4-only [inet_ntop] and [inet_ntop6] succeed only when
    the text and its NUL fit in [size] bytes; [inet_ntop4] also succeeds when
    [size] is the length of the text, and then its [strcpy] stores one byte more
    than the buffer has. *)
Theorem ntop_buffer_bounds (a b c d : Z) :
  byte a -> byte b -> byte c -> byte d ->
  let bs := [a; b; c; d] in
  exists t, (length t <= 15)%nat /\
    (forall size u, Ipv4Only.inet_ntop AF_INET bs size = Ok u -> u = t /\ Z.of_nat (length u) + 1 <= size) /\
    (forall size len0 src u, Ntop.inet_ntop6 len0 src size = Some u -> Z.of_nat (length u) + 1 <= size) /\
    Ntop.inet_ntop4 bs (Z.of_nat (length t)) = Some t /\
    Ipv4Only.inet_ntop AF_INET bs (Z.of_nat (length t)) = Err ENOSPC.
Proof.
  intros Ha Hb Hc Hd bs. exists (v4_text [a; b; c; d]). split_and!.
  - by apply v4_text_length.
  - intros size u. unfold Ipv4Only.inet_ntop, bs. simpl. rewrite v4_text_eq.
    destruct (_ >=? size) eqn:E; [done|]. intros [= <-]. bool_to_prop. split; [done|lia].
  - intros size len0 src u. unfold Ntop.inet_ntop6. destruct (Ntop.ntop6_text len0 src); simpl; [|done].
    destruct (_ >? size) eqn:E; [done|]. intros [= <-]. bool_to_prop. lia.
  - unfold bs. by rewrite ntop4_text, Z.gtb_ltb, Z.ltb_irrefl.
  - unfold Ipv4Only.inet_ntop, bs. simpl. rewrite v4_text_eq. by rewrite Z.geb_leb, Z.leb_refl.
Qed.

Lemma ntop_buffer_bounds_witness :
  exists t, Ntop.inet_ntop4 [1; 2; 3; 4] (Z.of_nat (length t)) = Some t.
Proof.
  destruct (ntop_buffer_bounds 1 2 3 4) as (t & _ & _ & _ & H & _); unfold byte; try lia. eauto.
Defined.

(** The character codes of a string literal. *)
Definition codes (s : string) : list Z :=
  (fun a => Z.of_nat (Ascii.nat_of_ascii a)) <$> String.list_ascii_of_string s.

(** Inputs outside the grammar that are accepted: a [::] in an address that
    already has eight words is not ignored, as the comment says, but zeroes the
    words behind it; a trailing single colon is accepted; [inet_aton] takes the
    empty string for 0.0.0.0, completes a short address with zero bytes on the
    right, and reads numbers modulo 2^64. *)
Theorem inet_lenient_inputs :
  Pton.inet_pton6 (codes "1:2:3:4:5:6:7::8") = Some [0; 1; 0; 2; 0; 3; 0; 4; 0; 5; 0; 6; 0; 7; 0; 0] /\
  Pton.inet_pton6 (codes "1:2:3:4:5:6:7:8:") = Some [0; 1; 0; 2; 0; 3; 0; 4; 0; 5; 0; 6; 0; 7; 0; 8] /\
  Ipv4Only.inet_pton AF_INET (codes "") = Ok (Some [0; 0; 0; 0]) /\
  Ipv4Only.inet_pton AF_INET (codes "10.1") = Ok (Some [10; 1; 0; 0]) /\
  Ipv4Only.inet_pton AF_INET (codes "18446744073709551617.0.0.1") = Ok (Some [1; 0; 0; 1]).
Proof. by vm_compute. Qed.
