(* ===== verification/StreamIO.v ===== *)
(** * Reading and writing streams: [readn], [writen], [readline]

    The sources have several versions of these functions: [unixNetV1/lib],
    [unixipc/lib], [unixNetV1/server], [unixNetV1/threads], [unixNetV1/sock].
    A descriptor is the script of what its next system calls answer; the
    functions run on it and leave the rest of the script. *)
From S2P Require Import Prelude Monitor.

(** ** The descriptor *)

(** What [read] finds next: bytes (none: end of file) or an error. *)
Inductive rd := Data (bs : list Z) | Fail (e : errno).

(** [read(fd, buf, len)]: at most [len] of the bytes; the others stay.  An
    exhausted script is end of file. *)
Definition sys_read (len : nat) (s : list rd) : cres (list Z) * list rd :=
  match s with
  | [] => (Ok [], [])
  | Fail e :: s' => (Err e, s')
  | Data bs :: s' =>
    if (length bs <=? len)%nat then (Ok bs, s') else (Ok (take len bs), Data (drop len bs) :: s')
  end.

(** ** [readn] *)

(** The loop; [acc] is what is in the buffer.  The result is [n - nleft] bytes,
    the failure -1, [None] a run that used up [fuel]. *)
Fixpoint readn_loop (fuel nleft : nat) (acc : list Z) (s : list rd) : option (cres (list Z) * list rd) :=
  match fuel with
  | O => None
  | S fuel' =>
    if (nleft =? 0)%nat then Some (Ok acc, s)
    else
      match sys_read nleft s with
      | (Err e, s') =>
        if bool_decide (e = EINTR) then readn_loop fuel' nleft acc s' else Some (Err e, s')
      | (Ok [], s') => Some (Ok acc, s')
      | (Ok bs, s') => readn_loop fuel' (nleft - length bs) (acc ++ bs) s'
      end
  end.

(** Every turn takes bytes or an element of the script. *)
Definition readn (n : nat) (s : list rd) : option (cres (list Z) * list rd) :=
  readn_loop (S (n + length s)) n [] s.

Definition cres_wrapped {A} (r : cres A) : wrapped A :=
  match r with Ok a => Going a | Err e => ErrSys e end.

Definition Readn (n : nat) (s : list rd) : option (wrapped (list Z)) :=
  (fun r => cres_wrapped r.1) <$> readn n s.

(** [unixipc/lib/readn.c] is the same text. *)
Definition readn_ipc := readn.
Definition Readn_ipc := Readn.

(** ** [writen] *)

(** What [write] answers next: how many bytes it takes (at most the number
    asked for) or an error; an exhausted script takes everything. *)
Definition sys_write (len : nat) (s : list (cres nat)) : cres nat * list (cres nat) :=
  match s with
  | [] => (Ok len, [])
  | Ok k :: s' => (Ok (Nat.min k len), s')
  | Err e :: s' => (Err e, s')
  end.

(** The loop over the bytes [ptr] that are left; [out] is what the descriptor
    took. *)
Fixpoint writen_loop (fuel : nat) (ptr out : list Z) (s : list (cres nat))
    : option (cres unit * list Z) :=
  match fuel with
  | O => None
  | S fuel' =>
    if (length ptr =? 0)%nat then Some (Ok tt, out)
    else
      match sys_write (length ptr) s with
      | (Err e, s') => if bool_decide (e = EINTR) then writen_loop fuel' ptr out s' else Some (Err e, out)
      | (Ok O, s') => Some (Err (Eother 0), out)
      | (Ok k, s') => writen_loop fuel' (drop k ptr) (out ++ take k ptr) s'
      end
  end.

Definition writen (ptr : list Z) (s : list (cres nat)) : option (cres unit * list Z) :=
  writen_loop (S (S (length s))) ptr [] s.

Definition Writen (ptr : list Z) (s : list (cres nat)) : option (wrapped unit) :=
  (fun r => cres_wrapped r.1) <$> writen ptr s.

(** [unixipc/lib/writen.c] tests [errno] even when [write] returned 0 and did not
    set it: [en] is its value, from an earlier call. *)
Fixpoint writen_ipc_loop (fuel : nat) (en : errno) (ptr out : list Z) (s : list (cres nat))
    : option (cres unit * list Z) :=
  match fuel with
  | O => None
  | S fuel' =>
    if (length ptr =? 0)%nat then Some (Ok tt, out)
    else
      let '(r, s') := sys_write (length ptr) s in
      let en := match r with Err e => e | Ok _ => en end in
      match r with
      | Err _ | Ok O =>
        if bool_decide (en = EINTR) then writen_ipc_loop fuel' en ptr out s' else Some (Err en, out)
      | Ok k => writen_ipc_loop fuel' en (drop k ptr) (out ++ take k ptr) s'
      end
  end.

Definition writen_ipc (en : errno) (ptr : list Z) (s : list (cres nat)) : option (cres unit * list Z) :=
  writen_ipc_loop (S (S (length s))) en ptr [] s.

Definition Writen_ipc (en : errno) (ptr : list Z) (s : list (cres nat)) : option (wrapped unit) :=
  (fun r => cres_wrapped r.1) <$> writen_ipc en ptr s.

(** [unixNetV1/sock/writen.c] keeps the result of [write] in a [size_t], where -1 is
    2^64 - 1: [ptr] is the offset from the start of the buffer, [nleft] the count,
    and the requests made are listed.  The loop ends early with [Some nwritten]. *)
Fixpoint writen_sock_loop (fuel : nat) (ptr nleft : Z) (s : list (cres nat)) (req : list (Z * Z))
    : option (option Z * list (Z * Z)) :=
  match fuel with
  | O => None
  | S fuel' =>
    if nleft >? 0 then
      let '(r, s') := sys_write (Z.to_nat nleft) s in
      let nwritten := match r with Ok k => Z.of_nat k | Err _ => u64 (-1) end in
      if nwritten <=? 0 then Some (Some nwritten, req ++ [(ptr, nleft)])
      else writen_sock_loop fuel' (s64 (ptr + nwritten)) (u64 (nleft - nwritten)) s' (req ++ [(ptr, nleft)])
    else Some (None, req)
  end.

Definition writen_sock (n : Z) (s : list (cres nat)) : option (Z * list (Z * Z)) :=
  '(r, req) ← writen_sock_loop (S (S (length s))) 0 n s [];
  Some (default n r, req).

(** ** One byte at a time *)

(** What [my_read] (or a one-byte [read]) returns: 1 with a byte, 0, or -1. *)
Inductive rc := Got (c : Z) | Eof | Error (e : errno).

(** A source of bytes: what is still to come, up to the end of file or the error
    that ends it.  [next] returns the next byte and takes nothing else. *)
Class ByteSource {St : Type} (next : St -> rc * St) := {
  src_ok : St -> Prop;
  pending : St -> list Z * option errno;
  next_law : forall st, src_ok st -> src_ok (next st).2 /\
    match pending st with
    | (c :: r, f) => (next st).1 = Got c /\ pending (next st).2 = (r, f)
    | ([], None) => (next st).1 = Eof
    | ([], Some e) => (next st).1 = Error e
    end }.

(** [my_read]: [rl_cnt] and the bytes from [rl_bufptr] on. *)
Record Rline := RL { rl_cnt : Z; rl_bytes : list Z; rl_fd : list rd }.

Definition MAXLINE : nat := Z.to_nat 4096.

(** The label [again]: [EINTR] repeats the call. *)
Fixpoint refill (s : list rd) : cres (list Z) * list rd :=
  match s with
  | Fail e :: s' => if bool_decide (e = EINTR) then refill s' else (Err e, s')
  | _ => sys_read MAXLINE s
  end.

Definition my_read (r : Rline) : rc * Rline :=
  if rl_cnt r <=? 0 then
    match refill (rl_fd r) with
    | (Err e, s) => (Error e, RL (-1) (rl_bytes r) s)
    | (Ok [], s) => (Eof, RL 0 (rl_bytes r) s)
    | (Ok (c :: bs), s) => (Got c, RL (Z.of_nat (length bs)) bs s)
    end
  else
    match rl_bytes r with
    | c :: bs => (Got c, RL (rl_cnt r - 1) bs (rl_fd r))
    | [] => (Error (Eother 0), r)
    end.

(** A one-byte [read] without a retry ([server/readline.c]). *)
Definition read1 (s : list rd) : rc * list rd :=
  match sys_read 1 s with
  | (Err e, s') => (Error e, s')
  | (Ok [], s') => (Eof, s')
  | (Ok (c :: _), s') => (Got c, s')
  end.

(** ** [readline] *)

Definition newline : Z := 10.

(** The [for] loop from [n] on with [k] turns left before [maxlen]: it ends with a
    return value and the bytes stored; [on_eof] is what the version at hand does
    on end of file. *)
Section Readline.
Context {St : Type} (nxt : St -> rc * St) (on_eof : Z -> Z).

Fixpoint readline_loop (k : nat) (n : Z) (acc : list Z) (st : St) : cres (Z * list Z) * St :=
  match k with
  | O => (Ok (n, acc), st)
  | S k' =>
    match nxt st with
    | (Got c, st') =>
      if c =? newline then (Ok (n, acc ++ [c]), st')
      else readline_loop k' (n + 1) (acc ++ [c]) st'
    | (Eof, st') => (Ok (on_eof n, acc), st')
    | (Error e, st') => (Err e, st')
    end
  end.
End Readline.

(** [lib/readline.c] and [threads/readline.c]: [return(n - 1)] on end of file. *)
Definition eof_count (n : Z) : Z := n - 1.
(** [unixipc/lib], [server]: 0 if nothing was read, else [break] and [return(n)]. *)
Definition eof_break (n : Z) : Z := if n =? 1 then 0 else n.

Definition readline (maxlen : nat) (r : Rline) : cres (Z * list Z) * Rline :=
  readline_loop my_read eof_count (maxlen - 1) 1 [] r.

(** [readlinebuf]: the count and, if it is not 0, the buffered bytes. *)
Definition readlinebuf (r : Rline) : Z * option (list Z) :=
  (rl_cnt r, if negb (rl_cnt r =? 0) then Some (rl_bytes r) else None).

Definition Readline (maxlen : nat) (r : Rline) : wrapped (Z * list Z) :=
  cres_wrapped (readline maxlen r).1.

(** [unixipc/lib/readline.c] *)
Definition readline_ipc (maxlen : nat) (r : Rline) : cres (Z * list Z) * Rline :=
  readline_loop my_read eof_break (maxlen - 1) 1 [] r.
Definition Readline_ipc (maxlen : nat) (r : Rline) : wrapped (Z * list Z) :=
  cres_wrapped (readline_ipc maxlen r).1.

(** [server/readline.c] *)
Definition readline_server (maxlen : nat) (s : list rd) : cres (Z * list Z) * list rd :=
  readline_loop read1 eof_break (maxlen - 1) 1 [] s.
Definition Readline_server (maxlen : nat) (s : list rd) : wrapped (Z * list Z) :=
  cres_wrapped (readline_server maxlen s).1.

(** [server/readline_r.c]: the state and the arguments are in the caller's [Rline];
    each byte goes through [& 255]. *)
Definition my_read_r (r : Rline) : rc * Rline :=
  match my_read r with
  | (Got c, r') => (Got (Z.land c 255), r')
  | x => x
  end.
Definition readline_rinit (s : list rd) : Rline := RL 0 [] s.
Definition readline_r (maxlen : nat) (r : Rline) : cres (Z * list Z) * Rline :=
  readline_loop my_read_r eof_break (maxlen - 1) 1 [] r.
Definition Readline_r (maxlen : nat) (r : Rline) : wrapped (Z * list Z) :=
  cres_wrapped (readline_r maxlen r).1.

(** [threads/readline.c]: each thread has its own buffer, allocated (zero, so
    [rl_cnt] is 0) on the thread's first call; [fd] is what the descriptor holds. *)
Definition tsd_get (tsd : gmap nat (Z * list Z)) (t : nat) (fd : list rd) : Rline :=
  match tsd !! t with
  | Some (cnt, bytes) => RL cnt bytes fd
  | None => RL 0 [] fd
  end.

Definition readline_thread (t : nat) (maxlen : nat) (tsd : gmap nat (Z * list Z)) (fd : list rd)
    : cres (Z * list Z) * gmap nat (Z * list Z) * list rd :=
  let '(res, r) := readline_loop my_read eof_count (maxlen - 1) 1 [] (tsd_get tsd t fd) in
  (res, <[t := (rl_cnt r, rl_bytes r)]> tsd, rl_fd r).

Definition Readline_thread t maxlen tsd fd : wrapped (Z * list Z) :=
  cres_wrapped (readline_thread t maxlen tsd fd).1.1.

(** ** The stream behind a script *)

(** The bytes up to the first end of file or error other than [EINTR], and that
    error. *)
Fixpoint flatten (s : list rd) : list Z * option errno :=
  match s with
  | [] => ([], None)
  | Fail e :: s' => if bool_decide (e = EINTR) then flatten s' else ([], Some e)
  | Data [] :: _ => ([], None)
  | Data bs :: s' => (bs ++ (flatten s').1, (flatten s').2)
  end.

Lemma flatten_data bs s : bs <> [] -> flatten (Data bs :: s) = (bs ++ (flatten s).1, (flatten s).2).
Proof. by destruct bs. Qed.

(** A successful [read] returns a prefix of the stream and leaves the rest. *)
Lemma sys_read_ok len s bs s' :
  (0 < len)%nat -> sys_read len s = (Ok bs, s') -> bs <> [] ->
  (length bs <= len)%nat /\ flatten s = (bs ++ (flatten s').1, (flatten s').2) /\
  (length s' + length bs <= length s + len)%nat /\ (length s' <= length s)%nat.
Proof.
  destruct s as [|[d|e] s]; simpl; [by intros _ [= <- <-]| |done].
  intros Hl. destruct (length d <=? len)%nat eqn:E.
  - intros [= <- <-] Hne. apply Nat.leb_le in E. split_and!; [done|by destruct d|lia|lia].
  - intros [= <- <-] Hne. apply Nat.leb_gt in E. rewrite length_take. split_and!; [lia| |simpl; lia|simpl; lia].
    rewrite flatten_data.
    + simpl. rewrite app_assoc, take_drop. destruct d; [simpl in E; lia|done].
    + intros Hd. apply (f_equal length) in Hd. rewrite length_drop in Hd. simpl in Hd. lia.
Qed.

Lemma sys_read_eof len s s' : (0 < len)%nat -> sys_read len s = (Ok [], s') -> flatten s = ([], None).
Proof.
  destruct s as [|[d|e] s]; simpl; [done| |done]. intros Hl.
  destruct (length d <=? len)%nat eqn:E; [by intros [= -> _]|].
  destruct d, len; simpl in *; try done; lia.
Qed.

(** ** [readn] *)

Lemma readn_loop_spec fuel : forall nleft acc s,
  (nleft + length s < fuel)%nat ->
  exists res s', readn_loop fuel nleft acc s = Some (res, s') /\
    let '(bs, f) := flatten s in
    if (nleft <=? length bs)%nat then res = Ok (acc ++ take nleft bs) /\ flatten s' = (drop nleft bs, f)
    else match f with None => res = Ok (acc ++ bs) | Some e => res = Err e end.
Proof.
  induction fuel as [|fuel IH]; intros nleft acc s Hf; [lia|]. cbn [readn_loop].
  destruct (nleft =? 0)%nat eqn:E0.
  { apply Nat.eqb_eq in E0. subst. eexists _, _. split; [done|].
    destruct (flatten s) as [bs f] eqn:Ef. simpl. by rewrite app_nil_r, drop_0. }
  apply Nat.eqb_neq in E0.
  destruct (sys_read nleft s) as [[[|c bs]|e] s'] eqn:Er.
  - apply sys_read_eof in Er; [|lia]. rewrite Er. eexists _, _. split; [done|]. simpl.
    rewrite (proj2 (Nat.leb_gt _ _)) by lia. by rewrite app_nil_r.
  - apply sys_read_ok in Er as (Hl & Hfl & Hm & Hm'); [|lia|done].
    destruct (IH (nleft - length (c :: bs))%nat (acc ++ c :: bs) s') as (res & s'' & E & Hres).
    { simpl in *. lia. }
    exists res, s''. split; [exact E|]. rewrite Hfl. destruct (flatten s') as [bs' f].
    cbn [fst snd]. rewrite length_app.
    destruct (nleft - length (c :: bs) <=? length bs')%nat eqn:El.
    + apply Nat.leb_le in El. rewrite (proj2 (Nat.leb_le _ _)) by lia.
      destruct Hres as [-> ->]. rewrite take_app_ge, drop_app_ge by lia. by rewrite <- app_assoc.
    + apply Nat.leb_gt in El. rewrite (proj2 (Nat.leb_gt _ _)) by lia.
      destruct f; [done|]. by rewrite <- app_assoc in Hres.
  - destruct s as [|[d|e'] s]; simpl in Er; [done|destruct (_ <=? _)%nat; done|].
    injection Er as -> ->. simpl. case_bool_decide.
    + subst. apply (IH nleft acc s'). simpl in Hf. lia.
    + eexists _, _. split; [done|]. simpl. by rewrite (proj2 (Nat.leb_gt _ _)) by lia.
Qed.

(** [readn] always returns, and returns the next [n] bytes of the stream
    whatever pieces [read] delivers them in and however often it is
    interrupted, leaving the stream after them; on an early end of file it returns
    what there was, and on an early error -1. *)
Theorem readn_exact (n : nat) (s : list rd) :
  exists res s', readn n s = Some (res, s') /\
    let '(bs, f) := flatten s in
    if (n <=? length bs)%nat then res = Ok (take n bs) /\ flatten s' = (drop n bs, f)
    else match f with None => res = Ok bs | Some e => res = Err e end.
Proof. apply (readn_loop_spec (S (n + length s)) n []). lia. Qed.

(** ** [writen] *)

Lemma writen_loop_spec fuel : forall ptr out s,
  (length s + 1 < fuel)%nat ->
  exists res taken, writen_loop fuel ptr out s = Some (res, out ++ taken) /\
    match res with
    | Ok _ => taken = ptr
    | Err e => exists rest, ptr = taken ++ rest /\ rest <> [] /\ e <> EINTR
    end.
Proof.
  induction fuel as [|fuel IH]; intros ptr out s Hf; [lia|]. cbn [writen_loop].
  destruct (length ptr =? 0)%nat eqn:E0.
  { apply Nat.eqb_eq, nil_length_inv in E0. subst. exists (Ok tt), []. by rewrite app_nil_r. }
  apply Nat.eqb_neq in E0. assert (ptr <> []) as Hne by (by destruct ptr).
  assert (forall k s', (0 < k <= length ptr)%nat -> (length s' + 1 < fuel)%nat \/ k = length ptr /\ (0 < fuel)%nat ->
    exists res taken, writen_loop fuel (drop k ptr) (out ++ take k ptr) s' = Some (res, out ++ taken) /\
      match res with
      | Ok _ => taken = ptr
      | Err e => exists rest, ptr = taken ++ rest /\ rest <> [] /\ e <> EINTR
      end) as Hgo.
  { intros k s' Hk [Hs|[-> Hs]].
    - destruct (IH (drop k ptr) (out ++ take k ptr) s' Hs) as (res & taken & -> & Hres).
      exists res, (take k ptr ++ taken). rewrite app_assoc. split; [done|]. destruct res as [?|e].
      + subst. apply take_drop.
      + destruct Hres as (rest & Hr & ? & ?). exists rest. by rewrite <- app_assoc, <- Hr, take_drop.
    - exists (Ok tt), ptr. split; [|done]. destruct fuel; [lia|]. cbn [writen_loop].
      rewrite length_drop, Nat.sub_diag. simpl. by rewrite take_ge by lia. }
  destruct s as [|[k|e] s]; cbn [sys_write].
  - destruct (length ptr) as [|k] eqn:El; [lia|]. apply Hgo; [lia|]. right. simpl in Hf. lia.
  - simpl in Hf. destruct (Nat.min k (length ptr)) as [|k'] eqn:Ek.
    + exists (Err (Eother 0)), []. rewrite app_nil_r. split; [done|]. by exists ptr.
    + apply Hgo; lia.
  - simpl in Hf. case_bool_decide.
    + apply IH. lia.
    + exists (Err e), []. rewrite app_nil_r. split; [done|]. by exists ptr.
Qed.

(** [writen] always returns: 0 errors and the descriptor took exactly the
    bytes of the buffer, in order and once, however [write] splits them and
    however often it is interrupted; or -1 and it took a proper prefix of
    them. *)
Theorem writen_exact (ptr : list Z) (s : list (cres nat)) :
  exists res taken, writen ptr s = Some (res, taken) /\
    match res with
    | Ok _ => taken = ptr
    | Err e => exists rest, ptr = taken ++ rest /\ rest <> [] /\ e <> EINTR
    end.
Proof. apply (writen_loop_spec (S (S (length s))) ptr []). lia. Qed.

(** ** The sources *)

(** What a buffer still holds, then the stream. *)
Definition rl_pending (r : Rline) : list Z * option errno :=
  if rl_cnt r <=? 0 then flatten (rl_fd r)
  else (rl_bytes r ++ (flatten (rl_fd r)).1, (flatten (rl_fd r)).2).

Definition rl_ok (r : Rline) : Prop := 0 < rl_cnt r -> rl_cnt r = Z.of_nat (length (rl_bytes r)).

Lemma refill_spec s :
  match refill s with
  | (Err e, _) => flatten s = ([], Some e)
  | (Ok [], _) => flatten s = ([], None)
  | (Ok bs, s') => flatten s = (bs ++ (flatten s').1, (flatten s').2)
  end.
Proof.
  assert (0 < MAXLINE)%nat as HM by (vm_compute; lia).
  induction s as [|[d|e] s IH]; cbn [refill]; [done| |].
  - destruct (sys_read MAXLINE (Data d :: s)) as [[[|c bs]|e] s'] eqn:E.
    + by eapply sys_read_eof.
    + by apply sys_read_ok in E as (_ & E & _).
    + simpl in E. destruct (_ <=? _)%nat; done.
  - cbn [flatten]. case_bool_decide; [done|done].
Qed.

(** The buffered reader delivers the stream. *)
#[export] Program Instance my_read_source : ByteSource my_read := {|
  src_ok := rl_ok;
  pending := rl_pending |}.
Next Obligation.
  intros r Hok. unfold rl_pending, my_read.
  destruct (rl_cnt r <=? 0) eqn:E; bool_to_prop.
  - pose proof (refill_spec (rl_fd r)) as H. destruct (refill (rl_fd r)) as [[[|c bs]|e] s] eqn:Er.
    + rewrite H. unfold rl_ok; simpl. split; [lia|done].
    + rewrite H. unfold rl_ok; simpl. split; [lia|]. split; [done|].
      destruct (Z.of_nat (length bs) <=? 0) eqn:E2; bool_to_prop; [|done].
      destruct bs; [|simpl in E2; lia]. simpl. by destruct (flatten s).
    + rewrite H. unfold rl_ok; simpl. split; [lia|done].
  - specialize (Hok E). destruct (rl_bytes r) as [|c bs]; [simpl in Hok; lia|].
    unfold rl_ok; simpl in *. split; [lia|]. split; [done|].
    destruct (rl_cnt r - 1 <=? 0) eqn:E2; bool_to_prop; [|done].
    destruct bs; [|simpl in Hok; lia]. simpl. by destruct (flatten (rl_fd r)).
Qed.

(** The one-byte reader does not retry: any error ends its stream. *)
Fixpoint flatten1 (s : list rd) : list Z * option errno :=
  match s with
  | [] => ([], None)
  | Fail e :: _ => ([], Some e)
  | Data [] :: _ => ([], None)
  | Data bs :: s' => (bs ++ (flatten1 s').1, (flatten1 s').2)
  end.

#[export] Program Instance read1_source : ByteSource read1 := {|
  src_ok := fun _ => True;
  pending := flatten1 |}.
Next Obligation.
  intros s _. split; [done|]. unfold read1.
  destruct s as [|[[|c [|c' bs]]|e] s]; simpl; try done. by destruct (flatten1 s).
Qed.

(** ** Lines *)

(** At most [k] bytes, up to and including the first newline. *)
Fixpoint line_of (k : nat) (bs : list Z) : list Z :=
  match k, bs with
  | S k', c :: r => if c =? newline then [c] else c :: line_of k' r
  | _, _ => []
  end.

(** What [readline] returns for a line [l] of at most [k] bytes, ended as told. *)
Definition line_result (on_eof : Z -> Z) (k : nat) (l : list Z) (f : option errno)
    : cres (Z * list Z) :=
  if bool_decide (last l = Some newline) then Ok (Z.of_nat (length l), l)
  else if (length l =? k)%nat then Ok (Z.of_nat (length l) + 1, l)
  else match f with
       | None => Ok (on_eof (Z.of_nat (length l) + 1), l)
       | Some e => Err e
       end.

Section Readline.
Context {St : Type} (nxt : St -> rc * St) `{!ByteSource nxt} (on_eof : Z -> Z).

Lemma readline_loop_spec k : forall acc st,
  src_ok st -> last acc <> Some newline ->
  let '(bs, f) := pending st in
  let l := line_of k bs in
  let '(res, st') := readline_loop nxt on_eof k (Z.of_nat (length acc) + 1) acc st in
  src_ok st' /\ res = line_result on_eof (length acc + k) (acc ++ l) f /\
  (last (acc ++ l) = Some newline \/ length l = k -> pending st' = (drop (length l) bs, f)).
Proof.
  induction k as [|k IH]; intros acc st Hok Hacc.
  - destruct (pending st) as [bs f] eqn:Ep. simpl. split; [done|]. rewrite app_nil_r, Nat.add_0_r.
    split; [|by rewrite drop_0]. unfold line_result.
    by rewrite bool_decide_false, Nat.eqb_refl.
  - pose proof (next_law st Hok) as [Hok' Hn]. cbn [readline_loop].
    destruct (nxt st) as [r st'] eqn:Enx. simpl in Hok', Hn.
    destruct (pending st) as [[|c bs] f] eqn:Ep; cbn [line_of].
    + assert (length (acc ++ []) <> length acc + S k)%nat by (rewrite length_app; simpl; lia).
      destruct f as [e|]; subst r; (split; [done|]); split.
      all: unfold line_result; rewrite ?app_nil_r in *.
      all: try (rewrite bool_decide_false, (proj2 (Nat.eqb_neq _ _)) by (done || lia); done).
      all: intros [|]; [done|simpl in *; lia].
    + destruct Hn as [-> Hp]. destruct (c =? newline) eqn:Ec; bool_to_prop.
      * split; [done|]. split; [|by rewrite Hp]. unfold line_result.
        rewrite last_snoc, bool_decide_true by congruence. rewrite length_app. simpl. do 2 f_equal. lia.
      * assert (last (acc ++ [c]) <> Some newline) as Hacc' by (rewrite last_snoc; congruence).
        specialize (IH (acc ++ [c]) st' Hok' Hacc'). rewrite Hp in IH.
        rewrite length_app in IH. simpl in IH.
        replace (Z.of_nat (length acc + 1) + 1) with (Z.of_nat (length acc) + 1 + 1) in IH by lia.
        destruct (readline_loop nxt on_eof k _ (acc ++ [c]) st') as [res st''].
        destruct IH as (H1 & H2 & H3). split; [done|].
        rewrite <- app_assoc in H2, H3. simpl in H2, H3. split.
        -- rewrite H2. f_equal. lia.
        -- intros H. simpl. apply H3. destruct H; [by left|right; simpl in *; lia].
Qed.

Lemma readline_spec maxlen st :
  src_ok st ->
  let '(bs, f) := pending st in
  let l := line_of (maxlen - 1) bs in
  let '(res, st') := readline_loop nxt on_eof (maxlen - 1) 1 [] st in
  src_ok st' /\ res = line_result on_eof (maxlen - 1) l f /\
  (last l = Some newline \/ length l = (maxlen - 1)%nat -> pending st' = (drop (length l) bs, f)).
Proof. intros Hok. by apply (readline_loop_spec (maxlen - 1) []). Qed.
End Readline.

(** The buffered [readline] (one [read] of up to [MAXLINE] bytes at a time)
    reads lines off the stream as if byte by byte: it returns the next line, cut
    at [maxlen - 1] bytes, ended by newline, end of file (a short line) or error,
    and the buffer and descriptor then hold exactly the bytes behind it; so do
    the calls of a thread in the per-thread version, which leave the other
    threads' buffers alone. *)
Theorem readline_buffered (maxlen t : nat) (tsd : gmap nat (Z * list Z)) (r : Rline) :
  rl_ok r -> tsd_get tsd t (rl_fd r) = r ->
  let '(bs, f) := rl_pending r in
  let l := line_of (maxlen - 1) bs in
  let '(res, r') := readline maxlen r in
  rl_ok r' /\ res = line_result eof_count (maxlen - 1) l f /\
  (last l = Some newline \/ length l = (maxlen - 1)%nat -> rl_pending r' = (drop (length l) bs, f)) /\
  exists tsd', readline_thread t maxlen tsd (rl_fd r) = (res, tsd', rl_fd r') /\
    tsd_get tsd' t (rl_fd r') = r' /\ (forall t', t' <> t -> tsd' !! t' = tsd !! t').
Proof.
  intros Hok Ht. pose proof (readline_spec my_read eof_count maxlen r Hok) as H. simpl in H.
  destruct (rl_pending r) as [bs f]. unfold readline. unfold readline_thread. rewrite Ht.
  destruct (readline_loop _ _ _ _ _ _) as [res r']. destruct H as (H1 & H2 & H3).
  split_and!; try done. eexists. split; [done|]. split.
  - unfold tsd_get. rewrite lookup_insert_eq. by destruct r'.
  - intros t' Hne. by rewrite lookup_insert_ne.
Qed.

Lemma readline_buffered_witness :
  let '(res, r') := readline 100 (RL 0 [] [Data [65; 66]; Fail EINTR; Data [10; 67]]) in
  res = Ok (3, [65; 66; 10]) /\ rl_pending r' = ([67], None).
Proof.
  pose proof (readline_buffered 100 0 ∅ (RL 0 [] [Data [65; 66]; Fail EINTR; Data [10; 67]])) as H.
  assert (rl_ok (RL 0 [] [Data [65; 66]; Fail EINTR; Data [10; 67]])) as Hok by (intros Hc; simpl in Hc; lia).
  specialize (H Hok eq_refl). destruct (rl_pending _) as [bs f] eqn:E. vm_compute in E. injection E as <- <-.
  destruct (readline 100 _) as [res r'].
  destruct H as (_ & -> & Hp & _). split; [done|]. apply Hp. by left.
Defined.

(** The reader that masks its bytes. *)
#[export] Program Instance my_read_r_source : ByteSource my_read_r := {|
  src_ok := rl_ok;
  pending := fun r => ((fun c => Z.land c 255) <$> (rl_pending r).1, (rl_pending r).2) |}.
Next Obligation.
  intros r Hok. pose proof (next_law (ByteSource := my_read_source) r Hok) as H. simpl in H.
  unfold my_read_r. destruct (my_read r) as [x r'], (rl_pending r) as [[|c' bs] f]; simpl in *.
  - destruct H as [H1 H2]. destruct f; subst x; done.
  - destruct H as (H1 & -> & Hp). simpl. by rewrite Hp.
Qed.

(** A stream without newline is one line. *)
Lemma line_of_no_newline k bs : Forall (fun c => c <> newline) bs -> line_of k bs = take k bs.
Proof.
  revert bs. induction k as [|k IH]; intros bs HF; [done|]. destruct HF as [|c bs Hc HF]; [done|].
  simpl. rewrite (proj2 (Z.eqb_neq _ _) Hc). f_equal. by apply IH.
Qed.

Lemma line_result_no_newline on_eof k bs :
  bs <> [] -> Forall (fun c => c <> newline) bs -> (1 <= k)%nat ->
  line_result on_eof k (line_of k bs) None =
    if (length bs <? k)%nat then Ok (on_eof (Z.of_nat (length bs) + 1), bs)
    else Ok (Z.of_nat k + 1, take k bs).
Proof.
  intros Hne HF Hk. rewrite line_of_no_newline by done. unfold line_result.
  rewrite bool_decide_false.
  - rewrite length_take. destruct (length bs <? k)%nat eqn:E.
    + apply Nat.ltb_lt in E. rewrite (proj2 (Nat.eqb_neq _ _)) by lia. rewrite take_ge by lia.
      by rewrite Nat.min_r by lia.
    + apply Nat.ltb_ge in E. by rewrite Nat.min_l, Nat.eqb_refl by lia.
  - intros Hl. apply last_Some in Hl as [l' Hl].
    assert (newline ∈ bs) as Hin.
    { assert (newline ∈ take k bs) as (i & Hi & _)%elem_of_take by (rewrite Hl; set_solver).
      by eapply list_elem_of_lookup_2. }
    rewrite Forall_forall in HF. by apply (HF _ Hin).
Qed.

(** The versions differ on a last line without newline: the stream's end after
    [bs] (no newline, shorter than the buffer) makes [lib/readline.c] return the
    number of bytes, but [unixipc/lib/readline.c], [server/readline.c] and
    [server/readline_r.c] one more than the bytes they stored; and all of them
    return [maxlen] for a line that is cut at [maxlen - 1] bytes. *)
Theorem readline_versions (maxlen : nat) (bs : list Z) :
  bs <> [] -> Forall (fun c => 0 <= c < 256 /\ c <> newline) bs ->
  let n := Z.of_nat (length bs) in
  ((length bs < maxlen - 1)%nat ->
   (readline maxlen (readline_rinit [Data bs])).1 = Ok (n, bs) /\
   (readline_ipc maxlen (readline_rinit [Data bs])).1 = Ok (n + 1, bs) /\
   (readline_server maxlen [Data bs]).1 = Ok (n + 1, bs) /\
   (readline_r maxlen (readline_rinit [Data bs])).1 = Ok (n + 1, bs)) /\
  ((1 <= maxlen - 1 <= length bs)%nat ->
   (readline maxlen (readline_rinit [Data bs])).1 = Ok (Z.of_nat maxlen, take (maxlen - 1) bs) /\
   (readline_ipc maxlen (readline_rinit [Data bs])).1 = Ok (Z.of_nat maxlen, take (maxlen - 1) bs) /\
   (readline_server maxlen [Data bs]).1 = Ok (Z.of_nat maxlen, take (maxlen - 1) bs) /\
   (readline_r maxlen (readline_rinit [Data bs])).1 = Ok (Z.of_nat maxlen, take (maxlen - 1) bs)).
Proof.
  intros Hne HF n. assert (Forall (fun c => c <> newline) bs) as Hnl
    by (eapply Forall_impl; [exact HF|naive_solver]).
  assert ((fun c => Z.land c 255) <$> bs = bs) as Hland.
  { etrans; [|apply list_fmap_id]. apply list_fmap_ext. intros i c Hc. rewrite Forall_lookup in HF.
    destruct (HF i c Hc) as [Hr _]. by apply (land_ones_small c 8). }
  assert (forall s, rl_ok (readline_rinit s)) as Hok by (intros s Hc; simpl in Hc; lia).
  assert (rl_pending (readline_rinit [Data bs]) = (bs, None)) as Hpend.
  { unfold rl_pending. simpl. destruct bs; [done|]. by rewrite app_nil_r. }
  assert (flatten1 [Data bs] = (bs, None)) as Hp1 by (destruct bs; [done|]; simpl; by rewrite app_nil_r).
  assert (forall on_eof, (readline_loop my_read on_eof (maxlen - 1) 1 [] (readline_rinit [Data bs])).1 =
            line_result on_eof (maxlen - 1) (line_of (maxlen - 1) bs) None) as E1.
  { intros on_eof. pose proof (readline_spec my_read on_eof maxlen _ (Hok [Data bs])) as H.
    simpl in H. rewrite Hpend in H. destruct (readline_loop _ _ _ _ _ _). by destruct H as (_ & -> & _). }
  assert ((readline_loop read1 eof_break (maxlen - 1) 1 [] [Data bs]).1 =
            line_result eof_break (maxlen - 1) (line_of (maxlen - 1) bs) None) as E2.
  { pose proof (readline_spec read1 eof_break maxlen [Data bs] I) as H.
    change (pending [Data bs]) with (flatten1 [Data bs]) in H. rewrite Hp1 in H. destruct (readline_loop _ _ _ _ _ _). by destruct H as (_ & -> & _). }
  assert ((readline_loop my_read_r eof_break (maxlen - 1) 1 [] (readline_rinit [Data bs])).1 =
            line_result eof_break (maxlen - 1) (line_of (maxlen - 1) bs) None) as E3.
  { pose proof (readline_spec my_read_r eof_break maxlen _ (Hok [Data bs])) as H.
    simpl in H. rewrite Hpend in H. simpl in H. rewrite Hland in H.
    destruct (readline_loop my_read_r _ _ _ _ _). by destruct H as (_ & -> & _). }
  unfold readline, readline_ipc, readline_server, readline_r. rewrite !E1, E2, E3.
  split; intros Hm; rewrite !line_result_no_newline by (done || lia).
  - rewrite (proj2 (Nat.ltb_lt _ _)) by lia. unfold eof_count, eof_break.
    rewrite (proj2 (Z.eqb_neq _ _)) by (destruct bs; [done|simpl; lia]).
    split_and!; do 2 f_equal; lia.
  - rewrite (proj2 (Nat.ltb_ge _ _)) by lia.
    replace (Z.of_nat (maxlen - 1) + 1) with (Z.of_nat maxlen) by lia. done.
Qed.

Lemma readline_versions_witness :
  (readline 10 (readline_rinit [Data [65; 66]])).1 = Ok (2, [65; 66]) /\
  (readline_ipc 10 (readline_rinit [Data [65; 66]])).1 = Ok (3, [65; 66]).
Proof.
  destruct (readline_versions 10 [65; 66]) as [H _]; [done|repeat constructor; done|].
  destruct H as (H1 & H2 & _); [simpl; lia|]. by split.
Defined.

(** In [sock/writen.c] a failing [write] is taken for a huge success: the next
    request starts one byte before the buffer and is one byte longer. *)
Example writen_sock_ignores_errors :
  writen_sock 4 [Err EPIPE] = Some (4, [(0, 4); (-1, 5)]).
Proof. by vm_compute. Qed.
