(* ===== verification/StrCli.v ===== *)
(** * The nonblocking echo client

    [str_cli] of [unixNetV1/nonblock/strclinonb.c] copies standard input to a
    socket and the socket to standard output through two buffers, with all
    descriptors nonblocking and [select] telling what can be done.  A [turn] is
    one pass of the loop: which of the descriptors asked for [select] reports,
    and what the (up to four) [read] and [write] calls answer. *)
From S2P Require Import Prelude.

Definition MAXLINE : nat := 4096.

(** [char to[MAXLINE]] with [toiptr] and [tooptr] (and the same for [fr]), the
    pointers as offsets: data is read in at [iptr] and written out from [optr]. *)
Record cbuf := CBuf { mem : list Z; iptr : nat; optr : nat }.

Definition cbuf0 : cbuf := CBuf (replicate MAXLINE 0) 0 0.

(** The variables of [str_cli], and what has passed through its descriptors:
    bytes read from standard input, written to the socket, read from the socket,
    written to standard output, and the calls of [Shutdown(sockfd, SHUT_WR)]. *)
Record cli := Cli {
  to : cbuf; fr : cbuf; stdineof : bool;
  from_stdin : list Z; to_sock : list Z; from_sock : list Z; to_stdout : list Z; fins : nat }.

Definition cli0 : cli := Cli cbuf0 cbuf0 false [] [] [] [] 0.

(** Answers of [read] (at least one byte, end of file, error) and [write]. *)
Inductive rd := Bytes (b : Z) (bs : list Z) | Eof | RdErr (e : errno).
Inductive wr := Wrote (n : nat) | WrErr (e : errno).

Record turn := Turn {
  stdin_r : bool; sock_r : bool; stdout_w : bool; sock_w : bool;
  stdin_rd : rd; sock_rd : rd; stdout_wr : wr; sock_wr : wr }.

(** How [str_cli] ends: [return], [err_quit] ("server terminated prematurely"),
    or [err_sys]. *)
Inductive ending := Returns | Premature | Failed (e : errno).

Definition would_block (e : errno) : bool := bool_decide (e = EWOULDBLOCK) || bool_decide (e = EAGAIN).

(** [read(fd, iptr, &mem[MAXLINE] - iptr)] with [n > 0]: the bytes stored and the
    buffer. *)
Definition read_in (b : cbuf) (bs : list Z) : cbuf * list Z :=
  let got := take (MAXLINE - iptr b) bs in
  (CBuf (poke (iptr b) got (mem b)) (iptr b + length got) (optr b), got).

(** What is in the buffer. *)
Definition pending (b : cbuf) : list Z := take (iptr b - optr b) (drop (optr b) (mem b)).

(** [optr += nwritten; if (optr == iptr) optr = iptr = mem;] *)
Definition written_out (b : cbuf) (n : nat) : cbuf :=
  let o := (optr b + n)%nat in
  if (o =? iptr b)%nat then CBuf (mem b) 0 0 else CBuf (mem b) (iptr b) o.

(** The first part of the loop's body: standard input, if [select] reported
    it; also whether it adds the socket to [wset]. *)
Definition stdin_part (isset : bool) (a : rd) (s : cli) : ending + cli * bool :=
  if isset then
    match a with
    | RdErr e => if would_block e then inr (s, false) else inl (Failed e)
    | Eof =>
        let fin := (optr (to s) =? iptr (to s))%nat in
        inr (Cli (to s) (fr s) true (from_stdin s) (to_sock s) (from_sock s) (to_stdout s)
               (if fin then S (fins s) else fins s), false)
    | Bytes b bs =>
        let '(to', got) := read_in (to s) (b :: bs) in
        inr (Cli to' (fr s) (stdineof s) (from_stdin s ++ got) (to_sock s) (from_sock s)
               (to_stdout s) (fins s), true)
    end
  else inr (s, false).

(** The second part: reading the socket; also whether it adds standard output to
    [wset]. *)
Definition sock_part (isset : bool) (a : rd) (s : cli) : ending + cli * bool :=
  if isset then
    match a with
    | RdErr e => if would_block e then inr (s, false) else inl (Failed e)
    | Eof => inl (if stdineof s then Returns else Premature)
    | Bytes b bs =>
        let '(fr', got) := read_in (fr s) (b :: bs) in
        inr (Cli (to s) fr' (stdineof s) (from_stdin s) (to_sock s) (from_sock s ++ got)
               (to_stdout s) (fins s), true)
    end
  else inr (s, false).

(** The third part: writing to standard output. *)
Definition stdout_part (isset : bool) (a : wr) (s : cli) : ending + cli :=
  let n := (iptr (fr s) - optr (fr s))%nat in
  if isset && (0 <? n)%nat then
    match a with
    | WrErr e => if would_block e then inr s else inl (Failed e)
    | Wrote k =>
        let nwritten := Nat.min k n in
        inr (Cli (to s) (written_out (fr s) nwritten) (stdineof s) (from_stdin s) (to_sock s)
               (from_sock s) (to_stdout s ++ take nwritten (pending (fr s))) (fins s))
    end
  else inr s.

(** The fourth part: writing to the socket. *)
Definition sockw_part (isset : bool) (a : wr) (s : cli) : ending + cli :=
  let n := (iptr (to s) - optr (to s))%nat in
  if isset && (0 <? n)%nat then
    match a with
    | WrErr e => if would_block e then inr s else inl (Failed e)
    | Wrote k =>
        let nwritten := Nat.min k n in
        let drained := (optr (to s) + nwritten =? iptr (to s))%nat in
        inr (Cli (written_out (to s) nwritten) (fr s) (stdineof s) (from_stdin s)
               (to_sock s ++ take nwritten (pending (to s))) (from_sock s) (to_stdout s)
               (if drained && stdineof s then S (fins s) else fins s))
    end
  else inr s.

(** What is put into [rset] and [wset]. *)
Definition ask_stdin (s : cli) : bool := negb (stdineof s) && (iptr (to s) <? MAXLINE)%nat.
Definition ask_sock (s : cli) : bool := (iptr (fr s) <? MAXLINE)%nat.
Definition ask_sockw (s : cli) : bool := negb (optr (to s) =? iptr (to s))%nat.
Definition ask_stdout (s : cli) : bool := negb (optr (fr s) =? iptr (fr s))%nat.

(** One pass of the loop. *)
Definition pass (t : turn) (s : cli) : ending * cli + cli :=
  match stdin_part (ask_stdin s && stdin_r t) (stdin_rd t) s with
  | inl e => inl (e, s)
  | inr (s1, set_sockw) =>
  match sock_part (ask_sock s && sock_r t) (sock_rd t) s1 with
  | inl e => inl (e, s1)
  | inr (s2, set_stdout) =>
  match stdout_part ((ask_stdout s && stdout_w t) || set_stdout) (stdout_wr t) s2 with
  | inl e => inl (e, s2)
  | inr s3 =>
  match sockw_part ((ask_sockw s && sock_w t) || set_sockw) (sock_wr t) s3 with
  | inl e => inl (e, s3)
  | inr s4 => inr s4
  end end end end.

(** [str_cli] over a sequence of turns: how it ended, if it did, and its
    state. *)
Fixpoint str_cli (ts : list turn) (s : cli) : option ending * cli :=
  match ts with
  | [] => (None, s)
  | t :: ts =>
      match pass t s with
      | inl (e, s') => (Some e, s')
      | inr s' => str_cli ts s'
      end
  end.

(** ** Buffers *)

(** The pointers are in order and in the array, and an empty buffer is at its
    beginning. *)
Record cbuf_ok (b : cbuf) : Prop := {
  cb_len : length (mem b) = MAXLINE;
  cb_order : (optr b <= iptr b <= MAXLINE)%nat;
  cb_reset : optr b = iptr b -> iptr b = 0%nat }.

Lemma cbuf0_ok : cbuf_ok cbuf0.
Proof. split; [apply length_replicate|simpl; lia|done]. Qed.

(** Either there is room to read, or there is something to write. *)
Lemma cbuf_room b : cbuf_ok b -> (iptr b < MAXLINE \/ optr b < iptr b)%nat.
Proof. intros [_ Ho Hr]. unfold MAXLINE in *. lia. Qed.

Lemma pending_length b : cbuf_ok b -> length (pending b) = (iptr b - optr b)%nat.
Proof. intros [Hl Ho _]. unfold pending. rewrite length_take, length_drop. lia. Qed.

Lemma pending_nil b : cbuf_ok b -> pending b = [] <-> optr b = iptr b.
Proof.
  intros Hb. pose proof (pending_length b Hb). destruct Hb as [_ Ho _].
  destruct (pending b); simpl in *; split; intros; try done; lia.
Qed.

Lemma read_in_ok b x bs :
  cbuf_ok b -> (iptr b < MAXLINE)%nat ->
  let '(b', got) := read_in b (x :: bs) in
  cbuf_ok b' /\ pending b' = pending b ++ got /\ got <> [] /\ got `prefix_of` (x :: bs).
Proof.
  intros [Hl Ho Hr] Hlt. unfold read_in.
  assert (length (take (MAXLINE - iptr b) (x :: bs)) <= MAXLINE - iptr b)%nat as Hg
    by (rewrite length_take; lia).
  assert (take (MAXLINE - iptr b) (x :: bs) <> []) as Hne.
  { destruct (MAXLINE - iptr b)%nat eqn:E; [lia|done]. }
  assert (take (MAXLINE - iptr b) (x :: bs) `prefix_of` (x :: bs)) as Hpre by apply prefix_take.
  set (got := take (MAXLINE - iptr b) (x :: bs)) in *.
  split_and!; try done.
  - split; simpl; [rewrite poke_length; lia|lia|]. destruct got; [done|]; simpl; lia.
  - unfold pending; simpl. unfold poke.
    rewrite drop_app_le by (rewrite length_take; lia).
    rewrite (take_app_ge _ (got ++ _)) by (rewrite length_drop, length_take; lia).
    rewrite length_drop, length_take, Nat.min_l by lia.
    replace (iptr b + length got - optr b - (iptr b - optr b))%nat with (length got) by lia.
    rewrite take_app_length. f_equal. by rewrite skipn_firstn_comm.
Qed.

Lemma written_out_ok b n :
  cbuf_ok b -> (n <= iptr b - optr b)%nat ->
  cbuf_ok (written_out b n) /\ pending b = take n (pending b) ++ pending (written_out b n) /\
  ((optr b + n =? iptr b)%nat = true <-> pending (written_out b n) = []).
Proof.
  intros Hb Hn. pose proof Hb as [Hl Ho Hr].
  assert (cbuf_ok (written_out b n)) as Hb'.
  { unfold written_out. destruct (Nat.eqb_spec (optr b + n) (iptr b)); split; simpl; try done; lia. }
  split; [done|]. rewrite (pending_nil _ Hb'). unfold written_out, pending in *.
  destruct (Nat.eqb_spec (optr b + n) (iptr b)); simpl.
  - split; [|done]. rewrite app_nil_r, take_take. f_equal. lia.
  - split; [|split; [done|intros; lia]].
    rewrite <- (take_drop n (take (iptr b - optr b) _)) at 1. f_equal.
    rewrite skipn_firstn_comm, drop_drop. f_equal. lia.
Qed.

(** ** The invariant *)

Record cli_ok (s : cli) : Prop := {
  ok_to : cbuf_ok (to s);
  ok_fr : cbuf_ok (fr s);
  ok_up : from_stdin s = to_sock s ++ pending (to s);
  ok_down : from_sock s = to_stdout s ++ pending (fr s);
  ok_fins : fins s = if stdineof s && bool_decide (pending (to s) = []) then 1%nat else 0%nat }.

Lemma cli0_ok : cli_ok cli0.
Proof. split; simpl; try done; apply cbuf0_ok. Qed.

Lemma stdin_part_ok isset a s s' b :
  cli_ok s -> (isset = true -> ask_stdin s = true) ->
  stdin_part isset a s = inr (s', b) -> cli_ok s' /\ fr s' = fr s.
Proof.
  intros Hs Hask. pose proof Hs as [Ht Hf Hu Hd Hn]. unfold stdin_part.
  destruct isset; [|by intros [= <- <-]]. specialize (Hask eq_refl). unfold ask_stdin in Hask.
  apply andb_true_iff in Hask as [He%negb_true_iff Hlt%Nat.ltb_lt].
  destruct a as [x bs| |e].
  - pose proof (read_in_ok (to s) x bs Ht Hlt) as Hr. destruct (read_in (to s) (x :: bs)) as [to' got].
    destruct Hr as (Hb & Hp & _ & _). intros [= <- <-]. split; [|done]. split; simpl; try done.
    + by rewrite Hp, Hu, app_assoc.
    + by rewrite He, Hn, He.
  - intros [= <- <-]. split; [|done]. split; simpl; try done. rewrite Hn, He. simpl.
    destruct (Nat.eqb_spec (optr (to s)) (iptr (to s))).
    + rewrite bool_decide_true; [done|]. by apply pending_nil.
    + rewrite bool_decide_false; [done|]. by rewrite pending_nil.
  - destruct (would_block e); [|done]. by intros [= <- <-].
Qed.

Lemma sock_part_ok isset a s s' b :
  cli_ok s -> (isset = true -> ask_sock s = true) ->
  sock_part isset a s = inr (s', b) -> cli_ok s'.
Proof.
  intros Hs Hask. pose proof Hs as [Ht Hf Hu Hd Hn]. unfold sock_part.
  destruct isset; [|by intros [= <- <-]]. specialize (Hask eq_refl). apply Nat.ltb_lt in Hask.
  destruct a as [x bs| |e].
  - pose proof (read_in_ok (fr s) x bs Hf Hask) as Hr. destruct (read_in (fr s) (x :: bs)) as [fr' got].
    destruct Hr as (Hb & Hp & _ & _). intros [= <- <-]. split; simpl; try done.
    by rewrite Hp, Hd, app_assoc.
  - done.
  - destruct (would_block e); [|done]. by intros [= <- <-].
Qed.

Lemma stdout_part_ok isset a s s' :
  cli_ok s -> stdout_part isset a s = inr s' -> cli_ok s'.
Proof.
  intros Hs. pose proof Hs as [Ht Hf Hu Hd Hn]. unfold stdout_part.
  destruct (isset && _); [|by intros [= <-]].
  destruct a as [k|e]; [|destruct (would_block e); [|done]; by intros [= <-]]. intros [= <-].
  destruct (written_out_ok (fr s) (Nat.min k (iptr (fr s) - optr (fr s))) Hf ltac:(lia)) as (Hb & Hp & _).
  split; simpl; try done. by rewrite <- app_assoc, <- Hp.
Qed.

Lemma sockw_part_ok isset a s s' :
  cli_ok s -> sockw_part isset a s = inr s' -> cli_ok s'.
Proof.
  intros Hs. pose proof Hs as [Ht Hf Hu Hd Hn]. unfold sockw_part.
  destruct (isset && _) eqn:Hc; [|by intros [= <-]].
  apply andb_true_iff in Hc as [_ Hpos%Nat.ltb_lt].
  destruct a as [k|e]; [|destruct (would_block e); [|done]; by intros [= <-]]. intros [= <-].
  destruct (written_out_ok (to s) (Nat.min k (iptr (to s) - optr (to s))) Ht ltac:(lia)) as (Hb & Hp & Hz).
  split; simpl; try done.
  - by rewrite <- app_assoc, <- Hp.
  - assert (fins s = 0%nat) as ->.
    { rewrite Hn, bool_decide_false; [by rewrite andb_false_r|]. rewrite pending_nil by done. lia. }
    rewrite (andb_comm (stdineof s)).
    replace (bool_decide (pending _ = [])) with
      (optr (to s) + Nat.min k (iptr (to s) - optr (to s)) =? iptr (to s))%nat; [done|].
    apply eq_true_iff_eq. by rewrite bool_decide_eq_true.
Qed.

(** A pass preserves the invariant, whatever it ends in. *)
Lemma pass_ok t s :
  cli_ok s -> match pass t s with inl (_, s') | inr s' => cli_ok s' end.
Proof.
  intros Hs. unfold pass.
  destruct (stdin_part _ _ _) as [e|[s1 b1]] eqn:E1; [done|].
  apply stdin_part_ok in E1 as [H1 Hfr]; [|done|by intros [? _]%andb_true_iff].
  destruct (sock_part _ _ _) as [e|[s2 b2]] eqn:E2; [done|].
  apply sock_part_ok in E2 as H2; [|done|unfold ask_sock; rewrite Hfr; by intros [? _]%andb_true_iff].
  destruct (stdout_part _ _ _) as [e|s3] eqn:E3; [done|]. apply stdout_part_ok in E3 as H3; [|done].
  destruct (sockw_part _ _ _) as [e|s4] eqn:E4; [done|]. by apply sockw_part_ok in E4.
Qed.

Lemma str_cli_ok ts s : cli_ok s -> cli_ok (str_cli ts s).2.
Proof.
  revert s. induction ts as [|t ts IH]; intros s Hs; simpl; [done|].
  pose proof (pass_ok t s Hs). destruct (pass t s) as [[e s']|s']; auto.
Qed.

(** Normal termination comes only after the end of standard input. *)
Lemma pass_returns t s s' : pass t s = inl (Returns, s') -> stdineof s' = true.
Proof.
  unfold pass.
  destruct (stdin_part _ _ _) as [e|[s1 b1]] eqn:E1.
  { intros [= -> <-]. revert E1. unfold stdin_part, read_in.
    destruct (_ && _), (stdin_rd t); try done. by destruct (would_block e). }
  destruct (sock_part _ _ _) as [e|[s2 b2]] eqn:E2.
  { intros [= -> <-]. revert E2. clear E1. unfold sock_part, read_in.
    destruct (_ && _), (sock_rd t); try done; [by destruct (stdineof s1); intros; simplify_eq|by destruct (would_block e)]. }
  destruct (stdout_part _ _ _) as [e|s3] eqn:E3.
  { intros [= -> <-]. revert E3. clear E1 E2. unfold stdout_part.
    destruct (_ && _), (stdout_wr t); try done. by destruct (would_block e). }
  destruct (sockw_part _ _ _) as [e|s4] eqn:E4; [|done].
  intros [= -> <-]. revert E4. clear E1 E2 E3. unfold sockw_part.
  destruct (_ && _), (sock_wr t); try done. by destruct (would_block e).
Qed.

Lemma str_cli_returns ts s s' : str_cli ts s = (Some Returns, s') -> stdineof s' = true.
Proof.
  revert s. induction ts as [|t ts IH]; intros s; simpl; [done|].
  destruct (pass t s) as [[e s1]|s1] eqn:E; [|apply IH]. intros [= -> <-]. by eapply pass_returns.
Qed.

(** After the end of standard input was seen nothing more is read from it. *)
Lemma pass_eof t s :
  stdineof s = true ->
  match pass t s with inl (_, s') | inr s' => stdineof s' = true /\ from_stdin s' = from_stdin s end.
Proof.
  intros He. unfold pass, ask_stdin. rewrite He. simpl.
  destruct (sock_part _ _ _) as [e|[s2 b2]] eqn:E2; [done|].
  assert (stdineof s2 = true /\ from_stdin s2 = from_stdin s) as H2.
  { clear -E2 He. unfold sock_part, read_in in E2. split_tests; done. }
  destruct (stdout_part _ _ _) as [e|s3] eqn:E3; [done|].
  assert (stdineof s3 = true /\ from_stdin s3 = from_stdin s) as H3.
  { clear -E3 H2. unfold stdout_part in E3. split_tests; done. }
  destruct (sockw_part _ _ _) as [e|s4] eqn:E4; [done|].
  clear -E4 H3. unfold sockw_part in E4. split_tests; done.
Qed.

(** C12: Through any sequence of readiness reports, short reads, short writes
    and would-block answers, [str_cli] copies faithfully in both directions: what
    was read from standard input is what was written to the socket followed by
    what its buffer holds, and the same from the socket to standard output; the
    pointers stay inside the buffers.  [select] is never called with nothing to
    wait for on the receiving side.  The FIN is sent once, when the end of
    standard input was seen and its last byte is written, and nothing is read
    from standard input after that; the function returns normally only after the
    end of standard input. *)
Theorem str_cli_copies ts :
  let '(ended, s) := str_cli ts cli0 in
  from_stdin s = to_sock s ++ pending (to s) /\
  from_sock s = to_stdout s ++ pending (fr s) /\
  (optr (to s) <= iptr (to s) <= MAXLINE)%nat /\ (optr (fr s) <= iptr (fr s) <= MAXLINE)%nat /\
  length (mem (to s)) = MAXLINE /\ length (mem (fr s)) = MAXLINE /\
  ask_sock s || ask_stdout s = true /\ (stdineof s || ask_stdin s || ask_sockw s = true) /\
  (fins s <= 1)%nat /\ (fins s = 1%nat <-> stdineof s = true /\ to_sock s = from_stdin s) /\
  (stdineof s = true -> forall t s', pass t s = inr s' -> from_stdin s' = from_stdin s) /\
  (ended = Some Returns -> stdineof s = true).
Proof.
  pose proof (str_cli_ok ts cli0 cli0_ok) as [[Tl To Tr] Hf Hu Hd Hn].
  pose proof (cbuf_room _ Hf) as Hroom. pose proof Hf as [Fl Fo Fr].
  pose proof (str_cli_returns ts cli0) as Hret.
  destruct (str_cli ts cli0) as [ended s]. simpl in *.
  split_and!; try done; try lia.
  - apply orb_true_iff. unfold ask_sock, ask_stdout. rewrite negb_true_iff, Nat.ltb_lt, Nat.eqb_neq. lia.
  - unfold ask_stdin, ask_sockw, MAXLINE in *. destruct (stdineof s); [done|]. simpl.
    destruct (Nat.ltb_spec (iptr (to s)) 4096); [done|]. simpl.
    apply negb_true_iff, Nat.eqb_neq. lia.
  - rewrite Hn. destruct (_ && _); lia.
  - rewrite Hn, Hu. destruct (stdineof s); simpl; [|by split; [|intros [? _]]].
    destruct (pending (to s)) as [|x l]; simpl; [by rewrite app_nil_r|].
    split; [done|]. intros [_ E%(f_equal length)]. rewrite length_app in E. simpl in E. lia.
  - intros He t s' Hp. pose proof (pass_eof t s He) as H. rewrite Hp in H. tauto.
  - intros ->. by eapply Hret.
Qed.

(** When the server closes its side while data for standard output is still in
    the buffer, [str_cli] returns normally without writing it: here ["A"] is
    lost. *)
Example str_cli_drops_output :
  let t1 := Turn true false false false Eof Eof (Wrote 0) (Wrote 0) in
  let t2 := Turn false true false false Eof (Bytes 65 []) (WrErr EWOULDBLOCK) (Wrote 0) in
  let t3 := Turn false true false false Eof Eof (Wrote 0) (Wrote 0) in
  exists s, str_cli [t1; t2; t3] cli0 = (Some Returns, s) /\ from_sock s = [65] /\ to_stdout s = [].
Proof. eexists; split; [vm_compute; reflexivity|split; vm_compute; reflexivity]. Qed.
