(* ===== verification/DgSendRecv.v ===== *)
(** * Round-trip estimation and reliable datagrams

    [unixNetV1/lib/rtt.c], the estimator of the retransmission timeout, and
    [unixNetV1/rtt/dg_send_recv.c], which sends a datagram and waits for its
    reply, retransmitting when a [SIGALRM] arrives first.

    The estimator computes in [float] and [double]: the model uses the IEEE 754
    operations of the Standard Library's [SpecFloat] (round to nearest even) with
    the two formats' precisions, converting where C's promotions and assignments
    do (each operation in the type of its operands).  The reply loop runs over the
    sequence of events it can see: datagrams and alarms, with the answers of
    [gettimeofday] at the calls they lead to. *)
From Stdlib Require Import SpecFloat.
From S2P Require Import Prelude.

(** ** [float] and [double] *)

Definition convert (prec emax : Z) (x : spec_float) : spec_float :=
  match x with
  | S754_finite s m e => binary_normalize prec emax (cond_Zopp s (Zpos m)) e s
  | _ => x
  end.

Definition to_float : spec_float -> spec_float := convert 24 128.
Definition to_double : spec_float -> spec_float := convert 53 1024.

Definition float_of_Z (z : Z) : spec_float := binary_normalize 24 128 z 0 false.
Definition double_of_Z (z : Z) : spec_float := binary_normalize 53 1024 z 0 false.

Definition fsub : spec_float -> spec_float -> spec_float := SFsub 24 128.
Definition fmul : spec_float -> spec_float -> spec_float := SFmul 24 128.
Definition dadd : spec_float -> spec_float -> spec_float := SFadd 53 1024.
Definition dsub : spec_float -> spec_float -> spec_float := SFsub 53 1024.
Definition dmul : spec_float -> spec_float -> spec_float := SFmul 53 1024.
Definition ddiv : spec_float -> spec_float -> spec_float := SFdiv 53 1024.

(** Conversion of a [double] to [int]: towards zero; undefined ([None]) when the
    value does not fit. *)
Definition int_of_double (x : spec_float) : option Z :=
  match x with
  | S754_zero _ => Some 0
  | S754_finite s m e =>
      let z := cond_Zopp s (if 0 <=? e then Zpos m * 2 ^ e else Zpos m / 2 ^ (- e)) in
      if (- 2 ^ 31 <=? z) && (z <? 2 ^ 31) then Some z else None
  | _ => None
  end.

(** ** [rtt.c] *)

Record rtt_info := RttInfo {
  rtt_rtt : spec_float; rtt_srtt : spec_float; rtt_rttvar : spec_float; rtt_rto : spec_float;
  rtt_nrexmt : Z; rtt_base : Z }.

Definition RTT_RXTMIN : Z := 2.
Definition RTT_RXTMAX : Z := 60.
Definition RTT_MAXNREXMT : Z := 3.

Record timeval := Timeval { tv_sec : Z; tv_usec : Z }.

(** [srtt + (4.0 * rttvar)] *)
Definition RTT_RTOCALC (srtt rttvar : spec_float) : spec_float :=
  dadd (to_double srtt) (dmul (double_of_Z 4) (to_double rttvar)).

Definition rtt_minmax (rto : spec_float) : spec_float :=
  if SFltb rto (float_of_Z RTT_RXTMIN) then float_of_Z RTT_RXTMIN
  else if SFltb (float_of_Z RTT_RXTMAX) rto then float_of_Z RTT_RXTMAX
  else rto.

(** [0.75] and [0.5] *)
Definition three_quarters : spec_float := binary_normalize 53 1024 3 (-2) false.
Definition one_half : spec_float := binary_normalize 53 1024 1 (-1) false.

Definition rtt_init (ptr : rtt_info) (tv : timeval) : rtt_info :=
  let rttvar := to_float three_quarters in
  let srtt := float_of_Z 0 in
  RttInfo (float_of_Z 0) srtt rttvar (rtt_minmax (to_float (RTT_RTOCALC srtt rttvar)))
    (rtt_nrexmt ptr) (u32 (tv_sec tv)).

Definition rtt_ts (ptr : rtt_info) (tv : timeval) : Z :=
  u32 ((tv_sec tv - rtt_base ptr) * 1000 + Z.quot (tv_usec tv) 1000).

Definition rtt_newpack (ptr : rtt_info) : rtt_info :=
  RttInfo (rtt_rtt ptr) (rtt_srtt ptr) (rtt_rttvar ptr) (rtt_rto ptr) 0 (rtt_base ptr).

Definition rtt_start (ptr : rtt_info) : option Z :=
  int_of_double (dadd (to_double (rtt_rto ptr)) one_half).

Definition rtt_stop (ptr : rtt_info) (ms : Z) : rtt_info :=
  let rtt := to_float (ddiv (double_of_Z ms) (double_of_Z 1000)) in
  let delta := to_double (fsub rtt (rtt_srtt ptr)) in
  let srtt := to_float (dadd (to_double (rtt_srtt ptr)) (ddiv delta (double_of_Z 8))) in
  let delta := if SFltb delta (double_of_Z 0) then SFopp delta else delta in
  let rttvar64 := to_double (rtt_rttvar ptr) in
  let rttvar := to_float (dadd rttvar64 (ddiv (dsub delta rttvar64) (double_of_Z 4))) in
  RttInfo rtt srtt rttvar (rtt_minmax (to_float (RTT_RTOCALC srtt rttvar)))
    (rtt_nrexmt ptr) (rtt_base ptr).

(** [rtt_timeout] and whether it returned -1. *)
Definition rtt_timeout (ptr : rtt_info) : rtt_info * bool :=
  let n := rtt_nrexmt ptr + 1 in
  (RttInfo (rtt_rtt ptr) (rtt_srtt ptr) (rtt_rttvar ptr) (fmul (rtt_rto ptr) (float_of_Z 2))
     n (rtt_base ptr), n >? RTT_MAXNREXMT).

(** ** [dg_send_recv.c] *)

(** A datagram: shorter than [struct hdr], or a sequence number, a time stamp and
    the data behind them. *)
Inductive dgram := Short | Full (seq ts : Z) (body : list Z).

(** What happens while the function waits: a datagram is received (with the
    answer of [gettimeofday] should it be the reply), the alarm goes off (with its
    answer at the retransmission), or the alarm goes off after [Recvmsg] returned
    a datagram but before [alarm(0)]. *)
Inductive event := Arrive (d : dgram) (now : timeval) | Alarm (now : timeval) | Late (d : dgram) (now : timeval).

(** The static variables. *)
Record dg := Dg { rttinfo : rtt_info; rttinit : bool; sendhdr_seq : Z }.

(** What is sent: the header's fields and the data, with the seconds given to
    [alarm]. *)
Record sent := Sent { s_seq : Z; s_ts : Z; s_body : list Z; s_alarm : option Z }.

(** The end of a call: the data stored in [inbuff] (its number is the value
    returned), or -1 with [ETIMEDOUT]; or it still waits. *)
Inductive result := Got (data : list Z) | TimedOut | Waiting.

(** Is the datagram the reply: [n >= sizeof(struct hdr)] and the sequence number
    fits. *)
Definition is_reply (seq : Z) (d : dgram) : option (Z * list Z) :=
  match d with
  | Full s ts body => if s =? seq then Some (ts, body) else None
  | Short => None
  end.

(** From [sendagain] to the first wait. *)
Definition transmit (info : rtt_info) (seq : Z) (out : list Z) (now : timeval) : sent :=
  Sent seq (rtt_ts info now) out (rtt_start info).

Fixpoint wait_reply (seq : Z) (out : list Z) (inbytes : nat) (info : rtt_info) (log : list sent)
    (evs : list event) : dg * list sent * result :=
  (* [sigsetjmp] returned 1 *)
  let timeout now (k : rtt_info -> list sent -> dg * list sent * result) :=
    let '(info', giving_up) := rtt_timeout info in
    if (giving_up : bool) then (Dg info' false seq, log, TimedOut)
    else k info' (log ++ [transmit info' seq out now]) in
  match evs with
  | [] => (Dg info true seq, log, Waiting)
  | Alarm now :: evs | Late _ now :: evs =>
      timeout now (fun info' log' => wait_reply seq out inbytes info' log' evs)
  | Arrive d now :: evs =>
      match is_reply seq d with
      | Some (ts, body) =>
          (Dg (rtt_stop info (u32 (rtt_ts info now - ts))) true seq, log, Got (take inbytes body))
      | None => wait_reply seq out inbytes info log evs
      end
  end.

(** [dg_send_recv] with the answers of [gettimeofday] in [rtt_init] and at the
    first transmission. *)
Definition dg_send_recv (st : dg) (out : list Z) (inbytes : nat) (t0 t1 : timeval) (evs : list event)
    : dg * list sent * result :=
  let info := if rttinit st then rttinfo st else rtt_init (rttinfo st) t0 in
  let seq := u32 (sendhdr_seq st + 1) in
  let info := rtt_newpack info in
  wait_reply seq out inbytes info [transmit info seq out t1] evs.

(** [Dg_send_recv]: [None] is [err_quit]. *)
Definition Dg_send_recv (st : dg) (out : list Z) (inbytes : nat) (t0 t1 : timeval) (evs : list event)
    : option (list Z) + dg :=
  match dg_send_recv st out inbytes t0 t1 evs with
  | (_, _, Got data) => inl (Some data)
  | (_, _, TimedOut) => inl None
  | (st', _, Waiting) => inr st'
  end.

(** ** Specification *)

Definition is_alarm (e : event) : bool := match e with Arrive _ _ => false | _ => true end.

Definition alarms (evs : list event) : nat := length (filter (fun e => is_alarm e = true) evs).

(** The events up to the first reply, and the reply's data. *)
Fixpoint until_reply (seq : Z) (evs : list event) : list event * option (list Z) :=
  match evs with
  | [] => ([], None)
  | Arrive d now :: evs' =>
      match is_reply seq d with
      | Some (_, body) => ([], Some body)
      | None => let '(b, r) := until_reply seq evs' in (Arrive d now :: b, r)
      end
  | e :: evs' => let '(b, r) := until_reply seq evs' in (e :: b, r)
  end.

(** The estimator after [k] timeouts. *)
Definition backoff (info : rtt_info) (k : nat) : rtt_info := Nat.iter k (fun i => (rtt_timeout i).1) info.

Lemma backoff_S info k : backoff info (S k) = backoff (rtt_timeout info).1 k.
Proof. unfold backoff. by rewrite Nat.iter_succ_r. Qed.

Definition in_range (rto : spec_float) : Prop :=
  SFltb rto (float_of_Z RTT_RXTMIN) = false /\ SFltb (float_of_Z RTT_RXTMAX) rto = false.

Lemma rtt_minmax_range x : in_range (rtt_minmax x).
Proof.
  unfold in_range, rtt_minmax.
  destruct (SFltb x (float_of_Z RTT_RXTMIN)) eqn:E1; [done|].
  destruct (SFltb (float_of_Z RTT_RXTMAX) x) eqn:E2; [done|]. auto.
Qed.

(** What a call that has timed out [k] times does with the events [evs]: it gives
    up if [3 - k] more alarms come before a reply, else it takes the first
    reply. *)
Definition verdict (k : nat) (inbytes : nat) (u : list event * option (list Z)) : result :=
  if (3 - k <? alarms u.1)%nat then TimedOut
  else match u.2 with Some body => Got (take inbytes body) | None => Waiting end.

(** The retransmissions that add up to it. *)
Definition retransmissions (seq : Z) (out : list Z) (info : rtt_info) (l : list sent) : Prop :=
  Forall (fun s => s_seq s = seq /\ s_body s = out) l /\
  s_alarm <$> l = (fun j => rtt_start (backoff info (S j))) <$> List.seq 0 (length l).

Lemma retransmissions_cons seq out info now l :
  retransmissions seq out (rtt_timeout info).1 l ->
  retransmissions seq out info (transmit (rtt_timeout info).1 seq out now :: l).
Proof.
  intros [H1 H2]. split; [by constructor|].
  cbn [length List.seq]. rewrite !fmap_cons, H2, <- fmap_S_seq, <- list_fmap_compose. f_equal.
  apply list_fmap_ext. intros i j _. unfold compose. by rewrite (backoff_S info (S j)).
Qed.

Record call_ok (seq : Z) (out : list Z) (inbytes : nat) (info : rtt_info) (k : nat)
    (u : list event * option (list Z)) (st : dg) (l : list sent) (r : result) : Prop := {
  call_result : r = verdict k inbytes u;
  call_log : length l = Nat.min (alarms u.1) (3 - k) /\ retransmissions seq out info l;
  call_seq : sendhdr_seq st = seq;
  call_init : rttinit st = true <-> r <> TimedOut;
  call_rto : forall data, r = Got data -> in_range (rtt_rto (rttinfo st)) }.

Lemma wait_reply_spec seq out inbytes evs k info log :
  rtt_nrexmt info = Z.of_nat k -> (k <= 3)%nat ->
  exists st l r, wait_reply seq out inbytes info log evs = (st, log ++ l, r) /\
    call_ok seq out inbytes info k (until_reply seq evs) st l r.
Proof.
  revert k info log. induction evs as [|e evs IH]; intros k info log Hk Hle.
  { exists (Dg info true seq), [], Waiting. simpl. rewrite app_nil_r. split; [done|]. split; try done. }
  assert (forall now, let u := until_reply seq evs in
    exists st l r,
    (let '(info', giving_up) := rtt_timeout info in
     if (giving_up : bool) then (Dg info' false seq, log, TimedOut)
     else wait_reply seq out inbytes info' (log ++ [transmit info' seq out now]) evs) = (st, log ++ l, r) /\
    forall e', is_alarm e' = true -> call_ok seq out inbytes info k (e' :: u.1, u.2) st l r) as Htimeout.
  { intros now u. destruct (rtt_timeout info) as [info' b] eqn:Et.
    assert (info' = (rtt_timeout info).1) as Ei by by rewrite Et.
    assert (forall e', is_alarm e' = true -> alarms (e' :: u.1) = S (alarms u.1)) as Ha.
    { intros e' He'. unfold alarms. by rewrite filter_cons, decide_True. }
    unfold rtt_timeout, RTT_MAXNREXMT in Et. injection Et as Ei' Eb. rewrite Hk, Z.gtb_ltb in Eb.
    destruct b.
    - apply Z.ltb_lt in Eb. assert (k = 3%nat) as -> by lia.
      exists (Dg info' false seq), [], TimedOut. rewrite app_nil_r. split; [done|]. intros e' He'.
      split; try done; [unfold verdict; simpl fst; by rewrite Ha|].
      split; [simpl fst; rewrite Ha by done; simpl; lia|]. by split.
    - apply Z.ltb_ge in Eb. destruct (IH (S k) info' (log ++ [transmit info' seq out now]))
        as (st & l & r & E & [H1 [H2 H2'] H3 H4 H5]); [rewrite <- Ei'; simpl; lia|lia|].
      exists st, (transmit info' seq out now :: l), r. rewrite E, <- app_assoc. split; [done|].
      intros e' He'. split; try done.
      + rewrite H1. unfold verdict. simpl fst. simpl snd. rewrite Ha by done.
        replace (3 - k <? S (alarms u.1))%nat with (3 - S k <? alarms u.1)%nat; [done|].
        destruct (Nat.ltb_spec (3 - S k) (alarms u.1)), (Nat.ltb_spec (3 - k) (S (alarms u.1))); done || lia.
      + split; [simpl; rewrite Ha by done; fold u in H2; lia|]. subst info'. by apply retransmissions_cons. }
  destruct e as [d now|now|d now]; simpl.
  - destruct (is_reply seq d) as [[ts body]|].
    + eexists _, [], _. rewrite app_nil_r. split; [reflexivity|].
      split; try done. intros data _. apply rtt_minmax_range.
    + destruct (IH k info log Hk Hle) as (st & l & r & E & HC).
      destruct (until_reply seq evs) as [b o]. exists st, l, r. split; [done|].
      destruct HC as [H1 H2 H3 H4 H5]. by split.
  - destruct (Htimeout now) as (st & l & r & E & HC). exists st, l, r. split; [exact E|].
    destruct (until_reply seq evs) as [b o]. by apply HC.
  - destruct (Htimeout now) as (st & l & r & E & HC). exists st, l, r. split; [exact E|].
    destruct (until_reply seq evs) as [b o]. by apply HC.
Qed.

(** ** The theorem *)

(** C13: For every sequence of datagrams and alarms a call of [dg_send_recv]
    sends its datagram once and then once per alarm, at most four times in all,
    always with the next sequence number and the same data, doubling the
    estimator's timeout each time.  It returns the data of the first datagram
    that carries this sequence number (cut to [inbuff]) and leaves out every
    other one, unless four alarms come first: then it gives up with [ETIMEDOUT]
    and has the estimator set up again by the next call.  After a reply the
    timeout is neither below 2 nor above 60 seconds.  A first call waits 3, 6, 12
    and 24 seconds. *)
Theorem dg_send_recv_correct st out inbytes t0 t1 evs :
  let seq := u32 (sendhdr_seq st + 1) in
  let info := rtt_newpack (if rttinit st then rttinfo st else rtt_init (rttinfo st) t0) in
  let u := until_reply seq evs in
  let '(st', log, r) := dg_send_recv st out inbytes t0 t1 evs in
  r = (if (3 <? alarms u.1)%nat then TimedOut
       else match u.2 with Some body => Got (take inbytes body) | None => Waiting end) /\
  length log = S (Nat.min (alarms u.1) 3) /\
  Forall (fun s => s_seq s = seq /\ s_body s = out) log /\
  s_alarm <$> log = (fun j => rtt_start (backoff info j)) <$> List.seq 0 (length log) /\
  sendhdr_seq st' = seq /\ (rttinit st' = true <-> r <> TimedOut) /\
  (forall data, r = Got data -> in_range (rtt_rto (rttinfo st'))) /\
  (rttinit st = false -> s_alarm <$> log = take (length log) [Some 3; Some 6; Some 12; Some 24]).
Proof.
  intros seq info u. unfold dg_send_recv. fold seq. fold info.
  destruct (wait_reply_spec seq out inbytes evs 0 info [transmit info seq out t1] eq_refl ltac:(lia))
    as (st' & l & r & -> & [H1 [H2 [H3 H3']] H4 H5 H6]). fold u in H1, H2.
  assert (s_alarm <$> ([transmit info seq out t1] ++ l) =
    (fun j => rtt_start (backoff info j)) <$> List.seq 0 (length ([transmit info seq out t1] ++ l))) as Hal.
  { cbn [app length List.seq]. rewrite !fmap_cons, H3', <- fmap_S_seq, <- list_fmap_compose. done. }
  split_and!; try done.
  - simpl. by rewrite H2.
  - by constructor.
  - intros Hi. rewrite Hal. subst info. rewrite Hi.
    assert (length l <= 3)%nat as Hl by lia.
    cbn [app length]. do 4 (destruct l as [|? l]; [vm_compute; reflexivity|]). simpl in Hl. lia.
Qed.

(** Two lost transmissions, a duplicate of an old reply, then the reply. *)
Example dg_send_recv_run :
  let st := Dg (RttInfo (float_of_Z 0) (float_of_Z 0) (float_of_Z 0) (float_of_Z 0) 0 0) false 41 in
  let '(st', log, r) := dg_send_recv st [104; 105] 4096 (Timeval 1000 0) (Timeval 1000 2000)
    [Alarm (Timeval 1003 2000); Arrive (Full 41 2 [110; 111]) (Timeval 1004 0); Arrive Short (Timeval 1004 0);
     Alarm (Timeval 1009 2000); Arrive (Full 42 9002 [104; 105]) (Timeval 1009 502000)] in
  r = Got [104; 105] /\ sendhdr_seq st' = 42 /\
  map (fun s => (s_seq s, s_ts s, s_alarm s)) log = [(42, 2, Some 3); (42, 3002, Some 6); (42, 9002, Some 12)] /\
  rtt_start (rttinfo st') = Some 3.
Proof. vm_compute. repeat split. Qed.

(** The bound [RTT_RXTMAX] holds for estimates only: backing off from 60 seconds
    the timer is set to 120, 240 and 480. *)
Example rtt_backoff_unbounded :
  let info := RttInfo (float_of_Z 0) (float_of_Z 0) (float_of_Z 0) (rtt_minmax (float_of_Z 75)) 0 0 in
  map (fun k => rtt_start (backoff info k)) [0; 1; 2; 3]%nat = [Some 60; Some 120; Some 240; Some 480].
Proof. vm_compute. reflexivity. Qed.
