(* ===== verification/SigIo.v ===== *)
(** * Datagram echo server driven by [SIGIO]: [unixNetV1/sigio/dgecho01.c]

    The signal handler reads datagrams into a ring of [QSIZE] buffers, the main loop
    sends them back.  The state has the ring and its indices, the socket's receive
    queue, whether a [SIGIO] is pending, the next statement of the main loop and
    the progress of a running handler.  The handler runs at any point at which the
    signal is not blocked, one turn of its loop per step, so that datagrams arrive
    while it runs.  The wrappers end the process when a call fails; a run is one
    in which none of the main loop's has. *)
From S2P Require Import Prelude.

Definition QSIZE : Z := 8.
Definition MAXDG : Z := 4096.

(** A datagram: its bytes and its sender's address. *)
Definition dgram : Type := list Z * list Z.

(** What [recvfrom] stores of a datagram. *)
Definition received_dg (d : dgram) : dgram := (take (Z.to_nat MAXDG) d.1, d.2).

(** The next statement of the main loop: the test of [nqueue], inside
    [sigsuspend], [Sendto], the increment of [iget], blocking [SIGIO], the
    decrement of [nqueue]. *)
Inductive mpc := M_test | M_suspend | M_sendto | M_iget | M_block | M_nqueue.

#[export] Instance mpc_eq_dec : EqDecision mpc.
Proof. solve_decision. Defined.

Inductive exit_reason := ReceiveOverflow | RecvfromError.

Record state := State {
  dg : list dgram; iget : Z; iput : Z; nqueue : Z; cntread : list Z;
  pending : list dgram;        (* the socket's receive queue *)
  sigio : bool;                (* a signal is pending *)
  pc : mpc;
  handler : option Z;          (* [nread] of a running handler *)
  sent : list dgram;           (* what [Sendto] was given *)
  exited : option exit_reason;
  got : list dgram;            (* what [recvfrom] has stored and what has arrived, *)
  arrived : list dgram }.      (* for the statements *)

(** [dg_echo] up to its loop. *)
Definition dg_echo_init : state :=
  State (replicate (Z.to_nat QSIZE) ([], [])) 0 0 0 (replicate (Z.to_nat (QSIZE + 1)) 0) [] false M_test None [] None [] [].

(** [if (++i >= QSIZE) i = 0;] *)
Definition next (i : Z) : Z := if i + 1 >=? QSIZE then 0 else i + 1.

(** A statement of the main loop; [None] inside [sigsuspend]. *)
Definition main_step (s : state) : option state :=
  let go pc' := State (dg s) (iget s) (iput s) (nqueue s) (cntread s) (pending s) (sigio s) pc' (handler s)
                  (sent s) (exited s) (got s) (arrived s) in
  match pc s with
  | M_test => Some (if nqueue s =? 0 then go M_suspend else go M_sendto)
  | M_suspend => None
  | M_sendto =>
      Some (State (dg s) (iget s) (iput s) (nqueue s) (cntread s) (pending s) (sigio s) M_iget (handler s)
              (sent s ++ [default ([], []) (dg s !! Z.to_nat (iget s))]) (exited s) (got s) (arrived s))
  | M_iget =>
      Some (State (dg s) (next (iget s)) (iput s) (nqueue s) (cntread s) (pending s) (sigio s) M_block (handler s)
              (sent s) (exited s) (got s) (arrived s))
  | M_block => Some (go M_nqueue)
  | M_nqueue =>
      Some (State (dg s) (iget s) (iput s) (nqueue s - 1) (cntread s) (pending s) (sigio s) M_test (handler s)
              (sent s) (exited s) (got s) (arrived s))
  end.

(** Whether [SIGIO] is let through at a point of the main loop. *)
Definition unblocked (pc : mpc) : bool :=
  match pc with M_suspend | M_sendto | M_iget | M_block => true | M_test | M_nqueue => false end.

(** Where the main loop goes on after a handler: [sigsuspend] returns. *)
Definition resume (pc : mpc) : mpc := match pc with M_suspend => M_test | pc => pc end.

(** One turn of [sig_io]'s loop with [nread], and its end. *)
Definition sig_io (nread : Z) (s : state) : state :=
  if nqueue s >=? QSIZE then
    State (dg s) (iget s) (iput s) (nqueue s) (cntread s) (pending s) (sigio s) (pc s) (Some nread)
      (sent s) (Some ReceiveOverflow) (got s) (arrived s)
  else
    match pending s with
    | [] =>
        State (dg s) (iget s) (iput s) (nqueue s) (alter (fun n => n + 1) (Z.to_nat nread) (cntread s))
          [] (sigio s) (resume (pc s)) None (sent s) (exited s) (got s) (arrived s)
    | d :: rest =>
        State (<[Z.to_nat (iput s) := received_dg d]> (dg s)) (iget s) (next (iput s)) (nqueue s + 1) (cntread s)
          rest (sigio s) (pc s) (Some (nread + 1)) (sent s) (exited s) (got s ++ [received_dg d]) (arrived s)
    end.

(** A run, as long as the process has not exited: a datagram arrives and a signal is
    generated; the signal is delivered; a turn of the handler, or an error of its
    [recvfrom]; a statement of the main loop. *)
Inductive step : state -> state -> Prop :=
| Arrive d s :
    exited s = None ->
    step s (State (dg s) (iget s) (iput s) (nqueue s) (cntread s) (pending s ++ [d]) true (pc s) (handler s)
              (sent s) None (got s) (arrived s ++ [d]))
| Deliver s :
    exited s = None -> sigio s = true -> handler s = None -> unblocked (pc s) = true ->
    step s (State (dg s) (iget s) (iput s) (nqueue s) (cntread s) (pending s) false (pc s) (Some 0)
              (sent s) None (got s) (arrived s))
| Handle nread s :
    exited s = None -> handler s = Some nread -> step s (sig_io nread s)
| Recv_error nread s :
    exited s = None -> handler s = Some nread -> nqueue s < QSIZE ->
    step s (State (dg s) (iget s) (iput s) (nqueue s) (cntread s) (pending s) (sigio s) (pc s) (handler s)
              (sent s) (Some RecvfromError) (got s) (arrived s))
| Main s s' :
    exited s = None -> handler s = None -> main_step s = Some s' -> step s s'.

(** ** The ring *)

(** The slot of datagram number [k], and the next slot. *)
Definition slot (k : Z) : Z := k mod QSIZE.

Lemma next_slot k : 0 <= k -> next (slot k) = slot (k + 1).
Proof.
  intros Hk. unfold next, slot, QSIZE. rewrite <- (Zplus_mod_idemp_l k 1).
  pose proof (Z.mod_pos_bound k 8 ltac:(lia)) as Hr. generalize dependent (k mod 8). intros r Hr.
  destruct (Z.geb_spec (r + 1) 8).
  - by replace r with 7 by lia.
  - by rewrite Z.mod_small by lia.
Qed.

(** Different datagrams fewer than [QSIZE] apart have different slots. *)
Lemma ring_slot_inj j k : j <= k < j + QSIZE -> slot j = slot k -> j = k.
Proof.
  unfold slot, QSIZE. intros Hr E.
  pose proof (Z.div_mod j 8 ltac:(lia)) as D1. pose proof (Z.div_mod k 8 ltac:(lia)) as D2. rewrite <- E in D2.
  set (a := j / 8) in *. set (b := k / 8) in *. lia.
Qed.

Lemma slot_range k : 0 <= slot k < QSIZE.
Proof. unfold slot, QSIZE. apply Z.mod_pos_bound. lia. Qed.

(** ** The invariant *)

(** Whether the datagram at the head has been sent, and whether [iget] has moved on. *)
Definition head_sent (pc : mpc) : bool := match pc with M_iget | M_block | M_nqueue => true | _ => false end.
Definition head_left (pc : mpc) : bool := match pc with M_block | M_nqueue => true | _ => false end.
Definition b2z (b : bool) : Z := if b then 1 else 0.

(** [g] datagrams have been taken from the ring. *)
Record inv_at (s : state) (g : Z) : Prop := {
  i_g : 0 <= g;
  i_got : Z.of_nat (length (got s)) = g + nqueue s;
  i_nqueue : 0 <= nqueue s <= QSIZE;
  i_iput : iput s = slot (g + nqueue s);
  i_iget : iget s = slot (g + b2z (head_left (pc s)));
  i_len : length (dg s) = Z.to_nat QSIZE;
  i_ring : forall k, g <= k < g + nqueue s -> dg s !! Z.to_nat (slot k) = got s !! Z.to_nat k;
  i_sent : sent s = take (Z.to_nat (g + b2z (head_sent (pc s)))) (got s);
  i_busy : match pc s with M_test | M_suspend => True | _ => 1 <= nqueue s end;
  i_signal : pending s <> [] -> sigio s = true \/ handler s <> None;
  i_handler : forall n, handler s = Some n -> unblocked (pc s) = true /\ 0 <= n <= nqueue s;
  i_cnt : length (cntread s) = Z.to_nat (QSIZE + 1);
  i_sleep : pc s = M_suspend -> handler s = None -> nqueue s = 0;
  i_arrived : received_dg <$> arrived s = got s ++ (received_dg <$> pending s) }.

Definition inv (s : state) : Prop := exists g, inv_at s g.

Lemma ring_put s g d :
  inv_at s g -> nqueue s < QSIZE ->
  forall k, g <= k < g + nqueue s + 1 ->
    <[Z.to_nat (iput s) := d]> (dg s) !! Z.to_nat (slot k) = (got s ++ [d]) !! Z.to_nat k.
Proof.
  intros [H1 H2 H3 H4 H5 H6 H7 H8 H9 H10 H11 H12 H13 H14] Hq k Hk.
  pose proof (slot_range (g + nqueue s)) as Hs. pose proof (slot_range k) as Hs'.
  destruct (decide (k = g + nqueue s)) as [->|Hne].
  - rewrite H4, list_lookup_insert_eq by (rewrite H6; lia).
    rewrite lookup_app_r by lia. replace (Z.to_nat (g + nqueue s) - length (got s))%nat with 0%nat by lia. done.
  - assert (slot k <> slot (g + nqueue s)) by (intros E; apply Hne, ring_slot_inj; [lia|done]).
    rewrite list_lookup_insert_ne by (rewrite H4; lia). rewrite H7 by lia.
    rewrite lookup_app_l by lia. done.
Qed.

Lemma sigio_init_inv : inv dg_echo_init.
Proof. exists 0. split; simpl; try done. lia. Qed.

Lemma take_snoc {A} (l : list A) n x : l !! n = Some x -> take (S n) l = take n l ++ [x].
Proof. apply take_S_r. Qed.

Lemma main_inv s s' g : inv_at s g -> main_step s = Some s' -> handler s = None -> inv s'.
Proof.
  intros [H1 H2 H3 H4 H5 H6 H7 H8 H9 H10 H11 H12 H13 H14] E Hh. unfold main_step in E.
  destruct (pc s) eqn:Ep; simpl in *.
  - injection E as <-. destruct (Z.eqb_spec (nqueue s) 0); exists g; split; simpl; try done; try lia; rewrite Hh; done.
  - done.
  - injection E as <-. exists g.
    assert (is_Some (got s !! Z.to_nat g)) as [d Ed] by (apply lookup_lt_is_Some; lia).
    rewrite H5, Z.add_0_r, H7, Ed by lia. split; simpl; try done; try lia; rewrite ?Hh; try done.
    + by rewrite Z.add_0_r.
    + rewrite H8, Z.add_0_r. replace (Z.to_nat (g + 1)) with (S (Z.to_nat g)) by lia. symmetry. by apply take_snoc.
  - injection E as <-. exists g. split; simpl; try done; try lia; rewrite ?Hh; try done.
    rewrite H5, Z.add_0_r. by apply next_slot.
  - injection E as <-. exists g. split; simpl; try done; try lia; rewrite ?Hh; done.
  - injection E as <-. exists (g + 1). split; simpl; try done; try lia; rewrite ?Hh; try done.
    + rewrite H4. f_equal. lia.
    + rewrite H5. f_equal. lia.
    + intros k Hk. apply H7. lia.
    + rewrite H8. f_equal. lia.
Qed.

Lemma sig_io_inv s g n : inv_at s g -> exited s = None -> handler s = Some n -> inv (sig_io n s).
Proof.
  intros H Hx Hh. pose proof (ring_put s g) as Hring. pose proof H as [H1 H2 H3 H4 H5 H6 H7 H8 H9 H10 H11 H12 H13 H14].
  destruct (H11 n Hh) as [Hub Hn]. unfold sig_io. destruct (Z.geb_spec (nqueue s) QSIZE) as [Hq|Hq].
  - exists g. split; simpl; try done; [|intros n' [= <-]; done]. intros _. by right.
  - destruct (pending s) as [|d rest] eqn:Epd.
    + exists g. split; simpl; try done.
      * rewrite H5. by destruct (pc s).
      * rewrite H8. by destruct (pc s).
      * by destruct (pc s).
      * by rewrite length_alter.
      * by destruct (pc s).
    + exists g. split; simpl; try done; try lia.
      * rewrite length_app. simpl. lia.
      * rewrite H4. rewrite next_slot by lia. f_equal. lia.
      * by rewrite length_insert.
      * intros k Hk. apply Hring; [done|lia|lia].
      * rewrite H8. rewrite take_app_le; [done|]. destruct (pc s); simpl in *; lia.
      * destruct (pc s); try done; lia.
      * intros _. by right.
      * intros n' [= <-]. split; [done|lia].
      * rewrite H14. simpl. by rewrite <- app_assoc.
Qed.

Lemma step_inv s s' : inv s -> step s s' -> inv s'.
Proof.
  intros [g H] Hst. destruct Hst as [d s Hx|s Hx Hs Hh Hu|n s Hx Hh|n s Hx Hh Hq|s s' Hx Hh E].
  - exists g. destruct H as [H1 H2 H3 H4 H5 H6 H7 H8 H9 H10 H11 H12 H13 H14]. split; simpl; try done.
    + intros _. by left.
    + by rewrite !fmap_app, H14, app_assoc.
  - exists g. destruct H as [H1 H2 H3 H4 H5 H6 H7 H8 H9 H10 H11 H12 H13 H14]. split; simpl; try done.
    + intros _. by right.
    + intros n [= <-]. split; [done|lia].
  - by eapply sig_io_inv.
  - exists g. destruct H as [H1 H2 H3 H4 H5 H6 H7 H8 H9 H10 H11 H12 H13 H14]. split; simpl; done.
  - by eapply main_inv.
Qed.

Lemma sigio_reachable_inv s : rtc step dg_echo_init s -> inv s.
Proof. apply (rtc_invariant _ inv); [exact step_inv|exact sigio_init_inv]. Qed.

(** C20: The echo server is faithful: in every run, whenever the signal arrives, the datagrams
    sent back are the ones received, in order, each once and with the address it
    came from; the indices stay inside the ring, the handler never writes the slot
    that the main loop still has to send, and the histogram's index is in range. *)
Theorem sigio_echo_faithful (s : state) :
  rtc step dg_echo_init s ->
  sent s `prefix_of` got s /\ 0 <= nqueue s <= QSIZE /\ 0 <= iget s < QSIZE /\ 0 <= iput s < QSIZE /\
  (pc s = M_sendto -> dg s !! Z.to_nat (iget s) = got s !! length (sent s)) /\
  (forall n, handler s = Some n -> (Z.to_nat n < length (cntread s))%nat) /\
  (forall n, handler s = Some n -> pc s = M_sendto -> nqueue s < QSIZE -> iput s <> iget s).
Proof.
  intros Hr. destruct (sigio_reachable_inv s Hr) as [g [H1 H2 H3 H4 H5 H6 H7 H8 H9 H10 H11 H12 H13 H14]].
  split; [rewrite H8; apply prefix_take|]. split; [done|].
  split; [rewrite H5; apply slot_range|]. split; [rewrite H4; apply slot_range|]. split_and!.
  - intros Ep. rewrite Ep in *. simpl in *. rewrite H5, Z.add_0_r, H7 by lia. f_equal.
    rewrite H8, length_take. lia.
  - intros n Hn. destruct (H11 n Hn) as [_ ?]. rewrite H12. unfold QSIZE in *. lia.
  - intros n Hn Ep Hq. rewrite Ep in *. simpl in *. rewrite H4, H5, Z.add_0_r. intros E.
    symmetry in E. apply ring_slot_inj in E; [lia|]. lia.
Qed.

(** No datagram is forgotten: as long as the process runs, some step of it other than
    an arrival is possible, or it sleeps in [sigsuspend] with no signal pending,
    and then every datagram that arrived has been read and sent back. *)
Theorem sigio_no_lost_datagram (s : state) :
  rtc step dg_echo_init s -> exited s = None ->
  (exists s', step s s' /\ Z.of_nat (length (pending s')) <= Z.of_nat (length (pending s))) \/
  (pc s = M_suspend /\ handler s = None /\ sigio s = false /\ sent s = received_dg <$> arrived s).
Proof.
  intros Hr Hx. destruct (sigio_reachable_inv s Hr) as [g [H1 H2 H3 H4 H5 H6 H7 H8 H9 H10 H11 H12 H13 H14]].
  destruct (handler s) as [n|] eqn:Hh.
  { left. exists (sig_io n s). split; [by apply Handle|]. unfold sig_io.
    destruct (_ >=? _); [done|]. destruct (pending s); simpl; lia. }
  destruct (main_step s) as [s'|] eqn:Em.
  { left. exists s'. split; [by apply Main|]. unfold main_step in Em.
    destruct (pc s); try done; injection Em as <-; try done. by destruct (_ =? _). }
  unfold main_step in Em. destruct (pc s) eqn:Ep; try done.
  destruct (sigio s) eqn:Es.
  - left. eexists. split; [apply Deliver; [done|done|done|by rewrite Ep]|]. done.
  - right. split_and!; try done.
    assert (pending s = []) as Hpd by (destruct (pending s) eqn:E; [done|]; by destruct H10).
    rewrite H14, Hpd, app_nil_r, H8. simpl. apply take_ge. rewrite (H13 eq_refl eq_refl) in *. lia.
Qed.

(** A datagram arrives while the server sleeps and is read. *)
Definition demo_dg : dgram := ([1; 2], [7]).

Lemma demo_reachable :
  rtc step dg_echo_init
    (State (replicate 8 ([], [])) 0 0 0 (replicate 9 0) [demo_dg] true M_suspend None [] None [] [demo_dg]).
Proof.
  eapply rtc_l; [apply Main; reflexivity|]. simpl. eapply rtc_l; [apply (Arrive demo_dg); reflexivity|].
  simpl. apply rtc_refl.
Qed.

Lemma sigio_echo_faithful_witness :
  exists s, rtc step dg_echo_init s /\ arrived s = [demo_dg] /\ 0 <= iput s < QSIZE.
Proof.
  eexists. split; [exact demo_reachable|]. split; [reflexivity|].
  apply (sigio_echo_faithful _ demo_reachable).
Defined.

Lemma sigio_no_lost_datagram_witness :
  exists s s', rtc step dg_echo_init s /\ pending s = [demo_dg] /\ step s s'.
Proof.
  destruct (sigio_no_lost_datagram _ demo_reachable eq_refl) as [(s' & H & _)|(_ & _ & H & _)]; [|discriminate H].
  eexists _, s'. split; [exact demo_reachable|]. split; [reflexivity|exact H].
Defined.

(** A queue that is exactly full ends the process although nothing is lost: the test
    comes before the call that would report an empty socket. *)
Example sigio_full_queue_exits :
  let s0 := State (replicate 8 ([], [])) 0 0 0 (replicate 9 0) (replicate 8 demo_dg) false M_suspend (Some 0) [] None [] [] in
  let s := Nat.iter 9 (fun s => sig_io (default 0 (handler s)) s) s0 in
  exited s = Some ReceiveOverflow /\ pending s = [] /\ nqueue s = QSIZE.
Proof. vm_compute. done. Qed.
