(* ===== verification/Web.v ===== *)
(** * Web clients: [unixNetV1/nonblock/web.c] and [unixNetV1/threads/web03.c]

    Both fetch a list of files over at most [maxnconn] connections at a time.  The
    first runs nonblocking connects under [select]: [Nonblock] models its table of
    files, counters and descriptor sets, with the kernel choosing descriptors,
    connect results, readiness and read results.  The second runs a thread per
    file: [Threads] models the threads, the flags they share with [main], the
    mutex and the condition variable.  The wrappers end the process when a call
    fails; a run is one in which none has. *)
From S2P Require Import Prelude.

Definition F_CONNECTING : Z := 1.
Definition F_READING : Z := 2.
Definition F_DONE : Z := 4.
Definition F_JOINED : Z := 8.

(** ** The nonblocking client *)

Module Nonblock.

(** [struct file], without the two names. *)
Record file := File { f_fd : Z; f_flags : Z }.

(** [nfiles] is the length of [files]; [opened] are the sockets the kernel has open
    for the process, [failed] the files for which a failed connect was reported. *)
Record web := Web {
  files : list file; nconn : Z; nlefttoconn : Z; nlefttoread : Z; maxfd : Z;
  rset : gset Z; wset : gset Z; opened : gset Z; failed : list nat }.

(** [main] up to its loop: the home page has been fetched, [nfiles] is the number of
    files after the cut to [MAXFILES]. *)
Definition main_init (nfiles : nat) : web :=
  Web (replicate nfiles (File 0 0)) 0 (Z.of_nat nfiles) (Z.of_nat nfiles) (-1) ∅ ∅ ∅ [].

(** [for (i = 0 ; i < nfiles; i++) if (file[i].f_flags == 0) break;] *)
Fixpoint find_file (l : list file) : option nat :=
  match l with
  | [] => None
  | f :: l' => if f_flags f =? 0 then Some 0%nat else S <$> find_file l'
  end.

(** [write_get_cmd] *)
Definition write_get_cmd (i : nat) (fd : Z) (w : web) : web :=
  Web (<[i := File fd F_READING]> (files w)) (nconn w) (nlefttoconn w) (nlefttoread w)
    (if fd >? maxfd w then fd else maxfd w) (rset w ∪ {[fd]}) (wset w) (opened w) (failed w).

(** [start_connect], with the descriptor the kernel gives and whether the connect is
    done at once. *)
Definition start_connect (i : nat) (fd : Z) (at_once : bool) (w : web) : web :=
  let w := Web (<[i := File fd 0]> (files w)) (nconn w) (nlefttoconn w) (nlefttoread w) (maxfd w)
             (rset w) (wset w) (opened w ∪ {[fd]}) (failed w) in
  if at_once then write_get_cmd i fd w
  else
    Web (<[i := File fd F_CONNECTING]> (files w)) (nconn w) (nlefttoconn w) (nlefttoread w)
      (if fd >? maxfd w then fd else maxfd w) (rset w ∪ {[fd]}) (wset w ∪ {[fd]}) (opened w) (failed w).

(** The turn of the inner loop for file [i]. *)
Definition connect_one (i : nat) (fd : Z) (at_once : bool) (w : web) : web :=
  let w := start_connect i fd at_once w in
  Web (files w) (nconn w + 1) (nlefttoconn w - 1) (nlefttoread w) (maxfd w) (rset w) (wset w) (opened w) (failed w).

(** The turn of the last loop for file [i], after [select] has left [rs] and [ws]:
    [error] is what [getsockopt] says, [n] what [Read] returns. *)
Definition check_one (i : nat) (rs ws : gset Z) (error : bool) (n : Z) (w : web) : web :=
  match files w !! i with
  | None => w
  | Some f =>
      let fd := f_fd f in
      if (f_flags f =? 0) || has_flag (f_flags f) F_DONE then w
      else if has_flag (f_flags f) F_CONNECTING && (bool_decide (fd ∈ rs) || bool_decide (fd ∈ ws)) then
        let w := if error
                 then Web (files w) (nconn w) (nlefttoconn w) (nlefttoread w) (maxfd w) (rset w) (wset w)
                        (opened w) (failed w ++ [i])
                 else w in
        write_get_cmd i fd
          (Web (files w) (nconn w) (nlefttoconn w) (nlefttoread w) (maxfd w) (rset w) (wset w ∖ {[fd]})
             (opened w) (failed w))
      else if has_flag (f_flags f) F_READING && bool_decide (fd ∈ rs) then
        if n =? 0 then
          Web (<[i := File fd F_DONE]> (files w)) (nconn w - 1) (nlefttoconn w) (nlefttoread w - 1) (maxfd w)
            (rset w ∖ {[fd]}) (wset w) (opened w ∖ {[fd]}) (failed w)
        else w
      else w
  end.

(** Where [main] is: in the inner loop, before [Select], in the last loop, exited,
    or ended by [err_quit]. *)
Inductive mpc := W_connect | W_select | W_check (i : nat) (rs ws : gset Z) | W_exit | W_quit.

Section Run.
Variable maxnconn : Z.

Definition more_conns (w : web) : bool := (nconn w <? maxnconn) && (nlefttoconn w >? 0).

(** A [Read] of file [i] that returns data. *)
Definition got_data (i : nat) (rs : gset Z) (n : Z) (w : web) : bool :=
  match files w !! i with
  | Some f => has_flag (f_flags f) F_READING && bool_decide (f_fd f ∈ rs) && negb (n =? 0)
  | None => false
  end.

(** The steps of the loop, labelled with the number of reads that return data.  The
    kernel gives a descriptor that is not open; [select] returns when a descriptor of
    its sets is ready and leaves the ready ones in them. *)
Inductive step : nat -> mpc * web -> mpc * web -> Prop :=
| Exit w : nlefttoread w <= 0 -> step 0 (W_connect, w) (W_exit, w)
| Connect w i fd at_once :
    0 < nlefttoread w -> more_conns w = true -> find_file (files w) = Some i ->
    0 <= fd -> fd ∉ opened w -> step 0 (W_connect, w) (W_connect, connect_one i fd at_once w)
| ErrQuit w : 0 < nlefttoread w -> more_conns w = true -> find_file (files w) = None -> step 0 (W_connect, w) (W_quit, w)
| Full w : 0 < nlefttoread w -> more_conns w = false -> step 0 (W_connect, w) (W_select, w)
| Select w rs ws : rs ⊆ rset w -> ws ⊆ wset w -> rs ∪ ws <> ∅ -> step 0 (W_select, w) (W_check 0 rs ws, w)
| Examine w i rs ws error n :
    (i < length (files w))%nat -> 0 <= n ->
    step (if got_data i rs n w then 1 else 0) (W_check i rs ws, w) (W_check (S i) rs ws, check_one i rs ws error n w)
| Next_pass w i rs ws : (length (files w) <= i)%nat -> step 0 (W_check i rs ws, w) (W_connect, w).

(** A run of [n] steps in which [d] reads return data. *)
Inductive run : nat -> nat -> mpc * web -> mpc * web -> Prop :=
| run_nil s : run 0 0 s s
| run_snoc n d d' s s' s'' : run n d s s' -> step d' s' s'' -> run (S n) (d + d') s s''.

End Run.

(** *** The invariant *)

Definition fresh (f : file) : Z := if f_flags f =? 0 then 1 else 0.
Definition active (f : file) : Z := if (f_flags f =? F_CONNECTING) || (f_flags f =? F_READING) then 1 else 0.
Definition undone (f : file) : Z := if f_flags f =? F_DONE then 0 else 1.

Definition good_flags (f : file) : Prop :=
  f_flags f = 0 \/ f_flags f = F_CONNECTING \/ f_flags f = F_READING \/ f_flags f = F_DONE.

(** [fd] belongs to a file that is being fetched; to one that is being connected. *)
Definition in_use (l : list file) (fd : Z) : Prop := exists i f, l !! i = Some f /\ active f = 1 /\ f_fd f = fd.
Definition connecting (l : list file) (fd : Z) : Prop :=
  exists i f, l !! i = Some f /\ f_flags f = F_CONNECTING /\ f_fd f = fd.

Record inv (maxnconn : Z) (nfiles : nat) (w : web) : Prop := {
  i_len : length (files w) = nfiles;
  i_flags : Forall good_flags (files w);
  i_conn : nconn w = zsum active (files w);
  i_max : nconn w <= Z.max 0 maxnconn;
  i_toconn : nlefttoconn w = zsum fresh (files w);
  i_toread : nlefttoread w = zsum undone (files w);
  i_rset : forall fd, fd ∈ rset w <-> in_use (files w) fd;
  i_wset : forall fd, fd ∈ wset w <-> connecting (files w) fd;
  i_opened : forall fd, fd ∈ opened w <-> in_use (files w) fd;
  i_distinct : forall i j f g, files w !! i = Some f -> files w !! j = Some g ->
    active f = 1 -> active g = 1 -> f_fd f = f_fd g -> i = j;
  i_maxfd : forall fd, in_use (files w) fd -> fd <= maxfd w }.

Lemma find_file_some l i : find_file l = Some i -> exists f, l !! i = Some f /\ f_flags f = 0.
Proof.
  revert i. induction l as [|f l IH]; intros i E; simpl in E; [done|].
  destruct (Z.eqb_spec (f_flags f) 0); [injection E as <-; by exists f|].
  destruct (find_file l) as [j|]; [|done]. injection E as <-. by apply IH.
Qed.

Lemma find_file_none l : find_file l = None -> zsum fresh l = 0.
Proof.
  induction l as [|f l IH]; simpl; [done|]. unfold fresh at 1. destruct (f_flags f =? 0); [done|].
  destruct (find_file l); [done|]. intros _. rewrite IH by done. done.
Qed.

(** Users of a descriptor after file [i] has changed. *)
Lemma in_use_insert (l : list file) (i : nat) f g fd :
  l !! i = Some f -> in_use (<[i := g]> l) fd <->
  (active g = 1 /\ f_fd g = fd) \/ (exists j h, j <> i /\ l !! j = Some h /\ active h = 1 /\ f_fd h = fd).
Proof.
  intros Ei. assert (i < length l)%nat by (by apply lookup_lt_is_Some; rewrite Ei). split.
  - intros (j & h & Ej & Ha & Hf). destruct (decide (j = i)) as [->|Hne].
    + rewrite list_lookup_insert_eq in Ej by done. injection Ej as <-. by left.
    + rewrite list_lookup_insert_ne in Ej by done. right. by exists j, h.
  - intros [[Ha Hf]|(j & h & Hne & Ej & Ha & Hf)].
    + exists i, g. by rewrite list_lookup_insert_eq.
    + exists j, h. by rewrite list_lookup_insert_ne.
Qed.

Lemma connecting_insert (l : list file) (i : nat) f g fd :
  l !! i = Some f -> connecting (<[i := g]> l) fd <->
  (f_flags g = F_CONNECTING /\ f_fd g = fd) \/ (exists j h, j <> i /\ l !! j = Some h /\ f_flags h = F_CONNECTING /\ f_fd h = fd).
Proof.
  intros Ei. assert (i < length l)%nat by (by apply lookup_lt_is_Some; rewrite Ei). split.
  - intros (j & h & Ej & Ha & Hf). destruct (decide (j = i)) as [->|Hne].
    + rewrite list_lookup_insert_eq in Ej by done. injection Ej as <-. by left.
    + rewrite list_lookup_insert_ne in Ej by done. right. by exists j, h.
  - intros [[Ha Hf]|(j & h & Hne & Ej & Ha & Hf)].
    + exists i, g. by rewrite list_lookup_insert_eq.
    + exists j, h. by rewrite list_lookup_insert_ne.
Qed.

Lemma in_use_others (l : list file) (i : nat) f fd :
  l !! i = Some f -> in_use l fd <->
  (active f = 1 /\ f_fd f = fd) \/ (exists j h, j <> i /\ l !! j = Some h /\ active h = 1 /\ f_fd h = fd).
Proof. intros Ei. rewrite <- (in_use_insert l i f f fd Ei). by rewrite list_insert_id. Qed.

Lemma connecting_others (l : list file) (i : nat) f fd :
  l !! i = Some f -> connecting l fd <->
  (f_flags f = F_CONNECTING /\ f_fd f = fd) \/ (exists j h, j <> i /\ l !! j = Some h /\ f_flags h = F_CONNECTING /\ f_fd h = fd).
Proof. intros Ei. rewrite <- (connecting_insert l i f f fd Ei). by rewrite list_insert_id. Qed.

Lemma connecting_in_use l fd : connecting l fd -> in_use l fd.
Proof. intros (i & f & E & Hf & Hfd). exists i, f. split_and!; [done| |done]. unfold active. by rewrite Hf. Qed.

(** Changing the descriptor and the flags of one file. *)
Lemma distinct_insert (l : list file) (i : nat) f g :
  l !! i = Some f ->
  (forall j k a b, l !! j = Some a -> l !! k = Some b -> active a = 1 -> active b = 1 -> f_fd a = f_fd b -> j = k) ->
  (active g = 1 -> forall j h, j <> i -> l !! j = Some h -> active h = 1 -> f_fd h <> f_fd g) ->
  forall j k a b, <[i := g]> l !! j = Some a -> <[i := g]> l !! k = Some b ->
    active a = 1 -> active b = 1 -> f_fd a = f_fd b -> j = k.
Proof.
  intros Ei Hd Hg j k a b Ej Ek Ha Hb Hf. assert (i < length l)%nat by (by apply lookup_lt_is_Some; rewrite Ei).
  destruct (decide (j = i)) as [->|Hj], (decide (k = i)) as [->|Hk]; [done|..].
  - rewrite list_lookup_insert_eq in Ej by done. injection Ej as <-. rewrite list_lookup_insert_ne in Ek by done.
    exfalso. by apply (Hg Ha k b).
  - rewrite list_lookup_insert_eq in Ek by done. injection Ek as <-. rewrite list_lookup_insert_ne in Ej by done.
    exfalso. by apply (Hg Hb j a).
  - rewrite list_lookup_insert_ne in Ej, Ek by done. by eapply Hd.
Qed.

(** The four changes a file goes through: the sums and sets follow. *)
Lemma file_changes maxnconn nfiles w i f g rs ws op mf fl :
  inv maxnconn nfiles w -> files w !! i = Some f -> good_flags g ->
  nconn w + active g - active f <= Z.max 0 maxnconn ->
  (active g = 1 -> active f = 1 /\ f_fd g = f_fd f \/ ~ in_use (files w) (f_fd g)) ->
  (forall fd, fd ∈ rs <-> (active g = 1 /\ f_fd g = fd) \/ (fd ∈ rset w /\ ~ (active f = 1 /\ f_fd f = fd))) ->
  (forall fd, fd ∈ ws <-> (f_flags g = F_CONNECTING /\ f_fd g = fd) \/
     (fd ∈ wset w /\ ~ (f_flags f = F_CONNECTING /\ f_fd f = fd))) ->
  (forall fd, fd ∈ op <-> (active g = 1 /\ f_fd g = fd) \/ (fd ∈ opened w /\ ~ (active f = 1 /\ f_fd f = fd))) ->
  maxfd w <= mf -> (active g = 1 -> f_fd g <= mf) ->
  inv maxnconn nfiles
    (Web (<[i := g]> (files w)) (nconn w + active g - active f) (nlefttoconn w + fresh g - fresh f)
       (nlefttoread w + undone g - undone f) mf rs ws op fl).
Proof.
  intros [H1 H2 H3 H4 H5 H6 H7 H8 H9 H10 H11] Ei Hg Hmax Hnew Hrs Hws Hop Hmf Hmg.
  assert (Hothers : forall fd, (exists j h, j <> i /\ files w !! j = Some h /\ active h = 1 /\ f_fd h = fd) <->
            in_use (files w) fd /\ ~ (active f = 1 /\ f_fd f = fd)).
  { intros fd. rewrite (in_use_others _ _ _ fd Ei). split; [|tauto]. intros (j & h & Hne & Ej & Ha & Hf).
    split; [right; by exists j, h|]. intros [Ha' Hf']. apply Hne. eapply H10; [exact Ej|exact Ei|done|done|congruence]. }
  assert (Hcothers : forall fd, (exists j h, j <> i /\ files w !! j = Some h /\ f_flags h = F_CONNECTING /\ f_fd h = fd) <->
            connecting (files w) fd /\ ~ (f_flags f = F_CONNECTING /\ f_fd f = fd)).
  { intros fd. rewrite (connecting_others _ _ _ fd Ei). split; [|tauto]. intros (j & h & Hne & Ej & Ha & Hf).
    split; [right; by exists j, h|]. intros [Ha' Hf']. apply Hne.
    eapply H10; [exact Ej|exact Ei|unfold active; by rewrite Ha|unfold active; by rewrite Ha'|congruence]. }
  split; simpl.
  - by rewrite length_insert.
  - by apply Forall_insert.
  - rewrite (zsum_insert _ _ _ _ _ Ei). lia.
  - done.
  - rewrite (zsum_insert _ _ _ _ _ Ei). lia.
  - rewrite (zsum_insert _ _ _ _ _ Ei). lia.
  - intros fd. by rewrite (in_use_insert _ _ _ _ _ Ei), Hothers, Hrs, H7.
  - intros fd. by rewrite (connecting_insert _ _ _ _ _ Ei), Hcothers, Hws, H8.
  - intros fd. by rewrite (in_use_insert _ _ _ _ _ Ei), Hothers, Hop, H9.
  - apply (distinct_insert _ _ f _ Ei H10). intros Ha j h Hne Ej Hh E.
    destruct (Hnew Ha) as [[Hf Hfd]|Hn].
    + apply Hne. eapply H10; [exact Ej|exact Ei|done|done|congruence].
    + apply Hn. by exists j, h.
  - intros fd. rewrite (in_use_insert _ _ _ _ _ Ei), Hothers. intros [[Ha <-]|[Hu _]]; [by apply Hmg|].
    apply H11 in Hu. lia.
Qed.

Lemma flags_cases f : good_flags f ->
  (f_flags f = 0 /\ fresh f = 1 /\ active f = 0 /\ undone f = 1) \/
  (f_flags f = F_CONNECTING /\ fresh f = 0 /\ active f = 1 /\ undone f = 1) \/
  (f_flags f = F_READING /\ fresh f = 0 /\ active f = 1 /\ undone f = 1) \/
  (f_flags f = F_DONE /\ fresh f = 0 /\ active f = 0 /\ undone f = 0).
Proof. unfold good_flags, fresh, active, undone. intros [E|[E|[E|E]]]; rewrite E; vm_compute; tauto. Qed.

Lemma web_eq w w' :
  files w = files w' -> nconn w = nconn w' -> nlefttoconn w = nlefttoconn w' -> nlefttoread w = nlefttoread w' ->
  maxfd w = maxfd w' -> rset w = rset w' -> wset w = wset w' -> opened w = opened w' -> failed w = failed w' -> w = w'.
Proof. destruct w, w'; simpl. by intros -> -> -> -> -> -> -> -> ->. Qed.

Lemma new_maxfd (fd m : Z) : m <= (if fd >? m then fd else m) /\ fd <= (if fd >? m then fd else m).
Proof. destruct (fd >? m) eqn:E; lia. Qed.

Lemma connect_one_inv maxnconn nfiles w i fd at_once :
  inv maxnconn nfiles w -> more_conns maxnconn w = true -> find_file (files w) = Some i -> fd ∉ opened w ->
  inv maxnconn nfiles (connect_one i fd at_once w).
Proof.
  intros HI Hm Hi Hfd. destruct (find_file_some _ _ Hi) as (f & Ei & Hf).
  pose proof (new_maxfd fd (maxfd w)) as [Hmx1 Hmx2].
  apply andb_true_iff in Hm as [Hm1 Hm2]. apply Z.ltb_lt in Hm1.
  assert (Hnu : ~ in_use (files w) fd) by (rewrite <- (i_opened _ _ _ HI); done).
  assert (Hact : active f = 0) by (unfold active; by rewrite Hf).
  set (g := File fd (if at_once then F_READING else F_CONNECTING)).
  assert (Hg : active g = 1) by (by destruct at_once).
  replace (connect_one i fd at_once w) with
    (Web (<[i := g]> (files w)) (nconn w + active g - active f) (nlefttoconn w + fresh g - fresh f)
       (nlefttoread w + undone g - undone f) (if fd >? maxfd w then fd else maxfd w) (rset w ∪ {[fd]})
       (if at_once then wset w else wset w ∪ {[fd]}) (opened w ∪ {[fd]}) (failed w)).
  - apply file_changes; try done.
    + destruct at_once; unfold good_flags; simpl; tauto.
    + lia.
    + by right.
    + intros x. rewrite elem_of_union, elem_of_singleton. simpl. split; [|naive_solver].
      intros [Hx|Hx]; [right; split; [done|lia]|left; by rewrite Hx].
    + intros x. destruct at_once; simpl; rewrite ?elem_of_union, ?elem_of_singleton; rewrite Hf;
        unfold F_CONNECTING, F_READING; split; naive_solver lia.
    + intros x. rewrite elem_of_union, elem_of_singleton. simpl. split; [|naive_solver].
      intros [Hx|Hx]; [right; split; [done|lia]|left; by rewrite Hx].
  - assert (fresh f = 1 /\ undone f = 1) as [Hfr Hun] by (unfold fresh, undone; by rewrite Hf).
    apply web_eq; rewrite ?Hfr, ?Hun, ?Hact; unfold g, connect_one, start_connect; destruct at_once; simpl;
      rewrite ?list_insert_insert_eq; try done; unfold active, fresh, undone; simpl; lia.
Qed.

Ltac flag_values fd H :=
  change (active (File fd F_CONNECTING)) with 1 in H; change (active (File fd F_READING)) with 1 in H;
  change (active (File fd F_DONE)) with 0 in H; change (fresh (File fd F_CONNECTING)) with 0 in H;
  change (fresh (File fd F_READING)) with 0 in H; change (fresh (File fd F_DONE)) with 0 in H;
  change (undone (File fd F_CONNECTING)) with 1 in H; change (undone (File fd F_READING)) with 1 in H;
  change (undone (File fd F_DONE)) with 0 in H; rewrite ?Z.add_simpl_r, ?Z.add_0_r, ?Z.sub_0_r in H.

Lemma connected_inv maxnconn nfiles w i fd fl :
  inv maxnconn nfiles w -> files w !! i = Some (File fd F_CONNECTING) ->
  inv maxnconn nfiles (write_get_cmd i fd
    (Web (files w) (nconn w) (nlefttoconn w) (nlefttoread w) (maxfd w) (rset w) (wset w ∖ {[fd]}) (opened w) fl)).
Proof.
  intros HI Ei. pose proof (new_maxfd fd (maxfd w)) as [Hmx1 Hmx2].
  assert (Huse : in_use (files w) fd) by (by exists i, (File fd F_CONNECTING)).
  pose proof (i_max _ _ _ HI) as Hmax.
  assert (Hr : forall x, x ∈ rset w ∪ {[fd]} <-> (active (File fd F_READING) = 1 /\ fd = x) \/
                 (x ∈ rset w /\ ~ (active (File fd F_CONNECTING) = 1 /\ fd = x))).
  { intros x. rewrite elem_of_union, elem_of_singleton. change (active _) with 1 at 1.
    destruct (decide (fd = x)) as [<-|Hne]; naive_solver. }
  assert (Ho : forall x, x ∈ opened w <-> (active (File fd F_READING) = 1 /\ fd = x) \/
                 (x ∈ opened w /\ ~ (active (File fd F_CONNECTING) = 1 /\ fd = x))).
  { intros x. destruct (decide (fd = x)) as [<-|Hne]; [|naive_solver]. rewrite (i_opened _ _ _ HI). by split; auto. }
  pose proof (file_changes maxnconn nfiles w i _ (File fd F_READING) (rset w ∪ {[fd]}) (wset w ∖ {[fd]})
    (opened w) (if fd >? maxfd w then fd else maxfd w) fl HI Ei) as HC.
  flag_values fd HC.
  apply HC; simpl; try done.
  - unfold good_flags; simpl; tauto.
  - by left.
  - intros x. rewrite elem_of_difference, elem_of_singleton. naive_solver.
Qed.

Lemma finished_inv maxnconn nfiles w i fd :
  inv maxnconn nfiles w -> files w !! i = Some (File fd F_READING) ->
  inv maxnconn nfiles
    (Web (<[i := File fd F_DONE]> (files w)) (nconn w - 1) (nlefttoconn w) (nlefttoread w - 1) (maxfd w)
       (rset w ∖ {[fd]}) (wset w) (opened w ∖ {[fd]}) (failed w)).
Proof.
  intros HI Ei. pose proof (i_max _ _ _ HI) as Hmax.
  pose proof (file_changes maxnconn nfiles w i _ (File fd F_DONE) (rset w ∖ {[fd]}) (wset w) (opened w ∖ {[fd]})
    (maxfd w) (failed w) HI Ei) as HC.
  flag_values fd HC.
  apply HC; simpl; try done.
  - unfold good_flags; simpl; tauto.
  - lia.
  - intros x. rewrite elem_of_difference, elem_of_singleton. naive_solver.
  - intros x. naive_solver.
  - intros x. rewrite elem_of_difference, elem_of_singleton. naive_solver.
Qed.

Lemma check_one_inv maxnconn nfiles w i rs ws error n :
  inv maxnconn nfiles w -> inv maxnconn nfiles (check_one i rs ws error n w).
Proof.
  intros HI. unfold check_one. destruct (files w !! i) as [[fd fl]|] eqn:Ei; [|done].
  pose proof (proj1 (Forall_lookup _ _) (i_flags _ _ _ HI) _ _ Ei) as Hg. simpl.
  unfold good_flags in Hg. simpl in Hg. destruct Hg as [->| [->| [->| ->] ] ]; simpl; try done.
  - destruct (_ || _); [|done]. destruct error; exact (connected_inv _ _ w i fd _ HI Ei).
  - destruct (bool_decide (fd ∈ rs)); [|done]. destruct (n =? 0); [|done]. by apply finished_inv.
Qed.

Lemma main_init_inv maxnconn nfiles : inv maxnconn nfiles (main_init nfiles).
Proof.
  assert (Hno : forall fd, ~ in_use (replicate nfiles (File 0 0)) fd).
  { intros fd (i & f & E & Ha & _). apply lookup_replicate in E as [-> _]. done. }
  split; simpl.
  - apply length_replicate.
  - apply Forall_replicate. by left.
  - by rewrite zsum_replicate, Z.mul_0_r.
  - lia.
  - rewrite zsum_replicate. vm_compute fresh. lia.
  - rewrite zsum_replicate. vm_compute undone. lia.
  - intros fd. split; [set_solver|]. by intros ?%Hno.
  - intros fd. split; [set_solver|]. by intros ?%connecting_in_use%Hno.
  - intros fd. split; [set_solver|]. by intros ?%Hno.
  - intros i j f g E _ Ha. apply lookup_replicate in E as [-> _]. done.
  - by intros fd ?%Hno.
Qed.

(** What holds at each place of [main]. *)
Definition at_pc (maxnconn : Z) (m : mpc) (w : web) : Prop :=
  match m with
  | W_select => 0 < nlefttoread w /\ more_conns maxnconn w = false
  | W_exit => nlefttoread w <= 0
  | W_quit => False
  | W_check i _ _ => (i <= length (files w))%nat
  | W_connect => True
  end.

Lemma check_one_length i rs ws error n w : length (files (check_one i rs ws error n w)) = length (files w).
Proof.
  unfold check_one. destruct (files w !! i); [|done].
  repeat case_match; simpl; rewrite ?length_insert; done.
Qed.

Lemma run_inv maxnconn nfiles n d s :
  run maxnconn n d (W_connect, main_init nfiles) s -> inv maxnconn nfiles s.2 /\ at_pc maxnconn s.1 s.2.
Proof.
  remember (W_connect, main_init nfiles) as s0 eqn:E. induction 1 as [|n d d' s s' s'' _ IH Hst]; subst.
  { split; [apply main_init_inv|done]. }
  specialize (IH eq_refl) as [HI HP].
  destruct Hst as [w Hr|w i fd ao Hr Hm Hi H0 Hfd|w Hr Hm Hi|w Hr Hm|w rs ws|w i rs ws er m|]; simpl in *.
  - done.
  - split; [by apply connect_one_inv|done].
  - exfalso. pose proof (find_file_none _ Hi) as Hz. rewrite <- (i_toconn _ _ _ HI) in Hz.
    unfold more_conns in Hm. rewrite Hz in Hm. by rewrite andb_false_r in Hm.
  - done.
  - split; [done|lia].
  - split; [by apply check_one_inv|rewrite check_one_length; lia].
  - done.
Qed.

(** *** Progress *)

Definition weight (f : file) : Z :=
  if f_flags f =? 0 then 3 else if f_flags f =? F_CONNECTING then 2 else if f_flags f =? F_READING then 1 else 0.

(** [select] said something of file [f] that the last loop acts on. *)
Definition ready (rs ws : gset Z) (f : file) : bool :=
  has_flag (f_flags f) F_CONNECTING && (bool_decide (f_fd f ∈ rs) || bool_decide (f_fd f ∈ ws)) ||
  has_flag (f_flags f) F_READING && bool_decide (f_fd f ∈ rs).

Definition pending (i : nat) (rs ws : gset Z) (w : web) : bool := existsb (ready rs ws) (drop i (files w)).

Lemma existsb_drop {A} (p : A -> bool) (l : list A) i x :
  l !! i = Some x -> existsb p (drop i l) = p x || existsb p (drop (S i) l).
Proof. intros E. by rewrite (drop_S _ _ _ E). Qed.

(** Examining a file that is not ready changes nothing; examining one that is brings
    the client nearer to its end, or has read data. *)
Lemma check_one_idle w i f rs ws error n :
  files w !! i = Some f -> good_flags f -> ready rs ws f = false ->
  check_one i rs ws error n w = w /\ got_data i rs n w = false.
Proof.
  intros Ei Hg. unfold check_one, got_data, ready. rewrite Ei. destruct f as [fd fl]. unfold good_flags in Hg. simpl in *.
  destruct Hg as [->|[->|[->| ->] ] ]; simpl; try done.
  - by rewrite orb_false_r; intros ->.
  - by intros ->.
Qed.

Lemma check_one_progress w i f rs ws error n :
  files w !! i = Some f -> good_flags f -> ready rs ws f = true ->
  zsum weight (files (check_one i rs ws error n w)) + 1 <=
    zsum weight (files w) + (if got_data i rs n w then 1 else 0).
Proof.
  intros Ei Hg. unfold check_one, got_data, ready. rewrite Ei. destruct f as [fd fl]. unfold good_flags in Hg. simpl in *.
  destruct Hg as [->|[->|[->| ->] ] ]; simpl; try done.
  - rewrite orb_false_r. intros ->. destruct error; simpl; rewrite (zsum_insert _ _ _ _ _ Ei); unfold weight at 2 3; simpl; lia.
  - intros ->. simpl. destruct (n =? 0); simpl; [|lia]. rewrite (zsum_insert _ _ _ _ _ Ei). unfold weight at 2 3. simpl. lia.
Qed.

Lemma select_pending maxnconn nfiles w rs ws :
  inv maxnconn nfiles w -> rs ⊆ rset w -> ws ⊆ wset w -> rs ∪ ws <> ∅ -> pending 0 rs ws w = true.
Proof.
  intros HI Hrs Hws Hne. apply set_choose_L in Hne as [fd Hfd]. unfold pending. rewrite drop_0.
  apply existsb_exists. unfold ready. apply elem_of_union in Hfd as [Hfd|Hfd].
  - apply Hrs in Hfd as Hu. apply (i_rset _ _ _ HI) in Hu as (i & f & Ei & Ha & Ef).
    exists f. split; [by apply list_elem_of_In, list_elem_of_lookup; exists i|]. rewrite Ef, (bool_decide_true (fd ∈ rs)) by done.
    pose proof (proj1 (Forall_lookup _ _) (i_flags _ _ _ HI) _ _ Ei) as [E|[E|[E|E] ] ]%flags_cases; destruct E as (E & _ & Ha' & _);
      rewrite E; try lia; done.
  - apply Hws in Hfd as Hu. apply (i_wset _ _ _ HI) in Hu as (i & f & Ei & Ha & Ef).
    exists f. split; [by apply list_elem_of_In, list_elem_of_lookup; exists i|].
    rewrite Ef, Ha, (bool_decide_true (fd ∈ ws)), orb_true_r by done. done.
Qed.

(** What is left to do, when [k] more reads return data. *)
Definition measure (nfiles : Z) (k : Z) (s : mpc * web) : Z :=
  (zsum weight (files s.2) + k) * (2 * nfiles + 5) +
  match s.1 with
  | W_connect => nfiles + 3
  | W_select => nfiles + 2
  | W_check i rs ws => (if pending i rs ws s.2 then 0 else nfiles + 3) + (nfiles + 1 - Z.of_nat i)
  | _ => 0
  end.

Lemma weight_nonneg f : 0 <= weight f.
Proof. unfold weight. repeat case_match; lia. Qed.

Lemma measure_decreases maxnconn nfiles w w' m m' d k :
  inv maxnconn nfiles w -> at_pc maxnconn m w -> step maxnconn d (m, w) (m', w') ->
  measure (Z.of_nat nfiles) k (m', w') + 1 <= measure (Z.of_nat nfiles) (k + Z.of_nat d) (m, w).
Proof.
  intros HI HP Hst. pose proof (i_len _ _ _ HI) as Hlen. unfold measure.
  inversion Hst as [?|? i fd ao Hr Hm Hi H0 Hfd|?|?|? rs ws Hrs Hws Hne|? i rs ws er n Hi Hn|? i rs ws Hi]; subst; simpl; try lia.
  - destruct (find_file_some _ _ Hi) as (f & Ei & Hf).
    enough (zsum weight (files (connect_one i fd ao w)) + 1 <= zsum weight (files w)) by (simpl in *; nia).
    unfold connect_one, start_connect; destruct ao; simpl; rewrite list_insert_insert_eq, (zsum_insert _ _ _ _ _ Ei);
      replace (weight f) with 3 by (unfold weight; by rewrite Hf); vm_compute (weight (File _ _)); lia.
  - rewrite (select_pending _ _ _ _ _ HI Hrs Hws Hne). lia.
  - destruct (lookup_lt_is_Some_2 _ _ Hi) as [f Ei].
    pose proof (proj1 (Forall_lookup _ _) (i_flags _ _ _ HI) _ _ Ei) as Hg.
    destruct (ready rs ws f) eqn:Er.
    + pose proof (check_one_progress _ _ _ _ _ er n Ei Hg Er) as Hp.
      unfold pending at 2. rewrite (existsb_drop _ _ _ _ Ei), Er. simpl.
      repeat case_match; nia.
    + destruct (check_one_idle _ _ _ _ _ er n Ei Hg Er) as [-> ->].
      unfold pending. rewrite (existsb_drop _ _ _ _ Ei), Er. simpl. lia.
  - unfold pending. rewrite drop_ge by done. simpl in *. lia.
Qed.

Lemma run_measure maxnconn nfiles n d k s :
  run maxnconn n d (W_connect, main_init nfiles) s ->
  measure (Z.of_nat nfiles) k s + Z.of_nat n <= measure (Z.of_nat nfiles) (k + Z.of_nat d) (W_connect, main_init nfiles).
Proof.
  remember (W_connect, main_init nfiles) as s0 eqn:E. intros Hrun. revert k.
  induction Hrun as [|n d d' s s' s'' Hrun IH Hst]; intros k; subst; [change (Z.of_nat 0) with 0; rewrite !Z.add_0_r; lia|].
  pose proof (run_inv _ _ _ _ _ Hrun) as [HI HP]. destruct s' as [m w], s'' as [m' w']. cbn [fst snd] in HI, HP.
  pose proof (measure_decreases _ _ _ _ _ _ _ k HI HP Hst). specialize (IH eq_refl (k + Z.of_nat d')).
  replace (k + Z.of_nat (d + d')) with (k + Z.of_nat d' + Z.of_nat d) by lia. lia.
Qed.

Lemma all_done l : Forall good_flags l -> zsum undone l <= 0 -> Forall (fun f => f_flags f = F_DONE) l.
Proof.
  intros Hg Hz. apply Forall_lookup. intros i f Ei.
  pose proof (proj1 (Forall_lookup _ _) Hg _ _ Ei) as Hf%flags_cases.
  assert (undone f <= zsum undone l).
  { apply (zsum_ge _ _ i); [|done]. intros x. unfold undone. by case_match. }
  naive_solver lia.
Qed.

(** An active connection is in the set [select] is given. *)
Lemma active_rset maxnconn nfiles w : inv maxnconn nfiles w -> 0 < nconn w -> rset w <> ∅.
Proof.
  intros HI Hn. rewrite (i_conn _ _ _ HI) in Hn. apply zsum_pos in Hn as (i & f & Ei & Hf).
  intros E. assert (Hin : in_use (files w) (f_fd f)).
  { exists i, f. split_and!; try done. unfold active in *. by destruct (_ || _). }
  apply (i_rset _ _ _ HI) in Hin. rewrite E in Hin. set_solver.
Qed.

Lemma counts_agree l : Forall good_flags l -> zsum undone l = zsum active l + zsum fresh l.
Proof. induction 1 as [|f l Hf%flags_cases _ IH]; simpl; [done|]. naive_solver lia. Qed.

Lemma select_has_connection maxnconn nfiles w :
  1 <= maxnconn -> inv maxnconn nfiles w -> at_pc maxnconn W_select w -> rset w <> ∅.
Proof.
  intros Hmax HI [Hr Hm]. apply (active_rset _ _ _ HI). pose proof (counts_agree _ (i_flags _ _ _ HI)).
  rewrite (i_toread _ _ _ HI) in Hr. unfold more_conns in Hm. rewrite (i_toconn _ _ _ HI) in Hm.
  rewrite (i_conn _ _ _ HI) in *. apply andb_false_iff in Hm as [Hm|Hm]; lia.
Qed.

Lemma can_step maxnconn nfiles m w :
  1 <= maxnconn -> inv maxnconn nfiles w -> at_pc maxnconn m w -> m <> W_exit -> exists d s', step maxnconn d (m, w) s'.
Proof.
  intros Hmax HI HP Hne. destruct m as [| |i rs ws| |]; try done.
  - destruct (Z.le_gt_cases (nlefttoread w) 0) as [Hr|Hr]; [eexists _, _; by apply Exit|].
    destruct (more_conns maxnconn w) eqn:Em; [|eexists _, _; by apply Full].
    destruct (find_file (files w)) as [i|] eqn:Ei; [|eexists _, _; by apply ErrQuit].
    exists 0%nat. eexists. apply (Connect _ _ i (Z.max 0 (maxfd w + 1)) true); try done; [lia|].
    intros Ho. apply (i_opened _ _ _ HI), (i_maxfd _ _ _ HI) in Ho. lia.
  - eexists _, _. apply (Select _ _ (rset w) ∅); [done|set_solver|].
    pose proof (select_has_connection _ _ _ Hmax HI HP). set_solver.
  - destruct (decide (i < length (files w))%nat) as [Hi|Hi].
    + eexists _, _. by apply (Examine _ _ _ _ _ false 0).
    + eexists _, _. apply Next_pass. lia.
Qed.

(** C21: in every state a run of the nonblocking web client reaches, the counters
    are the numbers of files being fetched, not yet begun and not yet done; no more
    than [maxnconn] connections are open; the sockets the process has open and the
    ones [select] watches for reading are exactly those of the files being fetched,
    the ones it watches for writing those being connected, and [maxfd] bounds them;
    no two files share a socket; [main] never finds that nothing is left to connect
    when its counter says otherwise; and when it exits every file is done and every
    socket closed. *)
Theorem web_counts_and_sets maxnconn nfiles n d m w :
  run maxnconn n d (W_connect, main_init nfiles) (m, w) ->
  nconn w = zsum active (files w) /\ nlefttoconn w = zsum fresh (files w) /\ nlefttoread w = zsum undone (files w) /\
  nconn w <= Z.max 0 maxnconn /\
  (forall fd, fd ∈ opened w <-> in_use (files w) fd) /\ rset w = opened w /\
  (forall fd, fd ∈ wset w <-> connecting (files w) fd) /\ (forall fd, fd ∈ opened w -> fd <= maxfd w) /\
  (forall i j f g, files w !! i = Some f -> files w !! j = Some g -> active f = 1 -> active g = 1 ->
     f_fd f = f_fd g -> i = j) /\
  m <> W_quit /\
  (m = W_exit -> Forall (fun f => f_flags f = F_DONE) (files w) /\ opened w = ∅).
Proof.
  intros Hrun. pose proof (run_inv _ _ _ _ _ Hrun) as [HI HP]; simpl in *.
  split_and!; try apply HI.
  - apply set_eq. intros fd. by rewrite (i_rset _ _ _ HI), (i_opened _ _ _ HI).
  - intros fd Hfd. by apply (i_maxfd _ _ _ HI), (i_opened _ _ _ HI).
  - by intros ->.
  - intros ->. simpl in HP. rewrite (i_toread _ _ _ HI) in HP.
    pose proof (all_done _ (i_flags _ _ _ HI) HP) as Hd. split; [done|].
    apply set_eq. intros fd. split; [|set_solver]. intros (i & f & Ei & Ha & _)%(i_opened _ _ _ HI).
    apply (proj1 (Forall_lookup _ _) Hd) in Ei. unfold active in Ha. by rewrite Ei in Ha.
Qed.

(** C22: when at least one connection is allowed, the nonblocking web client ends:
    a run in which [d] reads return data has at most a number of steps that
    depends on [d] and the number of files only, and a run that has not reached
    [exit] can go on (in particular [select] always has a socket to wait for).  So
    every run in which the servers send finitely much ends with all files done. *)
Theorem web_terminates maxnconn nfiles n d s :
  1 <= maxnconn -> run maxnconn n d (W_connect, main_init nfiles) s ->
  Z.of_nat n <= (3 * Z.of_nat nfiles + Z.of_nat d) * (2 * Z.of_nat nfiles + 5) + Z.of_nat nfiles + 3 /\
  (s.1 <> W_exit -> exists d' s', step maxnconn d' s s').
Proof.
  intros Hmax Hrun. pose proof (run_inv _ _ _ _ _ Hrun) as [HI HP]. destruct s as [m w]. simpl in *. split.
  - pose proof (run_measure _ _ _ _ 0 _ Hrun) as Hm. unfold measure in Hm. simpl in Hm.
    rewrite zsum_replicate in Hm. unfold weight at 2 in Hm. simpl in Hm.
    pose proof (zsum_nonneg weight (files w) weight_nonneg).
    assert (0 <= match m with
            | W_connect => Z.of_nat nfiles + 3 | W_select => Z.of_nat nfiles + 2
            | W_check i rs ws => (if pending i rs ws w then 0 else Z.of_nat nfiles + 3) + (Z.of_nat nfiles + 1 - Z.of_nat i)
            | _ => 0 end).
    { pose proof (i_len _ _ _ HI). destruct m; simpl in *; repeat case_match; lia. }
    nia.
  - by apply (can_step _ nfiles).
Qed.

(** With a first argument that [atoi] makes 0, the client blocks for ever: the
    [select] of its first pass watches nothing. *)
Example no_connections_blocks nfiles d s' :
  run 0 1 d (W_connect, main_init (S nfiles)) s' ->
  s' = (W_select, main_init (S nfiles)) /\ forall d' s'', ~ step 0 d' s' s''.
Proof.
  inversion 1 as [|? ? ? ? ? ? Hnil Hst]; subst. inversion Hnil; subst.
  inversion Hst; subst; simpl in *; try lia; try done.
  split; [done|]. intros d' s'' Hst'. inversion Hst' as [| | | |? rs ws Hrs Hws Hne| |]; subst. simpl in *. set_solver.
Qed.

(** A run with one file, whose connect is in progress at first and whose server sends
    one reply. *)
Definition fetch_begun : web := connect_one 0 3 false (main_init 1).
Definition fetch_connected : web := check_one 0 ∅ {[3]} false 0 fetch_begun.
Definition fetch_read : web := check_one 0 {[3]} ∅ false 40 fetch_connected.
Definition fetch_done : web := check_one 0 {[3]} ∅ false 0 fetch_read.

Lemma one_pass n d k s w w' rs ws x :
  run 1 n d s (W_connect, w) -> 0 < nlefttoread w -> more_conns 1 w = false -> length (files w) = 1%nat ->
  length (files w') = 1%nat -> rs ⊆ rset w -> ws ⊆ wset w -> rs ∪ ws <> ∅ -> 0 <= x ->
  check_one 0 rs ws false x w = w' -> (if got_data 0 rs x w then 1 else 0)%nat = k ->
  run 1 (4 + n) (k + d) s (W_connect, w').
Proof.
  intros Hr H1 H2 H3 H4 H5 H6 H7 H8 <- <-.
  replace (_ + d)%nat with (d + 0 + 0 + (if got_data 0 rs x w then 1 else 0) + 0)%nat by lia.
  eapply run_snoc; [|apply (Next_pass _ _ 1 rs ws); lia].
  eapply run_snoc; [|apply Examine; lia].
  eapply run_snoc; [|by apply Select]. eapply run_snoc; [done|by apply Full].
Qed.

Lemma fetch_one_run : run 1 14 1 (W_connect, main_init 1) (W_exit, fetch_done).
Proof.
  assert (H0 : run 1 1 0 (W_connect, main_init 1) (W_connect, fetch_begun)).
  { eapply (run_snoc _ _ 0 0); [apply run_nil|]. by apply (Connect _ _ 0 3 false). }
  assert (H1 := one_pass _ _ 0 _ _ fetch_connected ∅ {[3]} 0 H0).
  assert (H2 := one_pass _ _ 1 _ _ fetch_read {[3]} ∅ 40 (H1 ltac:(done) eq_refl eq_refl eq_refl ltac:(set_solver)
    ltac:(set_solver) ltac:(set_solver) ltac:(done) eq_refl eq_refl)).
  assert (H3 := one_pass _ _ 0 _ _ fetch_done {[3]} ∅ 0 (H2 ltac:(done) eq_refl eq_refl eq_refl ltac:(set_solver)
    ltac:(set_solver) ltac:(set_solver) ltac:(done) eq_refl eq_refl)).
  eapply (run_snoc _ _ 1 0); [|by apply Exit].
  apply H3; first [done|set_solver].
Qed.

Lemma web_counts_and_sets_witness :
  opened fetch_done = ∅ /\ Forall (fun f => f_flags f = F_DONE) (files fetch_done).
Proof. destruct (web_counts_and_sets 1 1 14 1 _ _ fetch_one_run) as (_ & _ & _ & _ & _ & _ & _ & _ & _ & _ & H).
  split; by apply H. Defined.

Lemma web_terminates_witness : Z.of_nat 14 <= (3 * 1 + 1) * (2 * 1 + 5) + 1 + 3.
Proof. exact (proj1 (web_terminates 1 1 14 1 _ ltac:(lia) fetch_one_run)). Defined.

End Nonblock.

(** ** The threaded client *)

Module Threads.

(** Where the thread of a file is in [do_get_read]; [T_none] before it is created,
    [T_joined] after [main] has joined it. *)
Inductive tpc :=
| T_none | T_connect | T_get | T_read | T_close | T_lock | T_incr | T_signal | T_unlock | T_ended (fptr : nat) | T_joined.

(** [struct file], without the names and the descriptor, which only its thread uses,
    and with the place of that thread. *)
Record file := File { f_flags : Z; f_pc : tpc }.

(** Where [main] is; [M_wait true] has been signalled. *)
Inductive mpc := M_top | M_fill | M_lock | M_test | M_wait (signalled : bool) | M_scan (i : nat) | M_join (i : nat) | M_unlock | M_exit | M_quit.

Inductive owner := By_main | By_thread (i : nat).

Record web := Web {
  pc : mpc; files : list file; nconn : Z; nlefttoconn : Z; nlefttoread : Z; ndone : Z; ndone_mutex : option owner }.

Definition main_init (nfiles : nat) : web :=
  Web M_top (replicate nfiles (File 0 T_none)) 0 (Z.of_nat nfiles) (Z.of_nat nfiles) 0 None.

Fixpoint find_file (l : list file) : option nat :=
  match l with
  | [] => None
  | f :: l' => if f_flags f =? 0 then Some 0%nat else S <$> find_file l'
  end.

(** *** The steps *)

Definition goto (m : mpc) (w : web) : web :=
  Web m (files w) (nconn w) (nlefttoconn w) (nlefttoread w) (ndone w) (ndone_mutex w).
Definition set_mutex (o : option owner) (w : web) : web :=
  Web (pc w) (files w) (nconn w) (nlefttoconn w) (nlefttoread w) (ndone w) o.
Definition set_file (i : nat) (f : file) (w : web) : web :=
  Web (pc w) (<[i := f]> (files w)) (nconn w) (nlefttoconn w) (nlefttoread w) (ndone w) (ndone_mutex w).
Definition set_ndone (n : Z) (w : web) : web :=
  Web (pc w) (files w) (nconn w) (nlefttoconn w) (nlefttoread w) n (ndone_mutex w).

(** [Pthread_cond_signal(&ndone_cond)]: [main] is the only thread that waits. *)
Definition signal (w : web) : web :=
  match pc w with M_wait _ => goto (M_wait true) w | _ => w end.

(** [write_get_cmd]: the request is written to the socket. *)
Definition write_get_cmd (i : nat) (w : web) : web := set_file i (File F_READING T_read) w.

(** [do_get_read] on [&file[i]], a step at a time; [n] is what [Read] returns.  [None]
    where the thread blocks. *)
Definition thread_step (i : nat) (n : Z) (w : web) : option web :=
  match files w !! i with
  | None => None
  | Some f =>
      let at_pc p := set_file i (File (f_flags f) p) w in
      match f_pc f with
      | T_connect => Some (at_pc T_get)
      | T_get => Some (write_get_cmd i w)
      | T_read => Some (if n =? 0 then at_pc T_close else w)
      | T_close => Some (set_file i (File F_DONE T_lock) w)
      | T_lock => match ndone_mutex w with
                  | None => Some (set_mutex (Some (By_thread i)) (at_pc T_incr))
                  | Some _ => None
                  end
      | T_incr => Some (set_ndone (ndone w + 1) (at_pc T_signal))
      | T_signal => Some (signal (at_pc T_unlock))
      | T_unlock => Some (set_mutex None (at_pc (T_ended i)))
      | T_none | T_ended _ | T_joined => None
      end
  end.

Section Main.
Variable maxnconn : Z.
Variable spurious : bool.

Definition more_conns (w : web) : bool := (nconn w <? maxnconn) && (nlefttoconn w >? 0).

(** [main], a step at a time. [Pthread_cond_wait] returns once it is signalled, or
    spuriously, and the mutex is free. *)
Definition main_step (w : web) : option web :=
  match pc w with
  | M_top => Some (goto (if nlefttoread w >? 0 then M_fill else M_exit) w)
  | M_fill =>
      if more_conns w then
        match find_file (files w) with
        | None => Some (goto M_quit w)
        | Some i => Some (Web M_fill (<[i := File F_CONNECTING T_connect]> (files w)) (nconn w + 1) (nlefttoconn w - 1)
                            (nlefttoread w) (ndone w) (ndone_mutex w))
        end
      else Some (goto M_lock w)
  | M_lock => match ndone_mutex w with None => Some (set_mutex (Some By_main) (goto M_test w)) | Some _ => None end
  | M_test => Some (if ndone w =? 0 then set_mutex None (goto (M_wait false) w) else goto (M_scan 0) w)
  | M_wait signalled =>
      match ndone_mutex w with
      | None => if signalled || spurious then Some (set_mutex (Some By_main) (goto M_test w)) else None
      | Some _ => None
      end
  | M_scan i =>
      match files w !! i with
      | None => Some (goto M_unlock w)
      | Some f => Some (goto (if has_flag (f_flags f) F_DONE then M_join i else M_scan (S i)) w)
      end
  | M_join i =>
      match files w !! i with
      | Some (File _ (T_ended fptr)) =>
          Some (if (i =? fptr)%nat then
                  Web (M_scan (S i)) (<[i := File F_JOINED T_joined]> (files w)) (nconn w - 1) (nlefttoconn w)
                    (nlefttoread w - 1) (ndone w - 1) (ndone_mutex w)
                else goto M_quit w)
      | _ => None
      end
  | M_unlock => Some (set_mutex None (goto M_top w))
  | M_exit | M_quit => None
  end.

Inductive step : web -> web -> Prop :=
| Main w w' : main_step w = Some w' -> step w w'
| Thread w w' i n : 0 <= n -> thread_step i n w = Some w' -> step w w'.

End Main.

(** *** The invariant *)

Definition live (f : file) : Z := match f_pc f with T_none | T_joined => 0 | _ => 1 end.
Definition fresh (f : file) : Z := match f_pc f with T_none => 1 | _ => 0 end.
Definition unjoined (f : file) : Z := match f_pc f with T_joined => 0 | _ => 1 end.
(** The thread has counted itself in [ndone]. *)
Definition counted (f : file) : Z := match f_pc f with T_signal | T_unlock | T_ended _ => 1 | _ => 0 end.

Definition consistent (i : nat) (f : file) : Prop :=
  match f_pc f with
  | T_none => f_flags f = 0
  | T_connect | T_get => f_flags f = F_CONNECTING
  | T_read | T_close => f_flags f = F_READING
  | T_lock | T_incr | T_signal | T_unlock => f_flags f = F_DONE
  | T_ended fptr => f_flags f = F_DONE /\ fptr = i
  | T_joined => f_flags f = F_JOINED
  end.

Definition holds (p : tpc) : bool := match p with T_incr | T_signal | T_unlock => true | _ => false end.
Definition main_holds (m : mpc) : bool := match m with M_test | M_scan _ | M_join _ | M_unlock => true | _ => false end.

Definition some_signaller (l : list file) : Prop := exists i f, l !! i = Some f /\ f_pc f = T_signal.

Definition at_pc (maxnconn : Z) (w : web) : Prop :=
  match pc w with
  | M_fill => 0 < nlefttoread w
  | M_lock | M_test | M_wait true => 0 < nlefttoread w /\ more_conns maxnconn w = false
  | M_wait false => 0 < nlefttoread w /\ more_conns maxnconn w = false /\ (0 < ndone w -> some_signaller (files w))
  | M_join i => exists f, files w !! i = Some f /\ f_flags f = F_DONE
  | M_exit => nlefttoread w <= 0
  | M_quit => False
  | _ => True
  end.

Record inv (maxnconn : Z) (nfiles : nat) (w : web) : Prop := {
  i_len : length (files w) = nfiles;
  i_files : forall i f, files w !! i = Some f -> consistent i f;
  i_conn : nconn w = zsum live (files w);
  i_max : nconn w <= Z.max 0 maxnconn;
  i_toconn : nlefttoconn w = zsum fresh (files w);
  i_toread : nlefttoread w = zsum unjoined (files w);
  i_done : ndone w = zsum counted (files w);
  i_threads : forall i f, files w !! i = Some f -> holds (f_pc f) = true <-> ndone_mutex w = Some (By_thread i);
  i_main : main_holds (pc w) = true <-> ndone_mutex w = Some By_main;
  i_owner : forall i, ndone_mutex w = Some (By_thread i) -> exists f, files w !! i = Some f;
  i_pc : at_pc maxnconn w }.

Lemma thr_find_file_some l i : find_file l = Some i -> exists f, l !! i = Some f /\ f_flags f = 0.
Proof.
  revert i. induction l as [|f l IH]; intros i E; simpl in E; [done|].
  destruct (Z.eqb_spec (f_flags f) 0); [injection E as <-; by exists f|].
  destruct (find_file l) as [j|]; [|done]. injection E as <-. by apply IH.
Qed.

Lemma thr_find_file_none l : find_file l = None -> (forall i f, l !! i = Some f -> exists j, consistent j f) -> zsum fresh l = 0.
Proof.
  induction l as [|f l IH]; simpl; [done|]. destruct (Z.eqb_spec (f_flags f) 0) as [|Hne]; [done|].
  destruct (find_file l); [done|]. intros _ Hok. rewrite IH by (done || (intros i g E; by apply (Hok (S i) g))).
  destruct (Hok 0%nat f eq_refl) as [j Hj]. unfold consistent, fresh in *. by destruct (f_pc f).
Qed.

(** The file of one thread changes, and with it what it shares with the others. *)
Lemma thr_file_changes maxnconn nfiles w p i f g nc lc lr nd mx :
  inv maxnconn nfiles w -> files w !! i = Some f -> consistent i g ->
  nc = nconn w + live g - live f -> nc <= Z.max 0 maxnconn -> lc = nlefttoconn w + fresh g - fresh f ->
  lr = nlefttoread w + unjoined g - unjoined f -> nd = ndone w + counted g - counted f ->
  (holds (f_pc g) = true <-> mx = Some (By_thread i)) ->
  (forall j, j <> i -> mx = Some (By_thread j) <-> ndone_mutex w = Some (By_thread j)) ->
  (main_holds p = true <-> mx = Some By_main) ->
  at_pc maxnconn (Web p (<[i := g]> (files w)) nc lc lr nd mx) ->
  inv maxnconn nfiles (Web p (<[i := g]> (files w)) nc lc lr nd mx).
Proof.
  intros [H1 H2 H3 H4 H5 H6 H7 H8 H9 H10 H11] Ei Hg -> Hmax -> -> -> Ht Hother Hm Hpc.
  assert (Hi : (i < length (files w))%nat) by (by apply lookup_lt_is_Some; rewrite Ei).
  split; simpl; try done; try (rewrite (zsum_insert _ _ _ _ _ Ei); lia).
  - by rewrite length_insert.
  - intros j h [(<- & <- & _)|(Hne & Ej)]%list_lookup_insert_Some; [done|by apply H2].
  - intros j h [(<- & <- & _)|(Hne & Ej)]%list_lookup_insert_Some; [done|]. rewrite Hother by done. by apply H8.
  - intros j Ej. destruct (decide (j = i)) as [->|Hne]; [exists g; by rewrite list_lookup_insert_eq|].
    rewrite list_lookup_insert_ne by done. by apply H10, Hother.
Qed.

(** [main] moves, and perhaps locks or unlocks the mutex. *)
Lemma main_moves maxnconn nfiles w p mx :
  inv maxnconn nfiles w -> (forall j, mx = Some (By_thread j) <-> ndone_mutex w = Some (By_thread j)) ->
  (main_holds p = true <-> mx = Some By_main) ->
  at_pc maxnconn (Web p (files w) (nconn w) (nlefttoconn w) (nlefttoread w) (ndone w) mx) ->
  inv maxnconn nfiles (Web p (files w) (nconn w) (nlefttoconn w) (nlefttoread w) (ndone w) mx).
Proof.
  intros [H1 H2 H3 H4 H5 H6 H7 H8 H9 H10 H11] Hmx Hm Hpc. split; simpl; try done.
  - intros j f E. rewrite Hmx. by apply H8.
  - intros j E. by apply H10, Hmx.
Qed.

(** What [main] relies on stays when a thread that is not at its signal moves. *)
Lemma at_pc_thread maxnconn w i f g nd mx :
  at_pc maxnconn w -> files w !! i = Some f -> f_pc f <> T_signal -> (f_flags f = F_DONE -> f_flags g = F_DONE) ->
  nd = ndone w \/ f_pc g = T_signal ->
  at_pc maxnconn (Web (pc w) (<[i := g]> (files w)) (nconn w) (nlefttoconn w) (nlefttoread w) nd mx).
Proof.
  intros Hpc Ei Hns Hfl Hnd. assert (Hi : (i < length (files w))%nat) by (by apply lookup_lt_is_Some; rewrite Ei).
  unfold at_pc in *. simpl. destruct (pc w) as [| | | |[]| | | | |]; try done.
  - destruct Hpc as (Hr & Hm & Hs). split_and!; [done|done|]. intros Hpos. destruct Hnd as [->|Hg].
    + destruct (Hs Hpos) as (j & h & Ej & Hj). exists j, h. split; [|done].
      rewrite list_lookup_insert_ne; [done|]. intros <-. congruence.
    + exists i, g. by rewrite list_lookup_insert_eq.
  - destruct Hpc as (h & Ej & Hh). destruct (decide (i0 = i)) as [->|Hne].
    + exists g. rewrite list_lookup_insert_eq by done. split; [done|]. apply Hfl. congruence.
    + exists h. by rewrite list_lookup_insert_ne.
Qed.

Ltac thread_case :=
  eapply thr_file_changes; try done; simpl; try (cbv [live fresh unjoined counted f_pc]; lia).

Lemma thread_step_inv maxnconn nfiles w w' i n :
  inv maxnconn nfiles w -> thread_step i n w = Some w' -> inv maxnconn nfiles w'.
Proof.
  intros HI. unfold thread_step. destruct (files w !! i) as [f|] eqn:Ei; [|done].
  pose proof (i_files _ _ _ HI _ _ Ei) as Hf. pose proof (i_threads _ _ _ HI _ _ Ei) as Hh.
  pose proof (i_max _ _ _ HI) as Hmax. pose proof (i_main _ _ _ HI) as Hmain.
  pose proof (at_pc_thread maxnconn w i f) as Hat. pose proof (i_pc _ _ _ HI) as Hpc.
  destruct f as [fl p]. unfold consistent in Hf. simpl in *. unfold write_get_cmd, set_file, set_mutex, set_ndone; simpl.
  destruct p; intros E; try done; simpl in *.
  - injection E as <-. thread_case. by apply Hat; auto.
  - injection E as <-. thread_case. apply Hat; auto. by subst.
  - destruct (n =? 0); injection E as <-; [|done].
    thread_case. by apply Hat; auto.
  - injection E as <-. thread_case. apply Hat; auto.
  - destruct (ndone_mutex w) eqn:Em; [done|]. injection E as <-.
    thread_case.
    + intros j Hne. rewrite Em. split; [intros [= ->]; done|done].
    + rewrite Hmain. done.
    + by apply Hat; auto.
  - injection E as <-. thread_case. by apply Hat; auto.
  - apply proj1 in Hh. specialize (Hh eq_refl).
    injection E as <-. unfold signal; simpl. destruct (pc w) eqn:Ep; unfold goto; simpl;
      (thread_case; rewrite ?Hh; try done);
      unfold at_pc in *; rewrite Ep in Hpc; simpl in *; try done.
    + destruct signalled; naive_solver.
    + rewrite Hh in Hmain. naive_solver.
  - injection E as <-. thread_case.
    + intros j Hne. rewrite (proj1 Hh eq_refl). split; [done|intros [= ->]; done].
    + rewrite Hmain, (proj1 Hh eq_refl). done.
    + by apply Hat; auto.
Qed.

Lemma thr_main_step_inv maxnconn spurious nfiles w w' :
  inv maxnconn nfiles w -> main_step maxnconn spurious w = Some w' -> inv maxnconn nfiles w'.
Proof.
  intros HI. unfold main_step. pose proof (i_main _ _ _ HI) as Hmain. pose proof (i_pc _ _ _ HI) as Hpc.
  unfold at_pc in Hpc. destruct (pc w) eqn:Ep; simpl in *; intros E; try done; unfold goto, set_mutex in E; simpl in E.
  - injection E as <-. destruct (Z.gtb_spec (nlefttoread w) 0); apply main_moves; try done; unfold at_pc; simpl; lia.
  - destruct (more_conns maxnconn w) eqn:Em; [|injection E as <-; apply main_moves; done].
    destruct (find_file (files w)) as [i|] eqn:Ei.
    + injection E as <-. destruct (thr_find_file_some _ _ Ei) as (f & Ef & Hfl).
      pose proof (i_files _ _ _ HI _ _ Ef) as Hok. pose proof (i_threads _ _ _ HI _ _ Ef) as Hh.
      assert (Hn : f_pc f = T_none).
      { unfold consistent in Hok. rewrite Hfl in Hok. destruct (f_pc f); try done; naive_solver. }
      unfold more_conns in Em. rewrite Hn in Hh.
      eapply thr_file_changes; try done; unfold live, fresh, unjoined, counted; rewrite ?Hn; simpl; try lia; done.
    + exfalso. pose proof (thr_find_file_none _ Ei) as Hz. unfold more_conns in Em. rewrite (i_toconn _ _ _ HI), Hz in Em.
      * by rewrite andb_false_r in Em.
      * intros j f Ej. exists j. by apply (i_files _ _ _ HI).
  - destruct (ndone_mutex w) eqn:Em; [done|]. injection E as <-. apply main_moves; try done.
    intros j. by rewrite Em.
  - rewrite (proj1 Hmain eq_refl) in *. injection E as <-. case_match eqn:Ez.
    + apply main_moves; try done; [intros j; by rewrite (proj1 Hmain eq_refl)|]. unfold at_pc; simpl. split_and!; try apply Hpc. lia.
    + apply main_moves; try done. by rewrite (proj1 Hmain eq_refl).
  - destruct (ndone_mutex w) eqn:Em; [done|]. destruct (_ || _); [|done]. injection E as <-. apply main_moves; try done.
    + intros j. by rewrite Em.
    + unfold at_pc; simpl. destruct signalled; naive_solver.
  - destruct (files w !! i) as [f|] eqn:Ei; injection E as <-.
    + destruct (has_flag _ _) eqn:Ef; apply main_moves; try done. exists f. split; [done|].
      pose proof (i_files _ _ _ HI _ _ Ei) as Hok. unfold consistent in Hok.
      destruct (f_pc f); try (rewrite Hok in Ef; done); try done; naive_solver.
    + apply main_moves; done.
  - destruct (files w !! i) as [f|] eqn:Ei; [|done]. destruct f as [fl []]; try done.
    pose proof (i_files _ _ _ HI _ _ Ei) as [Hok Hret]. pose proof (i_threads _ _ _ HI _ _ Ei) as Hh. simpl in *. subst.
    pose proof (i_max _ _ _ HI) as Hmax.
    rewrite Nat.eqb_refl in E. injection E as <-. thread_case.
  - injection E as <-. apply main_moves; try done. intros j. by rewrite (proj1 Hmain eq_refl).
Qed.

Lemma thr_main_init_inv maxnconn nfiles : inv maxnconn nfiles (main_init nfiles).
Proof.
  assert (Hr : forall i f, replicate nfiles (File 0 T_none) !! i = Some f -> f = File 0 T_none).
  { intros i f [E _]%lookup_replicate. done. }
  split; simpl; try done; try (rewrite zsum_replicate; cbv [live fresh unjoined counted f_pc]; lia).
  - apply length_replicate.
  - by intros i f ->%Hr.
  - lia.
  - by intros i f ->%Hr.
Qed.

Definition reachable (maxnconn : Z) (spurious : bool) (nfiles : nat) : web -> Prop :=
  rtc (step maxnconn spurious) (main_init nfiles).

Lemma thr_reachable_inv maxnconn spurious nfiles w : reachable maxnconn spurious nfiles w -> inv maxnconn nfiles w.
Proof.
  apply (rtc_ind_r (inv maxnconn nfiles)); [apply thr_main_init_inv|]. intros x y _ Hst HI.
  destruct Hst as [x y E|x y i n _ E]; [by eapply thr_main_step_inv|by eapply thread_step_inv].
Qed.

(** [main] waits, with the mutex, for a thread that waits for the mutex. *)
Definition join_deadlock (i : nat) (w : web) : Prop :=
  pc w = M_join i /\ ndone_mutex w = Some By_main /\ exists f, files w !! i = Some f /\ f_pc f = T_lock.

Lemma owner_steps maxnconn spurious nfiles w i :
  inv maxnconn nfiles w -> ndone_mutex w = Some (By_thread i) -> exists w', step maxnconn spurious w w'.
Proof.
  intros HI Em. destruct (i_owner _ _ _ HI _ Em) as [f Ei]. pose proof (proj2 (i_threads _ _ _ HI _ _ Ei) Em) as Hh.
  assert (exists w', thread_step i 0 w = Some w') as [w' Hw'].
  { unfold thread_step. rewrite Ei. destruct (f_pc f); try done; by eexists. }
  exists w'. by eapply (Thread _ _ _ _ i 0).
Qed.

(** While [main] waits unsignalled and the mutex is free, some thread can move. *)
Lemma waiting_steps maxnconn spurious nfiles w :
  1 <= maxnconn -> inv maxnconn nfiles w -> pc w = M_wait false -> ndone_mutex w = None ->
  exists w', step maxnconn spurious w w'.
Proof.
  intros Hmax HI Ep Em. pose proof (i_pc _ _ _ HI) as Hpc. unfold at_pc in Hpc. rewrite Ep in Hpc.
  destruct Hpc as (Hr & Hm & Hs).
  assert (Hd : ndone w <= 0).
  { destruct (Z.le_gt_cases (ndone w) 0) as [|Hpos]; [done|]. destruct Hs as (i & f & Ei & Hf); [lia|].
    pose proof (proj1 (i_threads _ _ _ HI _ _ Ei)) as Hh. rewrite Hf, Em in Hh. by specialize (Hh eq_refl). }
  assert (Hsum : forall l, zsum unjoined l = zsum live l + zsum fresh l).
  { induction l as [|f l IH]; simpl; [done|]. rewrite IH. unfold unjoined, live, fresh. destruct (f_pc f); lia. }
  assert (Hpend : forall l, zsum (fun f => live f - counted f) l = zsum live l - zsum counted l).
  { induction l as [|f l IH]; simpl; [done|]. rewrite IH. lia. }
  assert (Hx : 0 < zsum (fun f => live f - counted f) (files w)).
  { rewrite Hpend, <- (i_done _ _ _ HI). rewrite (i_toread _ _ _ HI), Hsum in Hr.
    unfold more_conns in Hm. rewrite (i_toconn _ _ _ HI), (i_conn _ _ _ HI) in Hm. lia. }
  apply zsum_pos in Hx as (i & f & Ei & Hf).
  assert (exists w', thread_step i 0 w = Some w') as [w' Hw'].
  { unfold thread_step. rewrite Ei, Em. unfold live, counted in Hf. destruct (f_pc f); try lia; by eexists. }
  exists w'. by eapply (Thread _ _ _ _ i 0).
Qed.

(** C23: if at least one connection is allowed (1 <= [maxnconn]): in every state the threaded
    web client reaches, the mutex is held by at most one of [main] and the threads,
    [ndone] counts the threads that have counted themselves and are not joined, [nconn]
    the threads that run, at most [maxnconn]; neither [err_quit] of [main] is reached;
    when [main] exits every thread is joined; and the client never stops before that,
    except when [main] joins a thread that waits for the mutex [main] holds: no wakeup
    is lost. *)
Theorem web03_progress maxnconn spurious nfiles w :
  1 <= maxnconn -> reachable maxnconn spurious nfiles w ->
  (main_holds (pc w) = true <-> ndone_mutex w = Some By_main) /\
  (forall i f, files w !! i = Some f -> holds (f_pc f) = true <-> ndone_mutex w = Some (By_thread i)) /\
  ndone w = zsum counted (files w) /\ nconn w = zsum live (files w) /\ nconn w <= maxnconn /\ pc w <> M_quit /\
  (pc w = M_exit -> Forall (fun f => f_pc f = T_joined /\ f_flags f = F_JOINED) (files w)) /\
  (pc w = M_exit \/ (exists w', step maxnconn false w w') \/ exists i, join_deadlock i w).
Proof.
  intros Hmax HI%thr_reachable_inv. pose proof (i_pc _ _ _ HI) as Hpc. pose proof (i_max _ _ _ HI).
  split_and!; try apply HI; [lia|unfold at_pc in Hpc; by destruct (pc w)| |].
  - intros Ep. unfold at_pc in Hpc. rewrite Ep, (i_toread _ _ _ HI) in Hpc.
    apply Forall_lookup. intros i f Ei. pose proof (i_files _ _ _ HI _ _ Ei) as Hok.
    assert (unjoined f <= 0).
    { transitivity (zsum unjoined (files w)); [|done]. apply (zsum_ge _ _ i); [|done].
      intros x. unfold unjoined. by case_match. }
    unfold unjoined, consistent in *. destruct (f_pc f); try lia. done.
  - assert (Hown : (exists i, ndone_mutex w = Some (By_thread i)) -> exists w', step maxnconn false w w').
    { intros [i Em]. by eapply owner_steps. }
    assert (Hstep : forall w', main_step maxnconn false w = Some w' -> exists w', step maxnconn false w w').
    { intros w' E. exists w'. by apply Main. }
    pose proof (i_main _ _ _ HI) as Hmain. unfold main_step in Hstep. unfold at_pc in Hpc.
    destruct (pc w) as [| | | |sg|i|i| | |] eqn:Ep; simpl in *; try (by left); try done; right.
    + left. by eapply Hstep.
    + left. repeat case_match; by eapply Hstep.
    + left. destruct (ndone_mutex w) as [[|i]|]; [by apply proj2 in Hmain; specialize (Hmain eq_refl)|by apply Hown; exists i|by eapply Hstep].
    + left. by eapply Hstep.
    + left. destruct (ndone_mutex w) as [[|i]|] eqn:Em; [by apply proj2 in Hmain; specialize (Hmain eq_refl)|by apply Hown; exists i|].
      destruct sg; [by eapply Hstep|]. by eapply waiting_steps.
    + left. destruct (files w !! i); by eapply Hstep.
    + destruct Hpc as (f & Ei & Hf). rewrite Ei in Hstep. pose proof (i_files _ _ _ HI _ _ Ei) as Hok.
      pose proof (i_threads _ _ _ HI _ _ Ei) as Hh. pose proof (proj1 Hmain eq_refl) as Em. unfold consistent in Hok.
      destruct f as [fl p]; simpl in *. subst. rewrite Em in Hh.
      destruct p; simpl in *; try done; try (by destruct Hh as [Hh _]; specialize (Hh eq_refl)).
      * right. exists i. split_and!; [done|done|]. by eexists.
      * left. by eapply Hstep.
    + left. by eapply Hstep.
Qed.

(** *** Schedules *)

Inductive turn := Turn_main | Turn_thread (i : nat) (n : Z).

Definition take (maxnconn : Z) (spurious : bool) (t : turn) (w : web) : option web :=
  match t with
  | Turn_main => main_step maxnconn spurious w
  | Turn_thread i n => if 0 <=? n then thread_step i n w else None
  end.

Fixpoint schedule (maxnconn : Z) (spurious : bool) (l : list turn) (w : web) : option web :=
  match l with
  | [] => Some w
  | t :: l' => match take maxnconn spurious t w with Some w' => schedule maxnconn spurious l' w' | None => None end
  end.

Lemma schedule_steps maxnconn spurious l w w' :
  schedule maxnconn spurious l w = Some w' -> rtc (step maxnconn spurious) w w'.
Proof.
  revert w. induction l as [|t l IH]; intros w E; simpl in E; [by injection E as ->|].
  destruct (take maxnconn spurious t w) as [w1|] eqn:Et; [|done]. eapply rtc_l; [|by apply IH].
  destruct t as [|i n]; simpl in Et; [by apply Main|]. destruct (Z.leb_spec 0 n); [|done]. by apply (Thread _ _ _ _ i n).
Qed.

(** Two threads run to their ends before [main] looks, but the second has not locked
    the mutex: [main] has created both, and takes the mutex after the first is done. *)
Definition fetch (i : nat) : list turn := replicate 4 (Turn_thread i 0).
Definition two_files : list turn :=
  replicate 4 Turn_main ++ fetch 0 ++ replicate 4 (Turn_thread 0 0) ++ fetch 1 ++ replicate 5 Turn_main.

Lemma two_files_deadlock : exists w, schedule 2 false two_files (main_init 2) = Some w /\ join_deadlock 1 w.
Proof. eexists. split; [vm_compute; reflexivity|]. split_and!; try reflexivity. by eexists. Qed.

Lemma join_deadlock_step maxnconn spurious nfiles i w w' :
  inv maxnconn nfiles w -> step maxnconn spurious w w' -> join_deadlock i w -> join_deadlock i w'.
Proof.
  intros HI Hst (Hp & Hm & f & Ei & Hf). destruct Hst as [w w' E|w w' j n _ E].
  - unfold main_step in E. rewrite Hp, Ei in E. destruct f; simpl in Hf; subst. done.
  - unfold thread_step in E. destruct (files w !! j) as [g|] eqn:Ej; [|done].
    assert (Hne : f_pc g <> T_lock -> j <> i) by (intros Hg ->; congruence).
    assert (Hins : forall h, f_pc g <> T_lock -> exists f, <[j := h]> (files w) !! i = Some f /\ f_pc f = T_lock).
    { intros h Hg. exists f. rewrite list_lookup_insert_ne by auto. done. }
    destruct (f_pc g) eqn:Eg; try done; rewrite ?Hm in E; try done.
    all: try (injection E as <-; unfold signal; simpl; rewrite ?Hp; split_and!; simpl; try done; by apply Hins).
    + injection E as <-. destruct (n =? 0); split_and!; simpl; try done; [by apply Hins|by exists f].
    + pose proof (proj1 (i_threads _ _ _ HI _ _ Ej)) as Hh. rewrite Eg, Hm in Hh. by specialize (Hh eq_refl).
Qed.

(** the threaded web client can deadlock for ever: with two files and two
    connections, a thread sets [F_DONE] before it locks [ndone_mutex], [main], which
    holds the mutex because the other thread has ended, sees the flag and joins the
    thread with the mutex held.  From then on, whatever the schedule, the thread
    waits for the mutex and [main] for the thread, so the client never exits. *)
Theorem web03_deadlock :
  (exists w, reachable 2 false 2 w /\ join_deadlock 1 w) /\
  (forall maxnconn spurious nfiles i w w', reachable maxnconn spurious nfiles w -> join_deadlock i w ->
     rtc (step maxnconn spurious) w w' -> join_deadlock i w' /\ pc w' <> M_exit).
Proof.
  split.
  - destruct two_files_deadlock as (w & Hs & Hd). exists w. split; [|done]. by eapply schedule_steps.
  - intros maxnconn spurious nfiles i w w' HI%thr_reachable_inv Hd Hst.
    enough (inv maxnconn nfiles w' /\ join_deadlock i w') as [_ Hd'] by (split; [done|]; destruct Hd' as [-> _]; done).
    revert Hst. apply (rtc_ind_r (fun w' => inv maxnconn nfiles w' /\ join_deadlock i w')); [done|].
    intros x y _ Hxy [HIx Hdx]. split; [|by eapply join_deadlock_step].
    destruct Hxy as [x y E|x y j n _ E]; [by eapply thr_main_step_inv|by eapply thread_step_inv].
Qed.

(** One file, fetched without trouble: [main] waits, is signalled and joins. *)
Definition one_file : list turn :=
  replicate 5 Turn_main ++ fetch 0 ++ replicate 4 (Turn_thread 0 0) ++ replicate 7 Turn_main.

Lemma one_file_exits : exists w, schedule 1 false one_file (main_init 1) = Some w /\ pc w = M_exit.
Proof. eexists. split; [vm_compute; reflexivity|reflexivity]. Qed.

Lemma web03_progress_witness :
  exists w, pc w = M_exit /\ Forall (fun f => f_pc f = T_joined /\ f_flags f = F_JOINED) (files w).
Proof.
  destruct one_file_exits as (w & Hs & Hp). exists w. split; [done|].
  by apply (web03_progress 1 false 1 w ltac:(lia) (schedule_steps _ _ _ _ _ Hs)).
Defined.
End Threads.
