(* ===== verification/TcpServ.v ===== *)
(** * The select and poll echo servers: [unixNetV1/tcpcliserv]

    One process serves all clients.  [Select] models [tcpservselect01.c], with its
    table of descriptors, [maxi], [maxfd] and the descriptor set; [Poll] models
    [tcpservpoll01.c], whose table is the array given to [poll].  A pass of the loop is
    a function of what the kernel answers; its early exits, which count the
    descriptors that are ready, are compared with a reference pass that looks at the
    whole table. *)
From S2P Require Import Prelude.

(** What a pass does, in order. *)
Inductive event :=
| Accepted (fd : Z)
| Echoed (fd : Z) (data : list Z)
| Closed (fd : Z).

Global Instance event_eq_dec : EqDecision event.
Proof. solve_decision. Defined.

(** How many elements of a list satisfy a test. *)
Definition countb {A} (P : A -> bool) (l : list A) : Z := Z.of_nat (length (List.filter P l)).

Section Count.
Context {A : Type}.
Implicit Types (P : A -> bool) (l : list A).

Lemma countb_cons P x l : countb P (x :: l) = (if P x then 1 else 0) + countb P l.
Proof. unfold countb. simpl. destruct (P x); simpl; lia. Qed.

Lemma countb_nonneg P l : 0 <= countb P l.
Proof. unfold countb. lia. Qed.

Lemma countb_app P l l' : countb P (l ++ l') = countb P l + countb P l'.
Proof. unfold countb. rewrite List.filter_app, length_app. lia. Qed.

Lemma countb_zero P l : countb P l = 0 <-> Forall (fun x => P x = false) l.
Proof.
  induction l as [|x l IH]; [done|]. rewrite countb_cons, Forall_cons, <- IH. pose proof (countb_nonneg P l).
  destruct (P x); split; [lia|by intros [? _]|intros ?; split; [done|lia]|intros [_ ?]; lia].
Qed.

Lemma countb_insert P l i x y : l !! i = Some x ->
  countb P (<[i := y]> l) = countb P l - (if P x then 1 else 0) + (if P y then 1 else 0).
Proof.
  revert i. induction l as [|z l IH]; intros [|i] E; simpl in *; try done.
  - injection E as ->. rewrite !countb_cons. lia.
  - rewrite !countb_cons, (IH _ E). lia.
Qed.
End Count.

(** Replacing the part of a table that starts at [k]. *)
Definition splice {A} (k : nat) (l t : list A) : list A := take k t ++ l ++ drop (k + length l) t.

Section Splice.
Context {A : Type}.
Implicit Types (l t : list A).

Lemma splice_nil k t : splice k [] t = t.
Proof. unfold splice. simpl. by rewrite Nat.add_0_r, take_drop. Qed.

Lemma splice_same k l t : take (length l) (drop k t) = l -> splice k l t = t.
Proof. intros Hl. unfold splice. rewrite <- Hl at 1. by rewrite <- drop_drop, take_drop, take_drop. Qed.

Lemma splice_cons k x l t : (k < length t)%nat -> splice (S k) l (<[k := x]> t) = splice k (x :: l) t.
Proof.
  intros Hk. unfold splice. rewrite insert_take_drop by done.
  rewrite take_app_ge, length_take_le by (rewrite ?length_take_le; lia).
  replace (S k - k)%nat with 1%nat by lia. rewrite <- app_assoc. f_equal. simpl. f_equal. f_equal.
  rewrite drop_app_ge by (rewrite length_take_le; lia). rewrite length_take_le by lia.
  replace (S (k + length l) - k)%nat with (S (length l)) by lia. simpl. rewrite drop_drop. f_equal. lia.
Qed.

Lemma window_cons k x l t : take (length (x :: l)) (drop k t) = x :: l ->
  t !! k = Some x /\ take (length l) (drop (S k) t) = l.
Proof.
  destruct (drop k t) as [|y r] eqn:E; [done|]. simpl. intros [= -> Hl].
  assert (Hx : t !! k = Some x) by (rewrite <- (Nat.add_0_r k), <- lookup_drop, E; done).
  rewrite (drop_S _ _ _ Hx) in E. by injection E as ->.
Qed.
End Splice.

(** The first entry that is free. *)
Fixpoint find_free (l : list Z) : option nat :=
  match l with
  | [] => None
  | fd :: l' => if fd <? 0 then Some 0%nat else S <$> find_free l'
  end.

Lemma find_free_some (l : list Z) i : find_free l = Some i -> exists fd, l !! i = Some fd /\ fd < 0.
Proof.
  revert i. induction l as [|fd l IH]; intros i E; simpl in E; [done|].
  destruct (Z.ltb_spec fd 0); [injection E as <-; by exists fd|].
  destruct (find_free l) as [j|]; [|done]. injection E as <-. by apply IH.
Qed.

Lemma find_free_none (l : list Z) : find_free l = None -> Forall (fun fd => 0 <= fd) l.
Proof.
  induction l as [|fd l IH]; simpl; [done|]. destruct (Z.ltb_spec fd 0); [done|].
  destruct (find_free l); [done|]. intros _. constructor; [done|]. by apply IH.
Qed.

(** A descriptor put into the first entry that is free: every entry before it is in
    use. *)
Definition seated (fd : Z) (l l' : list Z) : Prop :=
  exists i old, l !! i = Some old /\ old < 0 /\ (forall j x, (j < i)%nat -> l !! j = Some x -> 0 <= x) /\
    l' = <[i := fd]> l.

Lemma find_free_seated (l : list Z) i fd : find_free l = Some i -> seated fd l (<[i := fd]> l).
Proof.
  intros E. destruct (find_free_some _ _ E) as (old & Eo & Ho). exists i, old. split_and!; [done|done| |done].
  clear old Eo Ho. revert i E. induction l as [|y l IH]; intros i E j x Hj Ej; simpl in E; [done|].
  destruct (Z.ltb_spec y 0); [injection E as <-; lia|]. destruct (find_free l) as [k|]; [|done]. injection E as <-.
  destruct j as [|j]; [by injection Ej as <-|]. eapply (IH k eq_refl j); [lia|done].
Qed.

(** ** [tcpservselect01.c] *)

Module Select.

Definition FD_SETSIZE : nat := 1024.

(** The variables of [main] and the sockets the kernel has open for the process. *)
Record server := Server { client : list Z; maxi : Z; maxfd : Z; allset : gset Z; opened : gset Z }.

(** How a part of a pass ends: it goes on, [err_quit] ends the process, or [FD_SET] is
    given a descriptor that the set has no bit for. *)
Inductive outcome (A : Type) := Continue (a : A) | Too_many_clients | Set_overflow.
Arguments Continue {A} _.
Arguments Too_many_clients {A}.
Arguments Set_overflow {A}.

Section Main.
Variable listenfd : Z.

(** [main] up to its loop. *)
Definition main_init : server :=
  Server (replicate FD_SETSIZE (-1)) (-1) listenfd {[listenfd]} {[listenfd]}.

(** A new connection, for which [Accept] has returned [connfd]. *)
Definition new_client (connfd : Z) (s : server) : outcome server :=
  match find_free (client s) with
  | None => Too_many_clients
  | Some i =>
      if connfd >=? Z.of_nat FD_SETSIZE then Set_overflow
      else Continue (Server (<[i := connfd]> (client s))
                       (if Z.of_nat i >? maxi s then Z.of_nat i else maxi s)
                       (if connfd >? maxfd s then connfd else maxfd s)
                       (allset s ∪ {[connfd]}) (opened s ∪ {[connfd]}))
  end.

(** The body of the last loop for [client[i]], which [select] says is readable: [data]
    is what [Read] returns, empty at the end of file. *)
Definition serve (i : nat) (sockfd : Z) (data : list Z) (s : server) : server * event :=
  match data with
  | [] => (Server (<[i := -1]> (client s)) (maxi s) (maxfd s) (allset s ∖ {[sockfd]}) (opened s ∖ {[sockfd]}), Closed sockfd)
  | _ => (s, Echoed sockfd data)
  end.

Section Pass.
Variable rset : gset Z.
Variable data : Z -> list Z.

(** [if ((sockfd = client[i]) < 0) continue; if (FD_ISSET(sockfd, &rset)) ...]: the
    descriptor to be served. *)
Definition is_ready (sockfd : Z) : bool := negb (sockfd <? 0) && bool_decide (sockfd ∈ rset).

(** The last loop over the indices [idx], the ones up to [maxi]. *)
Fixpoint check_clients (idx : list nat) (nready : Z) (s : server) (evs : list event) : server * list event :=
  match idx with
  | [] => (s, evs)
  | i :: idx' =>
      match client s !! i with
      | Some sockfd =>
          if is_ready sockfd then
            let (s', ev) := serve i sockfd (data sockfd) s in
            if nready - 1 <=? 0 then (s', evs ++ [ev]) else check_clients idx' (nready - 1) s' (evs ++ [ev])
          else check_clients idx' nready s evs
      | None => (s, evs)
      end
  end.

(** A pass of the outer loop after [Select] has returned [nready] and left [rset]. *)
Definition pass (nready connfd : Z) (s : server) : outcome (server * list event) :=
  let check nready s evs := check_clients (seq 0 (Z.to_nat (maxi s + 1))) nready s evs in
  if bool_decide (listenfd ∈ rset) then
    match new_client connfd s with
    | Continue s =>
        if nready - 1 <=? 0 then Continue (s, [Accepted connfd])
        else Continue (check (nready - 1) s [Accepted connfd])
    | Too_many_clients => Too_many_clients
    | Set_overflow => Set_overflow
    end
  else Continue (check nready s []).

(** The reference: what is done for a descriptor that is ready, and what becomes of
    its entry. *)
Definition answer (fd : Z) : event := match data fd with [] => Closed fd | d => Echoed fd d end.
Definition gone (fd : Z) : bool := is_ready fd && match data fd with [] => true | _ => false end.
Definition entry_after (fd : Z) : Z := if gone fd then -1 else fd.
Definition gone_set (l : list Z) : gset Z := list_to_set (List.filter gone l).

End Pass.
End Main.

(** *** The invariant *)

Definition is_client (s : server) (fd : Z) : Prop := exists i, client s !! i = Some fd /\ 0 <= fd.

Record inv (listenfd : Z) (s : server) : Prop := {
  i_len : length (client s) = FD_SETSIZE;
  i_maxi : -1 <= maxi s < Z.of_nat FD_SETSIZE;
  i_above : forall i fd, client s !! i = Some fd -> 0 <= fd -> Z.of_nat i <= maxi s;
  i_distinct : forall i j fd, client s !! i = Some fd -> client s !! j = Some fd -> 0 <= fd -> i = j;
  i_set : forall fd, fd ∈ allset s <-> fd = listenfd \/ is_client s fd;
  i_opened : opened s = allset s;
  i_listen : ~ is_client s listenfd;
  i_range : forall fd, fd ∈ allset s -> 0 <= fd <= maxfd s;
  i_maxfd : maxfd s < Z.of_nat FD_SETSIZE }.

#[local] Opaque FD_SETSIZE.

Lemma sel_main_init_inv listenfd : 0 <= listenfd < Z.of_nat FD_SETSIZE -> inv listenfd (main_init listenfd).
Proof.
  intros Hl. assert (Hno : forall fd, ~ is_client (main_init listenfd) fd).
  { intros fd (i & E & H). apply lookup_replicate in E as [-> _]. lia. }
  split.
  - apply length_replicate.
  - simpl. lia.
  - intros i fd E H. by destruct (Hno fd); exists i.
  - intros i j fd E _ H. by destruct (Hno fd); exists i.
  - intros fd. simpl. rewrite elem_of_singleton. naive_solver.
  - done.
  - done.
  - simpl. intros fd ->%elem_of_singleton. lia.
  - simpl. lia.
Qed.

Section Proofs.
Variables (listenfd : Z) (rset : gset Z) (data : Z -> list Z).
#[local] Abbreviation ready := (is_ready rset).
#[local] Abbreviation closing := (gone rset data).
#[local] Abbreviation closed := (gone_set rset data).
#[local] Abbreviation entry' := (entry_after rset data).

Lemma gone_ready fd : ready fd = false -> closing fd = false /\ entry' fd = fd.
Proof. intros H. unfold entry_after, gone. by rewrite H. Qed.

Lemma quiet_entries (l : list Z) : countb ready l = 0 ->
  List.filter ready l = [] /\ map entry' l = l /\ closed l = ∅.
Proof.
  intros Hc%countb_zero. induction Hc as [|x l Hx _ IH]; [done|]. destruct IH as (H1 & H2 & H3).
  destruct (gone_ready x Hx) as [Hg He]. unfold gone_set in *. simpl. by rewrite Hx, He, H2, Hg.
Qed.

(** The state after the entries of [l] have been looked at, which start at index [k]. *)
Definition after (k : nat) (l : list Z) (s : server) : server :=
  Server (splice k (map entry' l) (client s)) (maxi s) (maxfd s)
    (allset s ∖ closed l) (opened s ∖ closed l).

Lemma after_nil k s : after k [] s = s.
Proof.
  destruct s as [c mi mf al op]. unfold after; simpl. rewrite splice_nil.
  unfold gone_set; simpl. f_equal; set_solver.
Qed.

Lemma after_quiet k l s : take (length l) (drop k (client s)) = l -> countb ready l = 0 -> after k l s = s.
Proof.
  intros Hl (_ & Hm & Hc)%quiet_entries. destruct s as [c mi mf al op]. unfold after; simpl in *. rewrite Hm, Hc.
  f_equal; try set_solver. by apply splice_same.
Qed.

(** The entry at [k] has been looked at, and those behind it. *)
Lemma after_cons k fd l s s' :
  (k < length (client s))%nat -> client s' = <[k := entry' fd]> (client s) -> maxi s' = maxi s -> maxfd s' = maxfd s ->
  allset s' = (if closing fd then allset s ∖ {[fd]} else allset s) ->
  opened s' = (if closing fd then opened s ∖ {[fd]} else opened s) ->
  after (S k) l s' = after k (fd :: l) s.
Proof.
  intros Hk Hc Hmi Hmf Ha Ho. unfold after. rewrite Hc, Hmi, Hmf, Ha, Ho. f_equal.
  - by apply splice_cons.
  - unfold gone_set. simpl. destruct (closing fd); simpl; set_solver.
  - unfold gone_set. simpl. destruct (closing fd); simpl; set_solver.
Qed.

Lemma check_clients_spec l : forall k nready s evs,
  take (length l) (drop k (client s)) = l -> nready = countb ready l ->
  check_clients rset data (seq k (length l)) nready s evs =
    (after k l s, evs ++ map (answer data) (List.filter ready l)).
Proof.
  induction l as [|fd l IH]; intros k nready s evs Hl Hn.
  { simpl. by rewrite after_nil, app_nil_r. }
  destruct (window_cons _ _ _ _ Hl) as [Hk Hl'].
  assert (Hlt : (k < length (client s))%nat) by (by apply lookup_lt_is_Some; rewrite Hk).
  rewrite countb_cons in Hn. simpl. rewrite Hk. destruct (ready fd) eqn:Er; simpl.
  - destruct (serve k fd (data fd) s) as [s' ev] eqn:Es.
    assert (Hs : client s' = <[k := entry' fd]> (client s) /\ maxi s' = maxi s /\ maxfd s' = maxfd s /\
              allset s' = (if closing fd then allset s ∖ {[fd]} else allset s) /\
              opened s' = (if closing fd then opened s ∖ {[fd]} else opened s) /\ ev = answer data fd).
    { unfold serve in Es. unfold entry_after, gone, answer. rewrite Er.
      destruct (data fd); injection Es as <- <-; simpl; [done|]. split_and!; try done. by rewrite list_insert_id. }
    destruct Hs as (H1 & H2 & H3 & H4 & H5 & ->).
    assert (Hl1 : take (length l) (drop (S k) (client s')) = l) by (rewrite H1, drop_insert_lt by lia; done).
    rewrite <- (after_cons k fd l s s') by done. pose proof (countb_nonneg ready l).
    destruct (Z.leb_spec (nready - 1) 0).
    + rewrite after_quiet by (done || lia). destruct (quiet_entries l) as [-> _]; [lia|done].
    + rewrite IH by (done || lia). by rewrite <- app_assoc.
  - destruct (gone_ready _ Er) as [Hg He].
    rewrite IH by (done || lia). f_equal. apply after_cons; rewrite ?Hg, ?He; try done. by rewrite list_insert_id.
Qed.

Lemma ready_elems (s : server) :
  inv listenfd s -> rset ⊆ allset s -> forall fd, fd ∈ List.filter ready (client s) <-> fd ∈ rset ∖ {[listenfd]}.
Proof.
  intros HI Hr fd. rewrite list_elem_of_In, filter_In, <- list_elem_of_In, elem_of_difference, elem_of_singleton.
  unfold is_ready. rewrite andb_true_iff, negb_true_iff, Z.ltb_ge, bool_decide_eq_true. split.
  - intros (Hin & H0 & Hfd). split; [done|]. intros ->. apply (i_listen _ _ HI).
    apply list_elem_of_lookup in Hin as [i Hi]. by exists i.
  - intros [Hfd Hne]. apply Hr in Hfd as Ha. apply (i_set _ _ HI) in Ha as [->|(i & Ei & H0)]; [done|].
    split_and!; [|done|done]. apply list_elem_of_lookup. by exists i.
Qed.

Lemma NoDup_distinct {A} (l : list A) : (forall i j x, l !! i = Some x -> l !! j = Some x -> i = j) -> NoDup l.
Proof. intros H. apply NoDup_alt. auto. Qed.

Lemma NoDup_filter_b {A} (P : A -> bool) (l : list A) :
  (forall i j x, l !! i = Some x -> l !! j = Some x -> P x = true -> i = j) -> NoDup (List.filter P l).
Proof.
  induction l as [|x l IH]; intros H; simpl; [constructor|].
  assert (IH' : NoDup (List.filter P l)).
  { apply IH. intros i j y Ei Ej Hy. by injection (H (S i) (S j) y Ei Ej Hy). }
  destruct (P x) eqn:Ex; [|done]. constructor; [|done]. rewrite list_elem_of_In, filter_In, <- list_elem_of_In.
  intros [[j Ej]%list_elem_of_lookup _]. by specialize (H 0%nat (S j) x eq_refl Ej Ex).
Qed.

Lemma ready_count (s : server) :
  inv listenfd s -> rset ⊆ allset s -> countb ready (client s) = Z.of_nat (size (rset ∖ {[listenfd]})).
Proof.
  intros HI Hr. unfold countb. f_equal. rewrite <- (size_list_to_set (C := gset Z)).
  - f_equal. apply set_eq. intros fd. rewrite elem_of_list_to_set. by apply ready_elems.
  - apply NoDup_filter_b. intros i j fd Ei Ej Hfd. apply (i_distinct _ _ HI i j fd Ei Ej).
    apply andb_true_iff in Hfd as [Hfd _]. rewrite negb_true_iff in Hfd. by apply Z.ltb_ge in Hfd.
Qed.

(** Nothing is ready above [maxi]. *)
Lemma ready_below (s : server) : inv listenfd s ->
  countb ready (take (Z.to_nat (maxi s + 1)) (client s)) = countb ready (client s) /\
  countb ready (drop (Z.to_nat (maxi s + 1)) (client s)) = 0.
Proof.
  intros HI. assert (H0 : countb ready (drop (Z.to_nat (maxi s + 1)) (client s)) = 0).
  { apply countb_zero, Forall_lookup. intros i fd Ei. rewrite lookup_drop in Ei.
    destruct (Z.ltb_spec fd 0) as [Hlt|Hge]; [unfold is_ready; by apply Z.ltb_lt in Hlt as ->|].
    pose proof (i_above _ _ HI _ _ Ei Hge). pose proof (i_maxi _ _ HI). lia. }
  split; [|done]. rewrite <- (take_drop (Z.to_nat (maxi s + 1)) (client s)) at 2. rewrite countb_app. lia.
Qed.

(** The whole table: the loop up to [maxi] does what looking at every entry would. *)
Definition reference (s : server) : server :=
  Server (map entry' (client s)) (maxi s) (maxfd s) (allset s ∖ closed (client s)) (opened s ∖ closed (client s)).

Lemma check_all (s : server) evs nready :
  inv listenfd s -> rset ⊆ allset s -> nready = Z.of_nat (size (rset ∖ {[listenfd]})) ->
  check_clients rset data (seq 0 (Z.to_nat (maxi s + 1))) nready s evs =
    (reference s, evs ++ map (answer data) (List.filter ready (client s))).
Proof.
  intros HI Hr ->. pose proof (ready_below s HI) as [Hb Ha]. pose proof (i_maxi _ _ HI). pose proof (i_len _ _ HI).
  set (n := Z.to_nat (maxi s + 1)) in *. assert (Hn : (n <= length (client s))%nat) by lia.
  replace n with (length (take n (client s))) at 1 by (rewrite length_take_le; done).
  destruct (quiet_entries _ Ha) as (Hf & Hm & Hc).
  rewrite (check_clients_spec (take n (client s)) 0).
  - f_equal.
    + unfold after, reference, splice. simpl. rewrite length_map, length_take_le by done.
      assert (Hmap : map entry' (client s) = map entry' (take n (client s)) ++ drop n (client s)).
      { rewrite <- Hm, <- map_app. by rewrite take_drop. }
      assert (Hcl : closed (client s) = closed (take n (client s))).
      { rewrite <- (take_drop n (client s)) at 1. unfold gone_set in *.
        by rewrite List.filter_app, list_to_set_app_L, Hc, union_empty_r_L. }
      by rewrite Hmap, Hcl.
    + do 2 f_equal. rewrite <- (take_drop n (client s)) at 2. by rewrite List.filter_app, Hf, app_nil_r.
  - rewrite length_take_le by done. by rewrite drop_0.
  - rewrite Hb, ready_count by done. done.
Qed.

Lemma reference_inv (s : server) : inv listenfd s -> inv listenfd (reference s).
Proof.
  intros HI. assert (Hlk : forall i fd, map entry' (client s) !! i = Some fd -> 0 <= fd ->
    client s !! i = Some fd /\ closing fd = false).
  { intros i fd E H0. rewrite list_lookup_fmap in E. destruct (client s !! i) as [x|]; [|done]. simpl in E.
    injection E as E. unfold entry_after in E. destruct (closing x) eqn:Eg; [lia|]. by subst. }
  assert (Hin : forall fd, fd ∈ closed (client s) <-> fd ∈ client s /\ closing fd = true).
  { intros fd. unfold gone_set. by rewrite elem_of_list_to_set, list_elem_of_In, filter_In, <- list_elem_of_In. }
  assert (Hcl : forall fd, is_client (reference s) fd <-> is_client s fd /\ fd ∉ closed (client s)).
  { intros fd. rewrite Hin. split.
    - intros (i & E & H0). destruct (Hlk _ _ E H0) as [E' Hg]. split; [by exists i|]. rewrite Hg. naive_solver.
    - intros [(i & E & H0) Hn]. exists i. split; [|done]. simpl. rewrite list_lookup_fmap, E. simpl.
      unfold entry_after. destruct (closing fd) eqn:Eg; [|done]. destruct Hn. split; [|done].
      apply list_elem_of_lookup. by exists i. }
  split; simpl.
  - rewrite length_map. apply HI.
  - apply HI.
  - intros i fd E H0. destruct (Hlk _ _ E H0) as [E' _]. by apply (i_above _ _ HI i fd).
  - intros i j fd Ei Ej H0. destruct (Hlk _ _ Ei H0) as [Ei' _], (Hlk _ _ Ej H0) as [Ej' _].
    by apply (i_distinct _ _ HI i j fd).
  - intros fd. rewrite elem_of_difference, (i_set _ _ HI), Hcl. split; [tauto|]. intros [->|[H1 H2]]; [|tauto].
    split; [by left|]. rewrite Hin. intros [[i E]%list_elem_of_lookup Hg]. apply (i_listen _ _ HI). exists i.
    split; [done|]. unfold gone, is_ready in Hg. destruct (Z.ltb_spec listenfd 0); [done|lia].
  - by rewrite (i_opened _ _ HI).
  - rewrite Hcl. intros [H _]. by apply (i_listen _ _ HI).
  - intros fd [Hfd _]%elem_of_difference. by apply (i_range _ _ HI).
  - apply HI.
Qed.

(** A table of distinct descriptors other than [listenfd] that fit the set has a free
    entry. *)
Lemma table_not_full (s : server) : inv listenfd s -> find_free (client s) <> None.
Proof.
  intros HI Hf%find_free_none. pose proof (proj1 (Forall_lookup _ _) Hf) as Hnn.
  assert (Hall : forall fd, fd ∈ client s -> is_client s fd).
  { intros fd [i Ei]%list_elem_of_lookup. exists i. split; [done|]. by eapply Hnn. }
  assert (Hsub : listenfd :: client s ⊆+ seqZ 0 (Z.of_nat FD_SETSIZE)).
  { apply NoDup_submseteq.
    - constructor; [intros H; by apply (i_listen _ _ HI), Hall|]. apply NoDup_distinct.
      intros i j fd Ei Ej. apply (i_distinct _ _ HI i j fd Ei Ej). by eapply Hnn.
    - intros fd Hfd. apply elem_of_seqZ. pose proof (i_maxfd _ _ HI).
      assert (0 <= fd <= maxfd s); [|lia]. apply (i_range _ _ HI), (i_set _ _ HI).
      apply elem_of_cons in Hfd as [->|Hfd]; [by left|right; by apply Hall]. }
  apply submseteq_length in Hsub. simpl in Hsub. rewrite length_seqZ, (i_len _ _ HI) in Hsub. lia.
Qed.

Lemma filter_insert_quiet (l : list Z) i x y : l !! i = Some x -> ready x = false -> ready y = false ->
  List.filter ready (<[i := y]> l) = List.filter ready l.
Proof.
  intros E Hx Hy. revert i E. induction l as [|z l IH]; intros [|i] E; simpl in *; try done.
  - injection E as ->. by rewrite Hx, Hy.
  - by rewrite (IH _ E).
Qed.

Lemma new_client_spec (connfd : Z) (s : server) :
  inv listenfd s -> rset ⊆ allset s -> 0 <= connfd -> connfd ∉ opened s ->
  match new_client connfd s with
  | Continue s' => inv listenfd s' /\ rset ⊆ allset s' /\ List.filter ready (client s') = List.filter ready (client s)
      /\ opened s' = opened s ∪ {[connfd]} /\ allset s' = allset s ∪ {[connfd]} /\ seated connfd (client s) (client s')
  | Too_many_clients => False
  | Set_overflow => Z.of_nat FD_SETSIZE <= connfd
  end.
Proof.
  intros HI Hr H0 Hfd. unfold new_client. destruct (find_free (client s)) as [i|] eqn:Ei; [|by apply (table_not_full s HI)].
  destruct (Z.geb_spec connfd (Z.of_nat FD_SETSIZE)) as [|Hlt]; [done|]. destruct (find_free_some _ _ Ei) as (x & Ex & Hx).
  rewrite (i_opened _ _ HI) in Hfd. assert (Hi : (i < length (client s))%nat) by (by apply lookup_lt_is_Some; rewrite Ex).
  pose proof (i_maxi _ _ HI). pose proof (i_maxfd _ _ HI). pose proof (i_len _ _ HI) as Hlen.
  assert (Hnc : ~ is_client s connfd) by (intros H'; apply Hfd, (i_set _ _ HI); by right).
  assert (Hnl : connfd <> listenfd) by (intros ->; apply Hfd, (i_set _ _ HI); by left).
  match goal with |- inv _ ?t /\ _ => assert (Hcl : forall fd, is_client t fd <-> fd = connfd \/ is_client s fd) end.
  { intros fd. unfold is_client. simpl. split.
    - intros (j & [(-> & <- & _)|(Hne & Ej)]%list_lookup_insert_Some & H'); [by left|right; by exists j].
    - intros [->|(j & Ej & H')]; [exists i; by rewrite list_lookup_insert_eq|]. exists j. split; [|done].
      rewrite list_lookup_insert_ne; [done|]. intros <-. rewrite Ex in Ej. injection Ej as <-. lia. }
  split_and!; [split; simpl| | | | |]; simpl.
  - by rewrite length_insert.
  - destruct (Z.gtb_spec (Z.of_nat i) (maxi s)); lia.
  - intros j fd [(<- & <- & _)|(Hne & Ej)]%list_lookup_insert_Some H'.
    + destruct (Z.gtb_spec (Z.of_nat i) (maxi s)); lia.
    + pose proof (i_above _ _ HI _ _ Ej H'). destruct (Z.gtb_spec (Z.of_nat i) (maxi s)); lia.
  - intros j k fd [(Hj & Ej & _)|(Hj & Ej)]%list_lookup_insert_Some [(Hk & Ek & _)|(Hk & Ek)]%list_lookup_insert_Some H'.
    + congruence.
    + destruct Hnc. exists k. by subst.
    + destruct Hnc. exists j. by subst.
    + by apply (i_distinct _ _ HI j k fd).
  - intros fd. rewrite elem_of_union, elem_of_singleton, (i_set _ _ HI), Hcl. tauto.
  - by rewrite (i_opened _ _ HI).
  - rewrite Hcl. intros [H'|H']; [by symmetry in H'|by apply (i_listen _ _ HI)].
  - intros fd [Hfd'|Hfd']%elem_of_union.
    + pose proof (i_range _ _ HI _ Hfd'). destruct (Z.gtb_spec connfd (maxfd s)); lia.
    + apply elem_of_singleton in Hfd' as ->. destruct (Z.gtb_spec connfd (maxfd s)); lia.
  - destruct (Z.gtb_spec connfd (maxfd s)); lia.
  - set_solver.
  - apply (filter_insert_quiet _ _ x); [done| |]; unfold is_ready.
    + by apply Z.ltb_lt in Hx as ->.
    + rewrite bool_decide_false; [by rewrite andb_false_r|]. intros H'. by apply Hfd, Hr.
  - done.
  - done.
  - by apply find_free_seated.
Qed.

(** What the kernel answers in a pass: some of the watched descriptors are ready, and a
    descriptor that is not open comes with a new connection. *)
Definition answers (connfd : Z) (s : server) : Prop :=
  rset ⊆ allset s /\ rset <> ∅ /\ 0 <= connfd /\ connfd ∉ opened s.

Lemma nready_split : Z.of_nat (size rset) = (if bool_decide (listenfd ∈ rset) then 1 else 0) + Z.of_nat (size (rset ∖ {[listenfd]})).
Proof.
  destruct (bool_decide_reflect (listenfd ∈ rset)) as [Hl|Hl].
  - assert (E : rset = {[listenfd]} ∪ (rset ∖ {[listenfd]})) by (apply union_difference_singleton_L; done).
    rewrite E at 1. rewrite size_union by set_solver. rewrite size_singleton. lia.
  - replace (rset ∖ {[listenfd]}) with rset by set_solver. lia.
Qed.

(** The table once a new client, if there is one, has its entry. *)
Definition table_with (connfd : Z) (s : server) (t : list Z) : Prop :=
  if bool_decide (listenfd ∈ rset) then seated connfd (client s) t else t = client s.

Lemma closed_ready (l : list Z) :
  closed l = list_to_set (List.filter (fun fd => match data fd with [] => true | _ => false end) (List.filter ready l)).
Proof.
  induction l as [|x l IH]; [done|]. unfold gone_set in *. simpl. unfold gone at 1. destruct (ready x); simpl; [|done].
  destruct (data x); simpl; [|done]. by rewrite IH.
Qed.

Lemma pass_spec (connfd : Z) (s : server) :
  inv listenfd s -> answers connfd s ->
  match pass listenfd rset data (Z.of_nat (size rset)) connfd s with
  | Continue (s', evs) =>
      inv listenfd s' /\
      evs = (if bool_decide (listenfd ∈ rset) then [Accepted connfd] else []) ++
            map (answer data) (List.filter ready (client s)) /\
      opened s' = (if bool_decide (listenfd ∈ rset) then opened s ∪ {[connfd]} else opened s) ∖ closed (client s) /\
      allset s' = (if bool_decide (listenfd ∈ rset) then allset s ∪ {[connfd]} else allset s) ∖ closed (client s) /\
      exists t, table_with connfd s t /\ client s' = map entry' t
  | Too_many_clients => False
  | Set_overflow => listenfd ∈ rset /\ Z.of_nat FD_SETSIZE <= connfd
  end.
Proof.
  intros HI (Hr & Hne & H0 & Hfd). pose proof nready_split as Hn. unfold pass, table_with.
  destruct (bool_decide (listenfd ∈ rset)) eqn:El.
  - pose proof (new_client_spec connfd s HI Hr H0 Hfd) as Hc. apply bool_decide_eq_true in El.
    destruct (new_client connfd s) as [s1| |]; [|done|done]. destruct Hc as (HI1 & Hr1 & Hf1 & Ho1 & Ha1 & Ht).
    destruct (Z.leb_spec (Z.of_nat (size rset) - 1) 0) as [Hz|Hz].
    + rewrite <- (ready_count s HI Hr) in Hn. pose proof (countb_nonneg ready (client s)).
      destruct (quiet_entries (client s)) as (Hq & _ & ->); [lia|]. rewrite Hq in Hf1 |- *.
      destruct (quiet_entries (client s1)) as (_ & Hm & _); [unfold countb; by rewrite Hf1|].
      rewrite Ho1, Ha1, !difference_empty_L. split_and!; [done|done|done|done|]. exists (client s1). by rewrite Hm.
    + rewrite check_all by (done || lia). rewrite Hf1. split_and!; [by apply reference_inv|done|..].
      * simpl. by rewrite Ho1, !closed_ready, Hf1.
      * simpl. by rewrite Ha1, !closed_ready, Hf1.
      * by exists (client s1).
  - rewrite check_all by (done || lia). split_and!; [by apply reference_inv|done|done|done|]. by exists (client s).
Qed.
End Proofs.

(** The states the server is in when it calls [Select]. *)
Inductive reachable (listenfd : Z) : server -> Prop :=
| reach_init : reachable listenfd (main_init listenfd)
| reach_pass rset data connfd s s' evs :
    reachable listenfd s -> answers rset connfd s ->
    pass listenfd rset data (Z.of_nat (size rset)) connfd s = Continue (s', evs) -> reachable listenfd s'.

Lemma reachable_table listenfd s : 0 <= listenfd < Z.of_nat FD_SETSIZE -> reachable listenfd s -> inv listenfd s.
Proof.
  intros Hl. induction 1 as [|rset data connfd s s' evs _ IH Ha E]; [by apply sel_main_init_inv|].
  pose proof (pass_spec listenfd rset data connfd s IH Ha) as Hp. rewrite E in Hp. apply Hp.
Qed.

(** C24: a pass of the [select] server does what looking at the whole table would:
    whichever descriptors are ready, it accepts when [listenfd] is, serves each ready
    client exactly once, in the order of the table, with what it sent, reads from no
    other (so it never blocks), and closes exactly those at their end of file, although
    it looks only at the entries up to [maxi] and stops after [nready] descriptors.
    Afterwards the table is the one before with the new client, if any, in the first
    entry that was free and -1 in the entries of the clients that closed, and [allset]
    and the open sockets are those before with the new client and without these.
    [err_quit("too many clients")] is never reached: the table outlasts the
    descriptor set, which a descriptor of at least [FD_SETSIZE] overruns first. *)
Theorem tcpservselect_pass listenfd rset data connfd s :
  0 <= listenfd < Z.of_nat FD_SETSIZE -> reachable listenfd s -> answers rset connfd s ->
  match pass listenfd rset data (Z.of_nat (size rset)) connfd s with
  | Continue (s', evs) =>
      evs = (if bool_decide (listenfd ∈ rset) then [Accepted connfd] else []) ++
            map (answer data) (List.filter (is_ready rset) (client s)) /\
      List.filter (is_ready rset) (client s) ≡ₚ elements (rset ∖ {[listenfd]}) /\
      opened s' = (if bool_decide (listenfd ∈ rset) then opened s ∪ {[connfd]} else opened s) ∖
                  gone_set rset data (client s) /\
      allset s' = (if bool_decide (listenfd ∈ rset) then allset s ∪ {[connfd]} else allset s) ∖
                  gone_set rset data (client s) /\
      exists t, (if bool_decide (listenfd ∈ rset) then seated connfd (client s) t else t = client s) /\
        client s' = map (entry_after rset data) t
  | Too_many_clients => False
  | Set_overflow => listenfd ∈ rset /\ Z.of_nat FD_SETSIZE <= connfd
  end.
Proof.
  intros Hl HI%reachable_table Ha; [|done]. pose proof (pass_spec listenfd rset data connfd s HI Ha) as Hp.
  destruct (pass _ _ _ _ _ _) as [[s' evs]| |]; [|done|done]. destruct Hp as (_ & Hev & Ho & Hal & Ht). split_and!; [done| |done|done|exact Ht].
  apply NoDup_Permutation; [|apply NoDup_elements|].
  - apply NoDup_filter_b. intros i j fd Ei Ej Hfd. apply (i_distinct _ _ HI i j fd Ei Ej).
    apply andb_true_iff in Hfd as [Hfd _]. rewrite negb_true_iff in Hfd. by apply Z.ltb_ge in Hfd.
  - intros fd. rewrite elem_of_elements. apply (ready_elems listenfd rset s HI). apply Ha.
Qed.

(** in every state of the [select] server the entries of its table are the open
    connected sockets, each once, none above [maxi]; the set it gives to [select] is
    theirs and [listenfd]'s, exactly the open sockets, and [maxfd] bounds it. *)
Theorem tcpservselect_table listenfd s :
  0 <= listenfd < Z.of_nat FD_SETSIZE -> reachable listenfd s ->
  length (client s) = FD_SETSIZE /\ -1 <= maxi s < Z.of_nat FD_SETSIZE /\
  (forall i fd, client s !! i = Some fd -> 0 <= fd -> Z.of_nat i <= maxi s) /\
  NoDup (List.filter (fun fd => 0 <=? fd) (client s)) /\
  (forall fd, fd ∈ allset s <-> fd = listenfd \/ (fd ∈ client s /\ 0 <= fd)) /\
  opened s = allset s /\ (forall fd, fd ∈ allset s -> fd <= maxfd s) /\ maxfd s < Z.of_nat FD_SETSIZE.
Proof.
  intros Hl HI%reachable_table; [|done]. split_and!; try apply HI.
  - apply NoDup_filter_b. intros i j fd Ei Ej Hfd. apply (i_distinct _ _ HI i j fd Ei Ej). by apply Z.leb_le.
  - intros fd. rewrite (i_set _ _ HI). unfold is_client. rewrite list_elem_of_lookup. naive_solver.
Qed.

(** A server with one client; the client sends two bytes while another one connects,
    which closes at once. *)
Definition demo_data (fd : Z) : list Z := if fd =? 4 then [104; 105] else [].
Definition state_of (o : outcome (server * list event)) (s : server) : server :=
  match o with Continue (s', _) => s' | _ => s end.
Definition demo1 : server := state_of (pass 3 {[3]} demo_data 1 4 (main_init 3)) (main_init 3).
Definition demo2 : server := state_of (pass 3 {[3; 4]} demo_data 2 5 demo1) demo1.

Lemma demo1_reachable : reachable 3 demo1.
Proof.
  apply (reach_pass 3 {[3]} demo_data 4 (main_init 3) demo1 [Accepted 4]); [constructor| |vm_compute; reflexivity].
  unfold answers. split_and!; simpl; [done|set_solver|lia|set_solver].
Qed.

Lemma demo1_answers : answers {[3; 4]} 5 demo1.
Proof.
  split_and!; [|done|done|].
  - replace (allset demo1) with ({[3; 4]} : gset Z) by (vm_compute; reflexivity). done.
  - replace (opened demo1) with ({[3; 4]} : gset Z) by (vm_compute; reflexivity). set_solver.
Qed.

Lemma tcpservselect_pass_witness :
  pass 3 {[3; 4]} demo_data 2 5 demo1 = Continue (demo2, [Accepted 5; Echoed 4 [104; 105]]) /\
  take 3 (client demo2) = [4; 5; -1] /\
  exists t, seated 5 (client demo1) t /\ client demo2 = map (entry_after {[3; 4]} demo_data) t.
Proof.
  assert (Hp : pass 3 {[3; 4]} demo_data 2 5 demo1 = Continue (demo2, [Accepted 5; Echoed 4 [104; 105]]))
    by (vm_compute; reflexivity).
  split; [exact Hp|]. split; [vm_compute; reflexivity|].
  pose proof (tcpservselect_pass 3 {[3; 4]} demo_data 5 demo1 ltac:(vm_compute; intuition congruence) demo1_reachable demo1_answers) as H.
  replace (Z.of_nat (size ({[3; 4]} : gset Z))) with 2 in H by (vm_compute; reflexivity).
  rewrite Hp in H. apply H.
Defined.

Lemma tcpservselect_table_witness : maxi demo1 = 0 /\ opened demo1 = allset demo1.
Proof.
  split; [vm_compute; reflexivity|].
  apply (tcpservselect_table 3 demo1); [vm_compute; intuition congruence|exact demo1_reachable].
Defined.

(** With the descriptor 1024 the set is overrun, although the table has room. *)
Example fd_set_overflow :
  pass 3 {[3]} demo_data 1 1024 (main_init 3) = Set_overflow /\ answers {[3]} 1024 (main_init 3).
Proof. split; [vm_compute; reflexivity|]. unfold answers. split_and!; simpl; [done|set_solver|lia|set_solver]. Qed.

End Select.

(** ** [tcpservpoll01.c] *)

Module Poll.

Definition POLLRDNORM : Z := 0x40.
Definition POLLERR : Z := 0x8.

Record pollfd := Pollfd { fd : Z; events : Z; revents : Z }.

Record server := Server { client : list pollfd; maxi : Z; opened : gset Z }.

(** What [read] says of a socket: data, the end of file, [ECONNRESET] or another
    error. *)
Inductive read_result := Data (d : list Z) | Eof | Reset | Failed.

(** How a part of a pass ends: it goes on, [err_quit] or [err_sys] ends the process, or
    [read] blocks, and with it the service of all clients. *)
Inductive outcome (A : Type) := Continue (a : A) | Too_many_clients | Err_sys | Blocked.
Arguments Continue {A} _.
Arguments Too_many_clients {A}.
Arguments Err_sys {A}.
Arguments Blocked {A}.

Section Main.
Variable OPEN_MAX : nat.
Variable listenfd : Z.

(** [main] up to its loop: the members it does not set hold what was on the stack. *)
Definition main_init (stack : nat -> pollfd) : server :=
  Server (Pollfd listenfd POLLRDNORM (revents (stack 0%nat)) ::
          map (fun i => Pollfd (-1) (events (stack i)) (revents (stack i))) (seq 1 (OPEN_MAX - 1)))
    0 {[listenfd]}.

Section Pass.
(** The kernel's answers: the conditions of the open sockets, and what a [read] returns,
    [None] if it has to wait. *)
Variable rev : Z -> Z.
Variable reads : Z -> option read_result.

(** [Poll(client, maxi+1, INFTIM)] *)
Definition polled (p : pollfd) : pollfd := Pollfd (fd p) (events p) (if fd p <? 0 then 0 else rev (fd p)).
Definition poll (s : server) : server :=
  let n := Z.to_nat (maxi s + 1) in
  Server (map polled (take n (client s)) ++ drop n (client s)) (maxi s) (opened s).
Definition nready (s : server) : Z :=
  countb (fun p => negb (revents p =? 0)) (take (Z.to_nat (maxi s + 1)) (client s)).

(** The entry found for a new client starts at 1. *)
Definition find_entry (s : server) : option nat := S <$> find_free (map fd (drop 1 (client s))).

Definition new_client (connfd : Z) (s : server) : outcome server :=
  match find_entry s with
  | None => Too_many_clients
  | Some i =>
      match client s !! i with
      | None => Too_many_clients
      | Some p =>
          Continue (Server (<[i := Pollfd connfd POLLRDNORM (revents p)]> (client s))
                      (if Z.of_nat i >? maxi s then Z.of_nat i else maxi s) (opened s ∪ {[connfd]}))
      end
  end.

(** [client[i].revents & (POLLRDNORM | POLLERR)] of an entry in use. *)
Definition is_ready (p : pollfd) : bool :=
  negb (fd p <? 0) && negb (Z.land (revents p) (Z.lor POLLRDNORM POLLERR) =? 0).

Definition close_entry (i : nat) (p : pollfd) (s : server) : server :=
  Server (<[i := Pollfd (-1) (events p) (revents p)]> (client s)) (maxi s) (opened s ∖ {[fd p]}).

(** The body of the last loop for an entry that is ready. *)
Definition serve (i : nat) (p : pollfd) (s : server) : outcome (server * event) :=
  match reads (fd p) with
  | None => Blocked
  | Some (Data d) => Continue (s, Echoed (fd p) d)
  | Some Eof | Some Reset => Continue (close_entry i p s, Closed (fd p))
  | Some Failed => Err_sys
  end.

Fixpoint check_clients (idx : list nat) (nready : Z) (s : server) (evs : list event) : outcome (server * list event) :=
  match idx with
  | [] => Continue (s, evs)
  | i :: idx' =>
      match client s !! i with
      | Some p =>
          if is_ready p then
            match serve i p s with
            | Continue (s', ev) =>
                if nready - 1 <=? 0 then Continue (s', evs ++ [ev]) else check_clients idx' (nready - 1) s' (evs ++ [ev])
            | Too_many_clients => Too_many_clients
            | Err_sys => Err_sys
            | Blocked => Blocked
            end
          else check_clients idx' nready s evs
      | None => Continue (s, evs)
      end
  end.

(** A pass of the loop. *)
Definition pass (connfd : Z) (s : server) : outcome (server * list event) :=
  let s := poll s in
  let n := nready s in
  let check n s evs := check_clients (seq 1 (Z.to_nat (maxi s))) n s evs in
  match client s !! 0%nat with
  | None => Blocked
  | Some p0 =>
      if has_flag (revents p0) POLLRDNORM then
        match new_client connfd s with
        | Continue s =>
            if n - 1 <=? 0 then Continue (s, [Accepted connfd]) else check (n - 1) s [Accepted connfd]
        | Too_many_clients => Too_many_clients
        | Err_sys => Err_sys
        | Blocked => Blocked
        end
      else check n s []
  end.

(** The reference: what is done for an entry that is ready, and what becomes of it. *)
Definition answer (p : pollfd) : event :=
  match reads (fd p) with Some (Data d) => Echoed (fd p) d | _ => Closed (fd p) end.
Definition gone (p : pollfd) : bool :=
  is_ready p && match reads (fd p) with Some (Data _) => false | _ => true end.
Definition entry_after (p : pollfd) : pollfd := if gone p then Pollfd (-1) (events p) (revents p) else p.
Definition gone_set (l : list pollfd) : gset Z := list_to_set (map fd (List.filter gone l)).

End Pass.
End Main.

(** *** The invariant *)

Definition bits (r : Z) : Z := Z.land r (Z.lor POLLRDNORM POLLERR).

(** Entries above [maxi] are free and have no condition set: [quiet] is what the stack
    must hold for that. *)
Definition quiet (p : pollfd) : Prop := fd p < 0 /\ bits (revents p) = 0.

Record inv (OPEN_MAX : nat) (listenfd : Z) (s : server) : Prop := {
  i_len : length (client s) = OPEN_MAX;
  i_maxi : 0 <= maxi s < Z.of_nat OPEN_MAX;
  i_listen : exists p, client s !! 0%nat = Some p /\ fd p = listenfd;
  i_above : forall i p, client s !! i = Some p -> maxi s < Z.of_nat i -> quiet p;
  i_distinct : forall i j p q, client s !! i = Some p -> client s !! j = Some q -> 0 <= fd p -> fd p = fd q -> i = j;
  i_opened : forall x, x ∈ opened s <-> 0 <= x /\ exists i p, client s !! i = Some p /\ fd p = x }.

Lemma poll_main_init_inv OPEN_MAX listenfd stack :
  (1 <= OPEN_MAX)%nat -> 0 <= listenfd -> (forall i, bits (revents (stack i)) = 0) ->
  inv OPEN_MAX listenfd (main_init OPEN_MAX listenfd stack).
Proof.
  intros Hm Hl Hq.
  assert (Hlk : forall i p, client (main_init OPEN_MAX listenfd stack) !! i = Some p -> i <> 0%nat -> quiet p).
  { intros [|i] p E Hi; [done|]. simpl in E. rewrite list_lookup_fmap in E. destruct (seq 1 _ !! i); [|done].
    injection E as <-. split; simpl; [lia|apply Hq]. }
  split.
  - simpl. rewrite length_map, length_seq. lia.
  - simpl. lia.
  - by eexists.
  - intros i p E Hi. apply (Hlk i p E). simpl in Hi. lia.
  - intros i j p q Ei Ej H0 Hpq. destruct (decide (i = 0%nat)) as [->|Hi], (decide (j = 0%nat)) as [->|Hj]; [done|..].
    + destruct (Hlk j q Ej Hj). lia.
    + destruct (Hlk i p Ei Hi). lia.
    + destruct (Hlk i p Ei Hi). lia.
  - intros x. simpl opened. rewrite elem_of_singleton. split.
    + intros ->. split; [done|]. by eexists 0%nat, _.
    + intros (H0 & i & p & Ei & <-). destruct (decide (i = 0%nat)) as [->|Hi]; [by injection Ei as <-|].
      destruct (Hlk i p Ei Hi). lia.
Qed.

Section Proofs.
Variables (OPEN_MAX : nat) (listenfd : Z) (rev : Z -> Z) (reads : Z -> option read_result).
#[local] Abbreviation closing := (gone reads).
#[local] Abbreviation closed := (gone_set reads).
#[local] Abbreviation entry' := (entry_after reads).
#[local] Abbreviation check := (check_clients reads).

(** The reads of the entries that are ready return, without an error that ends the
    process. *)
Definition reads_ok (p : pollfd) : Prop := is_ready p = true -> exists r, reads (fd p) = Some r /\ r <> Failed.

Lemma poll_gone_ready p : is_ready p = false -> closing p = false /\ entry' p = p.
Proof. intros H. unfold entry_after, gone. by rewrite H. Qed.

Lemma poll_quiet_entries (l : list pollfd) : countb is_ready l = 0 ->
  List.filter is_ready l = [] /\ map entry' l = l /\ closed l = ∅.
Proof.
  intros Hc%countb_zero. induction Hc as [|x l Hx _ IH]; [done|]. destruct IH as (H1 & H2 & H3).
  destruct (poll_gone_ready x Hx) as [Hg He]. unfold gone_set in *. simpl. by rewrite Hx, He, H2, Hg.
Qed.

Definition after (k : nat) (l : list pollfd) (s : server) : server :=
  Server (splice k (map entry' l) (client s)) (maxi s) (opened s ∖ closed l).

Lemma poll_after_quiet k l s : take (length l) (drop k (client s)) = l -> countb is_ready l = 0 -> after k l s = s.
Proof.
  intros Hl (_ & Hm & Hc)%poll_quiet_entries. destruct s as [c mi op]. unfold after; simpl in *. rewrite Hm, Hc.
  f_equal; [by apply splice_same|set_solver].
Qed.

Lemma poll_after_cons k p l s s' :
  (k < length (client s))%nat -> client s' = <[k := entry' p]> (client s) -> maxi s' = maxi s ->
  opened s' = (if closing p then opened s ∖ {[fd p]} else opened s) ->
  after (S k) l s' = after k (p :: l) s.
Proof.
  intros Hk Hc Hmi Ho. unfold after. rewrite Hc, Hmi, Ho. f_equal.
  - by apply splice_cons.
  - unfold gone_set. simpl. destruct (closing p); simpl; set_solver.
Qed.

Lemma poll_check_clients_spec l : forall k n s evs,
  take (length l) (drop k (client s)) = l -> countb is_ready l <= n -> Forall reads_ok l ->
  check (seq k (length l)) n s evs = Continue (after k l s, evs ++ map (answer reads) (List.filter is_ready l)).
Proof.
  induction l as [|p l IH]; intros k n s evs Hl Hn Hok.
  { simpl. rewrite app_nil_r. by rewrite poll_after_quiet. }
  destruct (window_cons _ _ _ _ Hl) as [Hk Hl']. apply Forall_cons in Hok as [Hp Hok].
  assert (Hlt : (k < length (client s))%nat) by (by apply lookup_lt_is_Some; rewrite Hk).
  rewrite countb_cons in Hn. simpl. rewrite Hk. destruct (is_ready p) eqn:Er; simpl.
  - destruct (Hp Er) as (r & Hr & Hnf).
    assert (exists s', serve reads k p s = Continue (s', answer reads p) /\ client s' = <[k := entry' p]> (client s) /\
              maxi s' = maxi s /\ opened s' = (if closing p then opened s ∖ {[fd p]} else opened s)) as (s' & -> & H1 & H2 & H3).
    { unfold serve, entry_after, gone, answer. rewrite Er, Hr.
      destruct r as [d| | |]; [| | |done]; eexists; split; try reflexivity; simpl; try done. by rewrite list_insert_id. }
    assert (Hl1 : take (length l) (drop (S k) (client s')) = l) by (rewrite H1, drop_insert_lt by lia; done).
    rewrite <- (poll_after_cons k p l s s') by done. pose proof (countb_nonneg is_ready l).
    destruct (Z.leb_spec (n - 1) 0).
    + rewrite poll_after_quiet by (done || lia). destruct (poll_quiet_entries l) as [-> _]; [lia|done].
    + rewrite IH by (done || lia). by rewrite <- app_assoc.
  - destruct (poll_gone_ready _ Er) as [Hg He].
    rewrite IH by (done || lia). do 2 f_equal. apply poll_after_cons; rewrite ?Hg, ?He; try done. by rewrite list_insert_id.
Qed.

(** The reference for the whole table but the entry of [listenfd]. *)
Definition reference (s : server) : server :=
  Server (take 1 (client s) ++ map entry' (drop 1 (client s))) (maxi s) (opened s ∖ closed (drop 1 (client s))).

Lemma poll_check_all (s : server) evs n :
  inv OPEN_MAX listenfd s -> countb is_ready (drop 1 (client s)) <= n -> Forall reads_ok (drop 1 (client s)) ->
  check (seq 1 (Z.to_nat (maxi s))) n s evs =
    Continue (reference s, evs ++ map (answer reads) (List.filter is_ready (drop 1 (client s)))).
Proof.
  intros HI Hn Hok. pose proof (i_maxi _ _ _ HI). pose proof (i_len _ _ _ HI) as Hlen.
  set (m := Z.to_nat (maxi s)) in *. set (l := drop 1 (client s)) in *.
  assert (Hm : (m <= length l)%nat) by (unfold l; rewrite length_drop; lia).
  assert (Ha : countb is_ready (drop m l) = 0).
  { apply countb_zero, Forall_lookup. intros i p Ei. unfold l in Ei. rewrite drop_drop, lookup_drop in Ei.
    destruct (i_above _ _ _ HI _ _ Ei) as [Hf _]; [lia|]. unfold is_ready. by apply Z.ltb_lt in Hf as ->. }
  destruct (poll_quiet_entries _ Ha) as (Hf & Hm' & Hc).
  replace m with (length (take m l)) at 1 by (rewrite length_take_le; done).
  rewrite (poll_check_clients_spec (take m l) 1).
  - do 3 f_equal.
    + unfold after, reference, splice. simpl. rewrite length_map, length_take_le by done. fold l.
      assert (Hmap : map entry' l = map entry' (take m l) ++ drop m l) by (rewrite <- Hm', <- map_app; by rewrite take_drop).
      assert (Hcl : closed l = closed (take m l)).
      { rewrite <- (take_drop m l) at 1. unfold gone_set in *. rewrite List.filter_app, map_app, list_to_set_app_L, Hc. set_solver. }
      rewrite Hmap, Hcl. unfold l. by rewrite drop_drop.
    + f_equal. rewrite <- (take_drop m l) at 2. by rewrite List.filter_app, Hf, app_nil_r.
  - rewrite length_take_le by done. done.
  - rewrite <- (take_drop m l), countb_app in Hn. lia.
  - by apply Forall_take.
Qed.

Lemma poll_lookup s i : inv OPEN_MAX listenfd s ->
  client (poll rev s) !! i = (if bool_decide (Z.of_nat i <= maxi s) then polled rev <$> client s !! i else client s !! i).
Proof.
  intros HI. pose proof (i_maxi _ _ _ HI). pose proof (i_len _ _ _ HI). unfold poll. simpl.
  set (n := Z.to_nat (maxi s + 1)). assert (Hn : length (map (polled rev) (take n (client s))) = n).
  { rewrite length_map, length_take_le; lia. }
  case_bool_decide.
  - rewrite lookup_app_l by lia. rewrite list_lookup_fmap, lookup_take_lt by lia. done.
  - rewrite lookup_app_r by lia. rewrite Hn, lookup_drop. f_equal. lia.
Qed.

Lemma poll_inv s : inv OPEN_MAX listenfd s -> inv OPEN_MAX listenfd (poll rev s).
Proof.
  intros HI. assert (Hlk : forall i p, client (poll rev s) !! i = Some p ->
    exists q, client s !! i = Some q /\ fd p = fd q /\ (maxi s < Z.of_nat i -> p = q)).
  { intros i p E. rewrite poll_lookup in E by done. case_bool_decide.
    - destruct (client s !! i) as [q|]; [|done]. injection E as <-. exists q. split_and!; [done|done|lia].
    - exists p. done. }
  assert (Hlk' : forall i q, client s !! i = Some q -> exists p, client (poll rev s) !! i = Some p /\ fd p = fd q).
  { intros i q E. rewrite poll_lookup, E by done. case_bool_decide; by eexists. }
  split.
  - unfold poll; simpl. pose proof (i_maxi _ _ _ HI). pose proof (i_len _ _ _ HI).
    rewrite length_app, length_map, length_take, length_drop. lia.
  - apply HI.
  - destruct (i_listen _ _ _ HI) as (p & E & Hp). destruct (Hlk' _ _ E) as (q & Eq & Hq). exists q. split; [done|congruence].
  - intros i p E Hi. destruct (Hlk _ _ E) as (q & Eq & _ & Heq). rewrite Heq by done. by apply (i_above _ _ _ HI i).
  - intros i j p q Ei Ej H0 Hpq. destruct (Hlk _ _ Ei) as (p' & Ei' & Hp' & _), (Hlk _ _ Ej) as (q' & Ej' & Hq' & _).
    apply (i_distinct _ _ _ HI i j p' q'); congruence.
  - intros x. simpl opened. rewrite (i_opened _ _ _ HI). split; intros (H0 & i & p & E & Hp); (split; [done|]); exists i.
    + destruct (Hlk' _ _ E) as (q & Eq & Hq). exists q. split; [done|congruence].
    + destruct (Hlk _ _ E) as (q & Eq & Hq & _). exists q. split; [done|congruence].
Qed.

(** What becomes of the table when entries are closed. *)
Lemma poll_reference_inv s : inv OPEN_MAX listenfd s -> inv OPEN_MAX listenfd (reference s).
Proof.
  intros HI. destruct (i_listen _ _ _ HI) as (p0 & E0 & Hp0).
  assert (Hlk : forall i, client (reference s) !! i = (if (i =? 0)%nat then client s !! i else entry' <$> client s !! i)).
  { intros [|i]; simpl; (destruct (client s) as [|z l]; [done|]); [done|]. simpl. rewrite drop_0, list_lookup_fmap. done. }
  assert (Hin : forall x, x ∈ closed (drop 1 (client s)) <->
            exists i p, i <> 0%nat /\ client s !! i = Some p /\ closing p = true /\ fd p = x).
  { intros x. unfold gone_set. rewrite elem_of_list_to_set, list_elem_of_fmap. split.
    - intros (p & -> & Hp). rewrite list_elem_of_In, filter_In, <- list_elem_of_In in Hp. destruct Hp as [[i Ei]%list_elem_of_lookup Hp].
      rewrite lookup_drop in Ei. by exists (1 + i)%nat, p.
    - intros (i & p & Hi & Ei & Hp & <-). exists p. split; [done|]. rewrite list_elem_of_In, filter_In, <- list_elem_of_In.
      split; [|done]. apply list_elem_of_lookup. exists (i - 1)%nat. rewrite lookup_drop. replace (1 + (i - 1))%nat with i by lia. done. }
  assert (Hold : forall i q, client (reference s) !! i = Some q -> 0 <= fd q ->
            client s !! i = Some q /\ (i <> 0%nat -> closing q = false)).
  { intros i q E H0. rewrite Hlk in E. destruct (Nat.eqb_spec i 0); [done|].
    destruct (client s !! i) as [p|]; [|done]. injection E as E. unfold entry_after in E.
    destruct (closing p) eqn:Eg; subst; [simpl in H0; lia|done]. }
  split.
  - simpl. rewrite length_app, length_take, length_map, length_drop. pose proof (i_len _ _ _ HI). lia.
  - apply HI.
  - exists p0. by rewrite Hlk, E0.
  - intros i q E Hi. simpl maxi in Hi. pose proof (i_maxi _ _ _ HI). rewrite Hlk in E. destruct (Nat.eqb_spec i 0); [lia|].
    destruct (client s !! i) as [p|] eqn:Ep; [|done]. destruct (i_above _ _ _ HI _ _ Ep Hi) as [Hf Hb]. injection E as <-.
    unfold entry_after. destruct (closing p); split; simpl; done || lia.
  - intros i j p q Ei Ej H0 Hpq. destruct (Hold i p Ei H0) as [Ei' _], (Hold j q Ej) as [Ej' _]; [lia|].
    by apply (i_distinct _ _ _ HI i j p q).
  - intros x. simpl opened. rewrite elem_of_difference, (i_opened _ _ _ HI), Hin. split.
    + intros ((H0 & i & p & E & <-) & Hn). split; [done|]. exists i, p. split; [|done]. rewrite Hlk, E.
      destruct (Nat.eqb_spec i 0); [done|]. simpl. unfold entry_after. destruct (closing p) eqn:Eg; [|done].
      destruct Hn. by exists i, p.
    + intros (H0 & i & p & E & <-). destruct (Hold _ _ E H0) as [E' Hg]. split; [split; [done|by exists i, p]|].
      intros (j & q & Hj & Ej & Hq & Hpq). assert (i = j) as <- by (by apply (i_distinct _ _ _ HI i j p q)).
      rewrite E' in Ej. injection Ej as <-. by rewrite Hg in Hq.
Qed.

Lemma find_entry_some s i : find_entry s = Some i ->
  exists p, client s !! i = Some p /\ fd p < 0 /\ i <> 0%nat.
Proof.
  unfold find_entry. destruct (find_free _) as [j|] eqn:E; [|done]. intros [= <-].
  destruct (find_free_some _ _ E) as (x & Ex & Hx). rewrite list_lookup_fmap, lookup_drop in Ex.
  destruct (client s !! (1 + j)%nat) as [p|] eqn:Ep; [|done]. injection Ex as <-. by exists p.
Qed.

Lemma polled_free s i p : inv OPEN_MAX listenfd s -> client (poll rev s) !! i = Some p -> fd p < 0 -> quiet p.
Proof.
  intros HI E Hp. rewrite poll_lookup in E by done. case_bool_decide.
  - destruct (client s !! i) as [q|]; [|done]. injection E as <-. simpl in Hp. split; [done|]. simpl.
    by apply Z.ltb_lt in Hp as ->.
  - apply (i_above _ _ _ HI i p E). lia.
Qed.

Lemma not_ready_quiet p : quiet p \/ bits (revents p) = 0 -> is_ready p = false.
Proof.
  intros H. assert (Hb : bits (revents p) = 0) by (destruct H as [[_ H]|H]; done).
  unfold is_ready. fold (bits (revents p)). by rewrite Hb, andb_false_r.
Qed.

Lemma filter_insert_same (l : list pollfd) i x y : l !! i = Some x -> is_ready x = false -> is_ready y = false ->
  List.filter is_ready (<[i := y]> l) = List.filter is_ready l.
Proof.
  intros E Hx Hy. revert i E. induction l as [|z l IH]; intros [|i] E; simpl in *; try done.
  - injection E as ->. by rewrite Hx, Hy.
  - by rewrite (IH _ E).
Qed.

Lemma poll_new_client_spec (connfd : Z) (s : server) :
  inv OPEN_MAX listenfd s -> (forall i p, client s !! i = Some p -> fd p < 0 -> quiet p) ->
  0 <= connfd -> connfd ∉ opened s ->
  match new_client connfd s with
  | Continue s' => inv OPEN_MAX listenfd s' /\ opened s' = opened s ∪ {[connfd]} /\
      List.filter is_ready (drop 1 (client s')) = List.filter is_ready (drop 1 (client s)) /\
      seated connfd (map fd (drop 1 (client s))) (map fd (drop 1 (client s')))
  | Too_many_clients => Forall (fun p => 0 <= fd p) (drop 1 (client s))
  | _ => False
  end.
Proof.
  intros HI Hq H0 Hfd. unfold new_client. destruct (find_entry s) as [i|] eqn:Ei.
  2: { unfold find_entry in Ei. destruct (find_free _) eqn:Ef; [done|]. apply find_free_none in Ef.
       exact (proj1 (List.Forall_map _ _ _) Ef). }
  destruct (find_entry_some _ _ Ei) as (p & Ep & Hp & Hi0). rewrite Ep.
  destruct (Hq _ _ Ep Hp) as [_ Hb]. pose proof (i_maxi _ _ _ HI). pose proof (i_len _ _ _ HI).
  assert (Hi : (i < length (client s))%nat) by (by apply lookup_lt_is_Some; rewrite Ep).
  assert (Hnew : forall j q, client s !! j = Some q -> fd q <> connfd).
  { intros j q Ej <-. apply Hfd, (i_opened _ _ _ HI). split; [done|]. by exists j, q. }
  split_and!; [split| | |].
  - simpl. by rewrite length_insert.
  - simpl. destruct (Z.gtb_spec (Z.of_nat i) (maxi s)); lia.
  - destruct (i_listen _ _ _ HI) as (p0 & E0 & Hp0). exists p0. simpl. by rewrite list_lookup_insert_ne.
  - intros j q [(<- & <- & _)|(Hne & Ej)]%list_lookup_insert_Some Hj; simpl in Hj.
    + destruct (Z.gtb_spec (Z.of_nat i) (maxi s)); lia.
    + apply (i_above _ _ _ HI j q Ej). destruct (Z.gtb_spec (Z.of_nat i) (maxi s)); lia.
  - intros j k q r [(Hj & Eq & _)|(Hj & Ej)]%list_lookup_insert_Some [(Hk & Er & _)|(Hk & Ek)]%list_lookup_insert_Some Hq0 Hqr; subst; try done.
    + by destruct (Hnew k r Ek).
    + simpl in Hqr. by destruct (Hnew j q Ej).
    + by apply (i_distinct _ _ _ HI j k q r).
  - intros x. simpl. rewrite elem_of_union, elem_of_singleton, (i_opened _ _ _ HI). split.
    + intros [(Hx & j & q & Ej & <-)| ->].
      * split; [done|]. exists j, q. split; [|done]. rewrite list_lookup_insert_ne; [done|].
        intros <-. rewrite Ep in Ej. injection Ej as <-. lia.
      * split; [done|]. exists i. rewrite list_lookup_insert_eq by done. by eexists.
    + intros (Hx & j & q & [(<- & <- & _)|(Hne & Ej)]%list_lookup_insert_Some & Hqx); [by right|left].
      split; [done|]. by exists j, q.
  - done.
  - simpl client. destruct i as [|i]; [done|]. destruct (client s) as [|z l]; [done|]. simpl. rewrite !drop_0.
    apply (filter_insert_same _ _ p); [done| |]; apply not_ready_quiet; by right.
  - unfold find_entry in Ei. destruct (find_free _) as [k|] eqn:Ek; [|done]. injection Ei as <-. simpl client.
    destruct (client s) as [|z l]; [done|]. simpl in *. rewrite !drop_0 in *. change (map fd) with (fmap (M := list) fd) in *.
    rewrite list_fmap_insert. by apply find_free_seated.
Qed.

(** What the kernel answers in a pass: a descriptor that is not open for a new
    connection; a [read] of a socket that [poll] reports returns. *)
Definition answers (connfd : Z) (s : server) : Prop :=
  0 <= connfd /\ connfd ∉ opened s /\
  (forall x, x ∈ opened s -> x <> listenfd -> bits (rev x) <> 0 -> exists r, reads x = Some r /\ r <> Failed).

Lemma polled_reads connfd s : inv OPEN_MAX listenfd s -> answers connfd s ->
  forall p, p ∈ drop 1 (client (poll rev s)) -> is_ready p = true -> exists r, reads (fd p) = Some r /\ r <> Failed.
Proof.
  intros HI (_ & _ & Hr) p [j Ei]%list_elem_of_lookup Hp. rewrite lookup_drop in Ei. set (i := (1 + j)%nat) in *.
  unfold is_ready in Hp. apply andb_true_iff in Hp as [Hf Hb]. rewrite negb_true_iff, Z.ltb_ge in Hf.
  rewrite negb_true_iff, Z.eqb_neq in Hb. fold (bits (revents p)) in Hb. apply Hr.
  - apply (i_opened _ _ _ (poll_inv s HI)). split; [done|]. by exists i, p.
  - intros Hl. destruct (i_listen _ _ _ (poll_inv s HI)) as (p0 & E0 & Hp0).
    assert (i = 0%nat); [|done]. apply (i_distinct _ _ _ (poll_inv s HI) i 0%nat p p0 Ei E0 Hf). congruence.
  - rewrite poll_lookup in Ei by done. case_bool_decide.
    + destruct (client s !! i) as [q|]; [|done]. injection Ei as <-. simpl in *.
      destruct (Z.ltb_spec (fd q) 0); [done|]. done.
    + destruct (i_above _ _ _ HI i p Ei); lia.
Qed.

Lemma ready_nonzero p : is_ready p = true -> negb (revents p =? 0) = true.
Proof.
  unfold is_ready. intros [_ Hb]%andb_true_iff. destruct (Z.eqb_spec (revents p) 0) as [E|]; [|done].
  by rewrite E in Hb.
Qed.

Lemma countb_le {A} (P Q : A -> bool) (l : list A) : (forall x, P x = true -> Q x = true) -> countb P l <= countb Q l.
Proof.
  intros H. induction l as [|x l IH]; [done|]. rewrite !countb_cons. pose proof (H x).
  destruct (P x), (Q x); naive_solver lia.
Qed.

(** [nready] counts the entries that are ready, and [listenfd] if it is reported. *)
Lemma nready_ge s p0 : inv OPEN_MAX listenfd s -> client (poll rev s) !! 0%nat = Some p0 ->
  (if has_flag (revents p0) POLLRDNORM then 1 else 0) + countb is_ready (drop 1 (client (poll rev s))) <= nready (poll rev s).
Proof.
  intros HI E0. pose proof (poll_inv s HI) as HP. pose proof (i_maxi _ _ _ HP) as Hm. pose proof (i_len _ _ _ HP) as Hlen.
  unfold nready. set (s1 := poll rev s) in *. destruct (client s1) as [|z l] eqn:El; [done|]. injection E0 as ->.
  replace (Z.to_nat (maxi s1 + 1)) with (S (Z.to_nat (maxi s1))) by lia. simpl. rewrite drop_0, countb_cons.
  assert (Ha : countb is_ready (drop (Z.to_nat (maxi s1)) l) = 0).
  { apply countb_zero, Forall_lookup. intros i p Ei. rewrite lookup_drop in Ei. apply not_ready_quiet. left.
    apply (i_above _ _ _ HP (S (Z.to_nat (maxi s1) + i))); [by rewrite El|lia]. }
  change (maxi s) with (maxi s1). rewrite <- (take_drop (Z.to_nat (maxi s1)) l) at 1. rewrite countb_app, Ha.
  pose proof (countb_le is_ready _ (take (Z.to_nat (maxi s1)) l) ready_nonzero).
  destruct (has_flag (revents p0) POLLRDNORM) eqn:Ef.
  - destruct (Z.eqb_spec (revents p0) 0) as [E|]; [by rewrite E in Ef|]. cbn [negb]. lia.
  - destruct (negb _); lia.
Qed.

(** [listenfd] is reported. *)
Definition listen_ready (s : server) : bool :=
  match client (poll rev s) !! 0%nat with Some p => has_flag (revents p) POLLRDNORM | None => false end.

(** The table that [poll] leaves, once a new client, if there is one, has its entry. *)
Definition table_with (connfd : Z) (s : server) (t : list pollfd) : Prop :=
  if listen_ready s then seated connfd (map fd (drop 1 (client (poll rev s)))) (map fd (drop 1 t))
  else t = client (poll rev s).

Lemma poll_pass_spec (connfd : Z) (s : server) :
  inv OPEN_MAX listenfd s -> answers connfd s ->
  match pass rev reads connfd s with
  | Continue (s', evs) =>
      inv OPEN_MAX listenfd s' /\
      evs = (if listen_ready s then [Accepted connfd] else []) ++
            map (answer reads) (List.filter is_ready (drop 1 (client (poll rev s)))) /\
      exists t, table_with connfd s t /\ client s' = take 1 t ++ map entry' (drop 1 t)
  | Too_many_clients => listen_ready s = true /\ Forall (fun p => 0 <= fd p) (drop 1 (client (poll rev s)))
  | Err_sys | Blocked => False
  end.
Proof.
  intros HI Ha. pose proof (poll_inv s HI) as HP. pose proof (polled_reads connfd s HI Ha) as Hok.
  unfold pass, table_with, listen_ready. destruct (i_listen _ _ _ HP) as (p0 & E0 & Hp0). rewrite E0.
  pose proof (nready_ge s p0 HI E0) as Hn. set (s1 := poll rev s) in *.
  assert (Hok1 : forall l, (forall p, p ∈ List.filter is_ready l -> p ∈ drop 1 (client s1)) -> Forall reads_ok l).
  { intros l Hl. apply Forall_forall. intros p Hp Hr. apply Hok; [|done]. apply Hl.
    rewrite list_elem_of_In, filter_In, <- list_elem_of_In. done. }
  destruct (has_flag (revents p0) POLLRDNORM).
  - assert (Hq : forall i p, client s1 !! i = Some p -> fd p < 0 -> quiet p) by (intros i p; by apply polled_free).
    destruct Ha as (H0 & Hfd & _). pose proof (poll_new_client_spec connfd s1 HP Hq H0 Hfd) as Hc.
    destruct (new_client connfd s1) as [s2| | |]; [|done|done|done]. destruct Hc as (HI2 & _ & Hf & Hse).
    assert (Hc2 : countb is_ready (drop 1 (client s2)) = countb is_ready (drop 1 (client s1))) by (unfold countb; by rewrite Hf).
    destruct (Z.leb_spec (nready s1 - 1) 0).
    + pose proof (countb_nonneg is_ready (drop 1 (client s1))).
      destruct (poll_quiet_entries (drop 1 (client s1))) as (Hq1 & _ & _); [lia|].
      destruct (poll_quiet_entries (drop 1 (client s2))) as (_ & Hm2 & _); [lia|].
      split_and!; [done|by rewrite Hq1|]. exists (client s2). by rewrite Hm2, take_drop.
    + rewrite poll_check_all; [|done|lia|].
      * split_and!; [by apply poll_reference_inv|by rewrite Hf|]. by exists (client s2).
      * apply Hok1. intros p. rewrite Hf. rewrite list_elem_of_In, filter_In, <- list_elem_of_In. tauto.
  - rewrite poll_check_all; [|done|lia|].
    + split_and!; [by apply poll_reference_inv|done|]. by exists (client s1).
    + apply Hok1. intros p. rewrite list_elem_of_In, filter_In, <- list_elem_of_In. tauto.
Qed.
End Proofs.

Inductive reachable (OPEN_MAX : nat) (listenfd : Z) (stack : nat -> pollfd) : server -> Prop :=
| reach_init : reachable OPEN_MAX listenfd stack (main_init OPEN_MAX listenfd stack)
| reach_pass rev reads connfd s s' evs :
    reachable OPEN_MAX listenfd stack s -> answers listenfd rev reads connfd s ->
    pass rev reads connfd s = Continue (s', evs) -> reachable OPEN_MAX listenfd stack s'.

Lemma poll_reachable_table OPEN_MAX listenfd stack s :
  (1 <= OPEN_MAX)%nat -> 0 <= listenfd -> (forall i, bits (revents (stack i)) = 0) ->
  reachable OPEN_MAX listenfd stack s -> inv OPEN_MAX listenfd s.
Proof.
  intros H1 H2 H3. induction 1 as [|rev reads connfd s s' evs _ IH Ha E]; [by apply poll_main_init_inv|].
  pose proof (poll_pass_spec OPEN_MAX listenfd rev reads connfd s IH Ha) as Hp. rewrite E in Hp. apply Hp.
Qed.

(** C25: provided that every [revents] of the stack where the array lies has neither
    [POLLRDNORM] nor [POLLERR] set, and that no [read] of a client that [poll] reports
    with one of these fails or blocks: a pass of the [poll] server accepts when
    [listenfd] is reported, serves each client that is reported exactly once, in the
    order of the array, closing it at its end of file or reset, never blocks in
    [read], and calls [err_quit] only when every entry is in use.  Afterwards the
    array has the new client in the first entry that was free and -1 in those of the
    clients that closed, and its entries in use are the open sockets. *)
Theorem tcpservpoll_pass OPEN_MAX listenfd stack rev reads connfd s :
  (1 <= OPEN_MAX)%nat -> 0 <= listenfd -> (forall i, bits (revents (stack i)) = 0) ->
  reachable OPEN_MAX listenfd stack s -> answers listenfd rev reads connfd s ->
  match pass rev reads connfd s with
  | Continue (s', evs) =>
      evs = (if listen_ready rev s then [Accepted connfd] else []) ++
            map (answer reads) (List.filter is_ready (drop 1 (client (poll rev s)))) /\
      (exists t, (if listen_ready rev s
                  then seated connfd (map fd (drop 1 (client (poll rev s)))) (map fd (drop 1 t))
                  else t = client (poll rev s)) /\
        client s' = take 1 t ++ map (entry_after reads) (drop 1 t)) /\
      (forall x, x ∈ opened s' <-> 0 <= x /\ x ∈ map fd (client s'))
  | Too_many_clients => listen_ready rev s = true /\ Forall (fun p => 0 <= fd p) (drop 1 (client (poll rev s)))
  | Err_sys | Blocked => False
  end.
Proof.
  intros H1 H2 H3 HI%poll_reachable_table Ha; try done.
  pose proof (poll_pass_spec OPEN_MAX listenfd rev reads connfd s HI Ha) as Hp.
  destruct (pass rev reads connfd s) as [[s' evs]| | |]; [|done..]. destruct Hp as (HI' & Hev & Ht).
  split_and!; [done|exact Ht|]. intros x. rewrite (i_opened _ _ _ HI'), list_elem_of_fmap.
  split; intros [H0 H]; (split; [done|]).
  - destruct H as (i & p & Ep & <-). exists p. split; [done|]. apply list_elem_of_lookup. by exists i.
  - destruct H as (p & -> & [i Ei]%list_elem_of_lookup). by exists i, p.
Qed.

(** A server with one client, 4, that has sent two bytes; 5 connects and sends
    nothing. *)
Definition demo_rev (x : Z) : Z := if (x =? 3) || (x =? 4) then POLLRDNORM else 0.
Definition demo_reads (x : Z) : option read_result := if x =? 4 then Some (Data [104; 105]) else None.
Definition demo_rev0 (x : Z) : Z := if x =? 3 then POLLRDNORM else 0.
Definition blank (_ : nat) : pollfd := Pollfd 0 0 0.
Definition state_of (o : outcome (server * list event)) (s : server) : server :=
  match o with Continue (s', _) => s' | _ => s end.
Definition demo1 (stack : nat -> pollfd) : server :=
  let s := main_init 3 3 stack in state_of (pass demo_rev0 demo_reads 4 s) s.

Lemma poll_demo1_reachable stack : reachable 3 3 stack (demo1 stack).
Proof.
  apply (reach_pass 3 3 stack demo_rev0 demo_reads 4 (main_init 3 3 stack) (demo1 stack) [Accepted 4]);
    [constructor| |reflexivity].
  split_and!; [lia|simpl; set_solver|]. intros x Hx Hb. simpl in Hx. apply elem_of_singleton in Hx as ->.
  done.
Qed.

Lemma poll_demo1_answers stack : answers 3 demo_rev demo_reads 5 (demo1 stack).
Proof.
  assert (Ho : opened (demo1 stack) = {[3; 4]}) by (vm_compute; reflexivity).
  split_and!; [lia|rewrite Ho; set_solver|]. rewrite Ho. intros x Hx Hne Hb.
  assert (x = 4) as -> by set_solver. by eexists.
Qed.

Lemma tcpservpoll_pass_witness :
  match pass demo_rev demo_reads 5 (demo1 blank) with
  | Continue (s', evs) =>
      evs = [Accepted 5; Echoed 4 [104; 105]] /\ forall x, x ∈ opened s' <-> 0 <= x /\ x ∈ map fd (client s')
  | _ => False
  end.
Proof.
  pose proof (tcpservpoll_pass 3 3 blank demo_rev demo_reads 5 (demo1 blank) ltac:(lia) ltac:(lia)
    (fun _ => eq_refl) (poll_demo1_reachable blank) (poll_demo1_answers blank)) as H.
  destruct (pass demo_rev demo_reads 5 (demo1 blank)) as [[s' evs]| | |] eqn:E; try (vm_compute in E; discriminate E).
  destruct H as (H & _ & Ho). split; [|exact Ho]. rewrite H. vm_compute. reflexivity.
Defined.

(** The conditions of an entry are not set before it is first used: if the stack
    holds [POLLRDNORM] there and another client is reported with a condition the
    server does not test, here [POLLHUP] alone, the server reads from the client it has
    just accepted, which has sent nothing, and all clients wait for that one. *)
Definition dirty (_ : nat) : pollfd := Pollfd 0 0 POLLRDNORM.
Definition hup_rev (x : Z) : Z := if x =? 3 then POLLRDNORM else if x =? 4 then 0x10 else 0.

Example poll_uninitialised_blocks :
  reachable 3 3 dirty (demo1 dirty) /\ answers 3 hup_rev demo_reads 5 (demo1 dirty) /\
  pass hup_rev demo_reads 5 (demo1 dirty) = Blocked.
Proof.
  split_and!; [apply poll_demo1_reachable| |vm_compute; reflexivity].
  destruct (poll_demo1_answers dirty) as (H1 & H2 & _). split_and!; [done|done|]. intros x Hx Hne Hb.
  exfalso. apply Hb. unfold hup_rev. destruct (Z.eqb_spec x 3); [done|]. by destruct (x =? 4).
Qed.

End Poll.
