(* ===== verification/ServPool.v ===== *)
(** * Preforked and prethreaded servers: [unixNetV1/server]

    [ThreadPool]: [serv08.c] with [pthread08.c], in which [main] accepts connections
    into a ring [clifd] and a pool of threads takes them out, under one mutex and
    condition variable ([Monitor]).  [ChildPool]: [serv05.c] with [child05.c] and
    [web_child.c], in which the parent accepts and passes each connection over a stream
    pipe to a child that is free; a child can end at any point, and its
    messages and its end reach the parent through that pipe. *)
From S2P Require Import Prelude Monitor Inet.

(** ** [serv08.c], [pthread08.c] *)

Module ThreadPool.

Definition MAXNCLI : Z := 32.

(** The globals of [pthread08.h]. *)
Record pool := Pool { clifd : list Z; iget : Z; iput : Z }.

Inductive cond := clifd_cond.
#[export] Instance cond_eq_dec : EqDecision cond.
Proof. solve_decision. Defined.

Abbreviation outc := (outcome pool (option Z) cond).

(** [main] before its loop. *)
Definition main_init : pool := Pool (replicate (Z.to_nat MAXNCLI) 0) 0 0.

(** [if (++i == MAXNCLI) i = 0;] *)
Definition next (i : Z) : Z := if i + 1 =? MAXNCLI then 0 else i + 1.

(** What [main] does with an accepted connection, with the mutex held; [Dump] is
    [err_quit]. *)
Definition put (connfd : Z) (s : pool) : outc :=
  let s := Pool (<[Z.to_nat (iput s) := connfd]> (clifd s)) (iget s) (next (iput s)) in
  if iput s =? iget s then Dump else Return s None [Signal clifd_cond].

(** [thread_main] from the lock to the unlock: the condition is tested again when the
    wait returns. *)
Definition get (s : pool) : outc :=
  if iget s =? iput s then Wait s clifd_cond
  else Return (Pool (clifd s) (next (iget s)) (iput s)) (Some (nth (Z.to_nat (iget s)) (clifd s) 0)) [].

Inductive op := Put (connfd : Z) | Get.

Definition enter (o : op) : pool -> outc := match o with Put connfd => put connfd | Get => get end.
Definition resume (o : op) : pool -> outc := match o with Put _ => fun _ => Dump | Get => get end.

(** A run, with the connections accepted and the ones taken by threads, in order. *)
Record hist := Hist { mon : conf pool op cond; accepted : list Z; served : list (nat * Z) }.

Inductive hstep : hist -> hist -> Prop :=
| hstep_intro c a sv t o r c' :
    mstep enter resume c (t, o, r) c' ->
    hstep (Hist c a sv)
      (Hist c' (match o, r with Put fd, Some _ => a ++ [fd] | _, _ => a end)
               (match o, r with Get, Some (Some fd) => sv ++ [(t, fd)] | _, _ => sv end)).

Definition init_hist : hist := Hist (Conf main_init ∅ false) [] [].

(** *** The ring *)

Definition ring_ok (s : pool) : Prop :=
  length (clifd s) = Z.to_nat MAXNCLI /\ 0 <= iget s < MAXNCLI /\ 0 <= iput s < MAXNCLI.

Definition nwaiting (s : pool) : Z := (iput s - iget s) mod MAXNCLI.

Definition slot (s : pool) (k : nat) : Z := nth (Z.to_nat ((iget s + Z.of_nat k) mod MAXNCLI)) (clifd s) 0.

(** The connections that wait for a thread. *)
Definition queue (s : pool) : list Z := map (slot s) (seq 0 (Z.to_nat (nwaiting s))).

Lemma next_mod i : 0 <= i < MAXNCLI -> next i = (i + 1) mod MAXNCLI.
Proof.
  intros Hi. unfold next, MAXNCLI in *. destruct (Z.eqb_spec (i + 1) 32) as [->|]; [done|].
  by rewrite Z.mod_small by lia.
Qed.

Lemma next_range i : 0 <= i < MAXNCLI -> 0 <= next i < MAXNCLI.
Proof. intros Hi. rewrite next_mod by done. apply Z.mod_pos_bound. done. Qed.

Lemma nwaiting_range s : 0 <= nwaiting s < MAXNCLI.
Proof. apply Z.mod_pos_bound. done. Qed.

Lemma queue_length s : Z.of_nat (length (queue s)) = nwaiting s.
Proof. unfold queue. rewrite length_map, length_seq. pose proof (nwaiting_range s). lia. Qed.

Ltac modular := unfold nwaiting, MAXNCLI in *; Z.to_euclidean_division_equations; lia.

Lemma put_full s : ring_ok s -> next (iput s) = iget s <-> nwaiting s = MAXNCLI - 1.
Proof. intros (_ & Hg & Hp). rewrite next_mod by done. modular. Qed.

Lemma get_empty s : ring_ok s -> iget s = iput s <-> nwaiting s = 0.
Proof. intros (_ & Hg & Hp). modular. Qed.

Lemma put_queue s fd : ring_ok s -> next (iput s) <> iget s ->
  let s' := Pool (<[Z.to_nat (iput s) := fd]> (clifd s)) (iget s) (next (iput s)) in
  ring_ok s' /\ queue s' = queue s ++ [fd].
Proof.
  intros Hok Hne s'. pose proof Hok as (Hl & Hg & Hp). split.
  { unfold ring_ok; simpl. rewrite length_insert. split; [done|]. split; [done|by apply next_range]. }
  assert (Hn : nwaiting s' = nwaiting s + 1).
  { assert (nwaiting s <> MAXNCLI - 1) by (by rewrite <- put_full). unfold s', nwaiting; simpl.
    rewrite next_mod by done. modular. }
  unfold queue. rewrite Hn. pose proof (nwaiting_range s). rewrite Z2Nat.inj_add by lia.
  rewrite seq_app, map_app. simpl. f_equal.
  - apply map_ext_in. intros k Hk%in_seq. unfold slot, s'; simpl.
    rewrite !nth_lookup, list_lookup_insert_ne; [done|].
    assert (iput s <> (iget s + Z.of_nat k) mod MAXNCLI) by modular.
    assert (0 <= (iget s + Z.of_nat k) mod MAXNCLI) by modular. lia.
  - unfold slot, s'; simpl. do 2 f_equal. rewrite Z2Nat.id by lia.
    replace ((iget s + nwaiting s) mod MAXNCLI) with (iput s) by modular.
    rewrite nth_lookup, list_lookup_insert_eq; [done|]. rewrite Hl. lia.
Qed.

Lemma get_queue s : ring_ok s -> iget s <> iput s ->
  let s' := Pool (clifd s) (next (iget s)) (iput s) in
  ring_ok s' /\ queue s = nth (Z.to_nat (iget s)) (clifd s) 0 :: queue s'.
Proof.
  intros Hok Hne s'. pose proof Hok as (Hl & Hg & Hp). split.
  { unfold ring_ok; simpl. split; [done|]. split; [by apply next_range|done]. }
  assert (Hn : nwaiting s = nwaiting s' + 1).
  { assert (nwaiting s <> 0) by (by rewrite <- get_empty). unfold s', nwaiting in *; simpl.
    rewrite next_mod by done. modular. }
  unfold queue. rewrite Hn. pose proof (nwaiting_range s'). replace (Z.to_nat (nwaiting s' + 1)) with (S (Z.to_nat (nwaiting s'))) by lia.
  simpl. f_equal.
  - unfold slot. do 2 f_equal. rewrite Z.add_0_r, Z.mod_small by done. done.
  - rewrite <- seq_shift, map_map. apply map_ext. intros k. unfold slot, s'; simpl. do 2 f_equal.
    rewrite next_mod by done. rewrite Nat2Z.inj_succ. modular.
Qed.

(** *** The threads *)

Definition woken (ts : tstate op cond) : bool := match ts with Woken _ => true | Asleep _ _ => false end.
Definition nwoken (th : gmap nat (tstate op cond)) : Z := nops (fun b : bool => b) (woken <$> th).

Lemma nwoken_new th t ts : th !! t = None -> nwoken (<[t := ts]> th) = nwoken th + (if woken ts then 1 else 0).
Proof. intros H. unfold nwoken. rewrite fmap_insert, nops_insert by (by rewrite lookup_fmap, H). done. Qed.

Lemma nwoken_delete th t ts : th !! t = Some ts -> nwoken (delete t th) = nwoken th - (if woken ts then 1 else 0).
Proof. intros H. unfold nwoken. by rewrite fmap_delete, (nops_delete _ _ _ (woken ts)) by (by rewrite lookup_fmap, H). Qed.

Lemma nwoken_update th t ts ts' : th !! t = Some ts ->
  nwoken (<[t := ts']> th) = nwoken th - (if woken ts then 1 else 0) + (if woken ts' then 1 else 0).
Proof.
  intros H. rewrite <- insert_delete_eq, nwoken_new by apply lookup_delete_eq. by rewrite (nwoken_delete _ _ _ H).
Qed.

Definition sleeper (th : gmap nat (tstate op cond)) : Prop := exists t c o, th !! t = Some (Asleep c o).

(** All threads inside an operation take connections; and if one of them sleeps, at
    least as many have been unblocked as connections wait. *)
Record hinv (h : hist) : Prop := {
  h_ring : ring_ok (shared (mon h));
  h_order : accepted h = map snd (served h) ++ queue (shared (mon h));
  h_ops : forall t ts, threads (mon h) !! t = Some ts -> op_of ts = Get;
  h_wake : sleeper (threads (mon h)) -> nwaiting (shared (mon h)) <= nwoken (threads (mon h)) }.

Lemma init_hist_hinv : hinv init_hist.
Proof.
  split; simpl; done.
Qed.

(** A signal wakes one thread more, if one sleeps. *)
Lemma signal_nwoken th th' :
  acts_step [Signal clifd_cond] th th' -> sleeper th' -> nwoken th' = nwoken th + 1.
Proof.
  intros Ha Hs. inversion Ha as [|a l th0 th1 th2 H1 H2]; subst. inversion H2; subst.
  inversion H1 as [c t o th0 Ht|c th0 Hn|]; subst.
  - rewrite (nwoken_update _ _ _ _ Ht). simpl. lia.
  - destruct Hs as (t & [] & o & E). exfalso. destruct c. exact (Hn t o E).
Qed.

Lemma acts_ops_get l (th th' : gmap nat (tstate op cond)) : acts_step l th th' -> (forall t ts, th !! t = Some ts -> op_of ts = Get) ->
  forall t ts, th' !! t = Some ts -> op_of ts = Get.
Proof.
  intros Ha Hg t ts E. apply acts_step_ops in Ha. assert (Ho : ops th' !! t = Some (op_of ts)) by (by rewrite ops_lookup, E).
  rewrite Ha, ops_lookup in Ho. destruct (th !! t) as [ts'|] eqn:Et; [|done]. injection Ho as <-. by apply (Hg t).
Qed.

(** What [get] does to the invariant, for a thread that enters or goes on. *)
Lemma get_hinv h t r c' ts0 :
  hinv h -> threads (mon h) !! t = ts0 -> (ts0 = None \/ ts0 = Some (Woken Get)) ->
  finish t Get (get (shared (mon h))) (threads (mon h)) r c' ->
  hinv (Hist c' (accepted h) (match r with Some (Some fd) => served h ++ [(t, fd)] | _ => served h end)).
Proof.
  intros [H1 H2 H3 H4] Et Hts Hf. unfold get in Hf. destruct (Z.eqb_spec (iget (shared (mon h))) (iput (shared (mon h)))) as [E|E].
  - apply (get_empty _ H1) in E. inversion Hf; subst. split; simpl; try done.
    + intros t' ts [[_ <-]|[_ E']]%lookup_insert_Some; [done|by apply (H3 t')].
    + intros _. rewrite E. apply nops_nonneg.
  - destruct (get_queue _ H1 E) as [H1' Hq]. inversion Hf as [s r' acts th th' Ha| |]; subst.
    inversion Ha; subst. split; simpl; try done.
    + rewrite H2, Hq, map_app, <- app_assoc. done.
    + intros t' ts [_ E']%lookup_delete_Some. by apply (H3 t').
    + intros (t' & c & o & [_ E']%lookup_delete_Some).
      assert (Hw : nwaiting (shared (mon h)) <= nwoken (threads (mon h))) by (apply H4; by exists t', c, o).
      apply (f_equal length) in Hq. simpl in Hq. apply (f_equal Z.of_nat) in Hq. rewrite Nat2Z.inj_succ, !queue_length in Hq.
      destruct Hts as [Et|Et].
      * rewrite delete_id by done. lia.
      * rewrite (nwoken_delete _ _ _ Et). simpl. lia.
Qed.

Lemma hinv_hstep h h' : hinv h -> hstep h h' -> dumped (mon h') = false -> hinv h'.
Proof.
  intros HI Hs Hd. destruct Hs as [c a sv t o r c' Hm]. simpl in Hd.
  inversion Hm as [s th t0 o0 r0 c0 Ht Hf|s th t0 o0 r0 c0 Ht Hf|s th t0 cc o0 Ht]; subst.
  - destruct o as [fd|].
    + destruct HI as [H1 H2 H3 H4]. simpl in *. unfold put in Hf.
      destruct (Z.eqb_spec (iput (Pool (<[Z.to_nat (iput s) := fd]> (clifd s)) (iget s) (next (iput s))))
                           (iget (Pool (<[Z.to_nat (iput s) := fd]> (clifd s)) (iget s) (next (iput s))))) as [E|E]; [by inversion Hf; subst|].
      simpl in E. destruct (put_queue s fd H1 E) as [H1' Hq]. simpl in Hq.
      inversion Hf as [s' r' acts th0 th' Ha| |]; subst. rewrite delete_id in Ha by done. split; simpl; try done.
      * by rewrite Hq, app_assoc.
      * by eapply acts_ops_get.
      * intros Hsl. rewrite (signal_nwoken _ _ Ha Hsl). assert (Hsl0 : sleeper th).
        { destruct Hsl as (t' & c & o & E'). exists t', c, o. by eapply acts_step_asleep. }
        specialize (H4 Hsl0). apply (f_equal (fun l => Z.of_nat (length l))) in Hq.
        rewrite length_app, Nat2Z.inj_add, !queue_length in Hq. simpl in Hq. lia.
    + exact (get_hinv _ t r c' None HI Ht (or_introl eq_refl) Hf).
  - assert (o = Get) as -> by (by apply (h_ops _ HI t (Woken o))).
    exact (get_hinv _ t r c' _ HI Ht (or_intror eq_refl) Hf).
  - destruct HI as [H1 H2 H3 H4]. simpl in *. assert (o = Get) as -> by (by apply (H3 t _ Ht)). split; simpl; try done.
    + intros t' ts [[_ <-]|[_ E']]%lookup_insert_Some; [done|by apply (H3 t')].
    + intros _. rewrite (nwoken_update _ _ _ _ Ht). simpl. assert (nwaiting s <= nwoken th); [|lia].
      apply H4. by exists t, cc, Get.
Qed.

Lemma hinv_run h : rtc hstep init_hist h -> dumped (mon h) = false -> hinv h.
Proof.
  revert h. apply (rtc_ind_r (R := hstep) (fun h => dumped (mon h) = false -> hinv h)).
  - intros _. apply init_hist_hinv.
  - intros x y _ Hst IH Hd. eapply hinv_hstep; [|done|done]. apply IH.
    destruct Hst as [c a sv t o r c' Hm]. by inversion Hm.
Qed.

(** C26: in every interleaving of the threads of [serv08], however many, every
    connection [main] accepted has been taken by exactly one thread or waits in
    the ring, in the order of their arrival; and when a thread sleeps while connections
    wait, at least as many threads have been unblocked for them: no wakeup is
    lost.  The process ends with [err_quit] only when [MAXNCLI - 1] connections
    wait, one less than the ring has slots. *)
Theorem serv08_exactly_once h :
  rtc hstep init_hist h -> dumped (mon h) = false ->
  accepted h = map snd (served h) ++ queue (shared (mon h)) /\
  (length (queue (shared (mon h))) < Z.to_nat MAXNCLI)%nat /\
  (sleeper (threads (mon h)) -> Z.of_nat (length (queue (shared (mon h)))) <= nwoken (threads (mon h))) /\
  (forall h', hstep h h' -> dumped (mon h') = true -> length (queue (shared (mon h))) = Z.to_nat (MAXNCLI - 1)).
Proof.
  intros Hr Hd. pose proof (hinv_run h Hr Hd) as HI. pose proof (queue_length (shared (mon h))) as Hq.
  pose proof (nwaiting_range (shared (mon h))). split_and!; [apply HI|lia|rewrite Hq; apply HI|].
  intros h' Hst Hd'. assert (nwaiting (shared (mon h)) = MAXNCLI - 1); [|lia].
  destruct Hst as [c a sv t o r c' Hm]. simpl in *. pose proof (h_ring _ HI) as Hok. simpl in Hok.
  assert (Hget : forall s th, ~ finish t Get (get s) th r c').
  { intros s th Hf. unfold get in Hf. destruct (_ =? _); inversion Hf; by subst. }
  inversion Hm as [s th t0 o0 r0 c0 Ht Hf|s th t0 o0 r0 c0 Ht Hf|s th t0 cc o0 Ht]; subst; [..|done].
  - destruct o as [fd|]; [|by exfalso; eapply Hget]. simpl in Hf. unfold put in Hf. apply put_full; [done|]. simpl in *.
    destruct (Z.eqb_spec (next (iput s)) (iget s)); [done|]. inversion Hf; by subst.
  - assert (o = Get) as -> by (by apply (h_ops _ HI t (Woken o))). by exfalso; eapply Hget.
Qed.

(** A thread sleeps, a connection comes, the thread takes it. *)
Definition one_served : hist := Hist (Conf (Pool (<[0%nat := 7]> (clifd main_init)) 1 1) ∅ false) [7] [(1%nat, 7)].

Lemma one_served_run : rtc hstep init_hist one_served.
Proof.
  eapply rtc_l.
  { apply (hstep_intro _ _ _ 1%nat Get None). apply step_enter; [done|]. apply (finish_wait _ _ main_init). }
  eapply rtc_l.
  { apply (hstep_intro _ _ _ 0%nat (Put 7) (Some None)). apply step_enter; [done|].
    apply (finish_return _ _ (Pool (<[0%nat := 7]> (clifd main_init)) 0 1)).
    eapply acts_cons, acts_nil. by apply (signal_one clifd_cond 1%nat Get). }
  eapply rtc_l; [|apply rtc_refl].
  apply (hstep_intro _ [7] [] 1%nat Get (Some (Some 7))). apply step_resume; [done|].
  apply (finish_return _ _ (Pool (<[0%nat := 7]> (clifd main_init)) 1 1) (Some 7) []), acts_nil.
Qed.

Lemma serv08_exactly_once_witness : accepted one_served = map snd (served one_served) ++ queue (shared (mon one_served)).
Proof. exact (proj1 (serv08_exactly_once one_served one_served_run eq_refl)). Defined.

End ThreadPool.

(** ** [serv05.c], [child05.c] *)

Module ChildPool.

(** Where a child is in [child_main]: in [Read_fd], in [web_child] with the
    connection, before the [Write] that tells the parent; or it has ended. *)
Inductive cpc := C_read_fd | C_serving (connfd : Z) | C_write | C_ended.
#[export] Instance cpc_eq_dec : EqDecision cpc.
Proof. solve_decision. Defined.

(** An entry of [cptr] ([child_status], [child_count]) with its stream pipe: the
    descriptors on the way to the child and the number of bytes on the way back. *)
Record child := Child { child_status : Z; child_count : Z; at_child : cpc; to_child : list Z; from_child : Z }.

(** Where the parent is: before [Select], at the test for new connections, in the loop
    over the children, or ended by [err_quit], [err_sys] or [SIGPIPE]. *)
Inductive ppc := P_select | P_accept (rset : gset nat) (nsel : Z) | P_check (i : nat) (rset : gset nat) (nsel : Z) | P_quit.

(** [accepted] and [served] are the connections accepted and those done with, by
    which child; [lost] those that ended with a child or the parent. *)
Record server := Server {
  pc : ppc; cptr : list child; navail : Z; accepted : list Z; served : list (nat * Z); lost : list Z }.

(** [main] and [child_make] before the loop. *)
Definition main_init (nchildren : nat) : server :=
  Server P_select (replicate nchildren (Child 0 0 C_read_fd [] 0)) (Z.of_nat nchildren) [] [] [].

Fixpoint find_available (l : list child) : option nat :=
  match l with
  | [] => None
  | c :: l' => if child_status c =? 0 then Some 0%nat else S <$> find_available l'
  end.

Definition MAXN : Z := 16384.

(** [web_child] for a client whose lines [atol] reads as [lines] before it closes: it
    returns, or calls [err_quit] for the number [Some ntowrite]. *)
Fixpoint web_child (lines : list Z) : option Z :=
  match lines with
  | [] => None
  | l :: lines' =>
      let ntowrite := s32 l in
      if (ntowrite <=? 0) || (ntowrite >? MAXN) then Some ntowrite else web_child lines'
  end.

(** What [err_quit("client request for %d bytes", ntowrite)] writes to
    [STDERR_FILENO], which [child_make] has made the stream pipe to the parent. *)
Definition quit_message (ntowrite : Z) : list Z :=
  codes "client request for " ++ (if ntowrite <? 0 then 45 :: fmt_u (- ntowrite) else fmt_u ntowrite) ++
  codes " bytes" ++ [10].

(** [child_main] of child [i], a step at a time; [None] where it blocks or has ended.
    [ends] says how a call of [web_child] ends: with a return, or with [err_quit]
    after so many bytes on [STDERR_FILENO]. *)
Definition child_step (i : nat) (ends : option Z) (s : server) : option server :=
  match cptr s !! i with
  | None => None
  | Some c =>
      let set c' sv lo := Some (Server (pc s) (<[i := c']> (cptr s)) (navail s) (accepted s) sv lo) in
      let go pc to fr := Child (child_status c) (child_count c) pc to fr in
      match at_child c, to_child c with
      | C_read_fd, [] | C_ended, _ => None
      | C_read_fd, fd :: l => set (go (C_serving fd) l (from_child c)) (served s) (lost s)
      | C_serving fd, _ =>
          match ends with
          | None => set (go C_write (to_child c) (from_child c)) (served s ++ [(i, fd)]) (lost s)
          | Some m => set (go C_ended (to_child c) (from_child c + m)) (served s) (lost s ++ [fd])
          end
      | C_write, _ => set (go C_read_fd (to_child c) (from_child c + 1)) (served s) (lost s)
      end
  end.

(** The connections a child has in hand. *)
Definition in_hand (c : child) : list Z := to_child c ++ match at_child c with C_serving fd => [fd] | _ => [] end.

(** Child [i] ends where it is, by a call that fails or a signal, after [m] bytes on
    [STDERR_FILENO]; what it has in hand ends with it. *)
Definition child_ends (i : nat) (m : Z) (s : server) : option server :=
  match cptr s !! i with
  | None => None
  | Some c =>
      if bool_decide (at_child c = C_ended) then None
      else Some (Server (pc s) (<[i := Child (child_status c) (child_count c) C_ended [] (from_child c + m)]> (cptr s))
                   (navail s) (accepted s) (served s) (lost s ++ in_hand c))
  end.

(** A connection is accepted and passed to a child; [Write_fd] to a child that has
    ended ends the parent. *)
Definition accept_one (connfd : Z) (rset : gset nat) (nsel : Z) (s : server) : server :=
  match find_available (cptr s) with
  | None => Server P_quit (cptr s) (navail s) (accepted s ++ [connfd]) (served s) (lost s ++ [connfd])
  | Some i =>
      match cptr s !! i with
      | None => s
      | Some c =>
          let busy to := <[i := Child 1 (long_inc (child_count c)) (at_child c) to (from_child c)]> (cptr s) in
          if bool_decide (at_child c = C_ended) then
            Server P_quit (busy (to_child c)) (int_dec (navail s)) (accepted s ++ [connfd]) (served s) (lost s ++ [connfd])
          else
            Server (if nsel - 1 =? 0 then P_select else P_check 0 rset (nsel - 1))
              (busy (to_child c ++ [connfd])) (int_dec (navail s)) (accepted s ++ [connfd]) (served s) (lost s)
      end
  end.

(** The turn of the last loop for child [i]: [Read] takes a byte, or returns 0 once
    the child has ended. *)
Definition check_one (i : nat) (rset : gset nat) (nsel : Z) (s : server) : server :=
  match cptr s !! i with
  | None => Server P_select (cptr s) (navail s) (accepted s) (served s) (lost s)
  | Some c =>
      if bool_decide (i ∈ rset) then
        if from_child c <=? 0 then Server P_quit (cptr s) (navail s) (accepted s) (served s) (lost s)
        else
          Server (if nsel - 1 =? 0 then P_select else P_check (S i) rset (nsel - 1))
            (<[i := Child 0 (child_count c) (at_child c) (to_child c) (from_child c - 1)]> (cptr s))
            (int_inc (navail s)) (accepted s) (served s) (lost s)
      else Server (P_check (S i) rset nsel) (cptr s) (navail s) (accepted s) (served s) (lost s)
  end.

(** A pipe is readable when it holds a byte, or when the child's end is closed. *)
Definition readable (s : server) (i : nat) : Prop :=
  exists c, cptr s !! i = Some c /\ (0 < from_child c \/ at_child c = C_ended).

(** The parent's steps interleave with those of the children.  [Select] watches
    [listenfd] only while [navail] is positive, and returns when something is ready. *)
Inductive step : server -> server -> Prop :=
| Child_runs i lines s s' :
    child_step i ((fun n => Z.of_nat (length (quit_message n))) <$> web_child lines) s = Some s' -> step s s'
| Child_fails i m s s' : 0 <= m -> child_ends i m s = Some s' -> step s s'
| Select s (listening : bool) (rset : gset nat) (nsel : Z) :
    pc s = P_select -> (listening = true -> 0 < navail s) -> (forall i, i ∈ rset -> readable s i) ->
    nsel = (if listening then 1 else 0) + Z.of_nat (size rset) -> 0 < nsel ->
    step s (Server (if listening then P_accept rset nsel else P_check 0 rset nsel) (cptr s) (navail s)
              (accepted s) (served s) (lost s))
| Accept s rset nsel connfd : pc s = P_accept rset nsel -> step s (accept_one connfd rset nsel s)
| Check_child s i rset nsel : pc s = P_check i rset nsel -> step s (check_one i rset nsel s).

(** *** The invariant *)

(** A child whose status is 0 has nothing in hand and has told so; one whose status is
    1 has one connection, or is about to tell, or has told the parent. *)
Definition child_ok (c : child) : Prop :=
  (at_child c = C_ended /\ to_child c = [] /\ 0 <= from_child c) \/
  (child_status c = 0 /\ at_child c = C_read_fd /\ to_child c = [] /\ from_child c = 0) \/
  (child_status c = 1 /\
    ((exists fd, at_child c = C_read_fd /\ to_child c = [fd] /\ from_child c = 0) \/
     (exists fd, at_child c = C_serving fd /\ to_child c = [] /\ from_child c = 0) \/
     (at_child c = C_write /\ to_child c = [] /\ from_child c = 0) \/
     (at_child c = C_read_fd /\ to_child c = [] /\ from_child c = 1))).

Definition free1 (c : child) : Z := if child_status c =? 0 then 1 else 0.

(** No child has ended. *)
Definition alive (l : list child) : Prop := Forall (fun c => at_child c <> C_ended) l.

(** The children that [select] reported and the loop has still to look at. *)
Definition left_from (i : nat) (rset : gset nat) : gset nat := filter (fun j => (i <= j)%nat) rset.

Definition pc_ok (s : server) : Prop :=
  match pc s with
  | P_select => True
  | P_accept rset nsel => 0 < navail s /\ nsel = 1 + Z.of_nat (size rset) /\ forall i, i ∈ rset -> readable s i
  | P_check i rset nsel =>
      0 < nsel /\ nsel = Z.of_nat (size (left_from i rset)) /\ forall j, j ∈ left_from i rset -> readable s j
  | P_quit => ~ alive (cptr s)
  end.

Record inv (n : nat) (s : server) : Prop := {
  i_int : Z.of_nat n <= INT_MAX;
  i_len : length (cptr s) = n;
  i_children : Forall child_ok (cptr s);
  i_navail : alive (cptr s) -> navail s = zsum free1 (cptr s) /\ lost s = [];
  i_once : accepted s ≡ₚ map snd (served s) ++ lost s ++ concat (map in_hand (cptr s));
  i_counts : pc s <> P_quit -> Z.of_nat (length (accepted s)) <= LONG_MAX ->
    Forall (fun c => 0 <= child_count c) (cptr s) /\ zsum child_count (cptr s) = Z.of_nat (length (accepted s));
  i_pc : pc_ok s }.

Lemma child_ok_ended c : child_ok c -> at_child c = C_ended -> to_child c = [] /\ 0 <= from_child c.
Proof.
  intros [(_ & H)|[(_ & E & _)|(_ & [(x & E & _)|[(x & E & _)|[(E & _)|(E & _)]]])]] H0; [done|congruence..].
Qed.

Lemma alive_insert (l : list child) i c c' :
  l !! i = Some c -> (at_child c = C_ended -> at_child c' = C_ended) -> alive (<[i := c']> l) -> alive l.
Proof.
  intros Ei Hc Ha. apply Forall_lookup. intros j d Ej. pose proof (proj1 (Forall_lookup _ _) Ha) as H.
  destruct (decide (i = j)) as [<-|Hne].
  - rewrite Ei in Ej. injection Ej as <-. intros E. apply (H i c'); [|by apply Hc].
    apply list_lookup_insert_eq. by apply lookup_lt_is_Some; rewrite Ei.
  - apply (H j). by rewrite list_lookup_insert_ne.
Qed.

(** A change of one child, seen from all connections. *)
Lemma in_hand_insert (l : list child) i c c' xs ys :
  l !! i = Some c -> xs ++ in_hand c ≡ₚ ys ++ in_hand c' ->
  xs ++ concat (map in_hand l) ≡ₚ ys ++ concat (map in_hand (<[i := c']> l)).
Proof.
  intros E Hp. revert i E. induction l as [|z l IH]; intros [|i] E; simpl in *; try done.
  - injection E as ->. by rewrite !app_assoc, Hp.
  - rewrite !(Permutation_app_swap_app _ (in_hand z)). by rewrite (IH i E).
Qed.

Lemma readable_insert s i c c' j pc' nv a sv lo :
  cptr s !! i = Some c ->
  (0 < from_child c \/ at_child c = C_ended -> (0 < from_child c' \/ at_child c' = C_ended) \/ i <> j) ->
  readable s j -> readable (Server pc' (<[i := c']> (cptr s)) nv a sv lo) j.
Proof.
  intros Ei Hf (d & Ej & Hd). assert (Hi : (i < length (cptr s))%nat) by (by apply lookup_lt_is_Some; rewrite Ei).
  unfold readable. simpl. destruct (decide (i = j)) as [->|Hne].
  - rewrite list_lookup_insert_eq by done. exists c'. split; [done|]. rewrite Ei in Ej. injection Ej as ->. naive_solver.
  - exists d. by rewrite list_lookup_insert_ne.
Qed.

Lemma find_available_some l i : find_available l = Some i -> exists c, l !! i = Some c /\ child_status c = 0.
Proof.
  revert i. induction l as [|c l IH]; intros i E; simpl in E; [done|].
  destruct (Z.eqb_spec (child_status c) 0); [injection E as <-; by exists c|].
  destruct (find_available l) as [j|]; [|done]. injection E as <-. by apply IH.
Qed.

Lemma find_available_none l : find_available l = None -> zsum free1 l = 0.
Proof.
  induction l as [|c l IH]; simpl; [done|]. unfold free1 at 1. destruct (child_status c =? 0); [done|].
  destruct (find_available l); [done|]. intros _. by rewrite IH.
Qed.

Lemma left_from_all rset : left_from 0 rset = rset.
Proof. apply set_eq. intros j. unfold left_from. rewrite elem_of_filter. split; [tauto|]. intros H. split; [lia|done]. Qed.

Lemma left_from_out i rset : i ∉ rset -> left_from i rset = left_from (S i) rset.
Proof.
  intros Hi. apply set_eq. intros j. unfold left_from. rewrite !elem_of_filter. split; intros [H1 H2]; (split; [|done]); [|lia].
  destruct (decide (i = j)) as [->|]; [done|lia].
Qed.

Lemma left_from_in i rset : i ∈ rset -> Z.of_nat (size (left_from i rset)) = 1 + Z.of_nat (size (left_from (S i) rset)).
Proof.
  intros Hi. assert (E : left_from i rset = {[i]} ∪ left_from (S i) rset).
  { apply set_eq. intros j. unfold left_from. rewrite elem_of_union, elem_of_singleton, !elem_of_filter. split.
    - intros [H1 H2]. destruct (decide (j = i)); [by left|right; split; [lia|done]].
    - intros [->|[H1 H2]]; (split; [lia|done]). }
  rewrite E, size_union, size_singleton; [lia|]. unfold left_from. intros j. rewrite elem_of_singleton, elem_of_filter.
  intros -> [H _]. lia.
Qed.

(** There are at most as many free children as children. *)
Lemma free_bound l : 0 <= zsum free1 l <= Z.of_nat (length l).
Proof. induction l as [|c l IH]; simpl; [lia|]. unfold free1 at 1 3. destruct (child_status c =? 0); lia. Qed.

Lemma count_bound l i c : Forall (fun c => 0 <= child_count c) l -> l !! i = Some c -> child_count c <= zsum child_count l.
Proof.
  intros HF. revert i. induction HF as [|d l Hd HF IH]; intros [|i] E; simpl in *; try done.
  - injection E as ->. assert (0 <= zsum child_count l); [|lia]. clear -HF. induction HF; simpl; lia.
  - apply IH in E. lia.
Qed.

Lemma main_init_children n : Z.of_nat n <= INT_MAX -> inv n (main_init n).
Proof.
  intros Hn. split; simpl.
  - done.
  - apply length_replicate.
  - apply Forall_replicate. right. left. done.
  - intros _. rewrite zsum_replicate. cbn. split; [lia|done].
  - clear Hn. induction n as [|n IH]; simpl; [done|]. apply IH.
  - intros _ _. rewrite zsum_replicate. cbn. split; [by apply Forall_replicate|lia].
  - done.
Qed.

(** What a step of child [i] changes. *)
Definition child_effect (i : nat) (c : child) (s s' : server) : Prop :=
  exists c' sv lo, s' = Server (pc s) (<[i := c']> (cptr s)) (navail s) (accepted s) sv lo /\ child_ok c' /\
    child_status c' = child_status c /\ child_count c' = child_count c /\ from_child c <= from_child c' /\
    at_child c <> C_ended /\ (lo = lost s \/ at_child c' = C_ended) /\
    (map snd (served s) ++ lost s) ++ in_hand c ≡ₚ (map snd sv ++ lo) ++ in_hand c'.

Lemma child_ends_effect i m s s' c :
  cptr s !! i = Some c -> child_ok c -> 0 <= m -> child_ends i m s = Some s' -> child_effect i c s s'.
Proof.
  intros Ei Hc Hm E. unfold child_ends in E. rewrite Ei in E. case_bool_decide as Hne; [done|]. injection E as <-.
  assert (0 <= from_child c) by (unfold child_ok in Hc; naive_solver lia).
  eexists _, _, _. split; [reflexivity|]. unfold child_ok, in_hand; simpl.
  split_and!; [left; split_and!; [done|done|lia]|done|done|lia|done|by right|]. by rewrite !app_nil_r, <- app_assoc.
Qed.

Lemma child_step_effect i ends s s' c :
  cptr s !! i = Some c -> child_ok c -> (forall m, ends = Some m -> 0 <= m) -> child_step i ends s = Some s' ->
  child_effect i c s s'.
Proof.
  intros Ei Hc Hm E. unfold child_step in E. rewrite Ei in E. destruct c as [st ct at_ to fr].
  unfold child_ok in Hc. simpl in *.
  destruct at_ as [|fd| |]; [destruct to as [|fd to]; [done|]|destruct ends as [m|]| |done]; injection E as <-;
    (eexists _, _, _; split; [reflexivity|]); unfold in_hand; simpl.
  - split_and!; [|done|done|lia|done|by left|].
    + unfold child_ok; simpl. naive_solver.
    + rewrite app_nil_r. by rewrite (Permutation_app_comm to).
  - assert (to = [] /\ fr = 0) as [-> ->] by naive_solver. specialize (Hm m eq_refl).
    split_and!; [left; simpl; split_and!; [done|done|lia]|done|done|lia|done|by right|].
    by rewrite app_nil_r, <- app_assoc.
  - assert (to = [] /\ fr = 0) as [-> ->] by naive_solver.
    split_and!; [unfold child_ok; simpl; naive_solver|done|done|lia|done|by left|].
    rewrite map_app, app_nil_r, <- !app_assoc. simpl. by rewrite (Permutation_app_comm _ [fd]).
  - assert (to = [] /\ fr = 0) as [-> ->] by naive_solver.
    split_and!; [unfold child_ok; simpl; naive_solver|done|done|lia|done|by left|done].
Qed.

Lemma child_effect_inv n i c s s' : inv n s -> cptr s !! i = Some c -> child_effect i c s s' -> inv n s'.
Proof.
  intros [Hint H1 H2 H3 H4 H5 H6] Ei (c' & sv & lo & -> & Hok & Hst & Hct & Hfr & Hne & Hlo & Hp).
  assert (Hal : alive (<[i := c']> (cptr s)) -> alive (cptr s)) by (by apply (alive_insert _ _ c)).
  split; simpl; [done|..].
  - by rewrite length_insert.
  - by apply Forall_insert.
  - intros Ha. destruct (H3 (Hal Ha)) as [Hnv Hl]. rewrite (zsum_insert _ _ _ _ _ Ei).
    assert (free1 c' = free1 c) by (unfold free1; by rewrite Hst). split; [lia|]. destruct Hlo as [->|Hx]; [done|].
    destruct (proj1 (Forall_lookup _ _) Ha i c'); [|done]. apply list_lookup_insert_eq.
    by apply lookup_lt_is_Some; rewrite Ei.
  - rewrite H4, !app_assoc. by apply (in_hand_insert _ _ c).
  - intros Hq Hb. rewrite (zsum_insert _ _ _ _ _ Ei). destruct (H5 Hq Hb) as [HF Hz]. split; [|lia].
    apply Forall_insert; [done|]. rewrite Hct. by apply (proj1 (Forall_lookup _ _) HF i).
  - assert (Hrd : forall j, readable s j -> readable (Server (pc s) (<[i := c']> (cptr s)) (navail s) (accepted s) sv lo) j).
    { intros j. apply (readable_insert _ _ c); [done|]. intros [Hx|Hx]; [left; left; lia|done]. }
    unfold pc_ok in *; simpl. destruct (pc s); naive_solver.
Qed.

Lemma child_step_inv n i ends s s' :
  inv n s -> (forall m, ends = Some m -> 0 <= m) -> child_step i ends s = Some s' -> inv n s'.
Proof.
  intros HI Hm E. destruct (cptr s !! i) as [c|] eqn:Ei; [|unfold child_step in E; by rewrite Ei in E].
  apply (child_effect_inv n i c s); [done..|]. eapply child_step_effect; [done| |done|done].
  by apply (proj1 (Forall_lookup _ _) (i_children _ _ HI) i).
Qed.

Lemma child_ends_inv n i m s s' : inv n s -> 0 <= m -> child_ends i m s = Some s' -> inv n s'.
Proof.
  intros HI Hm E. destruct (cptr s !! i) as [c|] eqn:Ei; [|unfold child_ends in E; by rewrite Ei in E].
  apply (child_effect_inv n i c s); [done..|]. eapply child_ends_effect; [done| |done|done].
  by apply (proj1 (Forall_lookup _ _) (i_children _ _ HI) i).
Qed.

Lemma accept_one_inv n s rset nsel connfd : inv n s -> pc s = P_accept rset nsel -> inv n (accept_one connfd rset nsel s).
Proof.
  intros [Hint H1 H2 H3 H4 H5 H6] Ep. unfold pc_ok in H6. rewrite Ep in H6, H5. destruct H6 as (Hav & Hn & Hrd).
  specialize (H5 ltac:(done)). unfold accept_one. pose proof (free_bound (cptr s)) as Hfb.
  destruct (find_available (cptr s)) as [i|] eqn:Ef; cycle 1.
  { apply find_available_none in Ef. assert (~ alive (cptr s)) by (intros Ha; destruct (H3 Ha); lia).
    split; simpl; try done. rewrite H4. by rewrite <- !app_assoc, (Permutation_app_comm (concat _)). }
  destruct (find_available_some _ _ Ef) as (c & Ei & Hst). rewrite Ei.
  pose proof (proj1 (Forall_lookup _ _) H2 _ _ Ei) as Hc.
  assert (Hcnt : forall c', child_count c' = long_inc (child_count c) ->
            Z.of_nat (length (accepted s ++ [connfd])) <= LONG_MAX ->
            Forall (fun c => 0 <= child_count c) (<[i := c']> (cptr s)) /\
            zsum child_count (<[i := c']> (cptr s)) = Z.of_nat (length (accepted s ++ [connfd]))).
  { intros c' Hc'. rewrite length_app. simpl. intros Hb. destruct H5 as [HF Hz]; [lia|].
    pose proof (proj1 (Forall_lookup _ _) HF i c Ei) as H0. pose proof (count_bound _ _ _ HF Ei). simpl in H0.
    rewrite long_inc_small in Hc' by lia. rewrite (zsum_insert _ _ _ _ _ Ei). split; [|lia].
    apply Forall_insert; [done|lia]. }
  case_bool_decide as Hend.
  - set (c' := Child 1 (long_inc (child_count c)) (at_child c) (to_child c) (from_child c)).
    assert (Hna : ~ alive (<[i := c']> (cptr s))).
    { intros Ha. assert (Hb : alive (cptr s)) by (by apply (alive_insert _ i c c')). by apply (proj1 (Forall_lookup _ _) Hb i c Ei). }
    split; simpl; [done|by rewrite length_insert| |done| |done|done].
    + apply Forall_insert; [done|]. left. unfold c'; simpl. split; [done|by apply child_ok_ended].
    + rewrite H4, <- !app_assoc. f_equiv. rewrite (Permutation_app_comm [connfd]). rewrite !app_assoc. f_equiv.
      by apply (in_hand_insert _ _ c).
  - destruct Hc as [[Hc _]|[(_ & Hat & Hto & Hfr)|[Hc _]]]; [done| |lia].
    set (c' := Child 1 (long_inc (child_count c)) (at_child c) (to_child c ++ [connfd]) (from_child c)).
    assert (Hal : alive (<[i := c']> (cptr s)) -> alive (cptr s)) by (by apply (alive_insert _ _ c)).
    split; simpl; [done|..].
    + by rewrite length_insert.
    + apply Forall_insert; [done|]. right. right. unfold c'; simpl. rewrite Hat, Hto, Hfr. split; [done|]. left. by exists connfd.
    + intros Ha. destruct (H3 (Hal Ha)) as [Hnv Hl]. split; [|done].
      rewrite int_dec_small, (zsum_insert _ _ _ _ _ Ei), <- Hnv by lia. unfold free1, c'; simpl. rewrite Hst. simpl. lia.
    + rewrite H4, !app_assoc. rewrite <- (app_assoc _ _ [connfd]), (Permutation_app_comm _ [connfd]), !app_assoc.
      apply (in_hand_insert _ _ c); [done|]. unfold in_hand, c'; simpl. rewrite Hat, Hto. simpl. by rewrite app_nil_r.
    + intros _. by apply Hcnt.
    + unfold pc_ok; simpl. destruct (Z.eqb_spec (nsel - 1) 0) as [|Hne]; [done|]. rewrite left_from_all.
      split_and!; [lia|lia|]. intros j Hj. apply (readable_insert _ _ c); [done| |by apply Hrd]. intros [Hx|Hx]; [lia|done].
Qed.

Lemma check_one_child_inv n s i rset nsel : inv n s -> pc s = P_check i rset nsel -> inv n (check_one i rset nsel s).
Proof.
  intros [Hint H1 H2 H3 H4 H5 H6] Ep. unfold pc_ok in H6. rewrite Ep in H6, H5. destruct H6 as (Hpos & Hn & Hrd).
  specialize (H5 ltac:(done)). unfold check_one.
  destruct (cptr s !! i) as [c|] eqn:Ei; [|by split].
  case_bool_decide as Hi; cycle 1.
  { rewrite (left_from_out i rset Hi) in Hn, Hrd. by split. }
  assert (Hri : readable s i) by (apply Hrd; unfold left_from; rewrite elem_of_filter; split; [lia|done]).
  destruct Hri as (d & Ed & Hfr). rewrite Ei in Ed. injection Ed as <-.
  pose proof (proj1 (Forall_lookup _ _) H2 _ _ Ei) as Hc.
  destruct (Z.leb_spec (from_child c) 0) as [Hz|Hz].
  { assert (at_child c = C_ended) as Hend by (destruct Hfr; [lia|done]). split; simpl; try done.
    intros Ha. by apply (proj1 (Forall_lookup _ _) Ha i c Ei). }
  set (c' := Child 0 (child_count c) (at_child c) (to_child c) (from_child c - 1)).
  assert (Hal : alive (<[i := c']> (cptr s)) -> alive (cptr s)) by (by apply (alive_insert _ _ c)).
  assert (Hcase : at_child c = C_ended \/
            (child_status c = 1 /\ at_child c = C_read_fd /\ to_child c = [] /\ from_child c = 1)).
  { destruct Hc as [[Hc _]|[Hc|(Hs & [(x & _ & _ & Hf)|[(x & _ & _ & Hf)|[(_ & _ & Hf)|Hc]]])]]; [by left|lia..|right].
    split; [done|]. apply Hc. }
  pose proof (left_from_in i rset Hi) as Hsz. pose proof (free_bound (<[i := c']> (cptr s))) as Hfb.
  rewrite length_insert, (zsum_insert _ _ _ _ _ Ei) in Hfb.
  split; simpl; [done|..].
  - by rewrite length_insert.
  - apply Forall_insert; [done|]. destruct Hcase as [Hend|(Hst & Hat & Hto & Hf1)].
    + left. unfold c'; simpl. destruct (child_ok_ended c Hc Hend). split_and!; [done|done|lia].
    + right. left. unfold c'; simpl. rewrite Hat, Hto, Hf1. done.
  - intros Ha. destruct (H3 (Hal Ha)) as [Hnv Hl]. split; [|done]. rewrite (zsum_insert _ _ _ _ _ Ei).
    destruct Hcase as [Hend|(Hst & _)]; [by destruct (proj1 (Forall_lookup _ _) (Hal Ha) i c Ei)|].
    assert (free1 c = 0) as F0 by (unfold free1; by rewrite Hst). assert (free1 c' = 1) as F1 by done.
    rewrite F0, F1 in *. rewrite int_inc_small by lia. lia.
  - rewrite H4, !app_assoc. by apply (in_hand_insert _ _ c).
  - intros _ Hb. destruct (H5 Hb) as [HF Hsum]. rewrite (zsum_insert _ _ _ _ _ Ei). simpl. split; [|lia].
    apply Forall_insert; [done|]. exact (proj1 (Forall_lookup _ _) HF i c Ei).
  - unfold pc_ok; simpl. destruct (Z.eqb_spec (nsel - 1) 0) as [|Hne]; [done|]. split_and!; [lia|lia|].
    intros j Hj. unfold left_from in Hj. rewrite elem_of_filter in Hj. destruct Hj as [Hj1 Hj2].
    apply (readable_insert _ _ c); [done| |apply Hrd; unfold left_from; rewrite elem_of_filter; split; [lia|done]].
    intros _. right. lia.
Qed.

Lemma step_children n s s' : inv n s -> step s s' -> inv n s'.
Proof.
  intros HI Hst.
  destruct Hst as [i lines s s' E|i m s s' Hm E|s listening rset nsel Ep Hav Hrd Hn Hpos|s rset nsel fd Ep|s i rset nsel Ep].
  - eapply child_step_inv; [done| |exact E]. intros m. destruct (web_child lines); [|done]. intros [= <-]. lia.
  - by eapply child_ends_inv.
  - destruct HI as [Hint H1 H2 H3 H4 H5 H6]. split; try done; unfold pc_ok; simpl.
    + intros _. apply H5. by rewrite Ep.
    + destruct listening; [split_and!; [by apply Hav|done|done]|]. rewrite left_from_all. split_and!; [done|lia|done].
  - by apply accept_one_inv.
  - by apply check_one_child_inv.
Qed.

Definition reachable (n : nat) : server -> Prop := rtc step (main_init n).

Lemma reachable_children n s : Z.of_nat n <= INT_MAX -> reachable n s -> inv n s.
Proof. intros Hn Hr. eapply (rtc_invariant step (inv n)); [|by apply main_init_children|exact Hr]. intros x y. apply step_children. Qed.


(** the pool of [serv05] never stops while there is work and no child has ended: if no
    step but the acceptance of a new connection is possible, every connection accepted
    has been served, all children are free, and the parent waits for connections. *)
Theorem serv05_progress n s :
  Z.of_nat n <= INT_MAX -> reachable n s -> alive (cptr s) ->
  (exists s', step s s' /\ (accepted s' = accepted s \/ exists rset nsel, pc s = P_accept rset nsel)) \/
  (pc s = P_select /\ navail s = Z.of_nat n /\ accepted s ≡ₚ map snd (served s)).
Proof.
  intros Hn HI%reachable_children Hal; [|done]. pose proof (i_pc _ _ HI) as Hpc. unfold pc_ok in Hpc.
  destruct (i_navail _ _ HI Hal) as [Hnv Hlo].
  destruct (pc s) as [|rset nsel|i rset nsel|] eqn:Ep; [|left; eexists; split; [by apply (Accept s rset nsel 0)|right; by eexists _, _]| |done].
  2: { left. eexists. split; [by apply (Check_child s i rset nsel)|]. left. unfold check_one. by repeat case_match. }
  assert (Hok : forall i c, cptr s !! i = Some c -> child_ok c /\ at_child c <> C_ended).
  { intros i c Ei. split; [by apply (proj1 (Forall_lookup _ _) (i_children _ _ HI) i)|by apply (proj1 (Forall_lookup _ _) Hal i)]. }
  destruct (decide (Forall (fun c => child_status c = 0) (cptr s))) as [Hall|Hsome].
  - right. split_and!; [done| |].
    + rewrite Hnv, <- (i_len _ _ HI). clear -Hall. induction Hall as [|c l Hc _ IH]; simpl; [done|].
      rewrite IH. unfold free1. rewrite Hc. simpl. lia.
    + rewrite (i_once _ _ HI), Hlo. rewrite <- (app_nil_r (map snd (served s))) at 2. f_equiv. simpl.
      assert (Hnil : Forall (fun c => in_hand c = []) (cptr s)).
      { apply Forall_lookup. intros i c Ei. destruct (Hok i c Ei) as [Hc Hne]. pose proof (proj1 (Forall_lookup _ _) Hall i c Ei) as H0. simpl in H0.
        unfold in_hand. destruct Hc as [[? _]|[(_ & -> & -> & _)|[? _]]]; [done|done|lia]. }
      clear -Hnil. induction Hnil as [|c l Hc _ IH]; [done|]. simpl. by rewrite Hc.
  - left. apply not_Forall_Exists in Hsome; [|solve_decision]. apply Exists_exists in Hsome as (c & [i Ei]%list_elem_of_lookup & Hc).
    destruct (Hok i c Ei) as [[[Hx _]|[[H0 _]|(_ & Hcase)]] Hne]; [done|done|].
    destruct (decide (from_child c = 1)) as [Hf|Hf].
    + eexists. split; [apply (Select s false {[i]} 1); [done|done| |by rewrite size_singleton|lia]|by left].
      intros j ->%elem_of_singleton. exists c. split; [done|left; lia].
    + assert (exists s', child_step i None s = Some s' /\ accepted s' = accepted s) as (s' & Es & Ha).
      { unfold child_step. rewrite Ei.
        destruct Hcase as [(x & -> & -> & _)|[(x & -> & -> & _)|[(-> & -> & _)|(_ & _ & Hx)]]]; [by eexists..|done]. }
      exists s'. split; [by apply (Child_runs i [])|by left].
Qed.

(** One child, two connections: the first asks for 5 bytes and closes, the second asks
    for -1 bytes. *)
Definition pool_demo : server :=
  Server P_select [Child 1 2 C_ended [] 28] 0 [9; 8] [(0%nat, 9)] [8].

Lemma pool_demo_reachable : reachable 1 pool_demo.
Proof.
  eapply rtc_l; [apply (Select _ true ∅ 1); done|].
  eapply rtc_l; [by apply (Accept _ ∅ 1 9)|].
  eapply rtc_l; [by apply (Child_runs 0 [])|].
  eapply rtc_l; [by apply (Child_runs 0 [5])|].
  eapply rtc_l; [by apply (Child_runs 0 [])|].
  eapply rtc_l; [apply (Select _ false {[0%nat]} 1); try done; intros i ->%elem_of_singleton; eexists; split; [done|by left]|].
  eapply rtc_l; [by apply (Check_child _ 0 {[0%nat]} 1)|].
  eapply rtc_l; [apply (Select _ true ∅ 1); done|].
  eapply rtc_l; [by apply (Accept _ ∅ 1 8)|].
  eapply rtc_l; [by apply (Child_runs 0 [])|].
  eapply rtc_l; [by apply (Child_runs 0 [-1])|]. apply rtc_refl.
Qed.


(** The message of the child reaches the parent as 28 reports that it is free: after
    two of them [navail] is 2 with one child, which has ended, and the next connection
    goes to it and ends the parent. *)
Definition pool_quit : server :=
  Server P_quit [Child 1 3 C_ended [] 26] 1 [9; 8; 7] [(0%nat, 9)] [8; 7].

Example message_taken_for_free :
  reachable 1 pool_quit /\
  (exists s, reachable 1 s /\ navail s = 2 /\ length (cptr s) = 1%nat).
Proof.
  assert (Hb : forall c nv, 0 < from_child c ->
    rtc step (Server P_select [c] nv [9; 8] [(0%nat, 9)] [8])
      (Server P_select [Child 0 (child_count c) (at_child c) (to_child c) (from_child c - 1)] (int_inc nv) [9; 8] [(0%nat, 9)] [8])).
  { intros c nv Hc.
    eapply rtc_l; [apply (Select _ false {[0%nat]} 1); try done; intros i ->%elem_of_singleton; eexists; split; [done|by left]|].
    eapply rtc_l; [by apply (Check_child _ 0 {[0%nat]} 1)|]. unfold check_one; simpl.
    replace (from_child c <=? 0) with false by lia. apply rtc_refl. }
  assert (H2 : reachable 1 (Server P_select [Child 0 2 C_ended [] 26] 2 [9; 8] [(0%nat, 9)] [8])).
  { unfold reachable. etransitivity; [exact pool_demo_reachable|].
    etransitivity; [apply (Hb (Child 1 2 C_ended [] 28) 0); done|]. simpl.
    apply (Hb (Child 0 2 C_ended [] 27) 1). done. }
  split; [|by eexists]. unfold reachable. etransitivity; [exact H2|].
  eapply rtc_l; [apply (Select _ true ∅ 1); done|].
  eapply rtc_l; [by apply (Accept _ ∅ 1 7)|]. apply rtc_refl.
Qed.

End ChildPool.
