(* ===== verification/Cksum.v ===== *)
(** * The Internet checksum and the packets that carry it

    [in_cksum] of [unixNetV1/libfree] (and of [ping/bsdping.c]), the ICMP echo
    request that [ping/send_v4.c] builds and the reply [ping/proc_v4.c]
    recognises, and the UDP datagrams that [udpcksum/] builds and checks.

    A buffer is the list of its bytes.  [in_cksum] reads it as 16-bit words of
    the machine, so everything that stores or loads such a word takes the byte
    order of the machine; fields written with [htons] have the network's.  The
    offsets of the fields are those of [struct ip], [struct icmp] and BSD's
    [struct udpiphdr]; [struct timeval] has 16 bytes (LP64). *)
From S2P Require Import Prelude.

(** ** Words and buffers *)

Inductive endian := LE | BE.

(** The [uint16_t] at two bytes, and its bytes. *)
Definition word16 (h : endian) (b0 b1 : Z) : Z :=
  match h with LE => b0 + 256 * b1 | BE => 256 * b0 + b1 end.

Definition store16 (h : endian) (w : Z) : list Z :=
  match h with LE => [w mod 256; w / 256] | BE => [w / 256; w mod 256] end.

(** [htons] before a store: the bytes are in network order on any machine. *)
Definition net16 (w : Z) : list Z := store16 BE w.

Definition peek (buf : list Z) (off : nat) : Z := nth off buf 0.

Definition peek16 (h : endian) (buf : list Z) (off : nat) : Z :=
  word16 h (peek buf off) (peek buf (off + 1)).

Definition byte_ok (b : Z) : Prop := 0 <= b < 256.

(** ** [in_cksum] *)

(** The two loops over the words: two bytes at a time, then the odd byte, which
    goes to the first byte of [answer]; [sum] is a [uint32_t]. *)
Fixpoint cksum_loop (h : endian) (bytes : list Z) (sum : Z) : Z :=
  match bytes with
  | b0 :: b1 :: w => cksum_loop h w (u32 (sum + word16 h b0 b1))
  | [b] => u32 (sum + word16 h b 0)
  | [] => sum
  end.

(** The carries: [sum = (sum >> 16) + (sum & 0xffff); sum += (sum >> 16);] and
    [answer = ~sum]. *)
Definition cksum_fold (sum : Z) : Z :=
  let sum := u32 (Z.shiftr sum 16 + Z.land sum 65535) in
  let sum := u32 (sum + Z.shiftr sum 16) in
  u16 (Z.lnot sum).

Definition in_cksum (h : endian) (bytes : list Z) : Z := cksum_fold (cksum_loop h bytes 0).

(** [bsdping.c] keeps the sum in an [int]. *)
Fixpoint cksum_loop_int (h : endian) (bytes : list Z) (sum : Z) : Z :=
  match bytes with
  | b0 :: b1 :: w => cksum_loop_int h w (s32 (sum + word16 h b0 b1))
  | [b] => s32 (sum + word16 h b 0)
  | [] => sum
  end.

Definition in_cksum_bsdping (h : endian) (bytes : list Z) : Z :=
  let sum := cksum_loop_int h bytes 0 in
  let sum := s32 (Z.shiftr sum 16 + Z.land sum 65535) in
  let sum := s32 (sum + Z.shiftr sum 16) in
  u16 (Z.lnot sum).

(** ** [udpcksum] *)

Definition IPPROTO_ICMP : Z := 1.
Definition IPPROTO_UDP : Z := 17.
Definition IPVERSION : Z := 4.
Definition TTL_OUT : Z := 64.

(** [sizeof(struct ip)], [sizeof(struct udphdr)], [sizeof(struct udpiphdr)]. *)
Definition sizeof_ip : nat := 20.
Definition sizeof_udphdr : nat := 8.
Definition sizeof_udpiphdr : nat := 28.

(** An IPv4 socket address: the bytes of its address and port, in network
    order. *)
Record sockaddr_in := SockaddrIn { sin_addr : list Z; sin_port : list Z }.

(** [udp_write], up to the checksum: the pseudo-header over the IP header's
    place, the UDP header behind it. *)
Definition udp_pseudo (local dest : sockaddr_in) (buf : list Z) (userlen : Z) : list Z :=
  let ui_len := net16 (u16 (Z.of_nat sizeof_udphdr + userlen)) in
  let ui := poke 0 (replicate sizeof_udpiphdr 0) buf in   (* bzero *)
  let ui := poke 10 ui_len ui in
  let ui := poke 9 [IPPROTO_UDP] ui in
  let ui := poke 12 (sin_addr local) ui in
  let ui := poke 16 (sin_addr dest) ui in
  let ui := poke 20 (sin_port local) ui in
  let ui := poke 22 (sin_port dest) ui in
  poke 24 ui_len ui.

(** The checksum, unless [zerosum] was asked for. *)
Definition udp_sum (h : endian) (zerosum : bool) (ui : list Z) (len : nat) : list Z :=
  if zerosum then ui
  else let sum := in_cksum h (take len ui) in
       poke 26 (store16 h (if sum =? 0 then 65535 else sum)) ui.

(** The rest of the IP header, as on Linux. *)
Definition udp_ip_header (buf : list Z) (len : Z) : list Z :=
  let ip := poke 0 [IPVERSION * 16 + 5] buf in     (* ip_v, ip_hl *)
  let ip := poke 1 [0] ip in
  let ip := poke 2 (net16 (u16 len)) ip in
  let ip := poke 4 [0; 0] ip in
  let ip := poke 6 [0; 0] ip in
  poke 8 [TTL_OUT] ip.

(** [udp_write]: the bytes it hands to [Sendto]. *)
Definition udp_write (h : endian) (zerosum : bool) (local dest : sockaddr_in)
    (buf : list Z) (userlen : nat) : list Z :=
  let ui := udp_pseudo local dest buf (Z.of_nat userlen) in
  let len := (userlen + sizeof_udpiphdr)%nat in
  take len (udp_ip_header (udp_sum h zerosum ui len) (Z.of_nat len)).

(** [send_dns_query]: the query for the address of [a.root-servers.net]. *)
Definition dns_name : list Z :=
  [1; 97; 12; 114; 111; 111; 116; 45; 115; 101; 114; 118; 101; 114; 115; 3; 110; 101; 116; 0].

Definition dns_query : list Z :=
  net16 1234 ++ net16 256 ++ net16 1 ++ [0; 0] ++ [0; 0] ++ [0; 0] ++ dns_name ++ net16 1 ++ net16 1.

Definition send_dns_query (h : endian) (zerosum : bool) (local dest : sockaddr_in)
    (malloced : list Z) : list Z :=
  udp_write h zerosum local dest (poke sizeof_udpiphdr dns_query malloced) (length dns_query).

(** [udp_check]: what it finds wrong ([err_quit]), or the packet (with [ip_sum]
    overwritten by the checksum's 0).  [len] is an [int] that is compared with
    [size_t]s. *)
Inductive udp_error := BadLen | BadVersion | BadHdrLen | BadSum | NotUdp.

Definition udp_check (h : endian) (ptr : list Z) (len : Z) : sum udp_error (list Z) :=
  let hlen := Z.to_nat (Z.shiftl (Z.land (peek ptr 0) 15) 2) in
  if u64 len <? Z.of_nat (sizeof_ip + sizeof_udphdr) then inl BadLen
  else if negb (Z.shiftr (peek ptr 0) 4 =? IPVERSION) then inl BadVersion
  else if (hlen <? sizeof_ip)%nat then inl BadHdrLen
  else if u64 len <? Z.of_nat (hlen + sizeof_udphdr) then inl BadLen
  else let sum := in_cksum h (take hlen ptr) in
       let ip := poke 10 (store16 h sum) ptr in
       if negb (sum =? 0) then inl BadSum
       else if peek ip 9 =? IPPROTO_UDP then inr ip else inl NotUdp.

(** ** [ping] *)

Definition ICMP_ECHO : Z := 8.
Definition ICMP_ECHOREPLY : Z := 0.

Record timeval := Timeval { tv_sec : Z; tv_usec : Z }.

(** [tv_sub]: [out -= in]. *)
Definition tv_sub (out inn : timeval) : timeval :=
  let usec := tv_usec out - tv_usec inn in
  let '(sec, usec) := if usec <? 0 then (tv_sec out - 1, usec + 1000000) else (tv_sec out, usec) in
  Timeval (sec - tv_sec inn) usec.

(** The bytes of a [struct timeval]: two 64-bit integers. *)
Fixpoint le_bytes (n : nat) (z : Z) : list Z :=
  match n with O => [] | S n => z mod 256 :: le_bytes n (z / 256) end.

Fixpoint le_value (bs : list Z) : Z :=
  match bs with [] => 0 | b :: bs => b + 256 * le_value bs end.

Definition store64 (h : endian) (z : Z) : list Z :=
  match h with LE => le_bytes 8 (u64 z) | BE => rev (le_bytes 8 (u64 z)) end.

Definition load64 (h : endian) (bs : list Z) : Z :=
  s64 (le_value (match h with LE => bs | BE => rev bs end)).

Definition store_timeval (h : endian) (tv : timeval) : list Z :=
  store64 h (tv_sec tv) ++ store64 h (tv_usec tv).

Definition load_timeval (h : endian) (bs : list Z) : timeval :=
  Timeval (load64 h (take 8 bs)) (load64 h (take 8 (drop 8 bs))).

(** [send_v4], with the answer of [gettimeofday]: the contents of [sendbuf] and
    the number of its bytes sent, and the new [nsent]. *)
Definition icmp_echo (h : endian) (sendbuf : list Z) (pid nsent : Z) (datalen : nat) (now : timeval)
    : list Z :=
  let icmp := poke 0 [ICMP_ECHO] sendbuf in
  let icmp := poke 1 [0] icmp in
  let icmp := poke 4 (store16 h (u16 pid)) icmp in
  let icmp := poke 6 (store16 h (u16 nsent)) icmp in
  let icmp := poke 8 (replicate datalen 165) icmp in   (* memset 0xa5 *)
  let icmp := poke 8 (store_timeval h now) icmp in
  poke 2 [0; 0] icmp.

Definition send_v4 (h : endian) (sendbuf : list Z) (pid nsent : Z) (datalen : nat) (now : timeval)
    : list Z * nat * Z :=
  let len := (8 + datalen)%nat in
  let icmp := icmp_echo h sendbuf pid nsent datalen now in
  (poke 2 (store16 h (in_cksum h (take len icmp))) icmp, len, s32 (nsent + 1)).

(** What [proc_v4] prints for the packet (IP header included) in the first [len]
    bytes of the receive buffer [ptr], received at [tvrecv]: nothing, a reply (bytes, sequence number, TTL, elapsed time), or,
    when verbose, type and code. *)
Inductive ping_line :=
| PingReply (icmplen : Z) (seq ttl : Z) (elapsed : timeval)
| PingOther (icmplen : Z) (type code : Z).

Definition proc_v4 (h : endian) (verbose : bool) (pid : Z) (ptr : list Z) (len : Z) (tvrecv : timeval)
    : option ping_line :=
  let hlen1 := Z.to_nat (Z.land (peek ptr 0) 15 * 4) in
  if negb (peek ptr 9 =? IPPROTO_ICMP) then None
  else
    let icmp := drop hlen1 ptr in
    let icmplen := len - Z.of_nat hlen1 in
    if icmplen <? 8 then None
    else if peek icmp 0 =? ICMP_ECHOREPLY then
      if negb (peek16 h icmp 4 =? pid) then None
      else if icmplen <? 16 then None
      else Some (PingReply icmplen (peek16 h icmp 6) (peek ptr 8)
                   (tv_sub tvrecv (load_timeval h (drop 8 icmp))))
    else if verbose then Some (PingOther icmplen (peek icmp 0) (peek icmp 1))
    else None.

(** ** One's complement sums *)

(** The sum of the words, without wrap-around. *)
Fixpoint wsum (h : endian) (bytes : list Z) : Z :=
  match bytes with
  | b0 :: b1 :: w => word16 h b0 b1 + wsum h w
  | [b] => word16 h b 0
  | [] => 0
  end.

(** A sum with end-around carry: 0 only for 0, else from 1 to 65535. *)
Definition oc (x : Z) : Z := if x =? 0 then 0 else (x - 1) mod 65535 + 1.

(** Induction on a list two elements at a time. *)
Lemma list_ind2 {A} (Q : list A -> Prop) :
  Q [] -> (forall a, Q [a]) -> (forall a b l, Q l -> Q (a :: b :: l)) -> forall l, Q l.
Proof.
  intros H0 H1 H2 l. assert (Q l /\ forall a, Q (a :: l)) as [? _]; [|done].
  induction l as [|a l [IH1 IH2]]; auto.
Qed.

Lemma word16_range h b0 b1 : byte_ok b0 -> byte_ok b1 -> 0 <= word16 h b0 b1 <= 65535.
Proof. unfold byte_ok. destruct h; simpl; lia. Qed.

Lemma wsum_range h bytes :
  Forall byte_ok bytes -> 0 <= 2 * wsum h bytes <= 65535 * (Z.of_nat (length bytes) + 1).
Proof.
  induction bytes as [|b|b0 b1 l IH] using list_ind2; intros Hb; simpl wsum; [simpl; lia|..].
  - apply Forall_cons in Hb as [Hb _]. pose proof (word16_range h b 0 Hb ltac:(split; lia)). simpl; lia.
  - apply Forall_cons in Hb as [Hb0 Hb]. apply Forall_cons in Hb as [Hb1 Hb].
    specialize (IH Hb). pose proof (word16_range h b0 b1 Hb0 Hb1). simpl length. lia.
Qed.

Lemma wsum_app h a b :
  Nat.even (length a) = true -> wsum h (a ++ b) = wsum h a + wsum h b.
Proof.
  induction a as [|x|x y l IH] using list_ind2; intros He; simpl; try done.
  rewrite IH by done. lia.
Qed.

(** Without wrap-around of the 32-bit accumulator the loop computes the sum:
    there is none for fewer than 2^17 bytes. *)
Lemma cksum_loop_wsum h bytes sum :
  Forall byte_ok bytes -> 0 <= sum -> sum + wsum h bytes < 2 ^ 32 ->
  cksum_loop h bytes sum = sum + wsum h bytes.
Proof.
  revert sum. induction bytes as [|b|b0 b1 l IH] using list_ind2; intros sum Hb H0 H; simpl in *; [lia|..].
  - apply Forall_cons in Hb as [Hb _]. pose proof (word16_range h b 0 Hb ltac:(split; lia)).
    apply uwrap_small. lia.
  - apply Forall_cons in Hb as [Hb0 Hb]. apply Forall_cons in Hb as [Hb1 Hb].
    pose proof (word16_range h b0 b1 Hb0 Hb1). pose proof (wsum_range h l Hb).
    rewrite uwrap_small by lia. rewrite IH by (done || lia). lia.
Qed.

Lemma cksum_loop_int_wsum h bytes sum :
  Forall byte_ok bytes -> 0 <= sum -> sum + wsum h bytes < 2 ^ 31 ->
  cksum_loop_int h bytes sum = sum + wsum h bytes.
Proof.
  revert sum. induction bytes as [|b|b0 b1 l IH] using list_ind2; intros sum Hb H0 H; simpl in *; [lia|..].
  - apply Forall_cons in Hb as [Hb _]. pose proof (word16_range h b 0 Hb ltac:(split; lia)).
    apply swrap_small; lia.
  - apply Forall_cons in Hb as [Hb0 Hb]. apply Forall_cons in Hb as [Hb1 Hb].
    pose proof (word16_range h b0 b1 Hb0 Hb1). pose proof (wsum_range h l Hb).
    rewrite swrap_small by lia. rewrite IH by (done || lia). lia.
Qed.

(** [oc x] is the only number from 0 to 65535 congruent to [x] that is 0 just
    when [x] is. *)
Lemma oc_unique x a k :
  0 <= x -> 0 <= a <= 65535 -> x = a + 65535 * k -> (a = 0 <-> x = 0) -> a = oc x.
Proof.
  intros Hx Ha E Hz. unfold oc. destruct (Z.eqb_spec x 0) as [->|Hn]; [lia|].
  replace (x - 1) with (a - 1 + k * 65535) by lia.
  rewrite Z.mod_add, Z.mod_small by lia. lia.
Qed.

Lemma oc_spec x : 0 <= x -> 0 <= oc x <= 65535 /\ (exists k, x = oc x + 65535 * k) /\ (oc x = 0 <-> x = 0).
Proof.
  intros Hx. unfold oc. destruct (Z.eqb_spec x 0) as [->|Hn].
  - split_and!; try lia. exists 0. lia.
  - pose proof (Z.mod_pos_bound (x - 1) 65535 ltac:(lia)).
    split_and!; try lia. exists ((x - 1) / 65535).
    pose proof (Z.div_mod (x - 1) 65535 ltac:(lia)). lia.
Qed.

Lemma lnot16 x : 0 <= x <= 65535 -> u16 (Z.lnot x) = 65535 - x.
Proof.
  intros Hx. unfold uwrap, Z.lnot. change (2 ^ 16) with 65536.
  symmetry. apply (Z.mod_unique _ _ (-1)); lia.
Qed.

(** The two carries fold a 32-bit sum to 16 bits. *)
Lemma fold16 sum :
  0 <= sum < 2 ^ 32 ->
  let s1 := Z.shiftr sum 16 + Z.land sum 65535 in
  let s2 := s1 + Z.shiftr s1 16 in
  0 <= s1 < 2 ^ 17 /\ 0 <= s2 < 2 ^ 18 /\ u16 (Z.lnot s2) = 65535 - oc sum.
Proof.
  intros Hs s1 s2.
  assert (s1 = sum / 65536 + sum mod 65536) as E1.
  { unfold s1. rewrite Z.shiftr_div_pow2 by lia. change 65535 with (Z.ones 16). by rewrite Z.land_ones by lia. }
  pose proof (Z.div_mod sum 65536 ltac:(lia)). pose proof (Z.mod_pos_bound sum 65536 ltac:(lia)).
  assert (0 <= sum / 65536 < 65536).
  { split; [apply Z.div_pos; lia|apply Z.div_lt_upper_bound; lia]. }
  assert (s2 = if s1 <? 65536 then s1 else s1 + 1) as E2.
  { unfold s2. rewrite Z.shiftr_div_pow2 by lia. change (2 ^ 16) with 65536.
    destruct (Z.ltb_spec s1 65536); [rewrite Z.div_small; lia|].
    rewrite <- (Z.div_unique s1 65536 1 (s1 - 65536)); lia. }
  split_and!; try lia; rewrite E2; destruct (Z.ltb_spec s1 65536); try lia.
  - rewrite lnot16 by lia. f_equal. apply (oc_unique _ _ (sum / 65536)); lia.
  - replace (u16 (Z.lnot (s1 + 1))) with (u16 (Z.lnot (s1 - 65535))).
    + rewrite lnot16 by lia. f_equal. apply (oc_unique _ _ (sum / 65536 + 1)); lia.
    + unfold uwrap, Z.lnot. change (2 ^ 16) with 65536.
      replace (Z.pred (- (s1 - 65535))) with (Z.pred (- (s1 + 1)) + 1 * 65536) by lia.
      by rewrite Z.mod_add by lia.
Qed.

(** [in_cksum] is the complement of the one's complement sum. *)
Lemma in_cksum_oc h bytes :
  Forall byte_ok bytes -> Z.of_nat (length bytes) < 2 ^ 17 ->
  in_cksum h bytes = 65535 - oc (wsum h bytes).
Proof.
  intros Hb Hl. pose proof (wsum_range h bytes Hb). unfold in_cksum, cksum_fold.
  rewrite cksum_loop_wsum by (done || lia). rewrite Z.add_0_l.
  destruct (fold16 (wsum h bytes)) as (H1 & H2 & H3); [lia|].
  cbv zeta in *. set (s1 := Z.shiftr (wsum h bytes) 16 + _) in *.
  rewrite (uwrap_small 32 s1) by lia. by rewrite (uwrap_small 32 (s1 + _)) by lia.
Qed.

Lemma in_cksum_bsdping_oc h bytes :
  Forall byte_ok bytes -> Z.of_nat (length bytes) < 2 ^ 16 ->
  in_cksum_bsdping h bytes = 65535 - oc (wsum h bytes).
Proof.
  intros Hb Hl. pose proof (wsum_range h bytes Hb). unfold in_cksum_bsdping.
  rewrite cksum_loop_int_wsum by (done || lia). rewrite Z.add_0_l.
  destruct (fold16 (wsum h bytes)) as (H1 & H2 & H3); [lia|].
  cbv zeta in *. set (s1 := Z.shiftr (wsum h bytes) 16 + _) in *.
  rewrite (swrap_small 32 s1) by lia. by rewrite (swrap_small 32 (s1 + _)) by lia.
Qed.

Lemma word16_store h w : 0 <= w <= 65535 ->
  exists b0 b1, store16 h w = [b0; b1] /\ word16 h b0 b1 = w /\ byte_ok b0 /\ byte_ok b1.
Proof.
  intros Hw. pose proof (Z.div_mod w 256 ltac:(lia)). pose proof (Z.mod_pos_bound w 256 ltac:(lia)).
  assert (0 <= w / 256 < 256) by (split; [apply Z.div_pos|apply Z.div_lt_upper_bound]; lia).
  destruct h; simpl; eexists _, _; (split; [reflexivity|]); unfold byte_ok; split_and!; simpl; lia.
Qed.

(** A checksum computed over a field of zeros and stored there makes the
    checksum of the whole 0; so does 65535 where the checksum was 0. *)
Lemma cksum_fills h a b c :
  Forall byte_ok (a ++ b) -> Nat.even (length a) = true ->
  Z.of_nat (length (a ++ b)) + 2 < 2 ^ 17 ->
  c = in_cksum h (a ++ [0; 0] ++ b) \/ (in_cksum h (a ++ [0; 0] ++ b) = 0 /\ c = 65535) ->
  in_cksum h (a ++ store16 h c ++ b) = 0.
Proof.
  intros [Ha Hb]%Forall_app He Hl Hc. rewrite length_app in Hl.
  assert (forall x y, byte_ok x -> byte_ok y ->
    in_cksum h (a ++ [x; y] ++ b) = 65535 - oc (wsum h a + wsum h b + word16 h x y)) as Hin.
  { intros x y Hx Hy. rewrite in_cksum_oc.
    - rewrite !wsum_app by done. simpl. do 2 f_equal. lia.
    - rewrite !Forall_app. split_and!; try done. by rewrite !Forall_cons, Forall_nil.
    - rewrite !length_app. simpl. lia. }
  rewrite (Hin 0 0) in Hc by (split; lia).
  pose proof (wsum_range h a Ha). pose proof (wsum_range h b Hb).
  replace (wsum h a + wsum h b + word16 h 0 0) with (wsum h a + wsum h b) in Hc
    by (destruct h; simpl; lia).
  destruct (oc_spec (wsum h a + wsum h b)) as (Hr & [k Hk] & Hz); [lia|].
  assert (0 <= c <= 65535) as Hcr by lia.
  destruct (word16_store h c Hcr) as (b0 & b1 & -> & Hw & Hb0 & Hb1).
  rewrite Hin, Hw by done.
  assert (65535 = oc (wsum h a + wsum h b + c)) as <-; [|lia].
  destruct Hc as [Hc|[Hc1 Hc2]].
  - apply (oc_unique _ _ k); lia.
  - apply (oc_unique _ _ (k + 1)); lia.
Qed.

(** Swapping the bytes of every word multiplies by 256 modulo 65535. *)
Lemma wsum_swap bytes :
  Forall byte_ok bytes ->
  (exists k, wsum BE bytes = 256 * wsum LE bytes - 65535 * k) /\ (wsum BE bytes = 0 <-> wsum LE bytes = 0).
Proof.
  induction bytes as [|b|b0 b1 l IH] using list_ind2; intros Hb; simpl.
  - split; [exists 0|]; lia.
  - split; [exists 0|]; lia.
  - apply Forall_cons in Hb as [Hb0 Hb]. apply Forall_cons in Hb as [Hb1 Hb].
    destruct (IH Hb) as [[k Hk] Hz]. pose proof (wsum_range LE l Hb). pose proof (wsum_range BE l Hb).
    unfold byte_ok in *. split; [exists (k + b1)|]; lia.
Qed.

(** The same bytes are stored on machines of both byte orders. *)
Lemma cksum_byte_order bytes :
  Forall byte_ok bytes -> Z.of_nat (length bytes) < 2 ^ 17 ->
  store16 LE (in_cksum LE bytes) = store16 BE (in_cksum BE bytes).
Proof.
  intros Hb Hl. rewrite !in_cksum_oc by done.
  destruct (wsum_swap bytes Hb) as [[k Hk] Hz0].
  pose proof (wsum_range LE bytes Hb). pose proof (wsum_range BE bytes Hb).
  destruct (oc_spec (wsum LE bytes)) as (Hr & [j Hj] & Hz); [lia|].
  set (x := oc (wsum LE bytes)) in *.
  pose proof (Z.div_mod x 256 ltac:(lia)). pose proof (Z.mod_pos_bound x 256 ltac:(lia)).
  assert (0 <= x / 256 < 256) by (split; [apply Z.div_pos|apply Z.div_lt_upper_bound]; lia).
  rewrite <- (oc_unique (wsum BE bytes) (256 * (x mod 256) + x / 256) (256 * j + x / 256 - k)); [..|lia|lia|lia|lia].
  set (q := x / 256) in *. set (r := x mod 256) in *. simpl.
  replace (65535 - x) with ((255 - q) * 256 + (255 - r)) by lia.
  replace (65535 - (256 * r + q)) with ((255 - r) * 256 + (255 - q)) by lia.
  rewrite !Z.div_add_l, !Z.div_small by lia.
  rewrite !(Z.add_comm (_ * 256)), !Z.mod_add, !Z.mod_small by lia. f_equal; [lia|f_equal; lia].
Qed.

Lemma poke_ok off bs buf : Forall byte_ok bs -> Forall byte_ok buf -> Forall byte_ok (poke off bs buf).
Proof.
  intros Hs Hb. unfold poke. rewrite !Forall_app. split_and!; [by apply Forall_take|done|by apply Forall_drop].
Qed.

Lemma store16_ok h w : 0 <= w <= 65535 -> Forall byte_ok (store16 h w).
Proof. intros Hw. destruct (word16_store h w Hw) as (b0 & b1 & -> & _ & ? & ?). by rewrite !Forall_cons, Forall_nil. Qed.

Lemma in_cksum_range h bytes : 0 <= in_cksum h bytes <= 65535.
Proof.
  unfold in_cksum, cksum_fold. cbv zeta.
  match goal with |- context [uwrap 16 ?x] => pose proof (uwrap_range 16 x ltac:(lia)) end. lia.
Qed.

(** Computing a field's checksum into a buffer at an even offset, over [len]
    bytes in which the field was zeroed. *)
Lemma cksum_poked h len off buf c :
  Forall byte_ok buf -> (off + 2 <= len)%nat -> (len <= length buf)%nat ->
  Nat.even off = true -> Z.of_nat len < 2 ^ 17 ->
  let s := in_cksum h (take len (poke off [0; 0] buf)) in
  c = s \/ (s = 0 /\ c = 65535) ->
  in_cksum h (take len (poke off (store16 h c) buf)) = 0.
Proof.
  intros Hb Hlen Hl He Hlt s Hc.
  assert (length (store16 h c) = 2%nat) as E2 by by destruct h.
  rewrite take_poke by (rewrite ?E2; lia). subst s. rewrite take_poke in Hc by (simpl; lia).
  rewrite E2. simpl length in Hc. apply cksum_fills; [..|done].
  - apply Forall_app; split; [by apply Forall_take|]. by apply Forall_take, Forall_drop.
  - by rewrite length_take, Nat.min_l by lia.
  - rewrite length_app, !length_take, length_drop. lia.
Qed.

(** ** ICMP echo *)

Lemma le_bytes_ok n z : Forall byte_ok (le_bytes n z).
Proof.
  revert z. induction n as [|n IH]; intros z; simpl; [by constructor|].
  apply Forall_cons; split; [|apply IH]. apply Z.mod_pos_bound. lia.
Qed.

Lemma le_bytes_length n z : length (le_bytes n z) = n.
Proof. revert z. induction n as [|n IH]; intros z; simpl; [done|]. by rewrite IH. Qed.

Lemma le_value_bytes n z : 0 <= z < 2 ^ (8 * Z.of_nat n) -> le_value (le_bytes n z) = z.
Proof.
  revert z. induction n as [|n IH]; intros z Hz; [simpl in *; lia|].
  replace (8 * Z.of_nat (S n)) with (8 + 8 * Z.of_nat n) in Hz by lia.
  rewrite Z.pow_add_r in Hz by lia. change (2 ^ 8) with 256 in Hz. cbn [le_bytes le_value].
  pose proof (Z.div_mod z 256 ltac:(lia)).
  rewrite IH by (split; [apply Z.div_pos|apply Z.div_lt_upper_bound]; lia). lia.
Qed.

(** A [long] of 64 bits. *)
Definition is_long (z : Z) : Prop := - 2 ^ 63 <= z < 2 ^ 63.

Lemma load_store64 h z : is_long z -> load64 h (store64 h z) = z.
Proof.
  intros Hz. unfold load64, store64.
  assert (le_value (le_bytes 8 (u64 z)) = u64 z) as E.
  { apply le_value_bytes. apply uwrap_range. lia. }
  assert (s64 (u64 z) = z) as E'.
  { unfold is_long in Hz. unfold swrap, uwrap. rewrite Z.add_mod_idemp_l by lia.
    apply (swrap_small 64); lia. }
  destruct h; rewrite ?rev_involutive, E; done.
Qed.

Lemma store64_length h z : length (store64 h z) = 8%nat.
Proof. unfold store64. destruct h; rewrite ?length_rev; apply le_bytes_length. Qed.

Lemma store64_ok h z : Forall byte_ok (store64 h z).
Proof. unfold store64. destruct h; [|apply Forall_rev]; apply le_bytes_ok. Qed.

Definition is_timeval (tv : timeval) : Prop := is_long (tv_sec tv) /\ is_long (tv_usec tv).

Lemma store_timeval_length h tv : length (store_timeval h tv) = 16%nat.
Proof. unfold store_timeval. by rewrite length_app, !store64_length. Qed.

Lemma load_store_timeval h tv rest :
  is_timeval tv -> load_timeval h (store_timeval h tv ++ rest) = tv.
Proof.
  intros [H1 H2]. unfold load_timeval, store_timeval. rewrite <- !app_assoc.
  rewrite (take_app_length' _ _ 8), (drop_app_length' _ _ 8) by (by rewrite store64_length).
  rewrite (take_app_length' _ _ 8) by (by rewrite store64_length). rewrite !load_store64 by done. by destruct tv.
Qed.

(** Subtracting times that are in order gives the microseconds between them, in
    normal form. *)
Definition usecs (tv : timeval) : Z := 1000000 * tv_sec tv + tv_usec tv.
Definition usec_ok (tv : timeval) : Prop := 0 <= tv_usec tv < 1000000.

Lemma tv_sub_usecs out inn :
  usec_ok out -> usec_ok inn ->
  usecs (tv_sub out inn) = usecs out - usecs inn /\ usec_ok (tv_sub out inn).
Proof.
  unfold usec_ok, usecs, tv_sub. intros H1 H2.
  destruct (Z.ltb_spec (tv_usec out - tv_usec inn) 0); simpl; lia.
Qed.

(** The buffer before the checksum is stored; its header fields. *)
Definition icmp_fields (h : endian) (sendbuf : list Z) (pid nsent : Z) (datalen : nat) (now : timeval)
    : list Z :=
  poke 8 (store_timeval h now) (poke 8 (replicate datalen 165)
    (poke 6 (store16 h (u16 nsent)) (poke 4 (store16 h (u16 pid)) (poke 1 [0] (poke 0 [ICMP_ECHO] sendbuf))))).

Lemma icmp_fields_length h sendbuf pid nsent datalen now :
  (8 + Nat.max datalen 16 <= length sendbuf)%nat ->
  length (icmp_fields h sendbuf pid nsent datalen now) = length sendbuf.
Proof.
  intros Hl. unfold icmp_fields.
  assert (forall w, length (store16 h w) = 2%nat) as H2 by by destruct h.
  repeat (apply poke_length_n;
    [rewrite ?length_replicate, ?store_timeval_length, ?H2; simpl length; lia|]).
  done.
Qed.

Lemma icmp_fields_ok h sendbuf pid nsent datalen now :
  Forall byte_ok sendbuf -> Forall byte_ok (icmp_fields h sendbuf pid nsent datalen now).
Proof.
  intros Hb. unfold icmp_fields.
  pose proof (uwrap_range 16 pid ltac:(lia)). pose proof (uwrap_range 16 nsent ltac:(lia)).
  repeat apply poke_ok; try done; try (apply store16_ok; lia).
  - apply Forall_app; split; apply store64_ok.
  - apply Forall_replicate. split; lia.
  - repeat constructor; done.
  - repeat constructor; done.
Qed.

Lemma send_v4_sent h sendbuf pid nsent datalen now :
  (8 + Nat.max datalen 16 <= length sendbuf)%nat ->
  let X := icmp_fields h sendbuf pid nsent datalen now in
  send_v4 h sendbuf pid nsent datalen now =
  (poke 2 (store16 h (in_cksum h (take (8 + datalen) (poke 2 [0; 0] X)))) X, (8 + datalen)%nat, s32 (nsent + 1)).
Proof.
  intros Hl X. unfold send_v4, icmp_echo. fold (icmp_fields h sendbuf pid nsent datalen now). fold X.
  rewrite poke_poke; [done|by destruct h|]. subst X. rewrite icmp_fields_length by done. lia.
Qed.

Lemma send_v4_verifies h sendbuf pid nsent datalen now :
  Forall byte_ok sendbuf -> (8 + Nat.max datalen 16 <= length sendbuf)%nat ->
  Z.of_nat datalen < 2 ^ 16 ->
  in_cksum h (take (8 + datalen) (send_v4 h sendbuf pid nsent datalen now).1.1) = 0.
Proof.
  intros Hb Hl Hd. rewrite send_v4_sent by done. simpl fst. apply cksum_poked;
    [by apply icmp_fields_ok|lia|rewrite icmp_fields_length by done; lia|done|lia|by left].
Qed.

(** ** UDP datagrams *)

Definition sockaddr_ok (sa : sockaddr_in) : Prop :=
  Forall byte_ok (sin_addr sa) /\ length (sin_addr sa) = 4%nat /\
  Forall byte_ok (sin_port sa) /\ length (sin_port sa) = 2%nat.

(** What a receiver sums: the pseudo-header it builds from the IP header of the
    packet, and the datagram behind it. *)
Definition udp_received (pkt : list Z) : list Z :=
  replicate 9 0 ++ [peek pkt 9] ++ take 2 (drop 24 pkt) ++ take 8 (drop 12 pkt) ++ drop 20 pkt.

(** The header [udp_pseudo] builds. *)
Lemma udp_pseudo_header local dest buf userlen :
  sockaddr_ok local -> sockaddr_ok dest ->
  let ul := net16 (u16 (8 + userlen)) in
  udp_pseudo local dest buf userlen =
  replicate 9 0 ++ [17] ++ ul ++ sin_addr local ++ sin_addr dest ++ sin_port local ++ sin_port dest ++
  ul ++ [0; 0] ++ drop 28 buf.
Proof.
  intros (_ & L1 & _ & L2) (_ & D1 & _ & D2). cbv zeta.
  destruct (sin_addr local) as [|a0 [|a1 [|a2 [|a3 [|]]]]] eqn:E1; try done.
  destruct (sin_addr dest) as [|d0 [|d1 [|d2 [|d3 [|]]]]] eqn:E2; try done.
  destruct (sin_port local) as [|p0 [|p1 [|]]] eqn:E3; try done.
  destruct (sin_port dest) as [|q0 [|q1 [|]]] eqn:E4; try done.
  unfold udp_pseudo. rewrite E1, E2, E3, E4. unfold poke, net16, sizeof_udpiphdr, sizeof_udphdr.
  simpl. reflexivity.
Qed.

Lemma net16_bytes w : exists b0 b1, net16 w = [b0; b1].
Proof. unfold net16; simpl. eauto. Qed.

(** The receiver sums exactly what the sender did, with the checksum in its
    place: the fields written over the pseudo-header do not matter to it. *)
Lemma udp_write_received h local dest buf userlen :
  sockaddr_ok local -> sockaddr_ok dest -> (28 + userlen <= length buf)%nat ->
  let ui := udp_pseudo local dest buf (Z.of_nat userlen) in
  udp_received (udp_write h false local dest buf userlen) =
  take (userlen + 28) (udp_sum h false ui (userlen + 28)) /\ ui = poke 26 [0; 0] ui.
Proof.
  intros Hl Hd Hb ui. unfold udp_write. fold ui. unfold sizeof_udpiphdr.
  assert (ui = _) as Hui by by apply udp_pseudo_header. unfold udp_sum.
  generalize (if in_cksum h (take (userlen + 28) ui) =? 0 then 65535 else in_cksum h (take (userlen + 28) ui)).
  intros c. assert (exists s0 s1, store16 h c = [s0; s1]) as (s0 & s1 & ->) by (destruct h; simpl; eauto).
  destruct Hl as (_ & L1 & _ & L2), Hd as (_ & D1 & _ & D2).
  destruct (sin_addr local) as [|a0 [|a1 [|a2 [|a3 [|]]]]]; try done.
  destruct (sin_addr dest) as [|d0 [|d1 [|d2 [|d3 [|]]]]]; try done.
  destruct (sin_port local) as [|p0 [|p1 [|]]]; try done.
  destruct (sin_port dest) as [|q0 [|q1 [|]]]; try done.
  destruct (net16_bytes (u16 (8 + Z.of_nat userlen))) as (u0 & u1 & Eu). rewrite Eu in Hui.
  unfold udp_ip_header. destruct (net16_bytes (u16 (Z.of_nat (userlen + 28)))) as (l0 & l1 & ->).
  rewrite Hui, (Nat.add_comm userlen 28). unfold udp_received, poke, peek. simpl. split; done.
Qed.

Lemma udp_pseudo_ok local dest buf userlen :
  sockaddr_ok local -> sockaddr_ok dest -> Forall byte_ok buf ->
  Forall byte_ok (udp_pseudo local dest buf userlen).
Proof.
  intros Hl Hd Hb. rewrite udp_pseudo_header by done.
  destruct Hl as (L1 & _ & L2 & _), Hd as (D1 & _ & D2 & _).
  pose proof (uwrap_range 16 (8 + userlen) ltac:(lia)).
  assert (Forall byte_ok (net16 (u16 (8 + userlen)))) by (apply store16_ok; lia).
  rewrite !Forall_app. split_and!; try done; [| | |by apply Forall_drop];
    repeat (apply Forall_cons; split; [split; lia|]); by apply Forall_nil_2.
Qed.

Lemma udp_write_verifies h local dest buf userlen :
  sockaddr_ok local -> sockaddr_ok dest -> Forall byte_ok buf ->
  (28 + userlen <= length buf)%nat -> Z.of_nat userlen < 2 ^ 16 ->
  in_cksum h (udp_received (udp_write h false local dest buf userlen)) = 0.
Proof.
  intros Hl Hd Hb Hlen Hu.
  destruct (udp_write_received h local dest buf userlen Hl Hd Hlen) as [-> Hz].
  set (ui := udp_pseudo local dest buf (Z.of_nat userlen)) in *.
  assert (length ui = length buf) as Hui.
  { unfold ui. rewrite udp_pseudo_header by done. destruct Hl as (_ & L1 & _ & L2), Hd as (_ & D1 & _ & D2).
    rewrite !length_app, L1, L2, D1, D2, length_drop. simpl. lia. }
  unfold udp_sum. apply cksum_poked; [by apply udp_pseudo_ok|lia|lia|done|lia|].
  rewrite <- Hz. destruct (Z.eqb_spec (in_cksum h (take (userlen + 28) ui)) 0); auto.
Qed.

(** ** The theorems *)

(** C14: Every ICMP echo request [send_v4] builds and every datagram [udp_write]
    builds with a checksum verifies: summed as its receiver sums it (with the
    pseudo-header, for UDP) [in_cksum] gives 0.  The bytes [in_cksum] makes a
    packet carry do not depend on the byte order of the machine, and the version
    of [bsdping.c], with its signed accumulator, computes the same. *)
Theorem checksums_verify h sendbuf pid nsent datalen now local dest buf userlen bytes :
  Forall byte_ok sendbuf -> (8 + Nat.max datalen 16 <= length sendbuf)%nat ->
  Z.of_nat datalen < 2 ^ 16 ->
  sockaddr_ok local -> sockaddr_ok dest -> Forall byte_ok buf ->
  (28 + userlen <= length buf)%nat -> Z.of_nat userlen < 2 ^ 16 ->
  Forall byte_ok bytes -> Z.of_nat (length bytes) < 2 ^ 16 ->
  in_cksum h (take (8 + datalen) (send_v4 h sendbuf pid nsent datalen now).1.1) = 0 /\
  in_cksum h (udp_received (udp_write h false local dest buf userlen)) = 0 /\
  store16 LE (in_cksum LE bytes) = store16 BE (in_cksum BE bytes) /\
  in_cksum_bsdping h bytes = in_cksum h bytes.
Proof.
  intros. split_and!.
  - by apply send_v4_verifies.
  - by apply udp_write_verifies.
  - apply cksum_byte_order; [done|lia].
  - rewrite in_cksum_bsdping_oc, in_cksum_oc by (done || lia). done.
Qed.

Definition local_ex : sockaddr_in := SockaddrIn [192; 168; 1; 10] [48; 57].
Definition dest_ex : sockaddr_in := SockaddrIn [198; 41; 0; 4] [0; 53].

Lemma checksums_verify_witness :
  in_cksum LE (take 64 (send_v4 LE (replicate 1500 0) 4711 3 56 (Timeval 1000 77)).1.1) = 0 /\
  in_cksum LE (udp_received (send_dns_query LE false local_ex dest_ex (replicate 128 170))) = 0 /\
  store16 LE (in_cksum LE [69; 0; 7]) = store16 BE (in_cksum BE [69; 0; 7]) /\
  in_cksum_bsdping LE [69; 0; 7] = in_cksum LE [69; 0; 7].
Proof.
  apply (checksums_verify LE (replicate 1500 0) 4711 3 56 (Timeval 1000 77) local_ex dest_ex
    (poke sizeof_udpiphdr dns_query (replicate 128 170)) (length dns_query) [69; 0; 7]).
  all: try (apply Forall_replicate; split; lia).
  all: try (rewrite length_replicate; lia).
  all: try lia.
  all: try (split_and!; try done; repeat (apply Forall_cons; split; [split; lia|]); by apply Forall_nil_2).
  - apply poke_ok; [|apply Forall_replicate; split; lia].
    repeat (apply Forall_cons; split; [vm_compute; split; [intro; discriminate|reflexivity]|]); by apply Forall_nil_2.
  - vm_compute. lia.
  - vm_compute. reflexivity.
  - repeat (apply Forall_cons; split; [split; lia|]); by apply Forall_nil_2.
  - simpl; lia.
Defined.

(** The layout of the request. *)
Lemma icmp_fields_shape h sendbuf pid nsent datalen now :
  (8 + Nat.max datalen 16 <= length sendbuf)%nat ->
  exists x2 x3 tail, icmp_fields h sendbuf pid nsent datalen now =
  [ICMP_ECHO; 0; x2; x3] ++ store16 h (u16 pid) ++ store16 h (u16 nsent) ++ store_timeval h now ++ tail.
Proof.
  intros Hl. destruct sendbuf as [|x0 [|x1 [|x2 [|x3 [|x4 [|x5 [|x6 [|x7 r]]]]]]]]; try (simpl in Hl; lia).
  unfold icmp_fields.
  destruct (store16 h (u16 pid)) as [|i0 [|i1 [|]]] eqn:Ei; try (by destruct h).
  destruct (store16 h (u16 nsent)) as [|n0 [|n1 [|]]] eqn:En; try (by destruct h).
  exists x2, x3. unfold poke. rewrite store_timeval_length. simpl. eauto.
Qed.

Lemma peek16_at h (a b : list Z) w :
  0 <= w <= 65535 -> peek16 h (a ++ store16 h w ++ b) (length a) = w.
Proof.
  intros Hw. destruct (word16_store h w Hw) as (b0 & b1 & -> & E & _). unfold peek16, peek.
  rewrite !(app_nth2 a) by lia. replace (length a + 1 - length a)%nat with 1%nat by lia. rewrite Nat.sub_diag. exact E.
Qed.

Lemma icmp_fields_read h t c ck w1 w2 more :
  length ck = 2%nat -> 0 <= w1 <= 65535 -> 0 <= w2 <= 65535 ->
  let l := [t; c] ++ ck ++ store16 h w1 ++ store16 h w2 ++ more in
  peek l 0 = t /\ peek16 h l 4 = w1 /\ peek16 h l 6 = w2 /\ drop 8 l = more.
Proof.
  intros Hck H1 H2. destruct ck as [|k0 [|k1 [|]]]; try done. cbv zeta. split_and!.
  - done.
  - apply (peek16_at h [t; c; k0; k1]). done.
  - destruct (word16_store h w1 H1) as (b0 & b1 & -> & _).
    apply (peek16_at h [t; c; k0; k1; b0; b1]). done.
  - destruct (word16_store h w1 H1) as (b0 & b1 & -> & _).
    by destruct (word16_store h w2 H2) as (b2 & b3 & -> & _).
Qed.

(** An echo reply that carries back what [send_v4] sent (type and checksum
    of a reply, any IP header in front, any bytes of the receive buffer behind)
    is recognised by [proc_v4]: it prints the length, the sequence number sent,
    the TTL and the time between the two [gettimeofday] calls, exact to the
    microsecond.  A process with another identifier prints nothing for it. *)
Theorem ping_echo_roundtrip h verbose sendbuf pid nsent datalen now hdr ihl ck rest tvrecv :
  (8 + datalen <= length sendbuf)%nat -> (16 <= datalen)%nat -> 0 <= pid < 2 ^ 16 ->
  is_timeval now -> 5 <= ihl <= 15 -> length hdr = Z.to_nat (4 * ihl) ->
  peek hdr 0 = 64 + ihl -> peek hdr 9 = IPPROTO_ICMP -> length ck = 2%nat ->
  let sent := take (8 + datalen) (send_v4 h sendbuf pid nsent datalen now).1.1 in
  let reply := poke 2 ck (poke 0 [ICMP_ECHOREPLY] sent) in
  let len := 4 * ihl + 8 + Z.of_nat datalen in
  let elapsed := tv_sub tvrecv now in
  proc_v4 h verbose pid (hdr ++ reply ++ rest) len tvrecv =
    Some (PingReply (8 + Z.of_nat datalen) (u16 nsent) (peek hdr 8) elapsed) /\
  (forall pid', pid' <> pid -> proc_v4 h verbose pid' (hdr ++ reply ++ rest) len tvrecv = None) /\
  (usec_ok now -> usec_ok tvrecv -> usecs elapsed = usecs tvrecv - usecs now /\ usec_ok elapsed).
Proof.
  intros Hb Hd Hp Hn Hi Hl H0 H9 Hck sent reply len elapsed.
  assert (exists tail, reply = [0; 0] ++ ck ++ store16 h pid ++ store16 h (u16 nsent) ++
            store_timeval h now ++ tail) as [tail Hr].
  { unfold reply, sent. rewrite send_v4_sent by lia. simpl fst.
    destruct (icmp_fields_shape h sendbuf pid nsent datalen now ltac:(lia)) as (x2 & x3 & tail & ->).
    rewrite (uwrap_small 16 pid) by done.
    match goal with |- context [store16 h (in_cksum h ?x)] => generalize (in_cksum h x) end. intros c.
    destruct (store16 h c) as [|c0 [|c1 [|]]] eqn:Ec; try (by destruct h).
    destruct (store16 h pid) as [|i0 [|i1 [|]]] eqn:Ei; try (by destruct h).
    destruct (store16 h (u16 nsent)) as [|n0 [|n1 [|]]] eqn:En; try (by destruct h).
    destruct ck as [|k0 [|k1 [|]]]; try done. unfold poke. simpl.
    rewrite take_app_ge by (rewrite store_timeval_length; lia). eauto. }
  assert (forall k, (k < 20)%nat -> peek (hdr ++ reply ++ rest) k = peek hdr k) as Hpk.
  { intros k Hk. unfold peek. apply app_nth1. lia. }
  assert (Z.land (64 + ihl) 15 = ihl) as El.
  { change 15 with (Z.ones 4). rewrite Z.land_ones by lia. change (64 + ihl) with (4 * 2 ^ 4 + ihl).
    rewrite Z.add_comm, Z.mod_add, Z.mod_small; lia. }
  pose proof (uwrap_range 16 nsent ltac:(lia)).
  assert (forall q, proc_v4 h verbose q (hdr ++ reply ++ rest) len tvrecv =
    if negb (pid =? q) then None
    else Some (PingReply (8 + Z.of_nat datalen) (u16 nsent) (peek hdr 8) elapsed)) as Hproc.
  { intros q. unfold proc_v4. rewrite !Hpk by lia. rewrite H0, H9, El. cbn [negb].
    rewrite Z.eqb_refl. cbn [negb]. rewrite (drop_app_length' hdr) by lia.
    replace (len - Z.of_nat (Z.to_nat (ihl * 4))) with (8 + Z.of_nat datalen) by lia.
    destruct (Z.ltb_spec (8 + Z.of_nat datalen) 8); [lia|].
    destruct (Z.ltb_spec (8 + Z.of_nat datalen) 16); [lia|].
    rewrite Hr, <- !app_assoc.
    destruct (icmp_fields_read h 0 0 ck pid (u16 nsent) (store_timeval h now ++ tail ++ rest))
      as (-> & -> & -> & ->); [done|lia|lia|].
    by rewrite load_store_timeval. }
  split_and!.
  - by rewrite Hproc, Z.eqb_refl.
  - intros q Hq. rewrite Hproc. destruct (Z.eqb_spec pid q); [congruence|done].
  - intros. by apply tv_sub_usecs.
Qed.

Lemma ping_echo_roundtrip_witness :
  let sent := take 64 (send_v4 LE (replicate 1500 0) 4711 3 56 (Timeval 1000 999990)).1.1 in
  let hdr := [69; 0; 0; 84; 0; 0; 0; 0; 57; 1; 0; 0; 10; 0; 0; 1; 10; 0; 0; 2] in
  proc_v4 LE false 4711 (hdr ++ poke 2 [1; 2] (poke 0 [0] sent) ++ []) 84 (Timeval 1001 10) =
  Some (PingReply 64 3 57 (Timeval 0 20)).
Proof.
  intros sent hdr.
  refine (proj1 (ping_echo_roundtrip LE false (replicate 1500 0) 4711 3 56 (Timeval 1000 999990) hdr 5 [1; 2] []
    (Timeval 1001 10) _ _ _ _ _ _ _ _ _)); try reflexivity; try lia.
  - rewrite length_replicate. lia.
  - split; split; simpl; lia.
Defined.

(** The test for 16 bytes lets replies through whose 16 bytes of time stamp end
    8 bytes behind the packet: what is printed for them depends on the old
    contents of the receive buffer. *)
Example proc_v4_short_reply :
  let hdr := [69; 0; 0; 36; 0; 0; 0; 0; 57; 1; 0; 0; 10; 0; 0; 1; 10; 0; 0; 2] in
  let icmp := [0; 0; 0; 0; 103; 18; 3; 0; 232; 3; 0; 0; 0; 0; 0; 0] in
  proc_v4 LE false 4711 (hdr ++ icmp ++ [10; 0; 0; 0; 0; 0; 0; 0]) 36 (Timeval 1001 10) =
    Some (PingReply 16 3 57 (Timeval 1 0)) /\
  proc_v4 LE false 4711 (hdr ++ icmp ++ [9; 0; 0; 0; 0; 0; 0; 0]) 36 (Timeval 1001 10) =
    Some (PingReply 16 3 57 (Timeval 1 1)).
Proof. split; vm_compute; reflexivity. Qed.
