(* ===== verification/Gai.v ===== *)
(** * getaddrinfo and getnameinfo: [unixNetV1/libgai]

    The library's own implementation, as configured with IPv4, IPv6 and Unix
    domain sockets.  The resolver ([gethostbyname], [gethostbyname2],
    [gethostbyaddr], [getservbyname], [getservbyport]) and [uname] are parameters;
    [inet_pton] and [inet_ntop] are those of [Inet].

    Memory is accounted for: a [heap] knows the blocks that are allocated, each
    allocation may fail (the parameter [fails] says which do), and a [free] of
    a block that is not allocated is recorded.  A linked list of [addrinfo]
    structures is the list of its elements, each with the blocks it owns.  Ports
    are given by their value, [ntohs] of the stored field. *)
From S2P Require Import Prelude Inet.

(** ** [addrinfo.h], [gai_hdr.h] *)

Definition AF_UNSPEC : Z := 0.
Definition AF_LOCAL : Z := 1.
Definition SOCK_STREAM : Z := 1.
Definition SOCK_DGRAM : Z := 2.
Definition SOCK_RAW : Z := 3.

Definition AI_PASSIVE : Z := 1.
Definition AI_CANONNAME : Z := 2.
Definition AI_CLONE : Z := 4.

Definition NI_NOFQDN : Z := 1.
Definition NI_NUMERICHOST : Z := 2.
Definition NI_NAMEREQD : Z := 4.
Definition NI_NUMERICSERV : Z := 8.
Definition NI_DGRAM : Z := 16.

(** The [EAI_xxx] values. *)
Inductive eai :=
| EAI_ADDRFAMILY | EAI_AGAIN | EAI_BADFLAGS | EAI_FAIL | EAI_FAMILY | EAI_MEMORY
| EAI_NODATA | EAI_NONAME | EAI_SERVICE | EAI_SOCKTYPE | EAI_SYSTEM.

#[export] Instance eai_eq_dec : EqDecision eai.
Proof. solve_decision. Defined.

(** [gai_strerror] *)
Definition gai_strerror (e : option eai) : string :=
  match e with
  | Some EAI_ADDRFAMILY => "address family for host not supported"
  | Some EAI_AGAIN => "temporary failure in name resolution"
  | Some EAI_BADFLAGS => "invalid flags value"
  | Some EAI_FAIL => "non-recoverable failure in name resolution"
  | Some EAI_FAMILY => "address family not supported"
  | Some EAI_MEMORY => "memory allocation failure"
  | Some EAI_NODATA => "no address associated with host"
  | Some EAI_NONAME => "host nor service provided, or not known"
  | Some EAI_SERVICE => "service not supported for socket type"
  | Some EAI_SOCKTYPE => "socket type not supported"
  | Some EAI_SYSTEM => "system error"
  | None => "unknown getaddrinfo() error"
  end.

(** Socket address structures; [Snone] is a block of no bytes. *)
Inductive sockaddr :=
| Sin (port : Z) (addr : list Z)
| Sin6 (port : Z) (addr : list Z)
| Sun (path : list Z)
| Snone.

(** The caller's hints; the other fields of the structure are not read. *)
Record hints := Hints { h_flags : Z; h_family : Z; h_socktype : Z; h_protocol : Z }.

Definition hints0 : hints := Hints 0 AF_UNSPEC 0 0.

(** An [addrinfo] in block [ai_id]; the pointers with the blocks they point to. *)
Record addrinfo := AddrInfo {
  ai_id : nat; ai_flags : Z; ai_family : Z; ai_socktype : Z; ai_protocol : Z;
  ai_addrlen : Z; ai_canonname : option (nat * list Z); ai_addr : option (nat * sockaddr) }.

(** ** Memory *)

(** The allocated blocks, the number of allocations tried, whether a block was
    freed that is not allocated, and the paths given to [unlink]. *)
Record heap := Heap { live : gset nat; nalloc : nat; bad_free : bool; unlinked : list (list Z) }.

Definition free (b : nat) (h : heap) : heap :=
  if bool_decide (b ∈ live h) then Heap (live h ∖ {[b]}) (nalloc h) (bad_free h) (unlinked h)
  else Heap (live h) (nalloc h) true (unlinked h).

(** The blocks an [addrinfo] owns. *)
Definition blocks (ai : addrinfo) : list nat :=
  ai_id ai :: option_list (fst <$> ai_addr ai) ++ option_list (fst <$> ai_canonname ai).

Definition list_blocks (l : list addrinfo) : list nat := concat (blocks <$> l).

(** [freeaddrinfo] *)
Fixpoint freeaddrinfo (l : list addrinfo) (h : heap) : heap :=
  match l with
  | [] => h
  | ai :: l' =>
      let h := match ai_addr ai with Some (b, _) => free b h | None => h end in
      let h := match ai_canonname ai with Some (b, _) => free b h | None => h end in
      freeaddrinfo l' (free (ai_id ai) h)
  end.

(** ** Strings *)

(** [atoi] of a string that starts with a digit, as the C library computes it: the
    value of the digits as a [long] (at most its maximum), converted to [int]. *)
Fixpoint digits_value (s : list Z) (acc : Z) : Z :=
  match s with
  | c :: s' => if (48 <=? c) && (c <=? 57) then digits_value s' (acc * 10 + (c - 48)) else acc
  | [] => acc
  end.

Definition atoi (s : list Z) : Z := s32 (Z.min (digits_value s 0) (2 ^ 63 - 1)).

Definition isdigit (c : Z) : bool := (48 <=? c) && (c <=? 57).
Definition isxdigit (c : Z) : bool :=
  isdigit c || ((97 <=? c) && (c <=? 102)) || ((65 <=? c) && (c <=? 70)).

(** [s == NULL || s[0] == '\0'] *)
Definition absent (s : option (list Z)) : bool :=
  match s with None | Some [] => true | Some (_ :: _) => false end.

Definition str_local : list Z := codes "/local".
Definition str_unix : list Z := codes "/unix".
Definition str_any4 : list Z := codes "0.0.0.0".
Definition str_any6 : list Z := codes "0::0".
Definition str_localhost : list Z := codes "localhost".
Definition str_loop6 : list Z := codes "0::1".

Definition str_eqb (a b : list Z) : bool := bool_decide (a = b).

(** ** The functions without memory *)

(** [ga_echeck]: [None] is 0. *)
Definition ga_echeck (hostname servname : option (list Z)) (flags family socktype : Z) : option eai :=
  if negb (Z.ldiff flags (Z.lor AI_PASSIVE AI_CANONNAME) =? 0) then Some EAI_BADFLAGS
  else if absent hostname && absent servname then Some EAI_NONAME
  else if family =? AF_UNSPEC then None
  else if (family =? AF_INET) || (family =? AF_INET6) then
    if negb (socktype =? 0) &&
       (negb (socktype =? SOCK_STREAM) && negb (socktype =? SOCK_DGRAM) && negb (socktype =? SOCK_RAW))
    then Some EAI_SOCKTYPE else None
  else if family =? AF_LOCAL then
    if negb (socktype =? 0) && (negb (socktype =? SOCK_STREAM) && negb (socktype =? SOCK_DGRAM))
    then Some EAI_SOCKTYPE else None
  else Some EAI_FAMILY.

(** [struct search] *)
Record search := Search { s_host : list Z; s_family : Z }.

(** What the switch on the family puts into [search]. *)
Definition nsearch_switch (family : Z) (host6 host4 : list Z) : list search :=
  if family =? AF_INET then [Search host4 AF_INET]
  else if family =? AF_INET6 then [Search host6 AF_INET6]
  else if family =? AF_UNSPEC then [Search host6 AF_INET6; Search host4 AF_INET]
  else [].

(** [ga_nsearch]: [None] is [err_quit]. *)
Definition ga_nsearch (hostname : option (list Z)) (hi : hints) : option (list search) :=
  let l := match hostname with
           | None | Some [] =>
               if has_flag (h_flags hi) AI_PASSIVE
               then nsearch_switch (h_family hi) str_any6 str_any4
               else nsearch_switch (h_family hi) str_loop6 str_localhost
           | Some host => nsearch_switch (h_family hi) host host
           end in
  if (length l <? 1)%nat || (2 <? length l)%nat then None else Some l.

(** ** The functions that allocate *)

Section Gai.

(** Which allocations fail. *)
Variable fails : nat -> bool.

(** [malloc], [calloc], [strdup] *)
Definition alloc (h : heap) : option nat * heap :=
  if fails (nalloc h) then (None, Heap (live h) (S (nalloc h)) (bad_free h) (unlinked h))
  else (Some (nalloc h), Heap (live h ∪ {[nalloc h]}) (S (nalloc h)) (bad_free h) (unlinked h)).

Definition sizeof_sockaddr_in : Z := 16.
Definition sizeof_sockaddr_in6 : Z := 28.
Definition sizeof_sockaddr_un : Z := 110.
Definition sizeof_sun_path : Z := 108.

(** [ga_aistruct]: the structure it appends to the list, if it gets that far, and
    its result. *)
Definition ga_aistruct (hi : hints) (addr : list Z) (family : Z) (h : heap)
    : option addrinfo * option eai * heap :=
  match alloc h with
  | (None, h) => (None, Some EAI_MEMORY, h)
  | (Some id, h) =>
      let flags := if h_socktype hi =? 0 then AI_CLONE else 0 in
      let ai len a := AddrInfo id flags family (h_socktype hi) (h_protocol hi) len None a in
      let fill len sa h :=
        match alloc h with
        | (None, h) => (Some (ai 0 None), Some EAI_MEMORY, h)
        | (Some b, h) => (Some (ai len (Some (b, sa))), None, h)
        end in
      if family =? AF_INET then fill sizeof_sockaddr_in (Sin 0 (take 4 addr)) h
      else if family =? AF_INET6 then fill sizeof_sockaddr_in6 (Sin6 0 (take 16 addr)) h
      else if family =? AF_LOCAL then
        if Z.of_nat (length addr) >=? sizeof_sun_path then (Some (ai 0 None), Some EAI_SERVICE, h)
        else
          match fill sizeof_sockaddr_un (Sun addr) h with
          | (a, None, h) =>
              (a, None, if has_flag (h_flags hi) AI_PASSIVE
                        then Heap (live h) (nalloc h) (bad_free h) (unlinked h ++ [addr]) else h)
          | r => r
          end
      else (Some (ai 0 None), None, h)
  end.

(** [ga_clone]: the new structure, linked behind [ai], and whether the function
    returned it rather than [NULL]. *)
Definition ga_clone (ai : addrinfo) (h : heap) : option (addrinfo * bool) * heap :=
  match alloc h with
  | (None, h) => (None, h)
  | (Some id, h) =>
      let new a := AddrInfo id 0 (ai_family ai) (ai_socktype ai) (ai_protocol ai) (ai_addrlen ai) None a in
      match alloc h with
      | (None, h) => (Some (new None, false), h)
      | (Some b, h) => (Some (new (Some (b, match ai_addr ai with Some (_, sa) => sa | None => Snone end)), true), h)
      end
  end.

(** Storing a port in the socket address, where the family has one. *)
Definition set_port (port : Z) (sa : sockaddr) : sockaddr :=
  match sa with
  | Sin _ a => Sin (u16 port) a
  | Sin6 _ a => Sin6 (u16 port) a
  | _ => sa
  end.

(** The last part of [ga_port]'s loop: socket type and port of one structure, and
    what it adds to [nfound]. *)
Definition fill_port (port socktype : Z) (ai : addrinfo) : addrinfo * Z :=
  let has_port := (ai_family ai =? AF_INET) || (ai_family ai =? AF_INET6) in
  (AddrInfo (ai_id ai) (ai_flags ai) (ai_family ai) socktype (ai_protocol ai) (ai_addrlen ai)
     (ai_canonname ai)
     (if has_port then match ai_addr ai with Some (b, sa) => Some (b, set_port port sa) | None => None end
      else ai_addr ai),
   if has_port then 1 else 0).

(** [ga_port]: the list, and [nfound] or [None] for -1. *)
Fixpoint ga_port (l : list addrinfo) (port socktype : Z) (h : heap) : list addrinfo * option Z * heap :=
  match l with
  | [] => ([], Some 0, h)
  | ai :: l' =>
      if has_flag (ai_flags ai) AI_CLONE then
        if negb (ai_socktype ai =? 0) then
          match ga_clone ai h with
          | (None, h) => (l, None, h)
          | (Some (new, false), h) => (ai :: new :: l', None, h)
          | (Some (new, true), h) =>
              let '(new', k) := fill_port port socktype new in
              let '(r, n, h) := ga_port l' port socktype h in
              (ai :: new' :: r, (fun n => n + k) <$> n, h)
          end
        else
          let '(ai', k) := fill_port port socktype ai in
          let '(r, n, h) := ga_port l' port socktype h in
          (ai' :: r, (fun n => n + k) <$> n, h)
      else if negb (ai_socktype ai =? socktype) then
        let '(r, n, h) := ga_port l' port socktype h in (ai :: r, n, h)
      else
        let '(ai', k) := fill_port port socktype ai in
        let '(r, n, h) := ga_port l' port socktype h in
        (ai' :: r, (fun n => n + k) <$> n, h)
  end.

(** ** [ga_serv] *)

(** [getservbyname]: the port of a service for TCP or for UDP. *)
Variable getservbyname : list Z -> bool -> option Z.

(** A call of [ga_port] that is made or not. *)
Definition port_call (l : list addrinfo) (p : option (Z * Z)) (h : heap) : list addrinfo * option Z * heap :=
  match p with
  | Some (port, socktype) => ga_port l port socktype h
  | None => (l, Some 0, h)
  end.

(** Two calls of [ga_port], the second only if the first did not fail; [None] for
    [EAI_MEMORY], else the number found. *)
Definition ga_port2 (l : list addrinfo) (first second : option (Z * Z)) (h : heap)
    : list addrinfo * option Z * heap :=
  match port_call l first h with
  | (l, None, h) => (l, None, h)
  | (l, Some n1, h) =>
      match port_call l second h with
      | (l, None, h) => (l, None, h)
      | (l, Some n2, h) => (l, Some (n1 + n2), h)
      end
  end.

(** The calls of [ga_port] a service string leads to. *)
Definition serv_calls (hi : hints) (serv : list Z) : option (Z * Z) * option (Z * Z) :=
  if isdigit (hd 0 serv) then
    let port := u16 (atoi serv) in
    if negb (h_socktype hi =? 0) then (Some (port, h_socktype hi), None)
    else (Some (port, SOCK_STREAM), Some (port, SOCK_DGRAM))
  else
    (if (h_socktype hi =? 0) || (h_socktype hi =? SOCK_STREAM)
     then (fun p => (p, SOCK_STREAM)) <$> getservbyname serv true else None,
     if (h_socktype hi =? 0) || (h_socktype hi =? SOCK_DGRAM)
     then (fun p => (p, SOCK_DGRAM)) <$> getservbyname serv false else None).

Definition ga_serv (l : list addrinfo) (hi : hints) (serv : list Z) (h : heap)
    : list addrinfo * option eai * heap :=
  let '(first, second) := serv_calls hi serv in
  match ga_port2 l first second h with
  | (l, None, h) => (l, Some EAI_MEMORY, h)
  | (l, Some nfound, h) =>
      if nfound =? 0
      then (l, Some (if h_socktype hi =? 0 then EAI_NONAME else EAI_SERVICE), h)
      else (l, None, h)
  end.

(** ** [ga_unix] *)

(** [uname]: the node name, unless the call fails. *)
Variable uname : option (list Z).

(** What [getaddrinfo] returns: 0 with the list, an error, or not at all
    ([err_quit] in [ga_nsearch]). *)
Inductive gai := GaiOk (l : list addrinfo) | GaiErr (e : eai) | GaiQuit.

Definition set_socktype (hi : hints) (t : Z) : hints := Hints (h_flags hi) (h_family hi) t (h_protocol hi).

Definition set_canonname (c : nat * list Z) (ai : addrinfo) : addrinfo :=
  AddrInfo (ai_id ai) (ai_flags ai) (ai_family ai) (ai_socktype ai) (ai_protocol ai) (ai_addrlen ai)
    (Some c) (ai_addr ai).

(** [aihead->ai_canonname = ...] *)
Definition set_head_canon (c : nat * list Z) (l : list addrinfo) : list addrinfo :=
  match l with [] => [] | ai :: l' => set_canonname c ai :: l' end.

(** The canonical name of a Unix domain socket. *)
Definition ga_unix_canon (hi : hints) (l : list addrinfo) (h : heap) : gai * heap :=
  if has_flag (h_flags hi) AI_CANONNAME then
    match uname with
    | None => (GaiErr EAI_SYSTEM, h)
    | Some name =>
        match alloc h with
        | (None, h) => (GaiErr EAI_MEMORY, h)
        | (Some b, h) => (GaiOk (set_head_canon (b, name) l), h)
        end
    end
  else (GaiOk l, h).

Definition ga_unix (path : list Z) (hi : hints) (h : heap) : gai * heap :=
  if negb (h_family hi =? AF_UNSPEC) && negb (h_family hi =? AF_LOCAL) then (GaiErr EAI_ADDRFAMILY, h)
  else if h_socktype hi =? 0 then
    match ga_aistruct (set_socktype hi SOCK_STREAM) path AF_LOCAL h with
    | (_, Some e, h) => (GaiErr e, h)
    | (a1, None, h) =>
        match ga_aistruct (set_socktype hi SOCK_DGRAM) path AF_LOCAL h with
        | (_, Some e, h) => (GaiErr e, h)
        | (a2, None, h) => ga_unix_canon hi (option_list a1 ++ option_list a2) h
        end
    end
  else
    match ga_aistruct hi path AF_LOCAL h with
    | (_, Some e, h) => (GaiErr e, h)
    | (a1, None, h) => ga_unix_canon hi (option_list a1) h
    end.

(** ** [getaddrinfo] *)

Record hostent := Hostent { h_name : list Z; h_addrtype : Z; h_addr_list : list (list Z) }.

Inductive h_errno := HOST_NOT_FOUND | TRY_AGAIN | NO_RECOVERY | NO_DATA | Hother.

(** [gethostbyname2], and [gethostbyname] with the option [RES_USE_INET6] as the
    code sets it before the call. *)
Variable gethostbyname2 : list Z -> Z -> h_errno + hostent.
Variable gethostbyname : bool -> list Z -> h_errno + hostent.

Definition eai_of_h_errno (e : h_errno) : eai :=
  match e with
  | HOST_NOT_FOUND => EAI_NONAME
  | TRY_AGAIN => EAI_AGAIN
  | NO_RECOVERY => EAI_FAIL
  | NO_DATA => EAI_NODATA
  | Hother => EAI_NONAME
  end.

(** [inet_pton(...) == 1] *)
Definition pton (af : Z) (s : list Z) : option (list Z) :=
  match Pton.inet_pton af s with Ok r => r | Err _ => None end.

(** The local variables of the search loop: the list, [canon], the heap. *)
Record gs := Gs { g_list : list addrinfo; g_canon : option (nat * list Z); g_heap : heap }.

(** [ga_aistruct(&aipnext, ...)] *)
Definition add_ai (hi : hints) (addr : list Z) (family : Z) (s : gs) : gs * option eai :=
  let '(a, e, h) := ga_aistruct hi addr family (g_heap s) in
  (Gs (g_list s ++ option_list a) (g_canon s) h, e).

(** One structure per address, until an error. *)
Fixpoint add_ais (hi : hints) (addrs : list (list Z)) (family : Z) (s : gs) : gs * option eai :=
  match addrs with
  | [] => (s, None)
  | a :: addrs' =>
      match add_ai hi a family s with
      | (s, Some e) => (s, Some e)
      | (s, None) => add_ais hi addrs' family s
      end
  end.

(** A literal address of family [af]: a mismatch with the hints is an error, one
    with the search is ignored. *)
Definition add_literal (hi : hints) (sp : search) (af : Z) (addr : list Z) (s : gs) : gs * option eai :=
  if negb (h_family hi =? AF_UNSPEC) && negb (h_family hi =? af) then (s, Some EAI_ADDRFAMILY)
  else if negb (s_family sp =? af) then (s, None)
  else add_ai hi addr af s.

(** The literals the loop looks for: dotted decimal first, then hexadecimal. *)
Definition literal (host : list Z) : option (Z * list Z) :=
  let c := hd 0 host in
  match (if isdigit c then pton AF_INET host else None) with
  | Some a => Some (AF_INET, a)
  | None =>
      if (isxdigit c || (c =? chr_colon)) && bool_decide (chr_colon ∈ host)
      then (fun a => (AF_INET6, a)) <$> pton AF_INET6 host
      else None
  end.

(** The lookup of a host name. *)
Definition lookup_host (nsearch : nat) (sp : search) : h_errno + hostent :=
  if (nsearch =? 2)%nat then gethostbyname2 (s_host sp) (s_family sp)
  else gethostbyname (s_family sp =? AF_INET6) (s_host sp).

(** [hostname != NULL && hostname[0] != '\0' && (hints.ai_flags & AI_CANONNAME)] *)
Definition wants_canon (hostname : option (list Z)) (hi : hints) : bool :=
  negb (absent hostname) && has_flag (h_flags hi) AI_CANONNAME.

(** Saving the canonical name the first time. *)
Definition save_canon (hostname : option (list Z)) (hi : hints) (name : list Z) (s : gs) : gs * option eai :=
  if wants_canon hostname hi && bool_decide (g_canon s = None) then
    match alloc (g_heap s) with
    | (None, h) => (Gs (g_list s) None h, Some EAI_MEMORY)
    | (Some b, h) => (Gs (g_list s) (Some (b, name)) h, None)
    end
  else (s, None).

(** The body of the search loop: the new state, and the error if it ends the
    function. *)
Definition search_one (hostname : option (list Z)) (hi : hints) (nsearch : nat) (sp : search) (s : gs)
    : gs * option eai :=
  match literal (s_host sp) with
  | Some (af, addr) => add_literal hi sp af addr s
  | None =>
      match lookup_host nsearch sp with
      | inl e => if (nsearch =? 2)%nat then (s, None) else (s, Some (eai_of_h_errno e))
      | inr hp =>
          if negb (h_family hi =? AF_UNSPEC) && negb (h_family hi =? h_addrtype hp)
          then (s, Some EAI_ADDRFAMILY)
          else
            match save_canon hostname hi (h_name hp) s with
            | (s, Some e) => (s, Some e)
            | (s, None) => add_ais hi (h_addr_list hp) (h_addrtype hp) s
            end
      end
  end.

Fixpoint search_loop (hostname : option (list Z)) (hi : hints) (nsearch : nat) (l : list search) (s : gs)
    : gs * option eai :=
  match l with
  | [] => (s, None)
  | sp :: l' =>
      match search_one hostname hi nsearch sp s with
      | (s, Some e) => (s, Some e)
      | (s, None) => search_loop hostname hi nsearch l' s
      end
  end.

(** The label [bad]. *)
Definition bad (l : list addrinfo) (h : heap) (e : eai) : gai * heap := (GaiErr e, freeaddrinfo l h).

(** Returning the canonical name: the list with it, or an error. *)
Definition put_canon (hostname : option (list Z)) (hi : hints) (host0 : list Z) (s : gs)
    : list addrinfo * option eai * heap :=
  if wants_canon hostname hi then
    match g_canon s with
    | Some c => (set_head_canon c (g_list s), None, g_heap s)
    | None =>
        match alloc (g_heap s) with
        | (None, h) => (g_list s, Some EAI_MEMORY, h)
        | (Some b, h) => (set_head_canon (b, host0) (g_list s), None, h)
        end
    end
  else (g_list s, None, g_heap s).

Definition is_unix_host (hostname : option (list Z)) : bool :=
  match hostname with Some s => str_eqb s str_local || str_eqb s str_unix | None => false end.

Definition starts_with_slash (servname : option (list Z)) : bool :=
  match servname with Some (c :: _) => c =? 47 | _ => false end.

(** From the service name to the end. *)
Definition gai_finish (hi : hints) (servname : option (list Z)) (l : list addrinfo) (h : heap) : gai * heap :=
  match servname with
  | Some (c :: serv) =>
      match ga_serv l hi (c :: serv) h with
      | (l, Some e, h) => bad l h e
      | (l, None, h) => (GaiOk l, h)
      end
  | _ => (GaiOk l, h)
  end.

Definition getaddrinfo (hostname servname : option (list Z)) (hintsp : option hints) (h : heap)
    : gai * heap :=
  let hi := default hints0 hintsp in
  match ga_echeck hostname servname (h_flags hi) (h_family hi) (h_socktype hi) with
  | Some e => bad [] h e
  | None =>
  if is_unix_host hostname && starts_with_slash servname
  then ga_unix (default [] servname) hi h
  else
  match ga_nsearch hostname hi with
  | None => (GaiQuit, h)
  | Some searches =>
  match search_loop hostname hi (length searches) searches (Gs [] None h) with
  | (s, Some e) => bad (g_list s) (g_heap s) e
  | (s, None) =>
      if bool_decide (g_list s = []) then bad [] (g_heap s) EAI_NONAME
      else
        match put_canon hostname hi (s_host (hd (Search [] 0) searches)) s with
        | (l, Some e, h) => bad l h e
        | (l, None, h) => gai_finish hi servname l h
        end
  end end end.

End Gai.

(** ** [getnameinfo] *)

Section Gni.

(** The value [inet_ntop] finds in an uninitialised variable. *)
Variable len0 : Z.

(** [gethostbyaddr]: the name, if there is one; [getservbyport], for UDP or for
    any protocol. *)
Variable gethostbyaddr : list Z -> Z -> option (list Z).
Variable getservbyport : Z -> bool -> option (list Z).

(** [snprintf(buf, size, "%s", s)] with a positive [size]: what [buf] then holds. *)
Definition snprintf (size : Z) (s : list Z) : list Z := take (Z.to_nat (size - 1)) s.

(** [*strchr(name, '.') = 0] *)
Fixpoint cut_at_dot (name : list Z) : list Z :=
  match name with
  | [] => []
  | c :: name' => if c =? chr_dot then [] else c :: cut_at_dot name'
  end.

Definition ntop (family : Z) (addr : list Z) (hostlen : Z) : option (list Z) :=
  match Ntop.inet_ntop len0 family addr hostlen with Ok t => Some t | Err _ => None end.

(** The host part of [gn_ipv46]: [None] is [return(1)]; otherwise what is written
    to [host], if it is. *)
Definition gn_host (hostlen : Z) (addr : list Z) (family flags : Z) : option (option (list Z)) :=
  if hostlen >? 0 then
    if has_flag flags NI_NUMERICHOST then Some <$> ntop family addr hostlen
    else
      match gethostbyaddr addr family with
      | Some name =>
          let name := if has_flag flags NI_NOFQDN then cut_at_dot name else name in
          Some (Some (snprintf hostlen name))
      | None =>
          if has_flag flags NI_NAMEREQD then None else Some <$> ntop family addr hostlen
      end
  else Some None.

(** The service part. *)
Definition gn_serv (servlen port flags : Z) : option (list Z) :=
  if servlen >? 0 then
    Some (snprintf servlen
            (if has_flag flags NI_NUMERICSERV then fmt_u port
             else default (fmt_u port) (getservbyport port (has_flag flags NI_DGRAM))))
  else None.

(** [gn_ipv46]: [None] for 1, else 0 with what [host] and [serv] get. *)
Definition gn_ipv46 (hostlen servlen : Z) (addr : list Z) (family port flags : Z)
    : option (option (list Z) * option (list Z)) :=
  match gn_host hostlen addr family flags with
  | None => None
  | Some host => Some (host, gn_serv servlen port flags)
  end.

Definition getnameinfo (sa : sockaddr) (hostlen servlen flags : Z)
    : option (option (list Z) * option (list Z)) :=
  match sa with
  | Sin port addr => gn_ipv46 hostlen servlen addr AF_INET port flags
  | Sin6 port addr => gn_ipv46 hostlen servlen addr AF_INET6 port flags
  | Sun path =>
      Some (if hostlen >? 0 then Some (snprintf hostlen str_local) else None,
            if servlen >? 0 then Some (snprintf servlen path) else None)
  | Snone => None
  end.

End Gni.

(** ** Accounting for memory *)

(** [h] has the blocks [bs] more than [h0], all of them allocated since. *)
Record owns (h0 : heap) (bs : list nat) (h : heap) : Prop := {
  owns_live : live h = live h0 ∪ list_to_set bs;
  owns_nodup : NoDup bs;
  owns_new : Forall (fun b => (nalloc h0 <= b < nalloc h)%nat) bs;
  owns_count : (nalloc h0 <= nalloc h)%nat;
  owns_bad : bad_free h = bad_free h0 }.

(** Blocks are numbered by the allocations. *)
Definition heap_ok (h : heap) : Prop := forall b, b ∈ live h -> (b < nalloc h)%nat.

Lemma owns_refl h : owns h [] h.
Proof. split; simpl; [set_solver|constructor|constructor|lia|done]. Qed.

Lemma owns_perm h0 bs bs' h : bs ≡ₚ bs' -> owns h0 bs h -> owns h0 bs' h.
Proof.
  intros HP [H1 H2 H3 H4 H5]. split; try done.
  - rewrite H1. f_equal. apply leibniz_equiv. by rewrite HP.
  - by rewrite <- HP.
  - by rewrite <- HP.
Qed.

(** Only the accounting of [unlink] changes. *)
Lemma owns_unlinked h0 bs h u :
  owns h0 bs h -> owns h0 bs (Heap (live h) (nalloc h) (bad_free h) u).
Proof. by intros [H1 H2 H3 H4 H5]; split. Qed.

Lemma owns_alloc fails h0 bs h r h' :
  owns h0 bs h -> alloc fails h = (r, h') -> owns h0 (option_list r ++ bs) h'.
Proof.
  intros [H1 H2 H3 H4 H5] Ha. unfold alloc in Ha. destruct (fails (nalloc h)); simplify_eq/=.
  - split; simpl; try done; [|lia]. eapply Forall_impl; [exact H3|]. simpl. lia.
  - split; simpl; try done; [..|lia].
    + rewrite H1. set_solver.
    + apply NoDup_cons. split; [|done]. intros Hin.
      pose proof (proj1 (Forall_forall _ _) H3 _ Hin) as Hb. simpl in Hb. lia.
    + apply Forall_cons. split; [lia|]. eapply Forall_impl; [exact H3|]. simpl. lia.
Qed.

Lemma owns_free h0 b bs h : heap_ok h0 -> owns h0 (b :: bs) h -> owns h0 bs (free b h).
Proof.
  intros Hok [H1 H2 H3 H4 H5]. unfold free. apply NoDup_cons in H2 as [Hn H2].
  apply Forall_cons in H3 as [Hb H3].
  rewrite bool_decide_true by (rewrite H1; set_solver). split; simpl; try done.
  rewrite H1. assert (b ∉ live h0) by (intros Hin; apply Hok in Hin; lia). set_solver.
Qed.

Lemma list_blocks_app l1 l2 : list_blocks (l1 ++ l2) = list_blocks l1 ++ list_blocks l2.
Proof. unfold list_blocks. by rewrite fmap_app, concat_app. Qed.

Lemma freeaddrinfo_owns h0 l bs h :
  heap_ok h0 -> owns h0 (list_blocks l ++ bs) h -> owns h0 bs (freeaddrinfo l h).
Proof.
  intros Hok. revert h. induction l as [|ai l IH]; intros h H; [done|]. simpl. apply IH.
  cbn [list_blocks fmap list_fmap concat] in H. fold (list_blocks l) in H. rewrite <- app_assoc in H.
  set (rest := list_blocks l ++ bs) in *. unfold blocks in H.
  destruct (ai_addr ai) as [[a sa]|], (ai_canonname ai) as [[c n]|]; simpl in H; apply owns_free; try done.
  - apply owns_free; [done|]. apply owns_free; [done|]. eapply owns_perm; [|exact H]. solve_Permutation.
  - apply owns_free; [done|]. eapply owns_perm; [|exact H]. solve_Permutation.
  - apply owns_free; [done|]. eapply owns_perm; [|exact H]. solve_Permutation.
Qed.

Section Memory.
Variable fails : nat -> bool.

Lemma ga_aistruct_owns hi addr family h0 bs h a e h' :
  owns h0 bs h -> ga_aistruct fails hi addr family h = (a, e, h') ->
  owns h0 (list_blocks (option_list a) ++ bs) h'.
Proof.
  intros H. unfold ga_aistruct.
  destruct (alloc fails h) as [[id|] h1] eqn:E1; pose proof (owns_alloc _ _ _ _ _ _ H E1) as H1;
    [|by intros [= <- <- <-]]. simpl in H1.
  assert (forall len sa a e h',
    match alloc fails h1 with
    | (None, h) => (Some (AddrInfo id (if h_socktype hi =? 0 then AI_CLONE else 0) family
                      (h_socktype hi) (h_protocol hi) 0 None None), Some EAI_MEMORY, h)
    | (Some b, h) => (Some (AddrInfo id (if h_socktype hi =? 0 then AI_CLONE else 0) family
                      (h_socktype hi) (h_protocol hi) len None (Some (b, sa))), None, h)
    end = (a, e, h') -> owns h0 (list_blocks (option_list a) ++ bs) h') as Hfill.
  { intros len sa a' e' h2. destruct (alloc fails h1) as [[b|] h3] eqn:E2;
      pose proof (owns_alloc _ _ _ _ _ _ H1 E2) as H2; intros [= <- <- <-]; unfold list_blocks; simpl in *;
      rewrite ?app_nil_r; [|done].
    eapply owns_perm; [|exact H2]. solve_Permutation. }
  destruct (family =? AF_INET); [apply Hfill|]. destruct (family =? AF_INET6); [apply Hfill|].
  destruct (family =? AF_LOCAL); [|by intros [= <- <- <-]].
  destruct (_ >=? _); [by intros [= <- <- <-]|].
  match goal with |- context [match ?m with (_, _) => _ end] => destruct m as [[a1 [e1|]] h1'] eqn:E3 end.
  - intros [= <- <- <-]. by eapply Hfill.
  - intros [= <- <- <-]. apply Hfill in E3. destruct (has_flag _ _); [by apply owns_unlinked|done].
Qed.

Lemma ga_clone_owns ai h0 bs h r h' :
  owns h0 bs h -> ga_clone fails ai h = (r, h') ->
  owns h0 (match r with Some (new, _) => blocks new | None => [] end ++ bs) h'.
Proof.
  intros H. unfold ga_clone.
  destruct (alloc fails h) as [[id|] h1] eqn:E1; pose proof (owns_alloc _ _ _ _ _ _ H E1) as H1;
    [|by intros [= <- <-]].
  destruct (alloc fails h1) as [[b|] h2] eqn:E2; pose proof (owns_alloc _ _ _ _ _ _ H1 E2) as H2;
    intros [= <- <-]; [|done].
  simpl in *. eapply owns_perm; [|exact H2]. solve_Permutation.
Qed.

Lemma fill_port_blocks port st ai : blocks (fill_port port st ai).1 = blocks ai.
Proof. unfold fill_port, blocks; simpl. by destruct (_ || _), (ai_addr ai) as [[? ?]|]. Qed.

Lemma ga_port_owns l port st h0 : forall bs h l' n h',
  owns h0 (list_blocks l ++ bs) h -> ga_port fails l port st h = (l', n, h') ->
  owns h0 (list_blocks l' ++ bs) h'.
Proof.
  assert (forall ai l, list_blocks (ai :: l) = blocks ai ++ list_blocks l) as Hcons by done.
  induction l as [|ai l IH]; intros bs h l' n h' H; cbn [ga_port]; [by intros [= <- <- <-]|].
  rewrite Hcons, <- app_assoc in H.
  assert (Hnext : forall front h1 r n1 h2, owns h0 (front ++ list_blocks l ++ bs) h1 ->
            ga_port fails l port st h1 = (r, n1, h2) -> owns h0 (front ++ list_blocks r ++ bs) h2).
  { intros front h1 r n1 h2 Hf E. eapply owns_perm; [apply Permutation_app_swap_app|].
    eapply IH; [|exact E]. eapply owns_perm; [|exact Hf]. apply Permutation_app_swap_app. }
  destruct (has_flag (ai_flags ai) AI_CLONE).
  - destruct (negb (ai_socktype ai =? 0)).
    + destruct (ga_clone fails ai h) as [[[new [|]]|] h1] eqn:E;
        pose proof (ga_clone_owns _ _ _ _ _ _ H E) as H1.
      * pose proof (fill_port_blocks port st new) as Hb.
        destruct (fill_port port st new) as [new' k], (ga_port fails l port st h1) as [[r n1] h2] eqn:E2.
        intros [= <- <- <-]. rewrite !Hcons, <- !app_assoc. simpl in Hb. rewrite Hb.
        assert (owns h0 ((blocks ai ++ blocks new) ++ list_blocks l ++ bs) h1) as H1'.
        { eapply owns_perm; [|exact H1]. rewrite <- app_assoc. apply Permutation_app_swap_app. }
        apply (Hnext _ _ _ _ _ H1') in E2. by rewrite <- app_assoc in E2.
      * intros [= <- <- <-]. rewrite !Hcons, <- !app_assoc. eapply owns_perm; [|exact H1].
        apply Permutation_app_swap_app.
      * intros [= <- <- <-]. by rewrite Hcons, <- app_assoc.
    + destruct (fill_port port st ai) as [ai' k] eqn:Ef, (ga_port fails l port st h) as [[r n1] h2] eqn:E2.
      intros [= <- <- <-]. rewrite Hcons, <- app_assoc. change ai' with (ai', k).1.
      rewrite <- Ef, fill_port_blocks. by eapply Hnext.
  - destruct (negb _).
    + destruct (ga_port fails l port st h) as [[r n1] h2] eqn:E2. intros [= <- <- <-].
      rewrite Hcons, <- app_assoc. by eapply Hnext.
    + destruct (fill_port port st ai) as [ai' k] eqn:Ef, (ga_port fails l port st h) as [[r n1] h2] eqn:E2.
      intros [= <- <- <-]. rewrite Hcons, <- app_assoc. change ai' with (ai', k).1.
      rewrite <- Ef, fill_port_blocks. by eapply Hnext.
Qed.

Lemma port_call_owns l p h0 bs h l' n h' :
  owns h0 (list_blocks l ++ bs) h -> port_call fails l p h = (l', n, h') ->
  owns h0 (list_blocks l' ++ bs) h'.
Proof. destruct p as [[? ?]|]; simpl; [by apply ga_port_owns|by intros ? [= <- <- <-]]. Qed.

Lemma ga_port2_owns l p1 p2 h0 bs h l' n h' :
  owns h0 (list_blocks l ++ bs) h -> ga_port2 fails l p1 p2 h = (l', n, h') ->
  owns h0 (list_blocks l' ++ bs) h'.
Proof.
  intros H. unfold ga_port2.
  destruct (port_call _ l p1 h) as [[l1 [n1|]] h1] eqn:E1; apply (port_call_owns _ _ _ _ _ _ _ _ H) in E1;
    [|by intros [= <- <- <-]].
  destruct (port_call _ l1 p2 h1) as [[l2 [n2|]] h2] eqn:E2; apply (port_call_owns _ _ _ _ _ _ _ _ E1) in E2;
    by intros [= <- <- <-].
Qed.

Variable getservbyname : list Z -> bool -> option Z.

Lemma ga_serv_owns l hi serv h0 bs h l' e h' :
  owns h0 (list_blocks l ++ bs) h -> ga_serv fails getservbyname l hi serv h = (l', e, h') ->
  owns h0 (list_blocks l' ++ bs) h'.
Proof.
  intros H. unfold ga_serv. destruct (serv_calls _ hi serv) as [p1 p2].
  destruct (ga_port2 _ _ _ _ _) as [[l1 [n|]] h1] eqn:E; apply (ga_port2_owns _ _ _ _ _ _ _ _ _ H) in E;
    [destruct (n =? 0)|]; by intros [= <- <- <-].
Qed.

(** The search loop's variables: the memory is in the list and in [canon], and no
    structure has a name yet. *)
Record gs_ok (h0 : heap) (hostname : option (list Z)) (hi : hints) (s : gs) : Prop := {
  gs_owns : owns h0 (list_blocks (g_list s) ++ option_list (fst <$> g_canon s)) (g_heap s);
  gs_unnamed : Forall (fun ai => ai_canonname ai = None) (g_list s);
  gs_canon : g_canon s <> None -> wants_canon hostname hi = true }.

Lemma ga_aistruct_unnamed hi addr family h a e h' :
  ga_aistruct fails hi addr family h = (a, e, h') ->
  Forall (fun ai => ai_canonname ai = None) (option_list a).
Proof. intros E. unfold ga_aistruct in E. split_tests; by repeat constructor. Qed.

Lemma add_ai_ok hostname hi addr family h0 s s' e :
  gs_ok h0 hostname hi s -> add_ai fails hi addr family s = (s', e) -> gs_ok h0 hostname hi s'.
Proof.
  intros [H1 H2 H3]. unfold add_ai.
  destruct (ga_aistruct _ _ _ _ _) as [[a e1] h1] eqn:E. intros [= <- <-]. split; simpl; [|..|done].
  - rewrite list_blocks_app. pose proof (ga_aistruct_owns _ _ _ _ _ _ _ _ _ H1 E) as H.
    eapply owns_perm; [|exact H]. solve_Permutation.
  - apply Forall_app. split; [done|]. by eapply ga_aistruct_unnamed.
Qed.

Lemma add_ais_ok hostname hi addrs family h0 : forall s s' e,
  gs_ok h0 hostname hi s -> add_ais fails hi addrs family s = (s', e) -> gs_ok h0 hostname hi s'.
Proof.
  induction addrs as [|a addrs IH]; intros s s' e H; simpl; [by intros [= <- <-]|].
  destruct (add_ai fails hi a family s) as [s1 [e1|]] eqn:E; apply (add_ai_ok _ _ _ _ _ _ _ _ H) in E;
    [by intros [= <- <-]|by apply IH].
Qed.

Lemma save_canon_ok hostname hi name h0 s s' e :
  gs_ok h0 hostname hi s -> save_canon fails hostname hi name s = (s', e) -> gs_ok h0 hostname hi s'.
Proof.
  intros H. unfold save_canon. destruct (_ && _) eqn:E; [|by intros [= <- <-]].
  apply andb_true_iff in E as [Ew Ec]. apply bool_decide_eq_true in Ec. destruct H as [H1 H2 H3]. destruct (alloc fails (g_heap s)) as [r h1] eqn:Ea.
  pose proof (owns_alloc _ _ _ _ _ _ H1 Ea) as H4. rewrite Ec in H4. simpl in H4. rewrite app_nil_r in H4.
  destruct r as [b|]; intros [= <- <-]; split; simpl; try done.
  - eapply owns_perm; [|exact H4]. simpl. solve_Permutation.
  - by rewrite app_nil_r.
Qed.

Variable gethostbyname2 : list Z -> Z -> h_errno + hostent.
Variable gethostbyname : bool -> list Z -> h_errno + hostent.

Lemma search_one_ok hostname hi n sp h0 s s' e :
  gs_ok h0 hostname hi s ->
  search_one fails gethostbyname2 gethostbyname hostname hi n sp s = (s', e) -> gs_ok h0 hostname hi s'.
Proof.
  intros H. unfold search_one, add_literal.
  destruct (literal _) as [[af a]|].
  { destruct (_ && _); [by intros [= <- <-]|]. destruct (negb _); [by intros [= <- <-]|]. by apply add_ai_ok. }
  destruct (lookup_host _ _ n sp) as [e1|hp]; [destruct (n =? 2)%nat; by intros [= <- <-]|].
  destruct (_ && _); [by intros [= <- <-]|].
  destruct (save_canon _ _ _ _ _) as [s1 [e1|]] eqn:E; apply (save_canon_ok _ _ _ _ _ _ _ H) in E;
    [by intros [= <- <-]|by apply add_ais_ok].
Qed.

Lemma search_loop_ok hostname hi n l h0 : forall s s' e,
  gs_ok h0 hostname hi s ->
  search_loop fails gethostbyname2 gethostbyname hostname hi n l s = (s', e) -> gs_ok h0 hostname hi s'.
Proof.
  induction l as [|sp l IH]; intros s s' e H; simpl; [by intros [= <- <-]|].
  destruct (search_one _ _ _ _ _ _ _ _) as [s1 [e1|]] eqn:E;
    apply (search_one_ok _ _ _ _ _ _ _ _ H) in E; [by intros [= <- <-]|by apply IH].
Qed.

Lemma put_canon_owns hostname hi host0 h0 s l e h :
  gs_ok h0 hostname hi s -> g_list s <> [] -> put_canon fails hostname hi host0 s = (l, e, h) ->
  owns h0 (list_blocks l) h.
Proof.
  intros [H1 H2 H3] Hne. unfold put_canon.
  destruct (g_list s) as [|ai l1]; [done|]. apply Forall_cons in H2 as [Hai _].
  assert (Hset : forall c, list_blocks (set_canonname c ai :: l1) ≡ₚ c.1 :: list_blocks (ai :: l1)).
  { intros [b nm]. unfold list_blocks; simpl. unfold blocks. rewrite Hai. simpl. solve_Permutation. }
  destruct (wants_canon hostname hi) eqn:Eb.
  - destruct (g_canon s) as [c|] eqn:Ec; simpl in *.
    + intros [= <- <- <-]. eapply owns_perm; [|exact H1]. rewrite Hset. solve_Permutation.
    + rewrite app_nil_r in H1. destruct (alloc fails (g_heap s)) as [[b|] h1] eqn:Ea; intros [= <- <- <-];
        pose proof (owns_alloc _ _ _ _ _ _ H1 Ea) as H; [|done].
      eapply owns_perm; [|exact H]. by rewrite (Hset (b, host0)).
  - intros [= <- <- <-]. destruct (g_canon s); [by discriminate H3|]. simpl in H1. by rewrite app_nil_r in H1.
Qed.

End Memory.

(** What a result says of the memory: the list owns what was allocated, an error of
    the Internet part leaves at most the block of the canonical name behind and
    that only if one was asked for, one of [ga_unix] at most two structures. *)
Definition gai_memory (h : heap) (hostname servname : option (list Z)) (hi : hints) (r : gai) (h' : heap) : Prop :=
  match r with
  | GaiOk l => owns h (list_blocks l) h' /\ owns h [] (freeaddrinfo l h')
  | GaiErr _ => exists leak, owns h leak h' /\
      if is_unix_host hostname && starts_with_slash servname then (length leak <= 4)%nat
      else (length leak <= 1)%nat /\ (leak <> [] -> wants_canon hostname hi = true)
  | GaiQuit => h' = h
  end.

Section Memory2.
Variable fails : nat -> bool.
Variable getservbyname : list Z -> bool -> option Z.
Variable uname : option (list Z).
Variable gethostbyname2 : list Z -> Z -> h_errno + hostent.
Variable gethostbyname : bool -> list Z -> h_errno + hostent.

Lemma ga_aistruct_size hi addr family h a e h' :
  ga_aistruct fails hi addr family h = (a, e, h') ->
  (length (list_blocks (option_list a)) <= 2)%nat /\ (e = None -> a <> None).
Proof.
  intros E. unfold ga_aistruct in E. split_tests; unfold list_blocks; simpl; (split; [lia|done]).
Qed.

Lemma ga_unix_canon_memory hi ai l h0 h r h' :
  owns h0 (list_blocks (ai :: l)) h -> ai_canonname ai = None ->
  ga_unix_canon fails uname hi (ai :: l) h = (r, h') ->
  match r with
  | GaiOk l' => owns h0 (list_blocks l') h'
  | GaiErr _ => owns h0 (list_blocks (ai :: l)) h'
  | GaiQuit => False
  end.
Proof.
  intros H Hai. unfold ga_unix_canon. destruct (has_flag _ _); [|by intros [= <- <-]].
  destruct uname as [nm|]; [|by intros [= <- <-]].
  destruct (alloc fails h) as [[b|] h1] eqn:E; pose proof (owns_alloc _ _ _ _ _ _ H E) as H1;
    intros [= <- <-]; [|done].
  eapply owns_perm; [|exact H1]. unfold list_blocks; simpl. unfold blocks. rewrite Hai. simpl. solve_Permutation.
Qed.

(** [ga_aistruct] after which the list holds [l] more. *)
Lemma ga_unix_memory path hi h0 r h' :
  ga_unix fails uname path hi h0 = (r, h') ->
  match r with
  | GaiOk l => owns h0 (list_blocks l) h'
  | GaiErr _ => exists leak, owns h0 leak h' /\ (length leak <= 4)%nat
  | GaiQuit => False
  end.
Proof.
  unfold ga_unix. destruct (_ && _).
  { intros [= <- <-]. exists []. split; [apply owns_refl|simpl; lia]. }
  assert (Hone : forall hi1 bs h a e h1, owns h0 bs h -> ga_aistruct fails hi1 path AF_LOCAL h = (a, e, h1) ->
    owns h0 (list_blocks (option_list a) ++ bs) h1 /\ (length (list_blocks (option_list a)) <= 2)%nat /\
    (e = None -> exists ai, a = Some ai /\ ai_canonname ai = None)).
  { intros hi1 bs h a e h1 H E. split; [by eapply ga_aistruct_owns|].
    destruct (ga_aistruct_size _ _ _ _ _ _ _ E) as [? Ha]. split; [done|]. intros He. specialize (Ha He).
    destruct a as [ai|]; [|done]. exists ai. split; [done|].
    apply ga_aistruct_unnamed in E. simpl in E. by inversion E. }
  destruct (h_socktype hi =? 0).
  - destruct (ga_aistruct _ _ _ _ h0) as [[a1 [e1|]] h1] eqn:E1;
      destruct (Hone _ _ _ _ _ _ (owns_refl h0) E1) as (H1 & L1 & A1); rewrite app_nil_r in H1.
    { intros [= <- <-]. exists (list_blocks (option_list a1)). split; [done|lia]. }
    destruct (ga_aistruct _ _ _ _ h1) as [[a2 [e2|]] h2] eqn:E2;
      destruct (Hone _ _ _ _ _ _ H1 E2) as (H2 & L2 & A2).
    { intros [= <- <-]. eexists. split; [done|]. rewrite length_app. lia. }
    destruct A1 as (ai1 & -> & N1); [done|]. destruct A2 as (ai2 & -> & _); [done|].
    assert (owns h0 (list_blocks [ai1; ai2]) h2) as H3.
    { eapply owns_perm; [|exact H2]. unfold list_blocks; simpl. rewrite !app_nil_r. solve_Permutation. }
    intros E. pose proof (ga_unix_canon_memory _ _ _ _ _ _ _ H3 N1 E) as H4.
    destruct r as [l|e|]; [done| |done]. eexists. split; [exact H4|]. change [ai1; ai2] with (option_list (Some ai1) ++ option_list (Some ai2)).
    rewrite list_blocks_app, length_app. lia.
  - destruct (ga_aistruct _ _ _ _ h0) as [[a1 [e1|]] h1] eqn:E1;
      destruct (Hone _ _ _ _ _ _ (owns_refl h0) E1) as (H1 & L1 & A1); rewrite app_nil_r in H1.
    { intros [= <- <-]. exists (list_blocks (option_list a1)). split; [done|lia]. }
    destruct A1 as (ai1 & -> & N1); [done|].
    intros E. pose proof (ga_unix_canon_memory _ _ _ _ _ _ _ H1 N1 E) as H4.
    destruct r as [l|e|]; [done| |done]. eexists. split; [exact H4|]. change [ai1] with (option_list (Some ai1)). lia.
Qed.

Lemma gai_finish_memory hostname servname hi l h h1 r h' :
  heap_ok h -> owns h (list_blocks l) h1 ->
  is_unix_host hostname && starts_with_slash servname = false ->
  gai_finish fails getservbyname hi servname l h1 = (r, h') -> gai_memory h hostname servname hi r h'.
Proof.
  intros Hok H Hu. unfold gai_finish, bad.
  assert (Hgood : forall l h2, owns h (list_blocks l) h2 -> gai_memory h hostname servname hi (GaiOk l) h2).
  { intros l0 h2 Ho. split; [done|]. apply freeaddrinfo_owns; [done|]. by rewrite app_nil_r. }
  destruct servname as [[|c serv]|]; [by intros [= <- <-]; auto| |by intros [= <- <-]; auto].
  destruct (ga_serv _ _ _ _ _ _) as [[l1 [e|]] h2] eqn:E;
    rewrite <- (app_nil_r (list_blocks l)) in H; apply (ga_serv_owns _ _ _ _ _ _ _ _ _ _ _ H) in E;
    intros [= <- <-]; [|apply Hgood; by rewrite app_nil_r in E].
  exists []. split; [by apply freeaddrinfo_owns|]. rewrite Hu. split; [simpl; lia|done].
Qed.

(** C15: Whichever allocations fail and whatever the resolver answers, from a heap whose
    blocks were allocated before, [getaddrinfo] never frees a block that is not
    allocated; a list it returns owns exactly the blocks allocated in the call and
    [freeaddrinfo] gives all of them back; after an error at most one block is left, the
    canonical name, and only if one was asked for, except that for a Unix domain name
    (the host "/local" or "/unix" with a path as service) up to four blocks, two
    structures with their addresses, are left. *)
Theorem getaddrinfo_memory_safe (hostname servname : option (list Z)) (hintsp : option hints)
    (h : heap) (r : gai) (h' : heap) :
  heap_ok h ->
  getaddrinfo fails getservbyname uname gethostbyname2 gethostbyname hostname servname hintsp h = (r, h') ->
  gai_memory h hostname servname (default hints0 hintsp) r h'.
Proof.
  intros Hok. unfold getaddrinfo. set (hi := default hints0 hintsp).
  destruct (ga_echeck _ _ _ _ _).
  { intros [= <- <-]. exists []. split; [apply owns_refl|]. destruct (_ && _); simpl; [lia|by split; [lia|]]. }
  destruct (is_unix_host hostname && starts_with_slash servname) eqn:Eu.
  { intros E. apply ga_unix_memory in E. destruct r as [l|e|]; [| |done]; simpl; rewrite ?Eu; [|done].
    split; [done|]. apply freeaddrinfo_owns; [done|]. by rewrite app_nil_r. }
  destruct (ga_nsearch hostname hi) as [searches|]; [|by intros [= <- <-]].
  destruct (search_loop _ _ _ _ _ _ _ _) as [s o] eqn:Es.
  assert (gs_ok h hostname hi s) as Hs.
  { eapply search_loop_ok; [|exact Es]. split; simpl; [apply owns_refl|constructor|done]. }
  assert (Hbad : forall e, gai_memory h hostname servname hi (GaiErr e) (freeaddrinfo (g_list s) (g_heap s))).
  { destruct Hs as [H1 H2 H3]. intros e. eexists. split; [by apply freeaddrinfo_owns|].
    rewrite Eu. destruct (g_canon s); simpl; (split; [lia|auto]). }
  destruct o as [e|]; [intros [= <- <-]; apply Hbad|].
  case_bool_decide as El; [rewrite El in Hbad; intros [= <- <-]; apply Hbad|].
  destruct (put_canon _ _ _ _ _) as [[l [e|]] h1] eqn:Ep; apply (put_canon_owns _ _ _ _ _ _ _ _ _ Hs El) in Ep.
  - intros [= <- <-]. exists []. rewrite Eu. split; [|by split; [simpl; lia|]].
    apply freeaddrinfo_owns; [done|]. by rewrite app_nil_r.
  - intros E. by eapply gai_finish_memory.
Qed.
End Memory2.

(** An empty heap. *)
Definition heap0 : heap := Heap ∅ 0 false [].

(** A resolver that knows one name, with one address of each family. *)
Definition demo_host : list Z := codes "www".
Definition demo_v4 : list Z := [10; 0; 0; 1].
Definition demo_v6 : list Z := [32; 1; 0; 0; 0; 0; 0; 0; 0; 0; 0; 0; 0; 0; 0; 1].

Definition demo_entry (af : Z) : hostent :=
  Hostent (codes "www.example") af [if af =? AF_INET then demo_v4 else demo_v6].

Definition demo_byname2 (s : list Z) (af : Z) : h_errno + hostent :=
  if str_eqb s demo_host && ((af =? AF_INET) || (af =? AF_INET6)) then inr (demo_entry af) else inl HOST_NOT_FOUND.

Definition demo_byname (inet6 : bool) (s : list Z) : h_errno + hostent :=
  if str_eqb s demo_host then inr (demo_entry (if inet6 then AF_INET6 else AF_INET)) else inl HOST_NOT_FOUND.

Definition demo_serv (s : list Z) (tcp : bool) : option Z :=
  if str_eqb s (codes "daytime") then Some 13 else None.

Lemma getaddrinfo_memory_safe_witness :
  let r := getaddrinfo (fun n => (n =? 7)%nat) demo_serv None demo_byname2 demo_byname
             (Some demo_host) (Some (codes "daytime")) (Some (Hints 2 0 0 0)) heap0 in
  r.1 = GaiErr EAI_MEMORY /\ gai_memory heap0 (Some demo_host) (Some (codes "daytime")) (Hints 2 0 0 0) r.1 r.2.
Proof.
  split; [vm_compute; reflexivity|].
  apply (getaddrinfo_memory_safe (fun n => (n =? 7)%nat) demo_serv None demo_byname2 demo_byname
    (Some demo_host) (Some (codes "daytime")) (Some (Hints 2 0 0 0)) heap0).
  - intros b Hb. by apply elem_of_empty in Hb.
  - apply surjective_pairing.
Defined.

(** The canonical name is lost when a structure cannot be allocated after it. *)
Example canon_leaks :
  let r := getaddrinfo (fun n => (n =? 1)%nat) demo_serv None demo_byname2 demo_byname
             (Some demo_host) None (Some (Hints 2 AF_INET 0 0)) heap0 in
  r.1 = GaiErr EAI_MEMORY /\ live r.2 = {[0%nat]}.
Proof. vm_compute. by split. Qed.

(** [ga_unix] frees nothing: a path that is too long costs a structure. *)
Example unix_leaks :
  let r := getaddrinfo (fun _ => false) demo_serv None demo_byname2 demo_byname
             (Some str_local) (Some (replicate 108 47)) None heap0 in
  r.1 = GaiErr EAI_SERVICE /\ live r.2 = {[0%nat]}.
Proof. vm_compute. by split. Qed.

(** A host name with the family [AF_LOCAL] ends the process. *)
Example local_family_quits :
  getaddrinfo (fun _ => false) demo_serv None demo_byname2 demo_byname
    (Some demo_host) None (Some (Hints 0 AF_LOCAL 0 0)) heap0 = (GaiQuit, heap0).
Proof. vm_compute. reflexivity. Qed.
