(* ===== verification/GaiSpec.v ===== *)
(** * [getaddrinfo] and [getnameinfo]: specification

    The memory-free specification [gai_spec] of [getaddrinfo], written without the
    functions of the code (its own check of the request, list of queries, lookup
    and table of errors), the theorem that the code of [Gai] refines it, the types
    of its results and the round trip with [getnameinfo]. *)
From S2P Require Import Prelude Inet Gai.

(** ** Literal addresses *)

Lemma put_word_keeps s val s' :
  length (Pton.tmp s) = 16%nat -> Pton.put_word s val = Some s' ->
  length (Pton.tmp s') = 16%nat /\ Pton.tp s' = (Pton.tp s + 2)%nat /\ Pton.colonp s' = Pton.colonp s.
Proof. unfold Pton.put_word. intros Hl E. destruct (_ <? _)%nat; simplify_eq/=. by rewrite !length_insert. Qed.

Lemma inet_pton4_length s bs : Pton.inet_pton4 s = Some bs -> length bs = 4%nat.
Proof. intros E. by apply pton4_sound in E as (a & b & c & d & _ & _ & _ & _ & _ & ->). Qed.

Lemma put_v4_keeps s t s' :
  length (Pton.tmp s) = 16%nat -> Pton.put_v4 s t = Some s' ->
  length (Pton.tmp s') = 16%nat /\ Pton.tp s' = (Pton.tp s + 4)%nat /\ Pton.colonp s' = Pton.colonp s.
Proof.
  unfold Pton.put_v4. intros Hl E. destruct (_ <=? _)%nat eqn:El; [|done]. apply Nat.leb_le in El.
  destruct (Pton.inet_pton4 t) as [bs|] eqn:Eb; simplify_eq/=. apply inet_pton4_length in Eb.
  split; [|done]. rewrite !length_app, length_take, length_drop. lia.
Qed.

(** The buffer keeps its 16 bytes; without a colon at most a word or a quad is
    stored and no gap is seen. *)
Lemma pton6_loop_keeps src : forall curtok saw val s s' saw' val',
  length (Pton.tmp s) = 16%nat ->
  Pton.pton6_loop src curtok saw val s = Some (s', saw', val') ->
  length (Pton.tmp s') = 16%nat /\
  (chr_colon ∉ src -> Pton.colonp s' = Pton.colonp s /\
     (Pton.tp s' = Pton.tp s \/ (Pton.tp s' = Pton.tp s + 4)%nat /\ saw' = false)).
Proof.
  induction src as [|ch src IH]; intros curtok saw val s s' saw' val' Hl; simpl;
    [intros [= <- <- <-]; by auto|].
  destruct (Pton.xdigit_of ch) as [d|].
  { destruct (_ >? _); [done|]. intros E. apply IH in E as [? H]; [|done]. split; [done|].
    intros Hc. apply H. set_solver. }
  destruct (Z.eqb_spec ch chr_colon) as [->|Hn].
  { destruct (negb saw).
    - destruct (Pton.colonp s); [done|]. intros E. apply IH in E as [? _]; [|done]. split; [done|set_solver].
    - destruct (Pton.put_word s val) as [s1|] eqn:Ew; [|done]. simpl. intros E.
      apply put_word_keeps in Ew as (? & _ & _); [|done]. apply IH in E as [? _]; [|done]. split; [done|set_solver]. }
  destruct (ch =? chr_dot); [|done]. destruct (Pton.put_v4 s curtok) as [s1|] eqn:Ew; [|done].
  simpl. intros [= <- <- <-]. apply put_v4_keeps in Ew as (? & -> & ->); [|done]. auto.
Qed.

Lemma shift_loop_length k : forall i n c buf, length (Pton.shift_loop k i n c buf) = length buf.
Proof. induction k as [|k IH]; intros; simpl; [done|]. by rewrite IH, !length_insert. Qed.

Lemma pton6_finish_length s saw val bs :
  length (Pton.tmp s) = 16%nat -> Pton.pton6_finish s saw val = Some bs -> length bs = 16%nat.
Proof.
  unfold Pton.pton6_finish. intros Hl E. destruct saw.
  - destruct (Pton.put_word s val) as [s1|] eqn:Ew; [|done]. simpl in E.
    apply put_word_keeps in Ew as (? & _ & _); [|done]. destruct (Pton.colonp s1) as [n|].
    + injection E as <-. by rewrite shift_loop_length.
    + destruct (negb _); [done|]. by injection E as <-.
  - simpl in E. destruct (Pton.colonp s) as [n|].
    + injection E as <-. by rewrite shift_loop_length.
    + destruct (negb _); [done|]. by injection E as <-.
Qed.

(** A string [inet_pton6] reads has a colon and starts with a colon or with a
    hexadecimal digit; it gives 16 bytes. *)
Lemma inet_pton6_shape t bs :
  Pton.inet_pton6 t = Some bs ->
  length bs = 16%nat /\ chr_colon ∈ t /\ (isxdigit (hd 0 t) || (hd 0 t =? chr_colon)) = true.
Proof.
  unfold Pton.inet_pton6. destruct (Pton.pton6_start t) as [src|] eqn:Es; [|done]. simpl.
  destruct (Pton.pton6_loop src src false 0 _) as [[[s saw] val]|] eqn:El; [|done]. simpl. intros Ef.
  pose proof El as Hk. apply pton6_loop_keeps in Hk as [Hl Hc]; [|done]. simpl in Hc.
  split; [by eapply pton6_finish_length|].
  unfold Pton.pton6_start in Es. destruct t as [|ch t]; [injection Es as <-; by simplify_eq/=|].
  destruct (Z.eqb_spec ch chr_colon) as [->|Hn]; [split; [by left|done]|]. injection Es as <-. split.
  - destruct (decide (chr_colon ∈ ch :: t)) as [|Hin]; [done|]. specialize (Hc Hin) as [Hcol Htp].
    unfold Pton.pton6_finish in Ef. destruct Htp as [Htp|[Htp ->]]; [destruct saw|].
    + destruct (Pton.put_word s val) as [s1|] eqn:Ew; [|done]. simpl in Ef.
      apply put_word_keeps in Ew as (_ & Ht & Hco); [|done]. rewrite Hco, Hcol, Ht, Htp in Ef. done.
    + simpl in Ef. by rewrite Hcol, Htp in Ef.
    + simpl in Ef. by rewrite Hcol, Htp in Ef.
  - simpl. simpl in El. destruct (Pton.xdigit_of ch) as [d|] eqn:Ex.
    + unfold Pton.xdigit_of in Ex. unfold isxdigit, isdigit. by repeat (destruct (_ && _)).
    + rewrite (proj2 (Z.eqb_neq _ _) Hn) in El. destruct (Z.eqb_spec ch chr_dot) as [->|]; [|done]. done.
Qed.

Lemma digits_no_colon s : Forall is_digit s -> chr_colon ∉ s.
Proof.
  intros HF Hin. apply (proj1 (Forall_forall _ _) HF) in Hin. unfold is_digit, chr_colon in Hin. lia.
Qed.

(** A dotted quad has no colon and starts with a digit. *)
Lemma inet_pton4_shape t bs :
  Pton.inet_pton4 t = Some bs -> length bs = 4%nat /\ chr_colon ∉ t /\ isdigit (hd 0 t) = true.
Proof.
  intros E. split; [by eapply inet_pton4_length|].
  apply pton4_sound in E as (a & b & c & d & (Na & Ha & _) & (_ & Hb & _) & (_ & Hc & _) & (_ & Hd & _) & -> & _).
  apply digits_no_colon in Hb, Hc, Hd. pose proof (digits_no_colon _ Ha) as Ha'. unfold dotted. simpl. split.
  - unfold chr_dot, chr_colon in *. set_solver.
  - destruct a as [|x a]; [done|]. apply Forall_cons in Ha as [Hx _]. unfold is_digit in Hx. simpl. unfold isdigit. lia.
Qed.

(** What [getaddrinfo] takes for a literal is what one of the two functions reads,
    the dotted quads before the rest. *)
Lemma literal_spec host :
  literal host = match Pton.inet_pton4 host with
                 | Some a => Some (AF_INET, a)
                 | None => (fun a => (AF_INET6, a)) <$> Pton.inet_pton6 host
                 end.
Proof.
  unfold literal, pton. simpl. destruct (Pton.inet_pton4 host) as [a|] eqn:E4.
  { apply inet_pton4_shape in E4 as (_ & _ & ->). done. }
  destruct (Pton.inet_pton6 host) as [b|] eqn:E6.
  - apply inet_pton6_shape in E6 as (_ & Hc & ->). rewrite bool_decide_true by done. by destruct (isdigit _).
  - by destruct (isdigit _), (_ && _).
Qed.

(** ** What [getaddrinfo] promises *)

(** A structure of the answer, as the caller sees it. *)
Record answer := Answer {
  a_family : Z; a_socktype : Z; a_protocol : Z; a_addrlen : Z;
  a_addr : option sockaddr; a_canonname : option (list Z) }.

Definition view (ai : addrinfo) : answer :=
  Answer (ai_family ai) (ai_socktype ai) (ai_protocol ai) (ai_addrlen ai)
    (snd <$> ai_addr ai) (snd <$> ai_canonname ai).

(** The result, [None] where the process is ended. *)
Definition gai_view (r : gai) : option (eai + list answer) :=
  match r with GaiOk l => Some (inr (view <$> l)) | GaiErr e => Some (inl e) | GaiQuit => None end.

(** The address of a family, without a port. *)
Definition sa_of (fa : Z * list Z) : sockaddr := if fa.1 =? AF_INET then Sin 0 fa.2 else Sin6 0 fa.2.

Definition sa_len (fa : Z * list Z) : Z := if fa.1 =? AF_INET then sizeof_sockaddr_in else sizeof_sockaddr_in6.

(** The answer for an address before the service is known, for an address and a
    service, and for an address and all services. *)
Definition entry0 (hi : hints) (fa : Z * list Z) : answer :=
  Answer fa.1 (h_socktype hi) (h_protocol hi) (sa_len fa) (Some (sa_of fa)) None.

Definition at_port (port : Z) (sa : sockaddr) : sockaddr :=
  match sa with
  | Sin _ a => Sin (port mod 2 ^ 16) a
  | Sin6 _ a => Sin6 (port mod 2 ^ 16) a
  | sa => sa
  end.

Definition with_service (svc : Z * Z) (a : answer) : answer :=
  Answer (a_family a) svc.2 (a_protocol a) (a_addrlen a) (at_port svc.1 <$> a_addr a) (a_canonname a).

Definition entries (hi : hints) (svcs : list (Z * Z)) (addrs : list (Z * list Z)) : list answer :=
  concat ((fun fa => (fun svc => with_service svc (entry0 hi fa)) <$> svcs) <$> addrs).

(** The canonical name goes to the first answer. *)
Definition head_canon (c : option (list Z)) (l : list answer) : list answer :=
  match l with
  | [] => []
  | a :: l' => Answer (a_family a) (a_socktype a) (a_protocol a) (a_addrlen a) (a_addr a) c :: l'
  end.

(** A name that is given. *)
Definition named (s : option (list Z)) : bool := match s with Some (_ :: _) => true | _ => false end.

(** The bits of the flags: [AI_PASSIVE] is the lowest, [AI_CANONNAME] the next. *)
Definition passive (hi : hints) : bool := Z.testbit (h_flags hi) 0.
Definition canonical (hi : hints) : bool := Z.testbit (h_flags hi) 1.

(** The families and the socket types that each allows. *)
Definition known_types : list (Z * list Z) :=
  [(AF_INET, [SOCK_STREAM; SOCK_DGRAM; SOCK_RAW]); (AF_INET6, [SOCK_STREAM; SOCK_DGRAM; SOCK_RAW]);
   (AF_LOCAL, [SOCK_STREAM; SOCK_DGRAM])].

(** A request that makes no sense: unknown flags, nothing named, a family that is
    unknown, a socket type that the family does not have. *)
Definition request_error (hostname servname : option (list Z)) (hi : hints) : option eai :=
  if negb (bool_decide (0 <= h_flags hi <= 3)) then Some EAI_BADFLAGS
  else if negb (named hostname || named servname) then Some EAI_NONAME
  else if h_family hi =? AF_UNSPEC then None
  else match snd <$> head (filter (fun p => p.1 = h_family hi) known_types) with
       | None => Some EAI_FAMILY
       | Some types => if bool_decide (h_socktype hi ∈ 0 :: types) then None else Some EAI_SOCKTYPE
       end.

(** The names to resolve: one for each family wanted, IPv6 first; the host, or,
    if there is none, the wildcard or the loopback address of the family. *)
Definition default_name (hi : hints) (family : Z) : list Z :=
  match passive hi, family =? AF_INET6 with
  | true, true => codes "0::0"
  | true, false => codes "0.0.0.0"
  | false, true => codes "0::1"
  | false, false => codes "localhost"
  end.

Definition queries (hostname : option (list Z)) (hi : hints) : list search :=
  let wanted f := (h_family hi =? AF_UNSPEC) || (h_family hi =? f) in
  (fun f => Search (if named hostname then default [] hostname else default_name hi f) f) <$>
    filter (fun f => wanted f = true) [AF_INET6; AF_INET].

(** The error for a name that the resolver does not find. *)
Definition not_found (e : h_errno) : eai :=
  match e with
  | TRY_AGAIN => EAI_AGAIN | NO_RECOVERY => EAI_FAIL | NO_DATA => EAI_NODATA
  | HOST_NOT_FOUND | Hother => EAI_NONAME
  end.

(** A path is named on the local host. *)
Definition local_path (hostname servname : option (list Z)) : bool :=
  bool_decide (hostname = Some (codes "/local") \/ hostname = Some (codes "/unix")) &&
  bool_decide ((servname ≫= head) = Some 47).

Section Spec.
Variable getservbyname : list Z -> bool -> option Z.
Variable uname : option (list Z).
Variable gethostbyname2 : list Z -> Z -> h_errno + hostent.
Variable gethostbyname : bool -> list Z -> h_errno + hostent.

(** The services, as port and socket type: a number is good for the socket type
    asked for or for both, a name for those in which it is known. *)
Definition services (hi : hints) (serv : list Z) : list (Z * Z) :=
  let asked t := (h_socktype hi =? 0) || (h_socktype hi =? t) in
  if isdigit (hd 0 serv) then
    (fun t => (u16 (atoi serv), t)) <$>
      (if h_socktype hi =? 0 then [SOCK_STREAM; SOCK_DGRAM] else [h_socktype hi])
  else
    omap (fun '(t, tcp) => if asked t then (fun p => (p, t)) <$> getservbyname serv tcp else None)
      [(SOCK_STREAM, true); (SOCK_DGRAM, false)].

(** What the resolver is asked: both families by name and family, one family by
    name with the resolver's IPv6 option as the family says. *)
Definition resolve (n : nat) (sp : search) : h_errno + hostent :=
  match n with
  | 1%nat => gethostbyname (bool_decide (s_family sp = AF_INET6)) (s_host sp)
  | _ => gethostbyname2 (s_host sp) (s_family sp)
  end.

(** What one of [n] queries finds: an error, or a name and addresses; a name that is
    not found is no error where both families are asked for. *)
Definition found (hi : hints) (n : nat) (sp : search) : eai + (option (list Z) * list (Z * list Z)) :=
  let other af := negb (h_family hi =? AF_UNSPEC) && negb (h_family hi =? af) in
  match (match Pton.inet_pton4 (s_host sp) with
         | Some a => Some (AF_INET, a)
         | None => (fun a => (AF_INET6, a)) <$> Pton.inet_pton6 (s_host sp)
         end) with
  | Some (af, a) =>
      if other af then inl EAI_ADDRFAMILY else inr (None, if s_family sp =? af then [(af, a)] else [])
  | None =>
      match resolve n sp with
      | inl e => if (n =? 2)%nat then inr (None, []) else inl (not_found e)
      | inr hp =>
          if other (h_addrtype hp) then inl EAI_ADDRFAMILY
          else inr (Some (h_name hp), (fun a => (h_addrtype hp, a)) <$> h_addr_list hp)
      end
  end.

(** All queries: the first error, else the first name and all addresses. *)
Fixpoint found_all (hi : hints) (n : nat) (l : list search) : eai + (option (list Z) * list (Z * list Z)) :=
  match l with
  | [] => inr (None, [])
  | sp :: l' =>
      match found hi n sp with
      | inl e => inl e
      | inr (c1, a1) =>
          match found_all hi n l' with
          | inl e => inl e
          | inr (c2, a2) => inr (match c1 with Some _ => c1 | None => c2 end, a1 ++ a2)
          end
      end
  end.

Definition unix_spec (path : list Z) (hi : hints) : eai + list answer :=
  let types := if h_socktype hi =? 0 then [SOCK_STREAM; SOCK_DGRAM] else [h_socktype hi] in
  let l := (fun t => Answer AF_LOCAL t (h_protocol hi) sizeof_sockaddr_un (Some (Sun path)) None) <$> types in
  if negb (h_family hi =? AF_UNSPEC) && negb (h_family hi =? AF_LOCAL) then inl EAI_ADDRFAMILY
  else if Z.of_nat (length path) >=? sizeof_sun_path then inl EAI_SERVICE
  else if canonical hi then
    match uname with None => inl EAI_SYSTEM | Some name => inr (head_canon (Some name) l) end
  else inr l.

Definition serv_spec (hi : hints) (servname c : option (list Z)) (addrs : list (Z * list Z)) : eai + list answer :=
  match servname with
  | Some (ch :: serv) =>
      match services hi (ch :: serv) with
      | [] => inl (if h_socktype hi =? 0 then EAI_NONAME else EAI_SERVICE)
      | svcs => inr (head_canon c (entries hi svcs addrs))
      end
  | _ => inr (head_canon c (entry0 hi <$> addrs))
  end.

Definition gai_spec (hostname servname : option (list Z)) (hintsp : option hints) : option (eai + list answer) :=
  let hi := default hints0 hintsp in
  match request_error hostname servname hi with
  | Some e => Some (inl e)
  | None =>
  if local_path hostname servname then Some (unix_spec (default [] servname) hi)
  else
  match queries hostname hi with
  | [] => None
  | q :: qs =>
      Some match found_all hi (length (q :: qs)) (q :: qs) with
           | inl e => inl e
           | inr (_, []) => inl EAI_NONAME
           | inr (c, addrs) =>
               serv_spec hi servname
                 (if named hostname && canonical hi then Some (default (s_host q) c) else None) addrs
           end
  end end.

End Spec.

(** What the code relies on: the resolver answers with IPv4 addresses of four
    bytes or with IPv6 addresses of sixteen. *)
Definition address_ok (fa : Z * list Z) : Prop :=
  (fa.1 = AF_INET /\ length fa.2 = 4%nat) \/ (fa.1 = AF_INET6 /\ length fa.2 = 16%nat).

Definition hostent_ok (hp : hostent) : Prop := Forall (fun a => address_ok (h_addrtype hp, a)) (h_addr_list hp).

Definition resolver_ok (gethostbyname2 : list Z -> Z -> h_errno + hostent)
    (gethostbyname : bool -> list Z -> h_errno + hostent) : Prop :=
  (forall s af hp, gethostbyname2 s af = inr hp -> hostent_ok hp) /\
  (forall b s hp, gethostbyname b s = inr hp -> hostent_ok hp).

(** *** The specification and the code's own checks *)

Lemma set_port_spec port sa : set_port port sa = at_port port sa.
Proof. by destruct sa. Qed.

Lemma absent_named s : absent s = negb (named s).
Proof. by destruct s as [[|]|]. Qed.

(** A flag tested with a mask and with its bit. *)
Lemma has_flag_bit flags n : 0 <= n -> has_flag flags (2 ^ n) = Z.testbit flags n.
Proof.
  intros Hn. unfold has_flag. destruct (Z.testbit flags n) eqn:E.
  - apply negb_true_iff, Z.eqb_neq. intros H. assert (Z.testbit (Z.land flags (2 ^ n)) n = false) as Hb
      by (rewrite H; apply Z.bits_0).
    by rewrite Z.land_spec, E, Z.pow2_bits_true in Hb.
  - apply negb_false_iff, Z.eqb_eq, Z.bits_inj'. intros k Hk. rewrite Z.land_spec, Z.bits_0.
    destruct (decide (n = k)) as [<-|Hne]; [by rewrite E|]. by rewrite Z.pow2_bits_false, andb_false_r.
Qed.

Lemma wants_canon_spec hostname hi : wants_canon hostname hi = named hostname && canonical hi.
Proof.
  unfold wants_canon, canonical. rewrite absent_named, negb_involutive. by rewrite <- has_flag_bit.
Qed.

Lemma ldiff_flags flags : (Z.ldiff flags (Z.lor AI_PASSIVE AI_CANONNAME) =? 0) = bool_decide (0 <= flags <= 3).
Proof.
  change (Z.lor AI_PASSIVE AI_CANONNAME) with (Z.ones 2). rewrite Z.ldiff_ones_r by lia.
  rewrite Z.shiftl_mul_pow2, Z.shiftr_div_pow2 by lia. change (2 ^ 2) with 4.
  pose proof (Z.div_mod flags 4 ltac:(lia)). pose proof (Z.mod_pos_bound flags 4 ltac:(lia)).
  case_bool_decide; lia.
Qed.

(** The socket types of a known family. *)
Ltac type_case :=
  simpl; case_bool_decide as Hs; set_unfold in Hs; unfold SOCK_STREAM, SOCK_DGRAM, SOCK_RAW in *;
  destruct (_ && _) eqn:?; try done; lia.

Lemma echeck_spec hostname servname hi :
  ga_echeck hostname servname (h_flags hi) (h_family hi) (h_socktype hi) = request_error hostname servname hi.
Proof.
  unfold ga_echeck, request_error. rewrite ldiff_flags, !absent_named, <- negb_orb.
  destruct (negb _); [done|]. destruct (negb _); [done|]. destruct (Z.eqb_spec (h_family hi) AF_UNSPEC) as [|Hu]; [done|].
  unfold AF_UNSPEC in Hu. unfold known_types.
  destruct (Z.eqb_spec (h_family hi) AF_INET) as [->|H4]; [type_case|].
  destruct (Z.eqb_spec (h_family hi) AF_INET6) as [->|H6]; [type_case|].
  destruct (Z.eqb_spec (h_family hi) AF_LOCAL) as [->|Hl]; [type_case|].
  cbn [orb]. rewrite !filter_cons_False by (simpl; congruence). done.
Qed.

Lemma nsearch_spec hostname hi :
  ga_nsearch hostname hi = match queries hostname hi with [] => None | q :: qs => Some (q :: qs) end.
Proof.
  unfold ga_nsearch, queries, nsearch_switch, default_name, passive.
  change AI_PASSIVE with (2 ^ 0). rewrite (has_flag_bit (h_flags hi) 0) by done.
  destruct (Z.eqb_spec (h_family hi) AF_INET) as [->|H4]; [by destruct hostname as [[|]|], (Z.testbit _ 0)|].
  destruct (Z.eqb_spec (h_family hi) AF_INET6) as [->|H6]; [by destruct hostname as [[|]|], (Z.testbit _ 0)|].
  destruct (Z.eqb_spec (h_family hi) AF_UNSPEC) as [->|Hu]; [by destruct hostname as [[|]|], (Z.testbit _ 0)|].
  rewrite !filter_cons_False by (simpl; lia). by destruct hostname as [[|]|], (Z.testbit _ 0).
Qed.

Lemma local_path_spec hostname servname :
  is_unix_host hostname && starts_with_slash servname = local_path hostname servname.
Proof.
  unfold local_path. f_equal.
  - destruct hostname as [s|]; simpl; [|done].
    unfold str_eqb, str_local, str_unix. repeat case_bool_decide; naive_solver.
  - destruct servname as [[|c s]|]; simpl; [done| |done]. case_bool_decide; [|apply Z.eqb_neq]; naive_solver lia.
Qed.

Lemma eai_of_h_errno_spec e : eai_of_h_errno e = not_found e.
Proof. by destruct e. Qed.

Lemma lookup_host_spec gethostbyname2 gethostbyname n sp :
  n = 1%nat \/ n = 2%nat ->
  lookup_host gethostbyname2 gethostbyname n sp = resolve gethostbyname2 gethostbyname n sp.
Proof.
  unfold lookup_host. intros [-> | ->]; simpl; [|done]. f_equal.
  by case_bool_decide; [apply Z.eqb_eq|apply Z.eqb_neq].
Qed.

(** One query, or one for each family. *)
Lemma queries_length hostname hi q qs :
  queries hostname hi = q :: qs -> length (q :: qs) = 1%nat \/ length (q :: qs) = 2%nat.
Proof.
  intros E. rewrite <- E. unfold queries. rewrite length_fmap.
  pose proof (length_filter (fun f : Z => (h_family hi =? AF_UNSPEC) || (h_family hi =? f) = true)
    [AF_INET6; AF_INET]) as Hl.
  destruct (filter _ _) as [|x l] eqn:Ef; [unfold queries in E; by rewrite Ef in E|]. simpl in *. lia.
Qed.

Section Refinement.
Variable fails : nat -> bool.

(** Some allocation fails. *)
Definition oom : Prop := exists n, fails n = true.

Lemma alloc_view h r h' : alloc fails h = (r, h') -> r = None -> oom.
Proof.
  unfold alloc, oom. destruct (fails (nalloc h)) eqn:E; intros [= <- <-]; [by eauto|done].
Qed.

(** What the search leaves in the list: addresses without a port, marked for
    cloning if no socket type is asked for. *)
Definition fresh_ai (hi : hints) (ai : addrinfo) : Prop :=
  ai_flags ai = (if h_socktype hi =? 0 then AI_CLONE else 0) /\ ai_socktype ai = h_socktype hi /\
  (ai_family ai = AF_INET \/ ai_family ai = AF_INET6) /\ ai_addr ai <> None.

Lemma ga_aistruct_view hi fa h a e h' :
  address_ok fa -> ga_aistruct fails hi fa.2 fa.1 h = (a, e, h') ->
  (e = Some EAI_MEMORY /\ oom) \/
  (e = None /\ exists ai, a = Some ai /\ view ai = entry0 hi fa /\ fresh_ai hi ai).
Proof.
  destruct fa as [f addr]. unfold address_ok; simpl. intros Hok. unfold ga_aistruct.
  destruct (alloc fails h) as [[id|] h1] eqn:E1; [|intros [= <- <- <-]; left; split; [done|by eapply alloc_view]].
  destruct (alloc fails h1) as [[b|] h2] eqn:E2.
  - destruct Hok as [[-> Hl]|[-> Hl]]; simpl; intros [= <- <- <-]; right; (split; [done|]); eexists;
      (split; [done|]); (split; [unfold view, entry0; simpl; rewrite take_ge by lia; done|]);
      unfold fresh_ai; simpl; auto.
  - destruct Hok as [[-> Hl]|[-> Hl]]; simpl; intros [= <- <- <-]; left; (split; [done|]); by eapply alloc_view.
Qed.

(** The view of the search's variables. *)
Definition gs_view (hi : hints) (s : gs) (c : option (list Z)) (addrs : list (Z * list Z)) : Prop :=
  view <$> g_list s = entry0 hi <$> addrs /\ snd <$> g_canon s = c /\ Forall (fresh_ai hi) (g_list s).

Lemma add_ai_view hi fa s s' e c addrs :
  address_ok fa -> gs_view hi s c addrs -> add_ai fails hi fa.2 fa.1 s = (s', e) ->
  (e = Some EAI_MEMORY /\ oom) \/ (e = None /\ gs_view hi s' c (addrs ++ [fa])).
Proof.
  intros Hok (H1 & H2 & H3). unfold add_ai.
  destruct (ga_aistruct _ _ _ _ _) as [[a e1] h1] eqn:E.
  apply ga_aistruct_view in E as [[-> Ho]|(-> & ai & -> & Hv & Hf)]; [..|done]; intros [= <- <-]; [by left|right].
  split; [done|]. split_and!; simpl; [|done|].
  - rewrite !fmap_app, H1. simpl. by rewrite Hv.
  - apply Forall_app. split; [done|]. by constructor.
Qed.

Lemma add_ais_view hi f l c : forall addrs s s' e,
  Forall (fun a => address_ok (f, a)) l -> gs_view hi s c addrs -> add_ais fails hi l f s = (s', e) ->
  (e = Some EAI_MEMORY /\ oom) \/ (e = None /\ gs_view hi s' c (addrs ++ ((fun a => (f, a)) <$> l))).
Proof.
  induction l as [|a l IH]; intros addrs s s' e HF Hs; simpl.
  { intros [= <- <-]. right. by rewrite app_nil_r. }
  apply Forall_cons in HF as [Ha HF]. destruct (add_ai fails hi a f s) as [s1 e1] eqn:E.
  apply (add_ai_view hi (f, a) _ _ _ _ _ Ha Hs) in E as [[-> Ho]|[-> Hs1]]; [intros [= <- <-]; by left|].
  intros E. apply (IH _ _ _ _ HF Hs1) in E as [?|[-> H]]; [by left|right]. split; [done|].
  by rewrite <- app_assoc in H.
Qed.

Variable gethostbyname2 : list Z -> Z -> h_errno + hostent.
Variable gethostbyname : bool -> list Z -> h_errno + hostent.
Hypothesis Hres : resolver_ok gethostbyname2 gethostbyname.

Lemma lookup_host_ok n sp hp : lookup_host gethostbyname2 gethostbyname n sp = inr hp -> hostent_ok hp.
Proof. destruct Hres. unfold lookup_host. destruct (n =? 2)%nat; eauto. Qed.

Definition merge_canon (hostname : option (list Z)) (hi : hints) (c1 c2 : option (list Z)) : option (list Z) :=
  match c1 with Some _ => c1 | None => if wants_canon hostname hi then c2 else None end.

Lemma save_canon_view hostname hi name s s' e c addrs :
  gs_view hi s c addrs -> save_canon fails hostname hi name s = (s', e) ->
  (e = Some EAI_MEMORY /\ oom) \/ (e = None /\ gs_view hi s' (merge_canon hostname hi c (Some name)) addrs).
Proof.
  intros (H1 & H2 & H3). unfold save_canon, merge_canon. destruct (wants_canon hostname hi); simpl.
  - destruct (g_canon s) as [[b nm]|] eqn:Ec; simpl in H2; subst c; simpl.
    + intros [= <- <-]. right. split; [done|]. split_and!; [done|by rewrite Ec|done].
    + destruct (alloc fails (g_heap s)) as [[b|] h1] eqn:E; intros [= <- <-]; [by right|left].
      split; [done|]. by eapply alloc_view.
  - intros [= <- <-]. right. split; [done|]. split_and!; [done| |done]. rewrite H2. by destruct c.
Qed.

Lemma literal_ok host af a : literal host = Some (af, a) -> address_ok (af, a).
Proof.
  rewrite literal_spec. destruct (Pton.inet_pton4 host) as [b|] eqn:E4.
  - intros [= <- <-]. left. split; [done|]. by eapply inet_pton4_length.
  - destruct (Pton.inet_pton6 host) as [b|] eqn:E6; [|done]. intros [= <- <-]. right. split; [done|].
    by apply inet_pton6_shape in E6 as [? _].
Qed.

Lemma search_one_view hostname hi n sp s s' e c addrs :
  n = 1%nat \/ n = 2%nat ->
  gs_view hi s c addrs -> search_one fails gethostbyname2 gethostbyname hostname hi n sp s = (s', e) ->
  (e = Some EAI_MEMORY /\ oom) \/
  match found gethostbyname2 gethostbyname hi n sp with
  | inl e1 => e = Some e1
  | inr (c1, a1) => e = None /\ gs_view hi s' (merge_canon hostname hi c c1) (addrs ++ a1)
  end.
Proof.
  intros Hn Hs. unfold search_one, found. rewrite <- literal_spec, <- lookup_host_spec by done.
  assert (merge_canon hostname hi c None = c) as Hc by (unfold merge_canon; by destruct c, (wants_canon hostname hi)).
  destruct (literal (s_host sp)) as [[af a]|] eqn:El.
  { unfold add_literal. destruct (_ && _); [intros [= <- <-]; by right|]. rewrite Hc.
    destruct (s_family sp =? af); simpl; [|intros [= <- <-]; right; by rewrite app_nil_r].
    intros E. apply (add_ai_view hi (af, a) _ _ _ _ _ (literal_ok _ _ _ El) Hs) in E. tauto. }
  destruct (lookup_host _ _ n sp) as [e1|hp] eqn:Eh.
  { destruct (n =? 2)%nat; intros [= <- <-]; right; [by rewrite Hc, app_nil_r|by rewrite eai_of_h_errno_spec]. }
  apply lookup_host_ok in Eh. destruct (_ && _); [intros [= <- <-]; by right|].
  destruct (save_canon _ _ _ _ _) as [s1 e1] eqn:Ec.
  apply (save_canon_view _ _ _ _ _ _ _ _ Hs) in Ec as [[-> Ho]|[-> Hs1]]; [intros [= <- <-]; by left|].
  intros E. by apply (add_ais_view _ _ _ _ _ _ _ _ Eh Hs1) in E.
Qed.

Lemma merge_canon_assoc hostname hi c c1 c2 :
  merge_canon hostname hi (merge_canon hostname hi c c1) c2 =
  merge_canon hostname hi c (match c1 with Some _ => c1 | None => c2 end).
Proof. unfold merge_canon. by destruct c, c1, (wants_canon hostname hi). Qed.

Lemma search_loop_view hostname hi n l : n = 1%nat \/ n = 2%nat -> forall s s' e c addrs,
  gs_view hi s c addrs -> search_loop fails gethostbyname2 gethostbyname hostname hi n l s = (s', e) ->
  (e = Some EAI_MEMORY /\ oom) \/
  match found_all gethostbyname2 gethostbyname hi n l with
  | inl e1 => e = Some e1
  | inr (c1, a1) => e = None /\ gs_view hi s' (merge_canon hostname hi c c1) (addrs ++ a1)
  end.
Proof.
  intros Hn. induction l as [|sp l IH]; intros s s' e c addrs Hs; simpl.
  { intros [= <- <-]. right. rewrite app_nil_r. unfold merge_canon. by destruct c, (wants_canon hostname hi). }
  destruct (search_one _ _ _ _ _ _ _ _) as [s1 e1] eqn:E1.
  apply (search_one_view _ _ _ _ _ _ _ _ _ Hn Hs) in E1 as [[-> Ho]|E1]; [intros [= <- <-]; by left|].
  destruct (found _ _ hi n sp) as [e2|[c1 a1]]; [subst e1; intros [= <- <-]; by right|].
  destruct E1 as [-> Hs1]. intros E. apply (IH _ _ _ _ _ Hs1) in E as [?|E]; [by left|right].
  destruct (found_all _ _ hi n l) as [e2|[c2 a2]]; [done|].
  by rewrite merge_canon_assoc, <- app_assoc in E.
Qed.

Definition inet (ai : addrinfo) : Prop :=
  (ai_family ai = AF_INET \/ ai_family ai = AF_INET6) /\ ai_addr ai <> None.

Lemma fill_port_view port st ai :
  inet ai -> view (fill_port port st ai).1 = with_service (port, st) (view ai) /\ (fill_port port st ai).2 = 1.
Proof.
  intros [[E|E] _]; unfold fill_port, view, with_service; rewrite E; simpl;
    destruct (ai_addr ai) as [[b sa]|]; simpl; by rewrite ?set_port_spec.
Qed.

(** A call that finds the structures unused, or with the socket type it looks for. *)
Lemma ga_port_first l port st h :
  Forall (fun ai => inet ai /\
    ai_socktype ai = if has_flag (ai_flags ai) AI_CLONE then 0 else st) l ->
  ga_port fails l port st h =
    ((fun ai => (fill_port port st ai).1) <$> l, Some (Z.of_nat (length l)), h).
Proof.
  induction 1 as [|ai l [Hi Hst] _ IH]; [done|]. cbn [ga_port]. rewrite IH.
  destruct (fill_port_view port st ai Hi) as [_ Hk].
  cbn [fmap list_fmap length]. destruct (fill_port port st ai) as [ai' k]. simpl in Hk. subst k.
  destruct (has_flag (ai_flags ai) AI_CLONE); rewrite Hst, Z.eqb_refl; simpl; do 3 f_equal; lia.
Qed.

Definition no_canon (a : answer) : answer :=
  Answer (a_family a) (a_socktype a) (a_protocol a) (a_addrlen a) (a_addr a) None.

(** A call that finds them used, and clones them. *)
Lemma ga_port_second l port st : forall h l' n h',
  Forall (fun ai => inet ai /\ has_flag (ai_flags ai) AI_CLONE = true /\ ai_socktype ai <> 0) l ->
  ga_port fails l port st h = (l', n, h') ->
  (n = None /\ oom) \/
  (n = Some (Z.of_nat (length l)) /\
   view <$> l' = concat ((fun ai => [view ai; with_service (port, st) (no_canon (view ai))]) <$> l)).
Proof.
  induction l as [|ai l IH]; intros h l' n h' HF; [intros [= <- <- <-]; by right|].
  apply Forall_cons in HF as [(Hi & Hf & Hst) HF]. cbn [ga_port]. rewrite Hf, (proj2 (Z.eqb_neq _ _) Hst). simpl negb.
  unfold ga_clone. destruct (alloc fails h) as [[id|] h1] eqn:E1; cycle 1.
  { intros [= <- <- <-]. left. split; [done|by eapply alloc_view]. }
  destruct (alloc fails h1) as [[b|] h2] eqn:E2; cycle 1.
  { intros [= <- <- <-]. left. split; [done|by eapply alloc_view]. }
  set (new := AddrInfo id 0 _ _ _ _ _ _).
  assert (view new = no_canon (view ai)) as Hv.
  { destruct Hi as [_ Hi]. unfold new, view, no_canon; simpl. by destruct (ai_addr ai) as [[? ?]|]. }
  destruct (fill_port_view port st new) as [Hw Hk]; [by destruct Hi|].
  destruct (fill_port port st new) as [new' k]. simpl in Hw, Hk. subst k.
  destruct (ga_port fails l port st h2) as [[r n1] h3] eqn:E3.
  intros [= <- <- <-]. apply IH in E3 as [[-> Ho]|[-> Hr]]; [by left|right|done].
  split; [simpl; f_equal; lia|]. cbn [fmap list_fmap concat app]. by rewrite Hw, Hv, Hr.
Qed.

(** The list that the service is filled into. *)
Definition ready (hi : hints) (l : list addrinfo) : Prop :=
  Forall (fun ai => inet ai /\ ai_flags ai = (if h_socktype hi =? 0 then AI_CLONE else 0) /\
                    ai_socktype ai = h_socktype hi) l.

Lemma ready_first hi l port st h :
  ready hi l -> h_socktype hi = 0 \/ h_socktype hi = st ->
  ga_port fails l port st h =
    ((fun ai => (fill_port port st ai).1) <$> l, Some (Z.of_nat (length l)), h).
Proof.
  intros Hr Hst. apply ga_port_first. eapply Forall_impl; [exact Hr|]. intros ai (Hi & -> & ->). split; [done|].
  destruct (Z.eqb_spec (h_socktype hi) 0) as [E|E]; simpl; [done|]. destruct Hst; [done|done].
Qed.

Lemma ready_view hi l svc :
  ready hi l -> view <$> ((fun ai => (fill_port svc.1 svc.2 ai).1) <$> l) = with_service svc <$> (view <$> l).
Proof.
  destruct svc as [port st]. induction 1 as [|ai l (Hi & _) _ IH]; [done|]. cbn [fmap list_fmap] in *.
  rewrite IH. f_equal. by apply fill_port_view.
Qed.

(** All services for all structures. *)
Definition expand (svcs : list (Z * Z)) (l : list answer) : list answer :=
  concat ((fun a => match svcs with
                    | [] => []
                    | svc :: svcs => with_service svc a :: ((fun svc => with_service svc (no_canon a)) <$> svcs)
                    end) <$> l).

Lemma expand_one svc l : expand [svc] l = with_service svc <$> l.
Proof. unfold expand. induction l as [|a l IH]; simpl; [done|]. f_equal. exact IH. Qed.

Variable getservbyname : list Z -> bool -> option Z.

(** The two calls of [ga_port] fill in the services. *)
Lemma first_only hi l svc h l' n h' :
  ready hi l -> h_socktype hi = 0 \/ h_socktype hi = svc.2 ->
  ga_port fails l svc.1 svc.2 h = (l', n, h') ->
  n = Some (Z.of_nat (length l)) /\ view <$> l' = expand [svc] (view <$> l).
Proof.
  intros Hr Hst. rewrite (ready_first _ _ _ _ _ Hr Hst). intros [= <- <- <-]. split; [done|].
  rewrite expand_one. by apply (ready_view hi).
Qed.

Lemma first_and_second hi l p1 p2 h l' n h' :
  ready hi l -> h_socktype hi = 0 ->
  ga_port2 fails l (Some (p1, SOCK_STREAM)) (Some (p2, SOCK_DGRAM)) h = (l', n, h') ->
  (n = None /\ oom) \/
  (n = Some (Z.of_nat (length l) + Z.of_nat (length l)) /\
   view <$> l' = expand [(p1, SOCK_STREAM); (p2, SOCK_DGRAM)] (view <$> l)).
Proof.
  intros Hr Hst. unfold ga_port2; simpl. rewrite (ready_first hi) by auto.
  set (l1 := _ <$> l). assert (length l1 = length l) as Hl by apply length_fmap.
  destruct (ga_port fails l1 p2 SOCK_DGRAM h) as [[l2 n2] h2] eqn:E.
  apply ga_port_second in E as [[-> Ho]|[-> Hv]]; [intros [= <- <- <-]; by left|..].
  - intros [= <- <- <-]. right. rewrite Hl. split; [done|]. rewrite Hv. unfold expand. f_equal. unfold l1.
    clear - Hr Hst. induction Hr as [|ai l (Hi & _) _ IH]; [done|]. cbn [fmap list_fmap]. f_equal; [|exact IH].
    destruct (fill_port_view p1 SOCK_STREAM ai Hi) as [-> _]. simpl. do 2 f_equal.
    unfold with_service, no_canon; simpl. f_equal. by destruct (snd <$> ai_addr ai) as [[]|].
  - unfold l1. apply Forall_fmap. eapply Forall_impl; [exact Hr|]. intros ai (Hi & Hf & Hs). rewrite Hst in Hf. simpl.
    unfold fill_port; simpl. split_and!; [|by rewrite Hf|done].
    destruct Hi as [Hi Ha]. split; simpl; [done|]. by destruct (_ || _), (ai_addr ai) as [[? ?]|].
Qed.

(** The two calls of [ga_port] fill in the services. *)
Lemma ga_port2_view hi l serv first second h l' n h' :
  ready hi l -> l <> [] -> serv_calls getservbyname hi serv = (first, second) ->
  ga_port2 fails l first second h = (l', n, h') ->
  (n = None /\ oom) \/
  (services getservbyname hi serv = [] /\ n = Some 0) \/
  (services getservbyname hi serv <> [] /\ (exists k, n = Some k /\ k <> 0) /\
   view <$> l' = expand (services getservbyname hi serv) (view <$> l)).
Proof.
  intros Hr Hl. assert (Z.of_nat (length l) <> 0) as Hn by (by destruct l).
  assert (Hboth : forall p1 p2, h_socktype hi = 0 ->
    ga_port2 fails l (Some (p1, SOCK_STREAM)) (Some (p2, SOCK_DGRAM)) h = (l', n, h') ->
    (n = None /\ oom) \/ ((exists k, n = Some k /\ k <> 0) /\
    view <$> l' = expand [(p1, SOCK_STREAM); (p2, SOCK_DGRAM)] (view <$> l))).
  { intros p1 p2 Hst E. apply (first_and_second hi) in E as [?|[-> ->]]; [by left|right|done..].
    split; [|done]. eexists. split; [done|]. lia. }
  assert (Hone : forall svc, h_socktype hi = 0 \/ h_socktype hi = svc.2 ->
    ga_port2 fails l (Some svc) None h = (l', n, h') \/ ga_port2 fails l None (Some svc) h = (l', n, h') ->
    (exists k, n = Some k /\ k <> 0) /\ view <$> l' = expand [svc] (view <$> l)).
  { intros [port st] Hst E. unfold ga_port2 in E; simpl in E.
    destruct (ga_port fails l port st h) as [[l1 n1] h1] eqn:E1.
    apply (first_only hi l (port, st)) in E1 as [-> <-]; [|done..].
    destruct E as [[= <- <- <-]|[= <- <- <-]]; (split; [|done]); eexists; (split; [done|]); lia. }
  unfold serv_calls, services. destruct (isdigit (hd 0 serv)).
  - destruct (Z.eqb_spec (h_socktype hi) 0) as [E0|E0]; simpl; intros [= <- <-] E.
    + apply Hboth in E as [?|[? ?]]; [by left| |done]. by right; right.
    + right; right. destruct (Hone (u16 (atoi serv), h_socktype hi)) as [? ?]; [by right|by left|done].
  - destruct (Z.eqb_spec (h_socktype hi) 0) as [E0|E0]; simpl.
    + destruct (getservbyname serv true) as [p1|], (getservbyname serv false) as [p2|]; simpl; intros [= <- <-] E.
      * apply Hboth in E as [?|[? ?]]; [by left| |done]. by right; right.
      * right; right. destruct (Hone (p1, SOCK_STREAM)) as [? ?]; [by left|by left|done].
      * right; right. destruct (Hone (p2, SOCK_DGRAM)) as [? ?]; [by left|by right|done].
      * injection E as <- <- <-. by right; left.
    + destruct (Z.eqb_spec (h_socktype hi) SOCK_STREAM) as [E1|E1]; simpl.
      * rewrite E1. simpl. destruct (getservbyname serv true) as [p1|]; simpl; intros [= <- <-] E.
        -- right; right. destruct (Hone (p1, SOCK_STREAM)) as [? ?]; [by right|by left|done].
        -- injection E as <- <- <-. by right; left.
      * destruct (Z.eqb_spec (h_socktype hi) SOCK_DGRAM) as [E2|E2]; simpl.
        -- destruct (getservbyname serv false) as [p2|]; simpl; intros [= <- <-] E.
           ++ right; right. destruct (Hone (p2, SOCK_DGRAM)) as [? ?]; [by right|by right|done].
           ++ injection E as <- <- <-. by right; left.
        -- intros [= <- <-] E. injection E as <- <- <-. by right; left.
Qed.

Lemma expand_entries hi svcs c addrs :
  svcs <> [] -> expand svcs (head_canon c (entry0 hi <$> addrs)) = head_canon c (entries hi svcs addrs).
Proof.
  intros Hs. destruct svcs as [|svc svcs]; [done|].
  assert (forall addrs, expand (svc :: svcs) (entry0 hi <$> addrs) = entries hi (svc :: svcs) addrs) as Hx.
  { intros l. unfold expand, entries. f_equal. rewrite <- list_fmap_compose. done. }
  destruct addrs as [|fa addrs]; [done|]. specialize (Hx addrs). unfold expand, entries in *.
  cbn [fmap list_fmap head_canon concat app]. do 2 f_equal. exact Hx.
Qed.

Lemma ready_of_fresh hi l : Forall (fresh_ai hi) l -> ready hi l.
Proof. intros H. eapply Forall_impl; [exact H|]. intros ai (? & ? & ? & ?). done. Qed.

Lemma put_canon_view hostname hi host0 s l e h c addrs :
  gs_view hi s (if wants_canon hostname hi then c else None) addrs ->
  put_canon fails hostname hi host0 s = (l, e, h) ->
  (e = Some EAI_MEMORY /\ oom) \/
  (e = None /\ ready hi l /\
   view <$> l = head_canon (if wants_canon hostname hi then Some (default host0 c) else None) (entry0 hi <$> addrs)).
Proof.
  intros (H1 & H2 & H3) Hp. apply ready_of_fresh in H3.
  assert (Hset : forall b nm, ready hi (set_head_canon (b, nm) (g_list s)) /\
            view <$> set_head_canon (b, nm) (g_list s) = head_canon (Some nm) (entry0 hi <$> addrs)).
  { intros b nm. rewrite <- H1. destruct (g_list s) as [|ai l1]; [done|]. simpl. split; [|done].
    apply Forall_cons in H3 as [? ?]. by constructor. }
  unfold put_canon in Hp. destruct (wants_canon hostname hi).
  - destruct (g_canon s) as [[b nm]|] eqn:Ec; simpl in H2; subst c; simpl.
    + injection Hp as <- <- <-. right. split; [done|]. apply Hset.
    + destruct (alloc fails (g_heap s)) as [[b|] h1] eqn:E; injection Hp as <- <- <-.
      * right. split; [done|]. apply Hset.
      * left. split; [done|by eapply alloc_view].
  - injection Hp as <- <- <-. right. split; [done|]. split; [done|]. rewrite H1. by destruct addrs.
Qed.

Lemma gai_finish_view hi servname l h r h' c addrs :
  ready hi l -> view <$> l = head_canon c (entry0 hi <$> addrs) -> addrs <> [] ->
  gai_finish fails getservbyname hi servname l h = (r, h') ->
  (r = GaiErr EAI_MEMORY /\ oom) \/ gai_view r = Some (serv_spec getservbyname hi servname c addrs).
Proof.
  intros Hr Hv Hne. assert (l <> []) as Hl by (intros ->; by destruct addrs).
  unfold gai_finish, serv_spec, bad.
  destruct servname as [[|ch serv]|]; [intros [= <- <-]; right; simpl; by rewrite Hv| |intros [= <- <-]; right; simpl; by rewrite Hv].
  unfold ga_serv. destruct (serv_calls _ hi (ch :: serv)) as [first second] eqn:Ec.
  destruct (ga_port2 _ _ _ _ _) as [[l1 n] h1] eqn:Ep.
  apply (ga_port2_view _ _ _ _ _ _ _ _ _ Hr Hl Ec) in Ep as [[-> Ho]|[[-> ->]|(Hs & (k & -> & Hk) & Hw)]].
  - intros [= <- <-]. by left.
  - simpl. intros [= <- <-]. by right.
  - rewrite (proj2 (Z.eqb_neq _ _) Hk). intros [= <- <-]. right. simpl. rewrite Hw, Hv, expand_entries by done.
    by destruct (services _ _ _).
Qed.

Variable uname : option (list Z).

Lemma unix_aistruct_view hi path h a e h' :
  ga_aistruct fails hi path AF_LOCAL h = (a, e, h') ->
  (e = Some EAI_MEMORY /\ oom) \/
  (if Z.of_nat (length path) >=? sizeof_sun_path then e = Some EAI_SERVICE
   else e = None /\ exists ai, a = Some ai /\
     view ai = Answer AF_LOCAL (h_socktype hi) (h_protocol hi) sizeof_sockaddr_un (Some (Sun path)) None).
Proof.
  unfold ga_aistruct.
  destruct (alloc fails h) as [[id|] h1] eqn:E1; [|intros [= <- <- <-]; left; split; [done|by eapply alloc_view]].
  simpl. destruct (_ >=? _); [intros [= <- <- <-]; by right|].
  destruct (alloc fails h1) as [[b|] h2] eqn:E2; intros [= <- <- <-]; [right|left; split; [done|by eapply alloc_view]].
  split; [done|]. by eexists.
Qed.

Lemma ga_unix_canon_view hi ai l h r h' :
  ga_unix_canon fails uname hi (ai :: l) h = (r, h') ->
  (r = GaiErr EAI_MEMORY /\ oom) \/
  gai_view r = Some (if canonical hi then
                       match uname with
                       | None => inl EAI_SYSTEM
                       | Some name => inr (head_canon (Some name) (view <$> ai :: l))
                       end
                     else inr (view <$> ai :: l)).
Proof.
  unfold ga_unix_canon, canonical. rewrite <- has_flag_bit by done. destruct (has_flag _ _); [|intros [= <- <-]; by right].
  destruct uname as [nm|]; [|intros [= <- <-]; by right].
  destruct (alloc fails h) as [[b|] h1] eqn:E; intros [= <- <-]; [by right|left; split; [done|by eapply alloc_view]].
Qed.

Lemma ga_unix_view path hi h r h' :
  ga_unix fails uname path hi h = (r, h') ->
  (r = GaiErr EAI_MEMORY /\ oom) \/ gai_view r = Some (unix_spec uname path hi).
Proof.
  unfold ga_unix, unix_spec. destruct (_ && _); [intros [= <- <-]; by right|].
  destruct (h_socktype hi =? 0).
  - destruct (ga_aistruct _ _ _ _ h) as [[a1 e1] h1] eqn:E1.
    apply unix_aistruct_view in E1 as [[-> Ho]|E1]; [intros [= <- <-]; by left|].
    destruct (_ >=? _) eqn:El; [subst e1; intros [= <- <-]; by right|]. destruct E1 as (-> & ai1 & -> & V1).
    destruct (ga_aistruct _ _ _ _ h1) as [[a2 e2] h2] eqn:E2.
    apply unix_aistruct_view in E2 as [[-> Ho]|E2]; [intros [= <- <-]; by left|].
    rewrite El in E2. destruct E2 as (-> & ai2 & -> & V2).
    change (option_list (Some ai1) ++ option_list (Some ai2)) with [ai1; ai2].
    intros E. apply ga_unix_canon_view in E as [?|E]; [by left|right]. rewrite E. cbn [fmap list_fmap]. by rewrite V1, V2.
  - destruct (ga_aistruct _ _ _ _ h) as [[a1 e1] h1] eqn:E1.
    apply unix_aistruct_view in E1 as [[-> Ho]|E1]; [intros [= <- <-]; by left|].
    destruct (_ >=? _); [subst e1; intros [= <- <-]; by right|]. destruct E1 as (-> & ai1 & -> & V1).
    intros E. apply ga_unix_canon_view in E as [?|E]; [by left|right]. rewrite E. cbn [fmap list_fmap]. by rewrite V1.
Qed.

Lemma getaddrinfo_view hostname servname hintsp h r h' :
  getaddrinfo fails getservbyname uname gethostbyname2 gethostbyname hostname servname hintsp h = (r, h') ->
  (r = GaiErr EAI_MEMORY /\ oom) \/
  gai_view r = gai_spec getservbyname uname gethostbyname2 gethostbyname hostname servname hintsp.
Proof.
  unfold getaddrinfo, gai_spec, bad. set (hi := default hints0 hintsp).
  rewrite echeck_spec, local_path_spec, nsearch_spec, <- wants_canon_spec.
  destruct (request_error _ _ _); [intros [= <- <-]; by right|].
  destruct (local_path _ _); [apply ga_unix_view|].
  destruct (queries hostname hi) as [|q qs] eqn:Eq; [intros [= <- <-]; by right|].
  pose proof (queries_length _ _ _ _ Eq) as Hn. set (ss := q :: qs) in *.
  destruct (search_loop _ _ _ _ _ _ _ _) as [s e] eqn:Es.
  assert (gs_view hi (Gs [] None h) None []) as H0 by done.
  apply (search_loop_view _ _ _ _ Hn _ _ _ _ _ H0) in Es as [[-> Ho]|Es]; [intros [= <- <-]; by left|].
  destruct (found_all _ _ hi _ ss) as [e1|[c addrs]]; [subst e; intros [= <- <-]; by right|].
  destruct Es as [-> Hs]. simpl in Hs.
  destruct addrs as [|fa addrs].
  { destruct Hs as (Hs & _ & _). destruct (g_list s); [|done]. simpl. intros [= <- <-]. by right. }
  rewrite bool_decide_false by (intros E; destruct Hs as (Hs & _ & _); rewrite E in Hs; done).
  destruct (put_canon _ _ _ _ _) as [[l e] h1] eqn:Ep.
  apply (put_canon_view _ _ _ _ _ _ _ _ _ Hs) in Ep as [[-> Ho]|(-> & Hr & Hv)]; [intros [= <- <-]; by left|].
  intros E. eapply gai_finish_view; [exact Hr|exact Hv|done|exact E].
Qed.

End Refinement.

(** A structure that the caller can use: the address is of the family it says, of
    the length it says and with a port of 16 bits, and family, socket type and
    protocol are those asked for. *)
Definition answer_wf (hi : hints) (a : answer) : Prop :=
  (h_socktype hi = 0 \/ a_socktype a = h_socktype hi) /\
  (h_family hi = AF_UNSPEC \/ a_family a = h_family hi) /\ a_protocol a = h_protocol hi /\
  match a_addr a with
  | Some (Sin port addr) =>
      a_family a = AF_INET /\ a_addrlen a = sizeof_sockaddr_in /\ length addr = 4%nat /\ 0 <= port < 2 ^ 16
  | Some (Sin6 port addr) =>
      a_family a = AF_INET6 /\ a_addrlen a = sizeof_sockaddr_in6 /\ length addr = 16%nat /\ 0 <= port < 2 ^ 16
  | Some (Sun path) =>
      a_family a = AF_LOCAL /\ a_addrlen a = sizeof_sockaddr_un /\ Z.of_nat (length path) < sizeof_sun_path
  | _ => False
  end.

(** [Forall] of an explicit list, element by element. *)
Ltac forall_list := simpl; repeat (apply Forall_cons; split); try (by apply Forall_nil); simpl.

(** An address that was found. *)
Definition found_ok (hi : hints) (fa : Z * list Z) : Prop :=
  address_ok fa /\ (h_family hi = AF_UNSPEC \/ fa.1 = h_family hi).

Lemma entry0_wf hi fa : found_ok hi fa -> answer_wf hi (entry0 hi fa).
Proof.
  destruct fa as [f addr]. intros [[[Hf Hl]|[Hf Hl]] Hh]; simpl in *; subst f;
    unfold answer_wf, entry0; simpl; split_and!; try done; auto; lia.
Qed.

Lemma u16_range z : 0 <= u16 z < 2 ^ 16.
Proof. by apply uwrap_range. Qed.

Lemma with_service_wf hi svc a :
  answer_wf hi a -> h_socktype hi = 0 \/ svc.2 = h_socktype hi -> answer_wf hi (with_service svc a).
Proof.
  intros (_ & H2 & H3 & H4) Hs. unfold answer_wf, with_service; simpl. split_and!; try done.
  destruct (a_addr a) as [[]|]; simpl; intuition apply u16_range.
Qed.

Lemma head_canon_wf hi c l : Forall (answer_wf hi) l -> Forall (answer_wf hi) (head_canon c l).
Proof. destruct 1 as [|a l Ha Hl]; simpl; by constructor. Qed.

Section Final.
Variable fails : nat -> bool.
Variable getservbyname : list Z -> bool -> option Z.
Variable uname : option (list Z).
Variable gethostbyname2 : list Z -> Z -> h_errno + hostent.
Variable gethostbyname : bool -> list Z -> h_errno + hostent.
Hypothesis Hres : resolver_ok gethostbyname2 gethostbyname.

Lemma services_asked hi serv :
  Forall (fun svc => h_socktype hi = 0 \/ svc.2 = h_socktype hi) (services getservbyname hi serv).
Proof.
  unfold services. destruct (isdigit _).
  - destruct (Z.eqb_spec (h_socktype hi) 0); forall_list; auto.
  - simpl. destruct (_ || (_ =? SOCK_STREAM)) eqn:E1, (getservbyname serv true), (_ || (_ =? SOCK_DGRAM)) eqn:E2,
      (getservbyname serv false); forall_list; lia.
Qed.

Lemma entries_wf hi svcs addrs :
  Forall (found_ok hi) addrs -> Forall (fun svc => h_socktype hi = 0 \/ svc.2 = h_socktype hi) svcs ->
  Forall (answer_wf hi) (entries hi svcs addrs).
Proof.
  intros Ha Hs. apply Forall_concat, Forall_fmap. eapply Forall_impl; [exact Ha|]. intros fa Hfa. simpl.
  apply Forall_fmap. eapply Forall_impl; [exact Hs|]. intros svc Hsvc. simpl.
  apply with_service_wf; [by apply entry0_wf|done].
Qed.

Lemma found_wf hi n sp c addrs :
  n = 1%nat \/ n = 2%nat ->
  found gethostbyname2 gethostbyname hi n sp = inr (c, addrs) -> Forall (found_ok hi) addrs.
Proof.
  intros Hn. unfold found. rewrite <- literal_spec, <- lookup_host_spec by done.
  assert (Hother : forall af, negb (h_family hi =? AF_UNSPEC) && negb (h_family hi =? af) = false ->
            h_family hi = AF_UNSPEC \/ af = h_family hi) by (intros; lia).
  destruct (literal (s_host sp)) as [[af a]|] eqn:El.
  - destruct (_ && _) eqn:Eo; [done|]. apply literal_ok in El. apply Hother in Eo.
    destruct (s_family sp =? af); intros [= <- <-]; by forall_list.
  - destruct (lookup_host _ _ n sp) as [e|hp] eqn:Eh; [destruct (_ =? _)%nat; [|done]; intros [= <- <-]; constructor|].
    apply (lookup_host_ok _ _ Hres) in Eh. destruct (_ && _) eqn:Eo; [done|]. apply Hother in Eo.
    intros [= <- <-]. apply Forall_fmap. eapply Forall_impl; [exact Eh|]. by intros a Ha.
Qed.

Lemma found_all_wf hi n l : n = 1%nat \/ n = 2%nat -> forall c addrs,
  found_all gethostbyname2 gethostbyname hi n l = inr (c, addrs) -> Forall (found_ok hi) addrs.
Proof.
  intros Hn. induction l as [|sp l IH]; intros c addrs; simpl; [intros [= <- <-]; constructor|].
  destruct (found _ _ hi n sp) as [|[c1 a1]] eqn:E1; [done|].
  destruct (found_all _ _ hi n l) as [|[c2 a2]] eqn:E2; [done|]. intros [= <- <-].
  apply Forall_app. split; [by eapply found_wf|by eapply IH].
Qed.

Lemma serv_spec_wf hi servname c addrs l :
  addrs <> [] -> Forall (found_ok hi) addrs -> serv_spec getservbyname hi servname c addrs = inr l ->
  l <> [] /\ Forall (answer_wf hi) l.
Proof.
  intros Hne Ha. unfold serv_spec.
  assert (Hnone : head_canon c (entry0 hi <$> addrs) <> [] /\
                  Forall (answer_wf hi) (head_canon c (entry0 hi <$> addrs))).
  { split; [by destruct addrs|]. apply head_canon_wf, Forall_fmap.
    eapply Forall_impl; [exact Ha|]. intros fa. apply entry0_wf. }
  destruct servname as [[|ch serv]|]; [by intros [= <-]| |by intros [= <-]].
  pose proof (services_asked hi (ch :: serv)) as Hs.
  destruct (services _ hi (ch :: serv)) as [|svc svcs]; [done|]. intros [= <-]. split; [by destruct addrs|].
  by apply head_canon_wf, entries_wf.
Qed.

Lemma unix_spec_wf path hi l :
  unix_spec uname path hi = inr l -> l <> [] /\ Forall (answer_wf hi) l.
Proof.
  unfold unix_spec. destruct (_ && _) eqn:Ef; [done|]. destruct (_ >=? _) eqn:El; [done|].
  set (l0 := _ <$> _). assert (l0 <> [] /\ Forall (answer_wf hi) l0) as [Hn HF].
  { unfold l0. split; [by destruct (h_socktype hi =? 0)|]. apply Forall_fmap.
    assert (forall t, h_socktype hi = 0 \/ t = h_socktype hi ->
      answer_wf hi (Answer AF_LOCAL t (h_protocol hi) sizeof_sockaddr_un (Some (Sun path)) None)) as Ht.
    { intros t Ht. unfold answer_wf; simpl. split_and!; try done; [|lia].
      destruct (Z.eqb_spec (h_family hi) AF_UNSPEC); [by left|]. right. simpl in Ef. lia. }
    destruct (Z.eqb_spec (h_socktype hi) 0); forall_list; auto. }
  destruct (canonical hi); [destruct uname as [nm|]; [|done]|]; intros [= <-]; [|done].
  split; [by destruct l0|]. by apply head_canon_wf.
Qed.

(** C16: [getaddrinfo] refines its specification: when the resolver answers with
    addresses of the right length ([resolver_ok]) and unless an allocation fails, its
    result is that of [gai_spec], which shares no function with the code: the error
    of a bad request or of a failed lookup; else a literal address stands for
    itself, a name for the addresses the resolver gives, IPv6 before IPv4 where
    both are asked for; each address is paired with each service, streams before
    datagrams, the port of a number or of the services file; the canonical name
    is at the first structure only.  The mechanism (structures marked for
    cloning, cloned and filled in place) is not visible. *)
Theorem getaddrinfo_refines_spec (hostname servname : option (list Z)) (hintsp : option hints) (h : heap) :
  gai_view (getaddrinfo fails getservbyname uname gethostbyname2 gethostbyname hostname servname hintsp h).1 =
  gai_spec getservbyname uname gethostbyname2 gethostbyname hostname servname hintsp \/
  ((getaddrinfo fails getservbyname uname gethostbyname2 gethostbyname hostname servname hintsp h).1 =
   GaiErr EAI_MEMORY /\ exists n, fails n = true).
Proof.
  destruct (getaddrinfo _ _ _ _ _ _ _ _ _) as [r h'] eqn:E. simpl.
  apply (getaddrinfo_view _ _ _ Hres) in E. unfold oom in E. tauto.
Qed.

(** The list returned, for [getaddrinfo_typed] and for callers. *)
Lemma getaddrinfo_answers_wf (hostname servname : option (list Z)) (hintsp : option hints)
    (h h' : heap) (l : list addrinfo) :
  getaddrinfo fails getservbyname uname gethostbyname2 gethostbyname hostname servname hintsp h = (GaiOk l, h') ->
  l <> [] /\ Forall (answer_wf (default hints0 hintsp)) (view <$> l).
Proof.
  intros E. apply (getaddrinfo_view _ _ _ Hres) in E as [[? _]|E]; [done|]. simpl in E.
  assert (Hl : view <$> l <> [] /\ Forall (answer_wf (default hints0 hintsp)) (view <$> l)).
  { unfold gai_spec in E. destruct (request_error _ _ _); [done|].
    destruct (local_path _ _); [injection E as E; exact (unix_spec_wf _ _ _ (eq_sym E))|].
    destruct (queries _ _) as [|q qs] eqn:Eq; [done|]. apply queries_length in Eq.
    set (ss := q :: qs) in *. clearbody ss. injection E as E.
    destruct (found_all _ _ _ _ _) as [|[c addrs]] eqn:Ef; [done|]. apply found_all_wf in Ef; [|done].
    destruct addrs as [|fa addrs]; [done|]. exact (serv_spec_wf _ _ _ (fa :: addrs) _ ltac:(done) Ef (eq_sym E)). }
  destruct Hl as [Hn HF]. split; [|done]. by destruct l.
Qed.

(** Typing of the result: a list [getaddrinfo] returns is not empty, and every
    structure of it has a socket address, which is of the family the structure
    names, of the length [ai_addrlen] says and with a port of 16 bits (or a path
    that fits, with its NUL); family, socket type and protocol are the ones of
    the hints where these name one.  A caller's cast of [ai_addr] by [ai_family]
    is thus always right. *)
Theorem getaddrinfo_typed (hostname servname : option (list Z)) (hintsp : option hints)
    (h h' : heap) (l : list addrinfo) :
  getaddrinfo fails getservbyname uname gethostbyname2 gethostbyname hostname servname hintsp h = (GaiOk l, h') ->
  l <> [] /\ Forall (answer_wf (default hints0 hintsp)) (view <$> l).
Proof. apply getaddrinfo_answers_wf. Qed.
End Final.

(** ** Numeric names *)

Lemma digits_value_dec s : Forall is_digit s -> forall acc,
  digits_value s acc = value_from 10 acc ((fun c => c - 48) <$> s).
Proof.
  induction 1 as [|c s Hc _ IH]; intros acc; simpl; [done|]. unfold is_digit in Hc.
  replace ((48 <=? c) && (c <=? 57)) with true by lia. by rewrite IH.
Qed.

(** The text of a port is read as the port. *)
Lemma atoi_port p : 0 <= p < 2 ^ 16 -> u16 (atoi (fmt_u p)) = p /\ isdigit (hd 0 (fmt_u p)) = true /\
  exists c t, fmt_u p = c :: t.
Proof.
  intros Hp. destruct (fmt_u_digits p) as (HF & Hne & Hv); [lia|]. split_and!.
  - unfold atoi. rewrite digits_value_dec by done. fold (dec_val (fmt_u p)). rewrite Hv, Z.min_l by lia.
    rewrite swrap_small by lia. by apply uwrap_small.
  - destruct (fmt_u p) as [|c t]; [done|]. apply Forall_cons in HF as [Hc _]. unfold is_digit in Hc. simpl.
    unfold isdigit. lia.
  - destruct (fmt_u p) as [|c t]; [done|]. by eauto.
Qed.

Lemma fmt_u_port_length p : 0 <= p < 2 ^ 16 -> (length (fmt_u p) <= 5)%nat.
Proof. intros Hp. unfold fmt_u. rewrite length_fmap. apply (digits_length 10 10 p 4); [lia|simpl; lia]. Qed.

(** The address of a socket address structure. *)
Definition sa_address (sa : sockaddr) : option (Z * Z * list Z) :=
  match sa with
  | Sin p a => Some (AF_INET, p, a)
  | Sin6 p a => Some (AF_INET6, p, a)
  | _ => None
  end.

Definition sockaddr_ok (sa : sockaddr) : Prop :=
  match sa with
  | Sin p a => 0 <= p < 2 ^ 16 /\ length a = 4%nat /\ Forall byte a
  | Sin6 p a => 0 <= p < 2 ^ 16 /\ length a = 16%nat /\ Forall byte a
  | _ => False
  end.

(** [inet_ntop]'s text is a literal of the same address. *)
Lemma ntop_literal len0 fa hostlen :
  address_ok fa -> Forall byte fa.2 -> 46 <= hostlen ->
  exists t, ntop len0 fa.1 fa.2 hostlen = Some t /\ t <> [] /\ hd 0 t <> 47 /\ literal t = Some fa.
Proof.
  destruct fa as [f a]. intros Hok Hb Hl. unfold ntop.
  assert (Hlit : forall t, literal t = Some (f, a) -> t <> [] /\ hd 0 t <> 47).
  { intros t Ht. rewrite literal_spec in Ht. destruct t as [|c t]; [done|]. split; [done|]. simpl. intros ->.
    destruct (Pton.inet_pton4 (47 :: t)) as [b|] eqn:E4; [by apply inet_pton4_shape in E4 as (_ & _ & ?)|].
    destruct (Pton.inet_pton6 (47 :: t)) as [b|] eqn:E6; [by apply inet_pton6_shape in E6 as (_ & _ & ?)|done]. }
  destruct Hok as [[Hf Hn]|[Hf Hn]]; simpl in *; subst f.
  - destruct a as [|x1 [|x2 [|x3 [|x4 [|]]]]]; try done.
    repeat match goal with H : Forall _ (_ :: _) |- _ => apply Forall_cons in H; destruct H end.
    pose proof (v4_text_length x1 x2 x3 x4) as Hlen. exists (v4_text [x1; x2; x3; x4]).
    unfold Ntop.inet_ntop. simpl AF_INET. rewrite ntop4_text. rewrite Z.gtb_ltb, (proj2 (Z.ltb_ge _ _)) by (specialize (Hlen ltac:(done) ltac:(done) ltac:(done) ltac:(done)); lia).
    assert (literal (v4_text [x1; x2; x3; x4]) = Some (AF_INET, [x1; x2; x3; x4])) as Hli
      by (by rewrite literal_spec, pton4_v4_text).
    by destruct (Hlit _ Hli).
  - destruct (ntop6_read_back len0 a Hn Hb) as (t & Et & Ep & Ht). exists t.
    unfold Ntop.inet_ntop, Ntop.inet_ntop6. simpl. rewrite Et. simpl. unfold Ntop.sizeof_tmp in Ht.
    rewrite Z.gtb_ltb, (proj2 (Z.ltb_ge _ _)) by lia.
    assert (literal t = Some (AF_INET6, a)) as Hli.
    { rewrite literal_spec, Ep. destruct (Pton.inet_pton4 t) as [b|] eqn:E4; [|done].
      apply inet_pton4_shape in E4 as (_ & Hc & _). by apply inet_pton6_shape in Ep as (_ & Hc' & _). }
    by destruct (Hlit _ Hli).
Qed.

Section RoundTrip.
Variable len0 : Z.
Variable gethostbyaddr : list Z -> Z -> option (list Z).
Variable getservbyport : Z -> bool -> option (list Z).
Variable getservbyname : list Z -> bool -> option Z.
Variable uname : option (list Z).
Variable gethostbyname2 : list Z -> Z -> h_errno + hostent.
Variable gethostbyname : bool -> list Z -> h_errno + hostent.

(** The specification on a literal and a port number. *)
Lemma gai_spec_numeric host p fa t proto :
  literal host = Some fa -> host <> [] -> hd 0 host <> 47 -> address_ok fa -> 0 <= p < 2 ^ 16 -> t <> 0 ->
  gai_spec getservbyname uname gethostbyname2 gethostbyname (Some host) (Some (fmt_u p))
    (Some (Hints 0 AF_UNSPEC t proto)) =
  Some (inr [with_service (p, t) (entry0 (Hints 0 AF_UNSPEC t proto) fa)]).
Proof.
  intros Hlit Hne Hsl Hok Hp Ht. destruct host as [|c host]; [done|].
  destruct (atoi_port p Hp) as (Hat & Hd & d & ds & Ed).
  unfold gai_spec. simpl default.
  assert (forall sv, local_path (Some (c :: host)) sv = false) as ->.
  { intros sv. unfold local_path. rewrite bool_decide_false; [done|]. simpl in Hsl. intros [[= ? _]|[= ? _]]; by subst c. }
  simpl.
  unfold found; simpl. rewrite <- literal_spec, Hlit. destruct fa as [af a].
  assert (serv_spec getservbyname (Hints 0 AF_UNSPEC t proto) (Some (fmt_u p)) None [(af, a)] =
          inr [with_service (p, t) (entry0 (Hints 0 AF_UNSPEC t proto) (af, a))]) as Hsv.
  { unfold serv_spec, services. rewrite Ed in *. rewrite Hd, Hat. simpl. by rewrite (proj2 (Z.eqb_neq _ _) Ht). }
  destruct Hok as [[Haf _]|[Haf _]]; simpl in Haf; subst af; (etransitivity; [|by rewrite <- Hsv]);
    reflexivity.
Qed.

(** C17: Round trip of names: for every IPv4 or IPv6 socket address, [getnameinfo] with
    numeric flags and buffers of at least 46 and 6 characters succeeds, and
    [getaddrinfo] on the two strings it produced returns exactly one structure,
    with the same family, address and port and the socket type of the hints. *)
Theorem getnameinfo_getaddrinfo_roundtrip (sa : sockaddr) (hostlen servlen flags t proto : Z) (h : heap) :
  resolver_ok gethostbyname2 gethostbyname ->
  sockaddr_ok sa -> 46 <= hostlen -> 6 <= servlen -> t <> 0 ->
  has_flag flags NI_NUMERICHOST = true -> has_flag flags NI_NUMERICSERV = true ->
  exists host serv l h' f len,
    getnameinfo len0 gethostbyaddr getservbyport sa hostlen servlen flags = Some (Some host, Some serv) /\
    getaddrinfo (fun _ => false) getservbyname uname gethostbyname2 gethostbyname
      (Some host) (Some serv) (Some (Hints 0 AF_UNSPEC t proto)) h = (GaiOk l, h') /\
    view <$> l = [Answer f t proto len (Some sa) None].
Proof.
  intros Hres Hsa Hh Hs Ht Hf1 Hf2.
  assert (exists f p a, sa_address sa = Some (f, p, a) /\ address_ok (f, a) /\ Forall byte a /\ 0 <= p < 2 ^ 16 /\
    at_port p (sa_of (f, a)) = sa) as (f & p & a & Esa & Hok & Hb & Hp & Eset).
  { destruct sa as [p a|p a| |]; simpl in Hsa; try done; destruct Hsa as (Hp & Hl & Hb);
      [exists AF_INET, p, a|exists AF_INET6, p, a]; (split; [done|]);
      (split; [first [by left|by right]|]); (split; [done|]); (split; [done|]);
      unfold sa_of; simpl; f_equal; by apply uwrap_small. }
  destruct (ntop_literal len0 (f, a) hostlen Hok Hb Hh) as (host & Hnt & Hne & Hsl & Hlit).
  set (hi := Hints 0 AF_UNSPEC t proto).
  destruct (getaddrinfo (fun _ => false) getservbyname uname gethostbyname2 gethostbyname
      (Some host) (Some (fmt_u p)) (Some hi) h) as [r h'] eqn:E. pose proof E as Ev.
  apply (getaddrinfo_view _ _ _ Hres) in Ev as [[_ [n Hn]]|Ev]; [done|].
  unfold hi in Ev. rewrite (gai_spec_numeric _ _ _ _ proto Hlit Hne Hsl Hok Hp Ht) in Ev.
  destruct r as [l| |]; simpl in Ev; [|done|done]. injection Ev as Ev.
  exists host, (fmt_u p), l, h', f, (sa_len (f, a)). split_and!; [|done|].
  - assert (gn_ipv46 len0 gethostbyaddr getservbyport hostlen servlen a f p flags = Some (Some host, Some (fmt_u p))) as Hg.
    { unfold gn_ipv46, gn_host, gn_serv. simpl in Hnt. rewrite Hf1, Hf2, Hnt.
      replace (hostlen >? 0) with true by lia. replace (servlen >? 0) with true by lia. simpl. do 3 f_equal.
      unfold snprintf. apply take_ge. pose proof (fmt_u_port_length p Hp). lia. }
    destruct sa; simpl in Esa; try done; by injection Esa as <- <- <-.
  - rewrite Ev. unfold with_service, entry0. cbn [a_family a_protocol a_addrlen a_addr a_canonname h_protocol fst snd fmap option_fmap option_map]. by rewrite Eset.
Qed.

End RoundTrip.

(** ** Witnesses *)

Lemma demo_resolver_ok : resolver_ok demo_byname2 demo_byname.
Proof.
  assert (Hd : forall af, af = AF_INET \/ af = AF_INET6 -> hostent_ok (demo_entry af)).
  { intros af [-> | ->]; unfold hostent_ok; forall_list; unfold address_ok; simpl; auto. }
  split.
  - intros s af hp. unfold demo_byname2. destruct (_ && _) eqn:E; [|done]. intros [= <-]. apply Hd. lia.
  - intros b s hp. unfold demo_byname. destruct (str_eqb _ _); [|done]. intros [= <-]. apply Hd. destruct b; auto.
Qed.

Lemma getaddrinfo_refines_spec_witness :
  gai_view (getaddrinfo (fun _ => false) demo_serv None demo_byname2 demo_byname
              (Some demo_host) (Some (codes "daytime")) None heap0).1 =
  Some (inr (entries hints0 [(13, SOCK_STREAM); (13, SOCK_DGRAM)] [(AF_INET6, demo_v6); (AF_INET, demo_v4)])).
Proof.
  destruct (getaddrinfo_refines_spec (fun _ => false) demo_serv None demo_byname2 demo_byname demo_resolver_ok
    (Some demo_host) (Some (codes "daytime")) None heap0) as [E|[_ [n Hn]]]; [|discriminate Hn].
  rewrite E. vm_compute. reflexivity.
Defined.

Lemma getaddrinfo_typed_witness :
  exists l h', getaddrinfo (fun _ => false) demo_serv None demo_byname2 demo_byname
                 (Some demo_host) (Some (codes "13")) (Some (Hints 0 AF_INET6 SOCK_DGRAM 0)) heap0 = (GaiOk l, h') /\
    Forall (answer_wf (Hints 0 AF_INET6 SOCK_DGRAM 0)) (view <$> l).
Proof.
  eexists _, _. split; [vm_compute; reflexivity|].
  eapply (getaddrinfo_typed (fun _ => false) demo_serv None demo_byname2 demo_byname demo_resolver_ok
    (Some demo_host) (Some (codes "13")) (Some (Hints 0 AF_INET6 SOCK_DGRAM 0)) heap0).
  vm_compute. reflexivity.
Defined.

Lemma getnameinfo_getaddrinfo_roundtrip_witness :
  exists host serv, getnameinfo 0 (fun _ _ => None) (fun _ _ => None) (Sin6 8080 demo_v6) 46 6
    (Z.lor NI_NUMERICHOST NI_NUMERICSERV) = Some (Some host, Some serv).
Proof.
  destruct (getnameinfo_getaddrinfo_roundtrip 0 (fun _ _ => None) (fun _ _ => None) demo_serv None
    demo_byname2 demo_byname (Sin6 8080 demo_v6) 46 6 (Z.lor NI_NUMERICHOST NI_NUMERICSERV) SOCK_STREAM 0 heap0)
    as (host & serv & _ & _ & _ & _ & E & _); [exact demo_resolver_ok| |lia|lia|done|done|done|eauto].
  simpl. split; [lia|]. split; [done|]. unfold byte. unfold demo_v6. forall_list; lia.
Defined.

(** A port number is not checked: 65616 is port 80. *)
Example port_not_checked :
  services demo_serv (Hints 0 0 SOCK_STREAM 0) (codes "65616") = [(80, SOCK_STREAM)].
Proof. vm_compute. reflexivity. Qed.
