(* ===== verification/GaiFree.v ===== *)
(** * The earlier getaddrinfo and getnameinfo: [unixNetV1/libfree]

    [libfree/getaddrinfo.c] and [libfree/getnameinfo.c], configured with IPv4, IPv6
    and Unix domain sockets, in the memory of [Gai] ([fails] says which
    allocations fail).  Cloning, filling in ports and freeing are the same code as
    in [libgai] and share its definitions.  New here: the resolver's option
    [RES_USE_INET6] as a state that lasts from call to call, and an [outcome]
    that has the ways in which the code leaves its contract: [freeaddrinfo] of a
    pointer that was never assigned, success without a result, and the use of a
    null list.

    - [libfree_memory_safe]: the memory, whatever fails;
    - [libfree_agrees_libgai]: for a host whose family is known the answers are
      those of [libgai];
    - [early_errors_wild], [inet6_option_sticks]: the two defects. *)
From S2P Require Import Prelude Inet Gai GaiSpec.

Module LibFree.

(** How a call ends: 0 with a list; an error; 0 with [*result] not assigned
    ([return(NULL)]); an error after [freeaddrinfo] of the indeterminate [aihead];
    a store through the null [aihead]. *)
Inductive outcome :=
| FOk (l : list addrinfo)
| FErr (e : eai)
| FUnassigned
| FWild (e : eai)
| FNull.

(** ** The functions without memory *)

(** A socket type that is given and none of [types]. *)
Definition bad_socktype (socktype : Z) (types : list Z) : bool :=
  negb (socktype =? 0) && forallb (fun t => negb (socktype =? t)) types.

(** The checks of the hints. *)
Definition hints_error (hi : hints) : option eai :=
  if negb (Z.ldiff (h_flags hi) (Z.lor AI_PASSIVE AI_CANONNAME) =? 0) then Some EAI_BADFLAGS
  else if h_family hi =? AF_UNSPEC then None
  else if (h_family hi =? AF_INET) || (h_family hi =? AF_INET6) then
    if bad_socktype (h_socktype hi) [SOCK_STREAM; SOCK_DGRAM; SOCK_RAW] then Some EAI_SOCKTYPE else None
  else if h_family hi =? AF_LOCAL then
    if bad_socktype (h_socktype hi) [SOCK_STREAM; SOCK_DGRAM] then Some EAI_SOCKTYPE else None
  else Some EAI_FAMILY.

Definition set_family (hi : hints) (f : Z) : hints := Hints (h_flags hi) f (h_socktype hi) (h_protocol hi).

(** The host to look up and the hints: a missing host is replaced, a missing family
    is that of a literal. *)
Definition choose_host (host serv : option (list Z)) (hi : hints) : eai + option (list Z) * hints :=
  if absent host then
    if absent serv then inl EAI_NONAME
    else if has_flag (h_flags hi) AI_PASSIVE then
      if h_family hi =? AF_INET then inr (Some str_any4, hi)
      else if h_family hi =? AF_INET6 then inr (Some str_any6, hi)
      else if h_family hi =? AF_LOCAL then
        if negb (starts_with_slash serv) then inl EAI_ADDRFAMILY else inr (host, hi)
      else if h_family hi =? 0 then inl EAI_ADDRFAMILY
      else inr (host, hi)
    else inr (Some str_localhost, hi)
  else if h_family hi =? 0 then
    let s := default [] host in
    let hi := match pton AF_INET s with Some _ => set_family hi AF_INET | None => hi end in
    let hi := match pton AF_INET6 s with Some _ => set_family hi AF_INET6 | None => hi end in
    inr (host, hi)
  else inr (host, hi).

Definition HENTBUFSIZ : Z := 8 * 1024.

(** ** The functions that allocate or ask the resolver *)

Section Free.

Variable fails : nat -> bool.
Variable getservbyname : list Z -> bool -> option Z.

(** [gethostbyname], by the option [RES_USE_INET6]. *)
Variable gethostbyname : bool -> list Z -> h_errno + hostent.

(** Whether [res_init] sets the option (from the environment). *)
Variable res_env : bool.

(** The resolver's options: not initialised, or [RES_USE_INET6]. *)
Definition res_state : Type := option bool.

(** [getaddrinfo_host] *)
Definition getaddrinfo_host (host : list Z) (family : Z) (res : res_state) : (eai + hostent) * res_state :=
  let c := hd 0 host in
  match (if isdigit c then pton AF_INET host else None) with
  | Some a => (inr (Hostent (take (Z.to_nat (HENTBUFSIZ - 1)) host) AF_INET [a]), res)
  | None =>
  match (if isxdigit c || (c =? chr_colon) then pton AF_INET6 host else None) with
  | Some a => (inr (Hostent (take (Z.to_nat (HENTBUFSIZ - 1)) host) AF_INET6 [a]), res)
  | None =>
      let options := default res_env res in
      let options := if family =? AF_INET6 then true else options in
      (match gethostbyname options host with
       | inl e => inl (eai_of_h_errno e)
       | inr hp => inr hp
       end, Some options)
  end end.

(** [getaddrinfo_clone], [getaddrinfo_port], [freeaddrinfo]: the code of [libgai]. *)
Definition getaddrinfo_clone : addrinfo -> heap -> option (addrinfo * bool) * heap := ga_clone fails.
Definition getaddrinfo_port : list addrinfo -> Z -> Z -> heap -> list addrinfo * option Z * heap := ga_port fails.
Definition freeaddrinfo : list addrinfo -> heap -> heap := Gai.freeaddrinfo.

(** [getaddrinfo_port] for a service, if it is known; [None] is -1. *)
Definition port_for (l : list addrinfo) (port : option Z) (socktype : Z) (h : heap)
    : list addrinfo * option Z * heap :=
  match port with Some port => getaddrinfo_port l port socktype h | None => (l, Some 0, h) end.

(** [getaddrinfo_serv] *)
Definition getaddrinfo_serv (l : list addrinfo) (hi : hints) (serv : list Z) (h : heap)
    : list addrinfo * option eai * heap :=
  let asked t := (h_socktype hi =? 0) || (h_socktype hi =? t) in
  if isdigit (hd 0 serv) && negb (h_socktype hi =? 0) then
    match getaddrinfo_port l (u16 (atoi serv)) (h_socktype hi) h with
    | (l, None, h) => (l, Some EAI_MEMORY, h)
    | (l, Some n, h) => (l, if n =? 0 then Some EAI_NONAME else None, h)
    end
  else
    match port_for l (if asked SOCK_STREAM then getservbyname serv true else None) SOCK_STREAM h with
    | (l, None, h) => (l, Some EAI_MEMORY, h)
    | (l, Some n1, h) =>
        match port_for l (if asked SOCK_DGRAM then getservbyname serv false else None) SOCK_DGRAM h with
        | (l, None, h) => (l, Some EAI_MEMORY, h)
        | (l, Some n2, h) =>
            (l, if n1 + n2 =? 0 then Some (if h_socktype hi =? 0 then EAI_NONAME else EAI_SERVICE) else None, h)
        end
    end.

(** [addrinfo_local] *)
Definition addrinfo_local (path : list Z) (hi : hints) (h : heap) : outcome * heap :=
  if h_socktype hi =? 0 then (FErr EAI_SOCKTYPE, h)
  else
    match alloc fails h with
    | (None, h) => (FUnassigned, h)
    | (Some id, h) =>
        match alloc fails h with
        | (None, h) => (FErr EAI_MEMORY, h)
        | (Some b, h) =>
            let sa := Sun (take (Z.to_nat sizeof_sun_path) path) in
            let h := if has_flag (h_flags hi) AI_PASSIVE
                     then Heap (live h) (nalloc h) (bad_free h) (unlinked h ++ [path]) else h in
            (FOk [AddrInfo id 0 AF_LOCAL (h_socktype hi) 0 sizeof_sockaddr_un None (Some (b, sa))], h)
        end
    end.

(** The body of the address loop: the structure linked to the list, if any, and the
    error. *)
Definition addr_entry (hi : hints) (addr : list Z) (family : Z) (h : heap)
    : option addrinfo * option eai * heap :=
  match alloc fails h with
  | (None, h) => (None, Some EAI_MEMORY, h)
  | (Some id, h) =>
      let flags := if h_socktype hi =? 0 then AI_CLONE else 0 in
      let ai len a := AddrInfo id flags family (h_socktype hi) (h_protocol hi) len None a in
      if family =? AF_INET then
        match alloc fails h with
        | (None, h) => (Some (ai 0 None), Some EAI_MEMORY, h)
        | (Some b, h) => (Some (ai sizeof_sockaddr_in (Some (b, Sin 0 (take 4 addr)))), None, h)
        end
      else if family =? AF_INET6 then
        match alloc fails h with
        | (None, h) => (Some (ai 0 None), Some EAI_MEMORY, h)
        | (Some b, h) => (Some (ai sizeof_sockaddr_in6 (Some (b, Sin6 0 (take 16 addr)))), None, h)
        end
      else (Some (ai 0 None), None, h)
  end.

(** The address loop. *)
Fixpoint addr_loop (hi : hints) (addrs : list (list Z)) (family : Z) (l : list addrinfo) (h : heap)
    : list addrinfo * option eai * heap :=
  match addrs with
  | [] => (l, None, h)
  | a :: addrs' =>
      match addr_entry hi a family h with
      | (ai, Some e, h) => (l ++ option_list ai, Some e, h)
      | (ai, None, h) => addr_loop hi addrs' family (l ++ option_list ai) h
      end
  end.

(** The label [bad], once [aihead] has a value. *)
Definition bad (l : list addrinfo) (h : heap) (e : eai) : outcome * heap := (FErr e, freeaddrinfo l h).

(** From the canonical name on. *)
Definition finish_service (hi : hints) (serv : option (list Z)) (l : list addrinfo) (h : heap) : outcome * heap :=
  match serv with
  | Some (c :: s) =>
      match getaddrinfo_serv l hi (c :: s) h with
      | (l, Some e, h) => bad l h e
      | (l, None, h) => (FOk l, h)
      end
  | _ => (FOk l, h)
  end.

Definition finish_canon (hi : hints) (name : list Z) (serv : option (list Z)) (l : list addrinfo) (h : heap)
    : outcome * heap :=
  if has_flag (h_flags hi) AI_CANONNAME then
    if bool_decide (l = []) then (FNull, h)
    else
      match alloc fails h with
      | (None, h) => bad l h EAI_MEMORY
      | (Some b, h) => finish_service hi serv (set_head_canon (b, name) l) h
      end
  else finish_service hi serv l h.

(** From the address loop to the end. *)
Definition build_answer (hi : hints) (hp : hostent) (serv : option (list Z)) (h : heap) : outcome * heap :=
  match addr_loop hi (h_addr_list hp) (h_addrtype hp) [] h with
  | (l, Some e, h) => bad l h e
  | (l, None, h) => finish_canon hi (h_name hp) serv l h
  end.

(** [getaddrinfo] *)
Definition getaddrinfo (host serv : option (list Z)) (hintsp : option hints) (h : heap) (res : res_state)
    : outcome * heap * res_state :=
  let hi := default hints0 hintsp in
  match hints_error hi with
  | Some e => (FWild e, h, res)
  | None =>
  match choose_host host serv hi with
  | inl e => (FWild e, h, res)
  | inr (host, hi) =>
      if starts_with_slash host then (addrinfo_local (default [] host) hi h, res)
      else if starts_with_slash serv then (addrinfo_local (default [] serv) hi h, res)
      else
        match getaddrinfo_host (default [] host) (h_family hi) res with
        | (inl e, res) => (FWild e, h, res)
        | (inr hp, res) =>
            if negb (h_family hi =? AF_UNSPEC) && negb (h_family hi =? h_addrtype hp)
            then (FWild EAI_ADDRFAMILY, h, res)
            else (build_answer hi hp serv h, res)
        end
  end end.

End Free.

(** ** [getnameinfo] *)

Section Gni.

Variable gethostbyaddr : list Z -> Z -> option (list Z).

(** [getservbyport(port, NULL)] *)
Variable getservbyport : Z -> option (list Z).

(** [strncpy(buf, s, n)]: the first [n] bytes of [buf]. *)
Definition strncpy (n : Z) (s : list Z) : list Z :=
  take (Z.to_nat n) s ++ replicate (Z.to_nat n - length s) 0.

(** [do_ipv46]: the result, and what is written to [host] and [serv]. *)
Definition do_ipv46 (hostlen servlen : Z) (addr : list Z) (family port : Z)
    : Z * option (list Z) * option (list Z) :=
  let serv_part host :=
    if servlen >? 0 then
      match getservbyport port with
      | Some name => (0, host, Some (strncpy servlen name))
      | None => (1, host, None)
      end
    else (0, host, None) in
  if hostlen >? 0 then
    match gethostbyaddr addr family with
    | Some name => serv_part (Some (strncpy hostlen name))
    | None => (1, None, None)
    end
  else serv_part None.

Definition getnameinfo (sa : sockaddr) (hostlen servlen : Z) : Z * option (list Z) * option (list Z) :=
  match sa with
  | Sin port addr => do_ipv46 hostlen servlen addr AF_INET port
  | Sin6 port addr => do_ipv46 hostlen servlen addr AF_INET6 port
  | _ => (1, None, None)
  end.

End Gni.

(** ** Memory *)

Section Memory.
Variable fails : nat -> bool.
Variable getservbyname : list Z -> bool -> option Z.
Variable gethostbyname : bool -> list Z -> h_errno + hostent.
Variable res_env : bool.

Lemma addr_entry_owns hi addr family h0 bs h a e h' :
  owns h0 bs h -> addr_entry fails hi addr family h = (a, e, h') ->
  owns h0 (list_blocks (option_list a) ++ bs) h' /\ Forall (fun ai => ai_canonname ai = None) (option_list a).
Proof.
  intros H E. unfold addr_entry in E.
  destruct (alloc fails h) as [[id|] h1] eqn:E1; pose proof (owns_alloc _ _ _ _ _ _ H E1) as H1; [|by simplify_eq/=].
  split_tests; try (split; [exact H1|by repeat constructor]);
    match goal with Ea : alloc fails h1 = _ |- _ => pose proof (owns_alloc _ _ _ _ _ _ H1 Ea) as H2 end;
    (split; [|by repeat constructor]); eapply owns_perm; try exact H2; unfold list_blocks; simpl; solve_Permutation.
Qed.

(** The list and its blocks during the loop: no structure has a name yet. *)
Definition loop_owns (h0 : heap) (l : list addrinfo) (h : heap) : Prop :=
  owns h0 (list_blocks l) h /\ Forall (fun ai => ai_canonname ai = None) l.

Lemma addr_loop_owns hi family h0 addrs : forall l h l' e h',
  loop_owns h0 l h -> addr_loop fails hi addrs family l h = (l', e, h') -> loop_owns h0 l' h'.
Proof.
  induction addrs as [|a addrs IH]; intros l h l' e h' [Ho Hn]; cbn [addr_loop]; [by intros [= <- <- <-]|].
  destruct (addr_entry _ _ _ _ _) as [[ai e1] h1] eqn:E1. apply (addr_entry_owns _ _ _ _ _ _ _ _ _ Ho) in E1 as [H1 N1].
  assert (loop_owns h0 (l ++ option_list ai) h1) as H2.
  { split; [|by apply Forall_app]. rewrite list_blocks_app. eapply owns_perm; [|exact H1]. solve_Permutation. }
  destruct e1; [by intros [= <- <- <-]|by apply IH].
Qed.

Lemma port_for_owns l p st h0 bs h l' n h' :
  owns h0 (list_blocks l ++ bs) h -> port_for fails l p st h = (l', n, h') -> owns h0 (list_blocks l' ++ bs) h'.
Proof. destruct p; simpl; [by apply ga_port_owns|by intros ? [= <- <- <-]]. Qed.

Lemma getaddrinfo_serv_owns l hi serv h0 bs h l' e h' :
  owns h0 (list_blocks l ++ bs) h -> getaddrinfo_serv fails getservbyname l hi serv h = (l', e, h') ->
  owns h0 (list_blocks l' ++ bs) h'.
Proof.
  intros H. unfold getaddrinfo_serv, getaddrinfo_port. destruct (_ && _).
  - destruct (ga_port _ _ _ _ _) as [[l1 n] h1] eqn:E1. apply (ga_port_owns _ _ _ _ _ _ _ _ _ _ H) in E1.
    destruct n; by intros [= <- <- <-].
  - destruct (port_for _ l _ _ h) as [[l1 n1] h1] eqn:E1. apply (port_for_owns _ _ _ _ _ _ _ _ _ H) in E1.
    destruct n1; [|by intros [= <- <- <-]].
    destruct (port_for _ l1 _ _ h1) as [[l2 n2] h2] eqn:E2. apply (port_for_owns _ _ _ _ _ _ _ _ _ E1) in E2.
    destruct n2; by intros [= <- <- <-].
Qed.

(** What an outcome says of the memory: a list owns what was allocated, and freeing
    it gives everything back; an error has given it back, but for one structure if
    the name was a path; the other outcomes leave nothing. *)
Definition outcome_memory (h : heap) (local : bool) (r : outcome) (h' : heap) : Prop :=
  match r with
  | FOk l => owns h (list_blocks l) h' /\ owns h [] (freeaddrinfo l h')
  | FErr e => exists leak, owns h leak h' /\ (length leak <= 1)%nat /\ (leak <> [] -> local = true /\ e = EAI_MEMORY)
  | FUnassigned => owns h [] h' /\ local = true
  | FWild _ => h' = h
  | FNull => owns h [] h'
  end.

Lemma outcome_memory_ok h local l h' :
  heap_ok h -> owns h (list_blocks l) h' -> outcome_memory h local (FOk l) h'.
Proof. intros Hok Ho. split; [done|]. apply freeaddrinfo_owns; [done|]. by rewrite app_nil_r. Qed.

Lemma outcome_memory_bad h local l h' e :
  heap_ok h -> owns h (list_blocks l) h' -> outcome_memory h local (bad l h' e).1 (bad l h' e).2.
Proof.
  intros Hok Ho. exists []. split; [|by split; [simpl; lia|]]. apply freeaddrinfo_owns; [done|]. by rewrite app_nil_r.
Qed.

Lemma finish_service_memory hi serv l h local h1 :
  heap_ok h -> owns h (list_blocks l) h1 ->
  outcome_memory h local (finish_service fails getservbyname hi serv l h1).1
    (finish_service fails getservbyname hi serv l h1).2.
Proof.
  intros Hok Ho. unfold finish_service.
  destruct serv as [[|c s]|]; [by apply outcome_memory_ok| |by apply outcome_memory_ok].
  destruct (getaddrinfo_serv _ _ _ _ _ _) as [[l1 e] h2] eqn:E.
  rewrite <- (app_nil_r (list_blocks l)) in Ho. apply (getaddrinfo_serv_owns _ _ _ _ _ _ _ _ _ Ho) in E.
  rewrite app_nil_r in E. destruct e; [by apply outcome_memory_bad|by apply outcome_memory_ok].
Qed.

Lemma finish_canon_memory hi name serv l h local h1 :
  heap_ok h -> loop_owns h l h1 ->
  outcome_memory h local (finish_canon fails getservbyname hi name serv l h1).1
    (finish_canon fails getservbyname hi name serv l h1).2.
Proof.
  intros Hok [Ho Hn]. unfold finish_canon. destruct (has_flag _ _); [|by apply finish_service_memory].
  case_bool_decide as El; [by subst l|]. destruct l as [|ai l]; [done|]. apply Forall_cons in Hn as [Hn _].
  destruct (alloc fails h1) as [[b|] h2] eqn:Ea; pose proof (owns_alloc _ _ _ _ _ _ Ho Ea) as H2;
    [|by apply outcome_memory_bad].
  apply finish_service_memory; [done|]. eapply owns_perm; [|exact H2].
  unfold list_blocks; simpl. unfold blocks; simpl. rewrite Hn. simpl. solve_Permutation.
Qed.

Lemma build_answer_memory hi hp serv h local :
  heap_ok h ->
  outcome_memory h local (build_answer fails getservbyname hi hp serv h).1
    (build_answer fails getservbyname hi hp serv h).2.
Proof.
  intros Hok. unfold build_answer. destruct (addr_loop _ _ _ _ _ _) as [[l e] h1] eqn:E.
  apply (addr_loop_owns hi _ h) in E; [|by split; [apply owns_refl|]].
  destruct e; [apply outcome_memory_bad; [done|apply E]|by apply finish_canon_memory].
Qed.

Lemma addrinfo_local_memory path hi h :
  heap_ok h ->
  outcome_memory h true (addrinfo_local fails path hi h).1 (addrinfo_local fails path hi h).2.
Proof.
  intros Hok. unfold addrinfo_local. destruct (_ =? 0).
  { exists []. split; [apply owns_refl|]. by split; [simpl; lia|]. }
  destruct (alloc fails h) as [[id|] h1] eqn:E1; pose proof (owns_alloc _ _ _ _ _ _ (owns_refl h) E1) as H1; [|done].
  destruct (alloc fails h1) as [[b|] h2] eqn:E2; pose proof (owns_alloc _ _ _ _ _ _ H1 E2) as H2.
  - apply outcome_memory_ok; [done|]. destruct (has_flag _ _); [apply owns_unlinked|];
      (eapply owns_perm; [|exact H2]); unfold list_blocks; simpl; solve_Permutation.
  - eexists. split; [exact H2|]. split; [simpl; lia|done].
Qed.

(** The host that is looked up is a path only if the caller's is. *)
Lemma choose_host_slash host serv hi host' hi' :
  choose_host host serv hi = inr (host', hi') -> starts_with_slash host' = true -> starts_with_slash host = true.
Proof. intros E. unfold choose_host in E. by split_tests. Qed.

(** Whichever allocations fail and whatever the resolver answers, [getaddrinfo] of
    [libfree] never frees a block that is not allocated once its list has a value;
    a list it returns owns exactly the blocks allocated in the call and
    [freeaddrinfo] gives all of them back; an error leaves nothing behind, but for
    the one structure of a path whose address cannot be allocated; "success"
    without a result happens only for a path. *)
Theorem libfree_memory_safe (host serv : option (list Z)) (hintsp : option hints) (h : heap) (res : res_state)
    (r : outcome) (h' : heap) (res' : res_state) :
  heap_ok h ->
  getaddrinfo fails getservbyname gethostbyname res_env host serv hintsp h res = (r, h', res') ->
  outcome_memory h (starts_with_slash host || starts_with_slash serv) r h'.
Proof.
  intros Hok E. unfold getaddrinfo in E.
  destruct (hints_error _); [by simplify_eq/=|]. destruct (choose_host _ _ _) as [e|[host' hi]] eqn:Ec; [by simplify_eq/=|].
  destruct (starts_with_slash host') eqn:Eh; [|destruct (starts_with_slash serv) eqn:Es].
  - pose proof (addrinfo_local_memory (default [] host') hi h Hok) as Hm.
    rewrite (choose_host_slash _ _ _ _ _ Ec Eh). injection E as E _. by rewrite E in Hm.
  - pose proof (addrinfo_local_memory (default [] serv) hi h Hok) as Hm.
    rewrite orb_true_r. injection E as E _. by rewrite E in Hm.
  - destruct (getaddrinfo_host _ _ _ _ _) as [[e|hp] res1]; [by simplify_eq/=|]. destruct (_ && _); [by simplify_eq/=|].
    pose proof (build_answer_memory hi hp serv h (starts_with_slash host || false) Hok) as Hm.
    injection E as E _. by rewrite E in Hm.
Qed.
End Memory.

(** ** The answers are those of [libgai] *)

(** The result as the caller sees it: nothing is known once the indeterminate pointer
    has been freed. *)
Definition code (r : outcome) : option (eai + list answer) :=
  match r with
  | FOk l => Some (inr (view <$> l))
  | FErr e => Some (inl e)
  | FWild _ | FUnassigned | FNull => None
  end.

Section Agreement.
Variable fails : nat -> bool.
Variable getservbyname : list Z -> bool -> option Z.
Variable gethostbyname : bool -> list Z -> h_errno + hostent.
Variable res_env : bool.

Lemma addr_entry_aistruct hi addr family h :
  family <> AF_LOCAL -> addr_entry fails hi addr family h = ga_aistruct fails hi addr family h.
Proof.
  intros Hf. unfold addr_entry, ga_aistruct. rewrite (proj2 (Z.eqb_neq family AF_LOCAL)) by done.
  destruct (alloc fails h) as [[id|] h1]; [|done]. by destruct (family =? AF_INET), (family =? AF_INET6).
Qed.

(** The loop is that of [libgai]'s search. *)
Lemma addr_loop_ais hi family c addrs : family <> AF_LOCAL -> forall l h,
  add_ais fails hi addrs family (Gs l c h) =
  (let '(l', e, h') := addr_loop fails hi addrs family l h in (Gs l' c h', e)).
Proof.
  intros Hf. induction addrs as [|a addrs IH]; intros l h; [done|]. cbn [add_ais addr_loop].
  unfold add_ai; simpl. rewrite addr_entry_aistruct by done.
  destruct (ga_aistruct fails hi a family h) as [[ai [e|]] h1]; [done|]. by rewrite IH.
Qed.

(** The numbers [libgai] takes for a port without a socket type. *)
Definition numeric_typed (hi : hints) (serv : option (list Z)) : Prop :=
  isdigit (hd 0 (default [] serv)) = true -> h_socktype hi <> 0.

Lemma getaddrinfo_serv_ga hi l serv h :
  ready hi l -> l <> [] -> numeric_typed hi (Some serv) ->
  getaddrinfo_serv fails getservbyname l hi serv h = ga_serv fails getservbyname l hi serv h.
Proof.
  intros Hr Hl Hn. unfold numeric_typed in Hn; simpl in Hn.
  unfold getaddrinfo_serv, ga_serv, serv_calls, ga_port2, getaddrinfo_port.
  destruct (isdigit (hd 0 serv)); simpl.
  - rewrite (proj2 (Z.eqb_neq (h_socktype hi) 0)) by auto. simpl. rewrite (ready_first fails hi) by auto.
    assert ((Z.of_nat (length l) =? 0) = false) as E by (destruct l; [done|simpl; lia]).
    by rewrite Z.add_0_r, E.
  - assert (Hp : forall p st h, port_for fails l p st h = port_call fails l ((fun p => (p, st)) <$> p) h) by (by intros []).
    assert (Hq : forall (b : bool) (p : option Z) st,
      (if b then (fun p => (p, st)) <$> p else None) = ((fun p => (p, st)) <$> (if b then p else None) : option (Z * Z)))
      by (by intros []).
    rewrite !Hq, Hp. clear Hp. destruct (port_call _ _ _ _) as [[l1 [n1|]] h1]; [|done].
    assert (Hp : forall p st h, port_for fails l1 p st h = port_call fails l1 ((fun p => (p, st)) <$> p) h) by (by intros []).
    rewrite Hp. destruct (port_call _ _ _ _) as [[l2 [n2|]] h2]; [|done]. by destruct (n1 + n2 =? 0).
Qed.

Lemma finish_service_view hi serv l h c addrs :
  ready hi l -> view <$> l = head_canon c (entry0 hi <$> addrs) -> addrs <> [] -> numeric_typed hi serv ->
  ((finish_service fails getservbyname hi serv l h).1 = FErr EAI_MEMORY /\ oom fails) \/
  code (finish_service fails getservbyname hi serv l h).1 = Some (serv_spec getservbyname hi serv c addrs).
Proof.
  intros Hr Hv Ha Hn. assert (l <> []) as Hl by (intros ->; by destruct addrs).
  destruct (gai_finish fails getservbyname hi serv l h) as [r h'] eqn:E.
  pose proof (gai_finish_view _ _ _ _ _ _ _ _ _ _ Hr Hv Ha E) as H.
  unfold gai_finish in E. unfold finish_service.
  destruct serv as [[|ch s]|];
    [injection E as <- _; destruct H as [[[=] _]|H]; by right| |injection E as <- _; destruct H as [[[=] _]|H]; by right].
  rewrite getaddrinfo_serv_ga by done.
  destruct (ga_serv _ _ _ _ _ _) as [[l1 [e|]] h1]; injection E as <- _; (destruct H as [[H ?]|H]; [first [discriminate H|injection H as ->; by left]|by right]).
Qed.

Lemma finish_canon_view hi name serv l h addrs :
  ready hi l -> view <$> l = entry0 hi <$> addrs -> addrs <> [] -> numeric_typed hi serv ->
  ((finish_canon fails getservbyname hi name serv l h).1 = FErr EAI_MEMORY /\ oom fails) \/
  code (finish_canon fails getservbyname hi name serv l h).1 =
    Some (serv_spec getservbyname hi serv (if has_flag (h_flags hi) AI_CANONNAME then Some name else None) addrs).
Proof.
  intros Hr Hv Ha Hn. unfold finish_canon. destruct (has_flag _ _).
  - rewrite bool_decide_false by (intros ->; by destruct addrs).
    destruct (alloc fails h) as [[b|] h1] eqn:Ea; [|left; split; [done|by eapply alloc_view]].
    apply finish_service_view; [..|done|done].
    + destruct l as [|ai l1]; [done|]. apply Forall_cons in Hr as [? ?]. by constructor.
    + rewrite <- Hv. by destruct l.
  - apply finish_service_view; [done| |done..]. rewrite Hv. by destruct addrs.
Qed.

Definition answers (hp : hostent) : list (Z * list Z) := (fun a => (h_addrtype hp, a)) <$> h_addr_list hp.

Lemma build_answer_view hi hp serv h :
  hostent_ok hp -> h_addr_list hp <> [] -> numeric_typed hi serv ->
  ((build_answer fails getservbyname hi hp serv h).1 = FErr EAI_MEMORY /\ oom fails) \/
  code (build_answer fails getservbyname hi hp serv h).1 =
    Some (serv_spec getservbyname hi serv
            (if has_flag (h_flags hi) AI_CANONNAME then Some (h_name hp) else None) (answers hp)).
Proof.
  intros Hok Hne Hn. assert (h_addrtype hp <> AF_LOCAL) as Hf.
  { destruct (h_addr_list hp) eqn:E; [done|]. unfold hostent_ok in Hok. rewrite E in Hok.
    apply Forall_cons in Hok as [[[Hf _]|[Hf _]] _]; simpl in Hf; by rewrite Hf. }
  unfold build_answer. pose proof (addr_loop_ais hi _ None (h_addr_list hp) Hf [] h) as E.
  destruct (addr_loop _ _ _ _ _ _) as [[l e] h1].
  assert (gs_view hi (Gs [] None h) None []) as H0 by done.
  destruct (add_ais_view _ _ _ _ _ _ _ _ _ Hok H0 E) as [[-> Ho]|[-> (Hv & _ & Hr)]]; [by left|].
  apply finish_canon_view; [by apply ready_of_fresh|done| |done]. unfold answers. by destruct (h_addr_list hp).
Qed.

(** What [getaddrinfo_host] takes for a literal. *)
Lemma getaddrinfo_host_literal host f res :
  getaddrinfo_host gethostbyname res_env host f res =
  match literal host with
  | Some (af, a) => (inr (Hostent (take (Z.to_nat (HENTBUFSIZ - 1)) host) af [a]), res)
  | None =>
      let b := if f =? AF_INET6 then true else default res_env res in
      (match gethostbyname b host with inl e => inl (eai_of_h_errno e) | inr hp => inr hp end, Some b)
  end.
Proof.
  rewrite literal_spec. unfold getaddrinfo_host, pton; simpl.
  destruct (Pton.inet_pton4 host) as [a|] eqn:E4.
  { apply inet_pton4_shape in E4 as (_ & _ & ->). done. }
  replace (if isdigit (hd 0 host) then None else None) with (@None (list Z)) by (by destruct (isdigit _)).
  destruct (Pton.inet_pton6 host) as [a|] eqn:E6.
  - apply inet_pton6_shape in E6 as (_ & _ & ->). done.
  - by destruct (isxdigit _ || _).
Qed.

(** A literal names its family. *)
Lemma choose_host_family host serv hi :
  host <> [] ->
  choose_host (Some host) serv hi =
  inr (Some host, if h_family hi =? AF_UNSPEC then match literal host with Some (af, _) => set_family hi af | None => hi end
                  else hi).
Proof.
  intros Hne. destruct host as [|c t]; [done|]. unfold choose_host. simpl absent. cbv iota.
  change (h_family hi =? 0) with (h_family hi =? AF_UNSPEC). destruct (h_family hi =? AF_UNSPEC); [|done].
  rewrite literal_spec. simpl default. unfold pton; simpl.
  destruct (Pton.inet_pton4 (c :: t)) as [a|] eqn:E4, (Pton.inet_pton6 (c :: t)) as [b|] eqn:E6; try done.
  apply inet_pton4_shape in E4 as (_ & Hn & _). by apply inet_pton6_shape in E6 as (_ & Hc & _).
Qed.
End Agreement.

Lemma hints_error_ga c t serv hi :
  hints_error hi = ga_echeck (Some (c :: t)) serv (h_flags hi) (h_family hi) (h_socktype hi).
Proof.
  unfold hints_error, ga_echeck, bad_socktype. simpl. rewrite !andb_true_r.
  by rewrite !andb_assoc.
Qed.

(** A call for which the two implementations promise the same: a host name that is
    no path and fits the buffer; a service that is no path and, if it is a number,
    comes with a socket type; a family that is given or that of the literal; and
    the resolver's option as the family asks for it. *)
Record comparable (res_env : bool) (host : list Z) (serv : option (list Z)) (hi : hints) (res : res_state) : Prop := {
  cmp_host : host <> [] /\ hd 0 host <> 47 /\ Z.of_nat (length host) < HENTBUFSIZ;
  cmp_serv : starts_with_slash serv = false /\ numeric_typed hi serv;
  cmp_family : h_family hi <> AF_LOCAL /\ (h_family hi = AF_UNSPEC -> literal host <> None);
  cmp_option : literal host = None -> default res_env res = true -> h_family hi = AF_INET6 }.

Section Comparison.
Variable fails : nat -> bool.
Variable getservbyname : list Z -> bool -> option Z.
Variable uname : option (list Z).
Variable gethostbyname2 : list Z -> Z -> h_errno + hostent.
Variable gethostbyname : bool -> list Z -> h_errno + hostent.
Variable res_env : bool.
Hypothesis Hres : resolver_ok gethostbyname2 gethostbyname.

(** [gethostbyname] returns at least one address. *)
Hypothesis Hsome : forall b s hp, gethostbyname b s = inr hp -> h_addr_list hp <> [].

(** What [libfree] promises on a comparable call: the search of a single host. *)
Definition single_search (host : list Z) (serv : option (list Z)) (hi : hints) : eai + list answer :=
  let check af := negb (h_family hi =? AF_UNSPEC) && negb (h_family hi =? af) in
  let finish name addrs :=
    serv_spec getservbyname hi serv (if has_flag (h_flags hi) AI_CANONNAME then Some name else None) addrs in
  match literal host with
  | Some (af, a) => if check af then inl EAI_ADDRFAMILY else finish host [(af, a)]
  | None =>
      match gethostbyname (h_family hi =? AF_INET6) host with
      | inl e => inl (eai_of_h_errno e)
      | inr hp => if check (h_addrtype hp) then inl EAI_ADDRFAMILY else finish (h_name hp) (answers hp)
      end
  end.

(** The error of a call that ends before [aihead] has a value: bad hints, a family
    that is not the literal's, a resolver that fails or answers for another family. *)
Definition early_error (host : list Z) (hi : hints) : option eai :=
  let check af := negb (h_family hi =? AF_UNSPEC) && negb (h_family hi =? af) in
  match hints_error hi with
  | Some e => Some e
  | None =>
      match literal host with
      | Some (af, _) => if check af then Some EAI_ADDRFAMILY else None
      | None =>
          match gethostbyname (h_family hi =? AF_INET6) host with
          | inl e => Some (eai_of_h_errno e)
          | inr hp => if check (h_addrtype hp) then Some EAI_ADDRFAMILY else None
          end
      end
  end.

Lemma early_error_spec host serv hi e :
  early_error host hi = Some e ->
  match hints_error hi with Some e => inl e | None => single_search host serv hi end = inl e.
Proof.
  unfold early_error, single_search. destruct (hints_error hi) as [e1|]; [by intros [= ->]|]. cbv zeta.
  destruct (literal host) as [[af a]|]; [destruct (_ && _); [by intros [= ->]|done]|].
  destruct (gethostbyname _ host) as [e1|hp]; [by intros [= ->]|]. destruct (_ && _); [by intros [= ->]|done].
Qed.

Lemma gai_spec_single host serv hi res :
  comparable res_env host serv hi res ->
  gai_spec getservbyname uname gethostbyname2 gethostbyname (Some host) serv (Some hi) =
  Some match hints_error hi with Some e => inl e | None => single_search host serv hi end.
Proof.
  intros [(Hne & Hsl & _) _ [Hloc Huns] _]. destruct host as [|c t]; [done|].
  unfold gai_spec. simpl default. rewrite <- echeck_spec, <- hints_error_ga. destruct (hints_error hi) as [e|] eqn:Eh; [done|].
  assert (local_path (Some (c :: t)) serv = false) as ->.
  { unfold local_path. rewrite bool_decide_false; [done|]. simpl in Hsl. intros [[= ? _]|[= ? _]]; by subst c. }
  assert (h_family hi = AF_UNSPEC \/ h_family hi = AF_INET \/ h_family hi = AF_INET6) as Hf.
  { unfold hints_error in Eh. split_tests; auto; lia. }
  unfold queries, single_search. change AI_CANONNAME with (2 ^ 1). rewrite has_flag_bit by done.
  fold (canonical hi). cbn [named andb default].
  destruct (literal (c :: t)) as [[af a]|] eqn:El.
  - assert (af = AF_INET \/ af = AF_INET6) as Haf by (apply literal_ok in El as [[? _]|[? _]]; auto).
    destruct Hf as [Hf|[Hf|Hf]]; rewrite Hf; simpl; unfold found; simpl; rewrite <- literal_spec, El, Hf;
      destruct Haf as [-> | ->]; reflexivity.
  - destruct Hf as [Hf|[Hf|Hf]]; [by destruct (Huns Hf)|..]; rewrite Hf; simpl; unfold found; simpl;
      rewrite <- literal_spec, El, Hf; simpl;
      (destruct (gethostbyname _ _) as [e|hp] eqn:Eg; [by destruct e|]); simpl;
      (destruct (negb _); [done|]); rewrite app_nil_r; unfold answers;
      apply Hsome in Eg; by destruct (h_addr_list hp).
Qed.

Lemma libfree_single host serv hi h res :
  comparable res_env host serv hi res ->
  let r := (getaddrinfo fails getservbyname gethostbyname res_env (Some host) serv (Some hi) h res).1.1 in
  match early_error host hi with
  | Some e => r = FWild e
  | None =>
      (r = FErr EAI_MEMORY /\ oom fails) \/
      code r = Some match hints_error hi with Some e => inl e | None => single_search host serv hi end
  end.
Proof.
  intros [(Hne & Hsl & Hlen) [Hss Hnum] [Hloc Huns] Hopt]. unfold getaddrinfo, early_error. simpl default.
  destruct (hints_error hi) as [e|] eqn:Eh; [done|]. rewrite choose_host_family by done.
  set (hi' := if h_family hi =? AF_UNSPEC then _ else _).
  assert (starts_with_slash (Some host) = false) as -> by (destruct host as [|c t]; [done|]; simpl in *; lia).
  rewrite Hss. simpl default. rewrite getaddrinfo_host_literal. unfold single_search. cbv beta zeta.
  destruct (literal host) as [[af a]|] eqn:El.
  - assert (negb (h_family hi' =? AF_UNSPEC) && negb (h_family hi' =? af) =
            negb (h_family hi =? AF_UNSPEC) && negb (h_family hi =? af)) as Ef.
    { unfold hi'. destruct (Z.eqb_spec (h_family hi) AF_UNSPEC) as [E|E]; simpl.
      - rewrite Z.eqb_refl. apply andb_false_r.
      - by rewrite (proj2 (Z.eqb_neq _ _) E). }
    simpl h_addrtype. rewrite Ef.
    destruct (negb (h_family hi =? AF_UNSPEC) && negb (h_family hi =? af)); [done|]. cbn [fst].
    assert (Hok : hostent_ok (Hostent host af [a])) by (apply Forall_singleton; by eapply literal_ok).
    rewrite take_ge by (unfold HENTBUFSIZ in *; lia).
    assert (h_socktype hi' = h_socktype hi /\ h_flags hi' = h_flags hi /\ h_protocol hi' = h_protocol hi) as (E1 & E2 & E3)
      by (unfold hi'; by destruct (h_family hi =? AF_UNSPEC)).
    destruct (build_answer_view fails getservbyname hi' (Hostent host af [a]) serv h Hok) as [H|H];
      [done|unfold numeric_typed in *; by rewrite E1|by left|right].
    rewrite H, E2. f_equal. unfold serv_spec, services, entries, entry0. by rewrite E1, E3.
  - assert (hi' = hi) as -> by (unfold hi'; by destruct (h_family hi =? AF_UNSPEC)).
    assert ((if h_family hi =? AF_INET6 then true else default res_env res) = (h_family hi =? AF_INET6)) as ->.
    { destruct (Z.eqb_spec (h_family hi) AF_INET6) as [E|E]; [done|]. apply not_true_is_false. auto. }
    destruct (gethostbyname _ host) as [e|hp] eqn:Eg; [done|]. cbn [fst].
    destruct (negb _ && negb _); [done|]. destruct Hres as [_ Hok].
    apply build_answer_view; [by eapply Hok|by eapply Hsome|done].
Qed.

(** C36: The two implementations of [getaddrinfo] compared, on the calls that are
    [comparable]: a host that is given, is no path and has fewer than [HENTBUFSIZ]
    characters; a service that is no path and is a number only with a socket type; a
    family other than [AF_LOCAL] that is given or is the literal's; and, for a name,
    a resolver whose IPv6 option is not set unless the family is [AF_INET6].
    [libfree]'s single lookup, with its own literal test, address loop and two-pass
    service search, then yields what [libgai]'s search list yields: the same
    structures in the same order, or the same error (unless an allocation of
    [libfree] fails).  The exception are exactly the errors found before [aihead]
    has a value ([early_error]: bad hints, a resolver that fails, an answer of
    another family): there [libfree] passes an indeterminate pointer to
    [freeaddrinfo] where [libgai] just returns the error. *)
Theorem libfree_agrees_libgai (host : list Z) (serv : option (list Z)) (hi : hints) (h h2 : heap) (res : res_state) :
  comparable res_env host serv hi res ->
  let r := (getaddrinfo fails getservbyname gethostbyname res_env (Some host) serv (Some hi) h res).1.1 in
  let g := (Gai.getaddrinfo (fun _ => false) getservbyname uname gethostbyname2 gethostbyname
              (Some host) serv (Some hi) h2).1 in
  match early_error host hi with
  | Some e => r = FWild e /\ g = GaiErr e
  | None => code r = gai_view g \/ (r = FErr EAI_MEMORY /\ exists n, fails n = true)
  end.
Proof.
  intros Hc r g. pose proof (libfree_single host serv hi h res Hc) as H. fold r in H. cbv zeta in H.
  assert (gai_view g = Some match hints_error hi with Some e => inl e | None => single_search host serv hi end) as Hg.
  { rewrite <- (gai_spec_single host serv hi res Hc). unfold g.
    destruct (Gai.getaddrinfo _ _ _ _ _ _ _ _ _) as [g' h'] eqn:E.
    by apply (getaddrinfo_view _ _ _ Hres) in E as [[_ [n Hn]]|E]. }
  destruct (early_error host hi) as [e|] eqn:Ee.
  - rewrite (early_error_spec _ serv _ _ Ee) in Hg. split; [done|]. destruct g; by simplify_eq/=.
  - destruct H as [H|H]; [by right|left]. by rewrite H, Hg.
Qed.

End Comparison.

(** ** What the code does not promise *)

Section Defects.
Variable fails : nat -> bool.
Variable getservbyname : list Z -> bool -> option Z.
Variable gethostbyname : bool -> list Z -> h_errno + hostent.
Variable res_env : bool.

(** The errors that a call can report after [aihead] has a value. *)
Definition late_errors : list eai := [EAI_MEMORY; EAI_NONAME; EAI_SERVICE; EAI_SOCKTYPE].

Lemma addr_loop_error hi family addrs : forall l h l' e h',
  addr_loop fails hi addrs family l h = (l', Some e, h') -> e = EAI_MEMORY.
Proof.
  induction addrs as [|a addrs IH]; intros l h l' e h'; cbn [addr_loop]; [done|].
  destruct (addr_entry _ _ _ _ _) as [[ai e1] h1] eqn:E1. destruct e1 as [e1|]; [|by apply IH].
  intros [= <- <- <-]. unfold addr_entry in E1. by split_tests.
Qed.

Lemma getaddrinfo_serv_error hi l serv h l' e h' :
  getaddrinfo_serv fails getservbyname l hi serv h = (l', Some e, h') -> e ∈ late_errors.
Proof.
  intros E. unfold getaddrinfo_serv in E. unfold late_errors. split_tests; set_solver.
Qed.

Lemma build_answer_error hi hp serv h e h' :
  build_answer fails getservbyname hi hp serv h = (FErr e, h') -> e ∈ late_errors.
Proof.
  unfold build_answer. destruct (addr_loop _ _ _ _ _ _) as [[l [e1|]] h1] eqn:E1.
  { intros [= <- <-]. apply addr_loop_error in E1 as ->. unfold late_errors. set_solver. }
  assert (Hs : forall l h, finish_service fails getservbyname hi serv l h = (FErr e, h') -> e ∈ late_errors).
  { intros l0 h0. unfold finish_service. destruct serv as [[|c s]|]; try done.
    destruct (getaddrinfo_serv _ _ _ _ _ _) as [[l1 [e1|]] h2] eqn:E2; [|done]. intros [= <- <-].
    by eapply getaddrinfo_serv_error. }
  unfold finish_canon. destruct (has_flag _ _); [|by apply Hs]. case_bool_decide; [done|].
  destruct (alloc fails h1) as [[b|] h2]; [by apply Hs|]. intros [= <- <-]. unfold late_errors. set_solver.
Qed.

(** An error that is reported properly is one of these.  Every other one (bad flags,
    unknown family, family mismatch, a resolver that fails) is found before [aihead]
    is assigned: [freeaddrinfo] is called with an indeterminate pointer. *)
Theorem early_errors_wild (host serv : option (list Z)) (hintsp : option hints) (h : heap) (res : res_state) (e : eai) :
  (getaddrinfo fails getservbyname gethostbyname res_env host serv hintsp h res).1.1 = FErr e -> e ∈ late_errors.
Proof.
  unfold getaddrinfo. destruct (hints_error _); [done|].
  destruct (choose_host _ _ _) as [|[host' hi]]; [done|].
  assert (Hloc : forall path, (addrinfo_local fails path hi h).1 = FErr e -> e ∈ late_errors).
  { intros path E. unfold addrinfo_local in E. unfold late_errors. split_tests; set_solver. }
  destruct (starts_with_slash host'); [intros H; by apply Hloc in H|].
  destruct (starts_with_slash serv); [intros H; by apply Hloc in H|].
  destruct (getaddrinfo_host _ _ _ _ _) as [[e1|hp] res']; [done|].
  destruct (negb _ && negb _); [done|]. cbn [fst].
  destruct (build_answer _ _ _ _ _ _) as [r h'] eqn:E. simpl. intros ->. by apply build_answer_error in E.
Qed.

(** A host name that is neither a path nor a literal. *)
Definition plain_name (s : list Z) : Prop := s <> [] /\ hd 0 s <> 47 /\ literal s = None.

Lemma getaddrinfo_plain s serv hi h res :
  plain_name s -> starts_with_slash serv = false -> hints_error hi = None ->
  getaddrinfo fails getservbyname gethostbyname res_env (Some s) serv (Some hi) h res =
  let b := if h_family hi =? AF_INET6 then true else default res_env res in
  match gethostbyname b s with
  | inl e => (FWild (eai_of_h_errno e), h, Some b)
  | inr hp =>
      if negb (h_family hi =? AF_UNSPEC) && negb (h_family hi =? h_addrtype hp)
      then (FWild EAI_ADDRFAMILY, h, Some b)
      else (build_answer fails getservbyname hi hp serv h, Some b)
  end.
Proof.
  intros (Hne & Hsl & Hlit) Hs He. unfold getaddrinfo. simpl default. rewrite He, choose_host_family, Hlit by done.
  assert (starts_with_slash (Some s) = false) as -> by (destruct s; [done|]; simpl in *; lia).
  assert ((if h_family hi =? AF_UNSPEC then hi else hi) = hi) as -> by (by destruct (_ =? _)).
  rewrite Hs. simpl default. rewrite getaddrinfo_host_literal, Hlit. cbv zeta.
  by destruct (gethostbyname _ s).
Qed.

(** [RES_USE_INET6] is set and never cleared: where it makes the resolver answer
    with IPv6 addresses only, one lookup of a name with [AF_INET6], successful or
    not, makes every later lookup of a name with [AF_INET] fail. *)
Theorem inet6_option_sticks (s6 s4 : list Z) (serv6 serv4 : option (list Z)) (hi6 hi4 : hints) (h h2 : heap) (res : res_state) :
  (forall s hp, gethostbyname true s = inr hp -> h_addrtype hp = AF_INET6) ->
  plain_name s6 -> plain_name s4 -> starts_with_slash serv6 = false -> starts_with_slash serv4 = false ->
  hints_error hi6 = None -> hints_error hi4 = None -> h_family hi6 = AF_INET6 -> h_family hi4 = AF_INET ->
  let res' := (getaddrinfo fails getservbyname gethostbyname res_env (Some s6) serv6 (Some hi6) h res).2 in
  exists e, getaddrinfo fails getservbyname gethostbyname res_env (Some s4) serv4 (Some hi4) h2 res' =
            (FWild e, h2, res') /\ res' = Some true.
Proof.
  intros H6 P6 P4 S6 S4 E6 E4 F6 F4. rewrite (getaddrinfo_plain s6) by done. rewrite F6. simpl.
  assert (forall x, (match gethostbyname true s6 with
    | inl e => (FWild (eai_of_h_errno e), h, Some true)
    | inr hp => if negb (AF_INET6 =? h_addrtype hp) then (FWild EAI_ADDRFAMILY, h, Some true)
                else (x hp, Some true) end).2 = Some true) as Hres.
  { intros x. destruct (gethostbyname true s6); [done|]. by destruct (negb _). }
  rewrite Hres, getaddrinfo_plain, F4 by done. simpl.
  destruct (gethostbyname true s4) as [e|hp] eqn:Eg; [by eexists|]. rewrite (H6 _ _ Eg). simpl. by eexists.
Qed.
End Defects.

(** [getnameinfo] leaves a string only if there is room for its NUL. *)
Lemma strncpy_terminated n s : 0 ∉ s -> 0 <= n -> 0 ∈ strncpy n s <-> Z.of_nat (length s) < n.
Proof.
  intros Hs Hn. unfold strncpy. rewrite elem_of_app, elem_of_replicate. split.
  - intros [Hin|[_ H]]; [|lia]. destruct Hs. apply (elem_of_take _ _ _) in Hin as (i & Hi & _).
    by eapply list_elem_of_lookup_2.
  - intros H. right. split; [done|lia].
Qed.

Lemma getnameinfo_host gethostbyaddr getservbyport p a hostlen servlen name :
  gethostbyaddr a AF_INET = Some name -> 0 ∉ name -> 0 < hostlen ->
  exists rc buf serv, getnameinfo gethostbyaddr getservbyport (Sin p a) hostlen servlen = (rc, Some buf, serv) /\
    Z.of_nat (length buf) = hostlen /\ (0 ∈ buf <-> Z.of_nat (length name) < hostlen).
Proof.
  intros E Hn Hl. unfold getnameinfo, do_ipv46. replace (hostlen >? 0) with true by lia. rewrite E.
  assert (Z.of_nat (length (strncpy hostlen name)) = hostlen) as Hb.
  { unfold strncpy. rewrite length_app, length_take, length_replicate. lia. }
  assert (0 ∈ strncpy hostlen name <-> Z.of_nat (length name) < hostlen) by (apply strncpy_terminated; [done|lia]).
  destruct (servlen >? 0); [destruct (getservbyport p)|]; eexists _, _, _; by split.
Qed.

(** ** Witnesses *)

Lemma libfree_memory_safe_witness :
  let r := getaddrinfo (fun n => (n =? 4)%nat) demo_serv demo_byname false
             (Some demo_host) (Some (codes "daytime")) (Some (Hints 2 AF_INET 0 0)) heap0 None in
  r.1.1 = FErr EAI_MEMORY /\ live r.1.2 = ∅ /\ outcome_memory heap0 false r.1.1 r.1.2.
Proof.
  split; [vm_compute; reflexivity|]. split; [vm_compute; reflexivity|].
  apply (libfree_memory_safe (fun n => (n =? 4)%nat) demo_serv demo_byname false
    (Some demo_host) (Some (codes "daytime")) (Some (Hints 2 AF_INET 0 0)) heap0 None _ _ (Some false)).
  - intros b Hb. by apply elem_of_empty in Hb.
  - vm_compute. reflexivity.
Defined.

Lemma libfree_agrees_libgai_witness :
  let r := (getaddrinfo (fun _ => false) demo_serv demo_byname false
              (Some demo_host) (Some (codes "daytime")) (Some (Hints 2 AF_INET 0 0)) heap0 None).1.1 in
  code r = Some (inr (head_canon (Some (codes "www.example"))
    (entries (Hints 2 AF_INET 0 0) [(13, SOCK_STREAM); (13, SOCK_DGRAM)] [(AF_INET, demo_v4)]))).
Proof.
  destruct (libfree_agrees_libgai (fun _ => false) demo_serv None demo_byname2 demo_byname false demo_resolver_ok) with
    (host := demo_host) (serv := Some (codes "daytime")) (hi := Hints 2 AF_INET 0 0) (h := heap0) (h2 := heap0)
    (res := @None bool) as [E|[_ [n Hn]]]; [..|discriminate Hn].
  - intros b s hp. unfold demo_byname. destruct (str_eqb _ _); [|done]. by intros [= <-].
  - by split.
  - intros r. unfold r. rewrite E. vm_compute. reflexivity.
Defined.

(** Without a socket type a number is looked up as a name. *)
Example number_needs_socktype :
  (getaddrinfo (fun _ => false) demo_serv demo_byname false
     (Some (codes "10.0.0.1")) (Some (codes "13")) None heap0 None).1.1 = FErr EAI_NONAME.
Proof. vm_compute. reflexivity. Qed.

(** A path is accepted with any family, cut at 108 bytes. *)
Example path_any_family :
  (getaddrinfo (fun _ => false) demo_serv demo_byname false
     (Some (replicate 200 47)) None (Some (Hints 0 AF_INET6 SOCK_STREAM 0)) heap0 None).1.1 =
  FOk [AddrInfo 0 0 AF_LOCAL SOCK_STREAM 0 110 None (Some (1%nat, Sun (replicate 108 47)))].
Proof. vm_compute. reflexivity. Qed.

(** Out of memory, a path is a success without a result. *)
Example path_without_result :
  (getaddrinfo (fun _ => true) demo_serv demo_byname false
     (Some str_local) None (Some (Hints 0 0 SOCK_STREAM 0)) heap0 None).1.1 = FUnassigned.
Proof. vm_compute. reflexivity. Qed.

(** A name that is not known frees an indeterminate pointer. *)
Example unknown_name_wild :
  (getaddrinfo (fun _ => false) demo_serv demo_byname false
     (Some (codes "nowhere")) None None heap0 None).1.1 = FWild EAI_NONAME.
Proof. vm_compute. reflexivity. Qed.

(** The same name, first for IPv6 and then for IPv4. *)
Example ipv4_after_ipv6 :
  (getaddrinfo (fun _ => false) demo_serv demo_byname false (Some demo_host) None (Some (Hints 0 AF_INET 0 0)) heap0
     (getaddrinfo (fun _ => false) demo_serv demo_byname false (Some demo_host) None
        (Some (Hints 0 AF_INET6 0 0)) heap0 None).2).1.1 = FWild EAI_ADDRFAMILY.
Proof. vm_compute. reflexivity. Qed.

End LibFree.
