(* ===== verification/SrcRoute.v ===== *)
(** * IPv4 source routes: [unixNetV1/ipopts] and [unixNetV1/sock/sourceroute.c]

    Module [SrcRoute]: the option [tcpcli01.c] builds with [inet_srcrt_init] and
    [inet_srcrt_add], names resolved by [getaddrinfo] of [Gai], and what
    [tcpserv01.c] prints of the option it receives with [inet_srcrt_print].
    Module [SockRoute]: [sroute_doopt] and [sroute_set] of the [sock] program, for a
    [u_long] of any size.

    Stores into the option are checked; a pointer that only moves forward over
    received bytes is the list of the bytes from it to the end of the buffer.

    - [srcrt_sent]: what the client passes to [setsockopt];
    - [srcrt_roundtrip]: the server prints the route the client built;
    - [print_overruns]: it trusts the length in the option;
    - [sroute_sends], [sroute_lp64]: the [sock] program is right where [u_long] has
      four bytes, and copies from outside the address where it has eight. *)
From S2P Require Import Prelude Mem Outcome Inet Gai GaiSpec.

Definition IPOPT_NOP : Z := 1.
Definition IPOPT_LSRR : Z := 131.
Definition IPOPT_SSRR : Z := 137.
Definition sizeof_in_addr : Z := 4.

(** The type for a strict or a loose route. *)
Definition route_type (strict : bool) : Z := if strict then IPOPT_SSRR else IPOPT_LSRR.

Module SrcRoute.

(** The block of 44 bytes and the variables of the file; pointers are offsets. *)
Record srcrt := Srcrt { block : list Z; optr : Z; lenptr : Z; ocnt : Z }.

(** The pointer returned and the variables. *)
Definition inet_srcrt_init (type : Z) : outcome (Z * srcrt) :=
  let b := replicate 44 0 in
  b ← checked (store b 0 [IPOPT_NOP]);
  b ← checked (store b 1 [if negb (type =? 0) then IPOPT_SSRR else IPOPT_LSRR]);
  b ← checked (store b 3 [4]);
  Done (4 - 4, Srcrt b 4 2 0).

Section Resolver.
Variable fails : nat -> bool.
Variable getservbyname : list Z -> bool -> option Z.
Variable uname : option (list Z).
Variable gethostbyname2 : list Z -> Z -> h_errno + hostent.
Variable gethostbyname : bool -> list Z -> h_errno + hostent.

Definition Host_serv (host : list Z) (serv : option (list Z)) (family socktype : Z) (h : heap)
    : outcome (list addrinfo * heap) :=
  match getaddrinfo fails getservbyname uname gethostbyname2 gethostbyname (Some host) serv
          (Some (Hints AI_CANONNAME family socktype 0)) h with
  | (GaiOk l, h) => Done (l, h)
  | (_, _) => Quits
  end.

(** [sin_addr] of the first address, taken as a [sockaddr_in]. *)
Definition sin_addr (ai : list addrinfo) : outcome (list Z) :=
  match ai with
  | AddrInfo _ _ _ _ _ _ _ (Some (_, Sin _ a)) :: _ => checked (rdn a 0 4)
  | _ => Fault
  end.

Definition inet_srcrt_add (hostptr : list Z) (s : srcrt) (h : heap) : outcome (Z * srcrt * heap) :=
  if ocnt s >? 9 then Quits else
  '(ai, h) ← Host_serv hostptr None AF_INET 0 h;
  a ← sin_addr ai;
  b ← checked (store (block s) (optr s) a);
  let h := freeaddrinfo ai h in
  let len := 3 + (ocnt s + 1) * sizeof_in_addr in
  b ← checked (store b (lenptr s) [u8 len]);
  Done (len + 1, Srcrt b (optr s + sizeof_in_addr) (lenptr s) (ocnt s + 1), h).

(** [tcpcli01.c]: the letters [getopt] returns. *)
Fixpoint options (cs : list Z) (ptr : option (Z * srcrt)) : outcome (option (Z * srcrt)) :=
  match cs with
  | [] => Done ptr
  | c :: cs =>
      if (c =? 103) || (c =? 71) then
        match ptr with
        | Some _ => Quits
        | None => r ← inet_srcrt_init (if c =? 103 then 0 else 1); options cs (Some r)
        end
      else Quits
  end.

(** The loop over the hosts. *)
Fixpoint add_all (hosts : list (list Z)) (len : Z) (s : srcrt) (h : heap) : outcome (Z * srcrt * heap) :=
  match hosts with
  | [] => Done (len, s, h)
  | host :: hosts => '(len, s, h) ← inet_srcrt_add host s h; add_all hosts len s h
  end.

(** [main] up to [Connect]: the option passed to [Setsockopt], if any, and the
    address.  [hosts] are the arguments after the options. *)
Definition main (serv_port : list Z) (cs : list Z) (hosts : list (list Z)) (h : heap)
    : outcome (option (list Z) * list addrinfo) :=
  ptr ← options cs None;
  '(ptr, h) ←
    match ptr with
    | Some (p, s) => '(_, s, h) ← add_all (take (length hosts - 1) hosts) 0 s h; Done (Some (p, s), h)
    | None => if (1 <? length hosts)%nat then Quits else Done (None, h)
    end;
  match last hosts with
  | None => Quits
  | Some dest =>
      '(ai, h) ← Host_serv dest (Some serv_port) AF_INET SOCK_STREAM h;
      match ptr with
      | Some (p, s) =>
          '(len, s, h) ← inet_srcrt_add dest s h;
          bytes ← checked (rdn (block s) p (Z.to_nat len));
          Done (Some bytes, ai)
      | None => Done (None, ai)
      end
  end.
End Resolver.

(** ** [inet_srcrt_print] *)

(** What is printed: the type of another option, or a route. *)
Inductive printed := Option_type (c : Z) | Received (strict : bool) (route : list (list Z)).

(** [while ( (c = *ptr++) == IPOPT_NOP)]: the byte and the pointer behind it. *)
Fixpoint skip_nops (ptr : list Z) : outcome (Z * list Z) :=
  match ptr with
  | [] => Fault
  | c :: ptr => if c =? IPOPT_NOP then skip_nops ptr else Done (c, ptr)
  end.

Definition INET_ADDRSTRLEN : Z := 16.

(** [Inet_ntop] ends the process when there is no room. *)
Definition Inet_ntop (a : list Z) : outcome (list Z) :=
  match Ntop.inet_ntop4 a INET_ADDRSTRLEN with Some t => Done t | None => Quits end.

(** [while (len > 0)]; [len -= sizeof] is done in [size_t]. *)
Fixpoint print_hops (ptr : list Z) (len : Z) : outcome (list (list Z)) :=
  if len >? 0 then
    match ptr with
    | a :: b :: c :: d :: ptr =>
        t ← Inet_ntop [a; b; c; d];
        ts ← print_hops ptr (s32 (u64 (len - sizeof_in_addr)));
        Done (t :: ts)
    | _ => Fault
    end
  else Done [].

(** The argument [len] is assigned before it is read. *)
Definition inet_srcrt_print (ptr : list Z) (len : Z) : outcome printed :=
  match ptr with
  | a :: b :: c :: d :: ptr =>
      '(type, ptr) ← skip_nops ptr;
      if (type =? IPOPT_LSRR) || (type =? IPOPT_SSRR) then
        t ← Inet_ntop [a; b; c; d];
        match ptr with
        | l :: ptr => ts ← print_hops (drop 1 ptr) (s32 (u64 (l - sizeof_in_addr)));
                      Done (Received (type =? IPOPT_SSRR) (t :: ts))
        | [] => Fault
        end
      else Done (Option_type type)
  | _ => Fault
  end.

(** [tcpserv01.c] with a new connection: [opts] has 44 bytes of any content, and
    [Getsockopt] stores [received] there. *)
Definition print_options (opts received : list Z) : outcome (option printed) :=
  let opts := memcpy_into opts received in
  let len := Z.of_nat (length received) in
  if len >? 0 then p ← inet_srcrt_print opts len; Done (Some p) else Done None.

(** ** What is built *)

(** The option with [addrs]. *)
Definition srr (type : Z) (addrs : list (list Z)) : list Z :=
  [IPOPT_NOP; type; 3 + 4 * Z.of_nat (length addrs); 4] ++ concat addrs.

Definition addresses (addrs : list (list Z)) : Prop := Forall (fun a => length a = 4%nat) addrs.

Lemma addresses_length addrs : addresses addrs -> length (concat addrs) = (4 * length addrs)%nat.
Proof. unfold addresses. induction 1 as [|a addrs Ha _ IH]; simpl; [done|]. rewrite length_app, Ha, IH. lia. Qed.

(** The variables when [addrs] have been added; the length is stored with the
    first. *)
Record built (type : Z) (addrs : list (list Z)) (s : srcrt) : Prop := {
  b_addrs : addresses addrs;
  b_max : (length addrs <= 10)%nat;
  b_block : exists len, block s = [IPOPT_NOP; type; len; 4] ++ concat addrs ++ replicate (40 - 4 * length addrs) 0 /\
    (addrs <> [] -> len = 3 + 4 * Z.of_nat (length addrs));
  b_optr : optr s = 4 + 4 * Z.of_nat (length addrs);
  b_lenptr : lenptr s = 2;
  b_ocnt : ocnt s = Z.of_nat (length addrs) }.

Lemma init_built type : exists s, inet_srcrt_init type = Done (0, s) /\ built (route_type (negb (type =? 0))) [] s.
Proof.
  unfold inet_srcrt_init, route_type. destruct (negb (type =? 0)); eexists; (split; [reflexivity|]);
    (split; [by constructor|simpl; lia| |done..]); by exists 0.
Qed.

Section Build.
Variable fails : nat -> bool.
Variable getservbyname : list Z -> bool -> option Z.
Variable uname : option (list Z).
Variable gethostbyname2 : list Z -> Z -> h_errno + hostent.
Variable gethostbyname : bool -> list Z -> h_errno + hostent.
Hypothesis Hres : resolver_ok gethostbyname2 gethostbyname.

Local Abbreviation host_serv := (Host_serv fails getservbyname uname gethostbyname2 gethostbyname).
Local Abbreviation srcrt_add := (inet_srcrt_add fails getservbyname uname gethostbyname2 gethostbyname).

(** The name has the address [a], when it is asked for without a service. *)
Definition resolves (host a : list Z) : Prop :=
  exists h ai h', host_serv host None AF_INET 0 h = Done (ai, h') /\ sin_addr ai = Done a.

(** For IPv4 the cast is right. *)
Lemma host_serv_addr host serv socktype h :
  match host_serv host serv AF_INET socktype h with
  | Done (ai, _) => exists a, sin_addr ai = Done a /\ length a = 4%nat
  | Quits => True
  | Fault => False
  end.
Proof.
  unfold Host_serv. destruct (getaddrinfo _ _ _ _ _ _ _ _ _) as [[l|e|] h'] eqn:E; [|done..].
  apply (getaddrinfo_answers_wf _ _ _ _ _ Hres) in E as [Hl HF]. destruct l as [|ai l]; [done|].
  apply Forall_cons in HF as [(_ & Hf & _ & Ha) _]. simpl in Hf. destruct Hf as [?|Hf]; [done|].
  destruct ai as [id fl fam st pr al cn [[i sa]|]]; [|done]. simpl in Hf, Ha. subst fam.
  destruct sa as [p a|p a|p|]; simpl in Ha; [|by destruct Ha..|done]. destruct Ha as (_ & _ & Ha & _).
  exists a. split; [|done]. unfold sin_addr. by rewrite rdn_all.
Qed.

Lemma add_built type addrs s host h :
  built type addrs s ->
  match srcrt_add host s h with
  | Done (len, s', _) => (exists a, resolves host a /\ built type (addrs ++ [a]) s') /\
      len = 4 + 4 * Z.of_nat (S (length addrs))
  | Quits => True
  | Fault => False
  end.
Proof.
  intros [Ha Hm (len & Hb & _) Ho Hl Hc]. unfold inet_srcrt_add. destruct (Z.gtb_spec (ocnt s) 9) as [|Hlt]; [done|].
  pose proof (host_serv_addr host None 0 h) as Hh. destruct (host_serv host None AF_INET 0 h) as [[ai h1]| |] eqn:Eh; [|done..].
  destruct Hh as (a & Ea & Hla). cbn -[store u8 replicate]. rewrite Ea. cbn -[store u8 replicate].
  replace (40 - 4 * length addrs)%nat with (4 + (40 - 4 * length (addrs ++ [a])))%nat in Hb by (rewrite length_app; simpl; lia).
  rewrite replicate_add, app_assoc in Hb. rewrite Hb, (store_over _ (replicate 4 0)); cycle 1.
  { rewrite length_app, addresses_length, Ho by done. simpl length. lia. }
  { done. }
  cbn -[store u8 replicate Nat.mul Nat.sub]. rewrite Hl.
  match goal with |- context [store (_ :: _ :: _ :: ?r) 2 _] =>
    change (IPOPT_NOP :: type :: len :: r) with ([IPOPT_NOP; type] ++ [len] ++ r) end.
  rewrite (store_over [IPOPT_NOP; type] [len]) by done. cbn -[u8 replicate Nat.mul Nat.sub].
  assert (3 + (ocnt s + 1) * sizeof_in_addr = 3 + 4 * Z.of_nat (S (length addrs))) as -> by (unfold sizeof_in_addr; lia).
  split; [exists a; split; [by exists h, ai, h1|]|lia].
  split; cbn -[u8 replicate Nat.mul Nat.sub]; rewrite ?length_app; cbn -[u8 replicate Nat.mul Nat.sub].
  - apply Forall_app. split; [done|by repeat constructor].
  - lia.
  - exists (u8 (3 + 4 * Z.of_nat (S (length addrs)))). rewrite concat_app. simpl. rewrite app_nil_r, <- app_assoc.
    split; [done|]. intros _. rewrite uwrap_small by lia. lia.
  - unfold sizeof_in_addr. lia.
  - done.
  - lia.
Qed.

Local Abbreviation srcrt_add_all := (add_all fails getservbyname uname gethostbyname2 gethostbyname).

Lemma add_all_built type hosts : forall addrs len s h,
  built type addrs s ->
  match srcrt_add_all hosts len s h with
  | Done (_, s', _) => exists more, Forall2 resolves hosts more /\ built type (addrs ++ more) s'
  | Quits => True
  | Fault => False
  end.
Proof.
  induction hosts as [|host hosts IH]; intros addrs len s h Hs; simpl.
  { exists []. by rewrite app_nil_r. }
  pose proof (add_built type addrs s host h Hs) as Ha.
  destruct (srcrt_add host s h) as [[[len1 s1] h1]| |]; [|done..]. simpl.
  destruct Ha as [(a & Ha & Hb) _]. specialize (IH _ len1 s1 h1 Hb).
  destruct (srcrt_add_all hosts len1 s1 h1) as [[[len2 s2] h2]| |]; [|done..].
  destruct IH as (more & Hm & Hb2). exists (a :: more). split; [by constructor|]. by rewrite <- app_assoc in Hb2.
Qed.

(** One option letter at most. *)
Lemma options_built cs :
  match options cs None with
  | Done None => cs = []
  | Done (Some (p, s)) => p = 0 /\ exists c, cs = [c] /\ (c = 103 \/ c = 71) /\ built (route_type (c =? 71)) [] s
  | Quits => True
  | Fault => False
  end.
Proof.
  destruct cs as [|c cs]; [done|]. cbn [options]. destruct ((c =? 103) || (c =? 71)) eqn:Ec; [|done].
  destruct (init_built (if c =? 103 then 0 else 1)) as (s & -> & Hs). cbn -[IPOPT_NOP inet_srcrt_init].
  destruct cs as [|c1 cs]; cbn [options]; [|by destruct ((c1 =? 103) || (c1 =? 71))]. split; [done|]. exists c. split; [done|].
  apply orb_true_iff in Ec as [E|E]; apply Z.eqb_eq in E; subst; auto.
Qed.

Lemma built_sent type addrs s :
  built type addrs s -> addrs <> [] ->
  rdn (block s) 0 (Z.to_nat (4 + 4 * Z.of_nat (length addrs))) = Some (srr type addrs).
Proof.
  intros [Ha Hm (len & Hb & Hlen) _ _ _] Hne. rewrite Hb, Hlen by done. rewrite app_assoc.
  replace (Z.to_nat (4 + 4 * Z.of_nat (length addrs))) with (length (srr type addrs)); [apply rdn_here|].
  unfold srr. rewrite length_app, addresses_length by done. simpl length. lia.
Qed.

Local Abbreviation tcpcli01 := (main fails getservbyname uname gethostbyname2 gethostbyname).

(** [tcpcli01.c] with any options, any hosts and any answers of the resolver: it
    never stores outside the 44 bytes and never reads an address that is not
    there; when it gets to [connect] with a route, there was one option and at
    most ten hosts, and what is passed to [setsockopt] is a NOP, the type the option
    asked for, the length, the offset 4 and the address of each host in order. *)
Theorem srcrt_sent (serv_port cs : list Z) (hosts : list (list Z)) (h : heap) :
  match tcpcli01 serv_port cs hosts h with
  | Done (Some bytes, _) => exists c addrs, cs = [c] /\ (c = 103 \/ c = 71) /\
      Forall2 resolves hosts addrs /\ addresses addrs /\ (1 <= length hosts <= 10)%nat /\
      bytes = srr (route_type (c =? 71)) addrs
  | Done (None, _) => cs = [] /\ length hosts = 1%nat
  | Quits => True
  | Fault => False
  end.
Proof.
  unfold main. pose proof (options_built cs) as Ho. destruct (options cs None) as [[[p s]|]| |]; [| |done..].
  - destruct Ho as (-> & c & -> & Hc & Hs). simpl mbind.
    pose proof (add_all_built _ (take (length hosts - 1) hosts) [] 0 s h Hs) as Ha.
    destruct (srcrt_add_all _ 0 s h) as [[[len1 s1] h1]| |]; [|done..]. destruct Ha as (addrs & HF & Hb). simpl in Hb.
    cbn -[rdn inet_srcrt_add Host_serv last]. destruct (last hosts) as [dest|] eqn:El; [|done].
    pose proof (host_serv_addr dest (Some serv_port) SOCK_STREAM h1) as Hd.
    destruct (host_serv dest _ _ _ _) as [[ai h2]| |]; [|done..]. cbn -[rdn inet_srcrt_add].
    pose proof (add_built _ addrs s1 dest h2 Hb) as Ha.
    destruct (srcrt_add dest s1 h2) as [[[len3 s3] h3]| |]; [|done..]. destruct Ha as [(a & Hr & Hb3) ->].
    cbn -[rdn]. replace (S (length addrs)) with (length (addrs ++ [a])) by (rewrite length_app; simpl; lia).
    rewrite (built_sent _ _ _ Hb3) by (by destruct addrs). cbn -[srr]. exists c, (addrs ++ [a]).
    apply last_Some in El as (hs & ->). rewrite length_app, take_app_le, take_ge in HF by (rewrite ?length_app; simpl; lia).
    assert (HF2 : Forall2 resolves (hs ++ [dest]) (addrs ++ [a])) by (apply Forall2_app; [done|by repeat constructor]).
    pose proof (Forall2_length _ _ _ HF2) as Hl. pose proof (b_max _ _ _ Hb3). pose proof (b_addrs _ _ _ Hb3).
    split_and!; try done; [rewrite length_app; simpl; lia|lia].
  - subst cs. simpl. destruct (Nat.ltb_spec 1 (length hosts)) as [|Hl]; [done|]. simpl.
    destruct (last hosts) as [dest|] eqn:El; [|done].
    pose proof (host_serv_addr dest (Some serv_port) SOCK_STREAM h) as Hd.
    destruct (host_serv dest _ _ _ _) as [[ai h2]| |]; [|done..]. simpl. split; [done|].
    destruct hosts; simpl in *; [done|lia].
Qed.
End Build.

(** ** What is printed *)

Definition octets (a : list Z) : Prop := length a = 4%nat /\ Forall byte a.

Lemma octets_inv a : octets a -> exists b0 b1 b2 b3, a = [b0; b1; b2; b3] /\ Inet_ntop a = Done (v4_text a).
Proof.
  intros [Hl HF]. destruct a as [|b0 [|b1 [|b2 [|b3 [|]]]]]; try done. exists b0, b1, b2, b3. split; [done|].
  rewrite !Forall_cons in HF. destruct HF as (H0 & H1 & H2 & H3 & _).
  unfold Inet_ntop. rewrite ntop4_text. pose proof (v4_text_length b0 b1 b2 b3 H0 H1 H2 H3).
  destruct (Z.gtb_spec (Z.of_nat (length (v4_text [b0; b1; b2; b3]))) INET_ADDRSTRLEN); [unfold INET_ADDRSTRLEN in *; lia|done].
Qed.

(** [len] in the loop: [size_t] arithmetic stored in an [int]. *)
Lemma len_minus n : - 100 <= n < 2 ^ 20 -> s32 (u64 (n - sizeof_in_addr)) = n - 4.
Proof. intros H. rewrite s32_u64. unfold sizeof_in_addr. apply swrap_small; lia. Qed.

Lemma print_hops_all addrs rest :
  Forall octets addrs -> (length addrs <= 9)%nat ->
  print_hops (concat addrs ++ rest) (4 * Z.of_nat (length addrs) - 1) = Done (v4_text <$> addrs).
Proof.
  induction 1 as [|a addrs Ha _ IH]; intros Hl; [by destruct rest|].
  apply octets_inv in Ha as (b0 & b1 & b2 & b3 & -> & Ht). cbn [concat app print_hops].
  destruct (Z.gtb_spec (4 * Z.of_nat (length ([b0; b1; b2; b3] :: addrs)) - 1) 0); [|simpl in *; lia].
  rewrite Ht, len_minus by (simpl in *; lia). cbn -[print_hops Z.of_nat v4_text]. simpl in Hl.
  replace (4 * Z.of_nat (S (length addrs)) - 1 - 4) with (4 * Z.of_nat (length addrs) - 1) by lia.
  rewrite IH by lia. done.
Qed.

(** The server prints the route as it was built: whatever its buffer held, for a
    first hop and an option of the client's form with up to nine addresses (44 bytes
    in all) it prints the type, the first hop and every address of the option, in
    order and in dotted form, and reads nothing outside the buffer. *)
Theorem srcrt_roundtrip (strict : bool) (hop1 : list Z) (addrs : list (list Z)) (opts : list Z) :
  length opts = 44%nat -> octets hop1 -> Forall octets addrs -> (length addrs <= 9)%nat ->
  print_options opts (hop1 ++ srr (route_type strict) addrs) =
    Done (Some (Received strict (v4_text <$> hop1 :: addrs))).
Proof.
  intros _ Hh Ha Hl. apply octets_inv in Hh as (b0 & b1 & b2 & b3 & -> & Ht). unfold print_options, memcpy_into.
  set (rest := drop _ opts). unfold srr. rewrite <- !app_assoc. cbn [app length].
  destruct (Z.gtb_spec (Z.of_nat (S (S (S (S (length (IPOPT_NOP :: route_type strict ::
    3 + 4 * Z.of_nat (length addrs) :: 4 :: concat addrs))))))) 0); [|lia].
  unfold inet_srcrt_print. cbn [skip_nops]. rewrite Z.eqb_refl.
  assert ((route_type strict =? IPOPT_NOP) = false) as -> by by destruct strict.
  cbn -[print_hops Inet_ntop v4_text Z.mul Z.of_nat]. rewrite Ht.
  assert ((route_type strict =? IPOPT_LSRR) || (route_type strict =? IPOPT_SSRR) = true) as -> by by destruct strict.
  cbn -[print_hops v4_text Z.mul Z.of_nat]. rewrite drop_0, len_minus by lia.
  replace (3 + 4 * Z.of_nat (length addrs) - 4) with (4 * Z.of_nat (length addrs) - 1) by lia.
  rewrite print_hops_all by done. by destruct strict.
Qed.

(** The caller's length is not used: an option that claims 255 bytes is read behind
    the 44 that were received, and so are NOPs without an end. *)
Example print_overruns :
  print_options (replicate 44 0) ([10; 0; 0; 1; IPOPT_NOP; IPOPT_LSRR; 255; 4; 10; 0; 0; 2]) = Fault /\
  print_options (replicate 44 0) ([10; 0; 0; 1] ++ replicate 40 IPOPT_NOP) = Fault.
Proof. by vm_compute. Qed.

(** The resolver of the demonstration knows one name; the other hosts are literals. *)
Definition demo_hosts : list (list Z) := [codes "10.0.0.1"; codes "192.168.7.9"].

Lemma srcrt_sent_witness :
  exists bytes ai, main (fun _ => false) demo_serv None demo_byname2 demo_byname (codes "9877") [71] demo_hosts heap0 =
    Done (Some bytes, ai) /\ bytes = [1; 137; 11; 4; 10; 0; 0; 1; 192; 168; 7; 9] /\
    exists c addrs, [71] = [c] /\ (c = 103 \/ c = 71) /\
      Forall2 (resolves (fun _ => false) demo_serv None demo_byname2 demo_byname) demo_hosts addrs /\ addresses addrs /\
      (1 <= length demo_hosts <= 10)%nat /\ bytes = srr (route_type (c =? 71)) addrs.
Proof.
  eexists _, _. split; [vm_compute; reflexivity|]. split; [reflexivity|].
  exact (srcrt_sent (fun _ => false) demo_serv None demo_byname2 demo_byname demo_resolver_ok (codes "9877") [71]
           demo_hosts heap0).
Defined.

Lemma srcrt_roundtrip_witness :
  print_options (replicate 44 7) ([10; 0; 0; 1] ++ srr (route_type false) [[10; 0; 0; 2]]) =
    Done (Some (Received false (v4_text <$> [10; 0; 0; 1] :: [[10; 0; 0; 2]]))).
Proof.
  apply (srcrt_roundtrip false [10; 0; 0; 1] [[10; 0; 0; 2]] (replicate 44 7)).
  - done.
  - split; [done|]. unfold byte. forall_list; lia.
  - repeat constructor; simpl; unfold byte; lia.
  - simpl. lia.
Defined.

End SrcRoute.

(** ** The [sock] program *)

Module SockRoute.
Import SrcRoute.

(** The variables of the file. *)
Record sroute := Sroute { sroute_opt : list Z; optr : Z; sroute_cnt : Z }.

Definition start : sroute := Sroute (replicate 44 0) 0 0.

Section Sizes.
(** The bytes of a [u_long]. *)
Variable sizeof_u_long : nat.

(** [gethostbyname]: the first address of the name. *)
Variable gethostbyname : list Z -> option (list Z).

(** The address of a hop: the bytes of the object [memcpy] copies from. *)
Definition hop_addr (argptr : list Z) : option (list Z) :=
  match Ipv4Only.inet_aton argptr with
  | Some inaddr => Some (Ipv4Only.in_addr_bytes inaddr)
  | None => gethostbyname argptr
  end.

Definition sroute_doopt (strict : bool) (argptr : list Z) (s : sroute) : outcome sroute :=
  if sroute_cnt s >=? 9 then Quits else
  s ← (if sroute_cnt s =? 0 then
         b ← checked (store (replicate 44 0) 0 [if strict then IPOPT_SSRR else IPOPT_LSRR]);
         b ← checked (store b 2 [4]);
         Done (Sroute b 3 (sroute_cnt s))
       else Done s);
  match hop_addr argptr with
  | Some inaddr =>
      a ← checked (rdn inaddr 0 sizeof_u_long);
      b ← checked (store (sroute_opt s) (optr s) a);
      Done (Sroute b (optr s + Z.of_nat sizeof_u_long) (sroute_cnt s + 1))
  | None => Quits
  end.

(** [while ((optr - sroute_opt) & 3) optr++]: three turns at most. *)
Fixpoint align (fuel : nat) (optr : Z) : Z :=
  match fuel with
  | O => optr
  | S fuel => if negb (Z.land optr 3 =? 0) then align fuel (optr + 1) else optr
  end.

(** The bytes passed to [setsockopt]; [sin_addr] is the address of the server with
    what follows it in [servaddr]. *)
Definition sroute_set (sin_addr : list Z) (s : sroute) : outcome (list Z * sroute) :=
  let cnt := sroute_cnt s + 1 in
  b ← checked (store (sroute_opt s) 1 [u8 (3 + cnt * 4)]);
  a ← checked (rdn sin_addr 0 sizeof_u_long);
  b ← checked (store b (optr s) a);
  let p := align 4 (optr s + Z.of_nat sizeof_u_long) in
  bytes ← checked (rdn b 0 (Z.to_nat p));
  Done (bytes, Sroute b p 0).

(** The options [-g] and [-G] of the command line, then [sockopts]. *)
Fixpoint doopts (args : list (bool * list Z)) (s : sroute) : outcome sroute :=
  match args with
  | [] => Done s
  | (strict, host) :: args => s ← sroute_doopt strict host s; doopts args s
  end.

Definition sockopts (sin_addr : list Z) (args : list (bool * list Z)) : outcome (option (list Z)) :=
  s ← doopts args start;
  if sroute_cnt s >? 0 then '(bytes, _) ← sroute_set sin_addr s; Done (Some bytes) else Done None.
End Sizes.

(** ** Four bytes *)

(** The variables when [addrs] have been stored. *)
Record stored (type : Z) (addrs : list (list Z)) (s : sroute) : Prop := {
  st_addrs : addresses addrs;
  st_max : (1 <= length addrs <= 9)%nat;
  st_opt : sroute_opt s = [type; 0; 4] ++ concat addrs ++ replicate (41 - 4 * length addrs) 0;
  st_optr : optr s = 3 + 4 * Z.of_nat (length addrs);
  st_cnt : sroute_cnt s = Z.of_nat (length addrs) }.

Section Four.
Variable gethostbyname : list Z -> option (list Z).
Hypothesis by_name : forall host a, gethostbyname host = Some a -> length a = 4%nat.

Lemma hop_addr_length host a : hop_addr gethostbyname host = Some a -> length a = 4%nat.
Proof. unfold hop_addr. destruct (Ipv4Only.inet_aton host); [by intros [= <-]|apply by_name]. Qed.

(** Storing the next address. *)
Lemma store_next (pre : list Z) (addrs : list (list Z)) (a : list Z) n off :
  addresses addrs -> length a = 4%nat -> off = Z.of_nat (length pre) + 4 * Z.of_nat (length addrs) ->
  store (pre ++ concat addrs ++ replicate (4 + n) 0) off a = Some (pre ++ concat (addrs ++ [a]) ++ replicate n 0).
Proof.
  intros Ha Hl ->. rewrite replicate_add, app_assoc, (store_over (pre ++ concat addrs) (replicate 4 0)).
  - rewrite concat_app. simpl. by rewrite app_nil_r, <- !app_assoc.
  - rewrite length_app, addresses_length by done. lia.
  - done.
Qed.

Lemma doopt_next strict host type addrs s :
  stored type addrs s ->
  match sroute_doopt 4 gethostbyname strict host s with
  | Done s' => exists a, hop_addr gethostbyname host = Some a /\ stored type (addrs ++ [a]) s'
  | Quits => hop_addr gethostbyname host = None \/ length addrs = 9%nat
  | Fault => False
  end.
Proof.
  intros [Ha [Hm Hm'] Ho Hp Hc]. unfold sroute_doopt. destruct (Z.geb_spec (sroute_cnt s) 9) as [H9|H9]; [right; lia|].
  rewrite (proj2 (Z.eqb_neq _ _)) by lia. cbn -[rdn store]. destruct (hop_addr gethostbyname host) as [a|] eqn:Ea; [|by left].
  pose proof (hop_addr_length _ _ Ea) as Hl. rewrite rdn_all by done. cbn -[store]. rewrite Ho, Hp.
  replace (41 - 4 * length addrs)%nat with (4 + (41 - 4 * length (addrs ++ [a])))%nat by (rewrite length_app; simpl; lia).
  rewrite (store_next [type; 0; 4] addrs a _ _ Ha Hl) by (simpl length; lia). simpl mbind. exists a. split; [done|].
  split; cbn -[replicate Nat.mul Nat.sub]; rewrite ?length_app; simpl length; try lia; [|done].
  apply Forall_app. split; [done|by repeat constructor].
Qed.

Lemma doopt_first strict host :
  match sroute_doopt 4 gethostbyname strict host start with
  | Done s' => exists a, hop_addr gethostbyname host = Some a /\ stored (route_type strict) [a] s'
  | Quits => hop_addr gethostbyname host = None
  | Fault => False
  end.
Proof.
  unfold sroute_doopt. cbn -[rdn store replicate].
  assert (forall t : Z, store (replicate 44 0) 0 [t] = Some (t :: replicate 43 0)) as -> by done. cbn -[rdn store replicate].
  assert (forall t : Z, store (t :: replicate 43 0) 2 [4] = Some ([t; 0; 4] ++ concat [] ++ replicate 41 0)) as -> by done.
  cbn -[rdn store replicate app concat]. destruct (hop_addr gethostbyname host) as [a|] eqn:Ea; [|done].
  pose proof (hop_addr_length _ _ Ea) as Hl. rewrite rdn_all by done. cbn -[store replicate app concat].
  rewrite (store_next _ [] a 37 3) by (done || constructor). exists a. split; [done|]. unfold route_type.
  split; simpl; try lia; [by repeat constructor|]. by rewrite app_nil_r.
Qed.

Lemma doopts_stored type args : forall addrs s,
  stored type addrs s ->
  match doopts 4 gethostbyname args s with
  | Done s' => exists more, Forall2 (fun arg a => hop_addr gethostbyname arg.2 = Some a) args more /\
                 stored type (addrs ++ more) s'
  | Quits => (exists arg, arg ∈ args /\ hop_addr gethostbyname arg.2 = None) \/ (9 < length addrs + length args)%nat
  | Fault => False
  end.
Proof.
  induction args as [|[strict host] args IH]; intros addrs s Hs; simpl.
  { exists []. by rewrite app_nil_r. }
  pose proof (doopt_next strict host type addrs s Hs) as Hd.
  destruct (sroute_doopt 4 gethostbyname strict host s) as [s1| |]; [..|done]; simpl.
  - destruct Hd as (a & Ea & Hs1). specialize (IH _ _ Hs1). destruct (doopts _ _ args s1) as [s2| |]; [| |done].
    + destruct IH as (more & HF & Hs2). exists (a :: more). split; [by constructor|]. by rewrite <- app_assoc in Hs2.
    + rewrite length_app in IH. simpl in IH. destruct IH as [(arg & Hin & E)|]; [|right; lia]. left. exists arg.
      split; [by right|done].
  - destruct Hd as [Hd|Hd]; [|right; lia]. left. exists (strict, host). split; [by left|done].
Qed.

Lemma align_three n : align 4 (3 + 4 * n) = 4 + 4 * n.
Proof.
  assert (forall k, Z.land k 3 = k mod 4) as E by (intros k; exact (Z.land_ones k 2 ltac:(lia))).
  cbn [align]. rewrite !E. replace (3 + 4 * n + 1) with (4 + 4 * n) by lia.
  replace ((3 + 4 * n) mod 4) with 3 by (symmetry; rewrite Z.mul_comm, Z_mod_plus_full; done).
  replace ((4 + 4 * n) mod 4) with 0 by (symmetry; rewrite Z.mul_comm, Z_mod_plus_full; done). simpl. lia.
Qed.

(** Where [u_long] has four bytes, any hops and server: nothing outside the 44 bytes
    and the addresses is accessed; the program gives up only for an unknown host or
    more than nine hops; otherwise [setsockopt] gets the type of the first option,
    the length of all addresses with the server's, the offset, the addresses in
    order with the server's last, and a byte 0 that ends the options. *)
Theorem sroute_sends (server : list Z) (rest : list Z) (args : list (bool * list Z)) :
  length server = 4%nat ->
  match sockopts 4 gethostbyname (server ++ rest) args with
  | Done None => args = []
  | Done (Some bytes) => exists addrs strict host more,
      args = (strict, host) :: more /\ Forall2 (fun arg a => hop_addr gethostbyname arg.2 = Some a) args addrs /\
      bytes = [route_type strict; 3 + 4 * Z.of_nat (S (length addrs)); 4] ++ concat addrs ++ server ++ [0] /\
      (length bytes <= 44)%nat
  | Quits => (exists arg, arg ∈ args /\ hop_addr gethostbyname arg.2 = None) \/ (9 < length args)%nat
  | Fault => False
  end.
Proof.
  intros Hs. unfold sockopts. destruct args as [|[strict host] args]; [done|]. cbn [doopts].
  pose proof (doopt_first strict host) as H1. destruct (sroute_doopt _ _ _ _ start) as [s1| |]; [..|done]; cycle 1.
  { left. exists (strict, host). split; [by left|done]. }
  destruct H1 as (a & Ea & H1). simpl mbind. pose proof (doopts_stored _ args _ _ H1) as H2.
  destruct (doopts _ _ args s1) as [s2| |]; [..|done]; cycle 1.
  { destruct H2 as [(arg & Hin & E)|]; [|right; simpl in *; lia]. left. exists arg. split; [by right|done]. }
  destruct H2 as (more & HF & [Ha Hm Ho Hp Hc]). set (addrs := [a] ++ more) in *. simpl mbind.
  destruct (Z.gtb_spec (sroute_cnt s2) 0); [|lia]. unfold sroute_set. rewrite Ho, Hp, Hc.
  change ([route_type strict; 0; 4] ++ concat addrs ++ replicate (41 - 4 * length addrs) 0)
    with ([route_type strict] ++ [0] ++ 4 :: concat addrs ++ replicate (41 - 4 * length addrs) 0).
  rewrite (store_over [route_type strict] [0]) by done. cbn [checked mbind outcome_bind].
  assert (rdn (server ++ rest) 0 4 = Some server) as -> by (rewrite <- Hs; apply rdn_here). cbn [checked mbind outcome_bind].
  set (len := u8 (3 + (Z.of_nat (length addrs) + 1) * 4)).
  assert (len = 3 + 4 * Z.of_nat (S (length addrs))) as -> by (unfold len; rewrite uwrap_small; lia).
  set (pre := [route_type strict; 3 + 4 * Z.of_nat (S (length addrs)); 4]).
  change ([route_type strict] ++ [3 + 4 * Z.of_nat (S (length addrs))] ++ 4 :: concat addrs ++ replicate (41 - 4 * length addrs) 0)
    with (pre ++ concat addrs ++ replicate (41 - 4 * length addrs) 0).
  replace (41 - 4 * length addrs)%nat with (4 + (1 + (36 - 4 * length addrs)))%nat by lia.
  rewrite (store_next pre addrs server _ _ Ha Hs) by (simpl length; lia). cbn [checked mbind outcome_bind].
  replace (3 + 4 * Z.of_nat (length addrs) + Z.of_nat 4) with (3 + 4 * (Z.of_nat (length addrs) + 1)) by lia.
  rewrite align_three, replicate_add, concat_app. simpl (concat [server]). rewrite app_nil_r.
  assert (Hlen : length (pre ++ concat addrs ++ server ++ [0]) = Z.to_nat (4 + 4 * (Z.of_nat (length addrs) + 1))).
  { rewrite !length_app, addresses_length, Hs by done. simpl length. lia. }
  replace (pre ++ (concat addrs ++ server) ++ replicate 1 0 ++ replicate (36 - 4 * length addrs) 0)
    with ((pre ++ concat addrs ++ server ++ [0]) ++ replicate (36 - 4 * length addrs) 0) by (by rewrite <- !app_assoc).
  rewrite <- Hlen, rdn_here. cbn [checked mbind outcome_bind]. exists addrs, strict, host, args. rewrite Hlen.
  split_and!; [done|by constructor|done|lia].
Qed.
End Four.

(** With a [u_long] of eight bytes the first hop already copies eight bytes from an
    address of four, whatever the host. *)
Theorem sroute_lp64 (gethostbyname : list Z -> option (list Z)) (strict : bool) (host a : list Z) :
  (forall host a, gethostbyname host = Some a -> length a = 4%nat) ->
  hop_addr gethostbyname host = Some a -> sroute_doopt 8 gethostbyname strict host start = Fault.
Proof.
  intros Hn Ea. pose proof (hop_addr_length _ Hn _ _ Ea) as Hl. unfold sroute_doopt. cbn -[rdn store replicate].
  assert (forall t : Z, store (replicate 44 0) 0 [t] = Some (t :: replicate 43 0)) as -> by done. cbn -[rdn store replicate].
  assert (forall t : Z, store (t :: replicate 43 0) 2 [4] = Some ([t; 0; 4] ++ replicate 41 0)) as -> by done.
  cbn -[rdn store replicate]. rewrite Ea. by destruct a as [|? [|? [|? [|? [|]]]]].
Qed.

(** Two hops and a server. *)
Example sroute_demo :
  sockopts 4 (fun _ => None) [10; 0; 0; 9; 0; 0] [(false, codes "10.0.0.1"); (true, codes "10.0.0.2")] =
  Done (Some [131; 15; 4; 10; 0; 0; 1; 10; 0; 0; 2; 10; 0; 0; 9; 0]).
Proof. by vm_compute. Qed.

End SockRoute.
