(* ===== verification/IfiInfo.v ===== *)
(** * The list of interfaces: [unixNetV1/lib/get_ifi_info.c]

    The list is read with [SIOCGIFCONF] into a buffer that grows until two answers
    have the same length, then walked entry by entry.  The model is that of a system
    without [sa_len] and [sockaddr_dl] (Linux), in which an entry is the name, 16
    bytes, and the socket address; [sizeof_ifreq] is the size of [struct ifreq],
    32 where a pointer has four bytes and 40 where it has eight.  The answers of
    [ioctl] are parameters; [Socket], [Malloc], [Calloc] and [Ioctl] end the process
    when they fail, and for [Ioctl] this is an outcome of the model.

    - [ifconf_complete]: the first loop ends, with the whole list;
    - [get_ifi_info_lists]: on entries of 32 bytes the walk gives the interfaces that
      are up, in order, aliases only when asked for;
    - [free_ifi_info_frees]: freeing gives back every block once;
    - [lp64_skips]: on entries of 40 bytes interfaces are missed. *)
From S2P Require Import Prelude Mem Outcome Inet.

Module IfiInfo.

Definition IFNAMSIZ : nat := 16.
Definition IFI_NAME : nat := 16.
Definition IFI_HADDR : nat := 8.
Definition IFI_ALIAS : Z := 1.
Definition sizeof_sockaddr : nat := 16.
Definition sizeof_sockaddr_in : nat := 16.
Definition sizeof_sockaddr_in6 : nat := 28.
Definition IFF_UP : Z := 1.
Definition IFF_BROADCAST : Z := 2.
Definition IFF_POINTOPOINT : Z := 16.
Definition colon : Z := 58.

Abbreviation s16 := (swrap 16) (only parsing).

(** [struct ifi_info]; a pointer to allocated memory is the number of the
    allocation and the bytes there.  [ifi_next] is the order of the list. *)
Record ifi_info := Ifi {
  ifi_id : nat; ifi_name : list Z; ifi_index : Z; ifi_mtu : Z; ifi_haddr : list Z; ifi_hlen : Z;
  ifi_flags : Z; ifi_myflags : Z;
  ifi_addr : option (nat * list Z); ifi_brdaddr : option (nat * list Z); ifi_dstaddr : option (nat * list Z) }.

(** The requests about one interface. *)
Inductive request := SIOCGIFFLAGS | SIOCGIFMTU | SIOCGIFBRDADDR | SIOCGIFDSTADDR.
#[export] Instance request_eq_dec : EqDecision request.
Proof. solve_decision. Defined.

(** ** C strings *)

(** [strchr] from an offset: [i] is the offset of the first byte of [l]. *)
Fixpoint strchr (l : list Z) (c i : Z) : outcome (option Z) :=
  match l with
  | [] => Fault
  | x :: l => if x =? c then Done (Some i) else if x =? 0 then Done None else strchr l c (i + 1)
  end.

(** [strncmp] is 0, for two arrays of the number of bytes compared. *)
Fixpoint strncmp_eq (a b : list Z) : bool :=
  match a, b with
  | x :: a, y :: b => (x =? y) && ((x =? 0) || strncmp_eq a b)
  | _, _ => true
  end.

Section System.
Variable sizeof_ifreq : nat.

(** [ioctl] with [SIOCGIFCONF] and a buffer of [len] bytes: an error, or the bytes
    stored. *)
Variable ioctl_ifconf : Z -> errno + list Z.

(** [ioctl] about the interface with a name, and the bytes of the union in the
    [ifreq]: the bytes it stores there. *)
Variable ioctl : request -> list Z -> list Z -> option (list Z).

(** ** The buffer *)

(** The first loop; [None] when the fuel runs out. *)
Fixpoint ifconf (fuel : nat) (len lastlen : Z) : option (outcome (Z * list Z)) :=
  match fuel with
  | O => None
  | S fuel =>
      let again := s32 (u64 (len + 10 * Z.of_nat sizeof_ifreq)) in
      match ioctl_ifconf len with
      | inl e => if negb (bool_decide (e = EINVAL)) || negb (lastlen =? 0) then Some Quits else ifconf fuel again lastlen
      | inr buf =>
          if Z.of_nat (length buf) =? lastlen then Some (Done (len, buf))
          else ifconf fuel again (Z.of_nat (length buf))
      end
  end.

(** ** The walk *)

Definition Ioctl (req : request) (name u : list Z) : outcome (list Z) :=
  match ioctl req name u with Some r => Done (memcpy_into u r) | None => Quits end.

(** The buffer, [lastname], the list so far and the number of allocations. *)
Record walk_state := Walk { buf : list Z; lastname : list Z; ifis : list ifi_info; nalloc : nat }.

(** An address the kernel is asked for when a flag is set, copied from the union:
    the address, the union, the number of allocations. *)
Definition ask_addr (flag : Z) (req : request) (size : nat) (flags : Z) (name u : list Z) (n : nat)
    : outcome (option (nat * list Z) * list Z * nat) :=
  if negb (Z.land flags flag =? 0) then
    u ← Ioctl req name u;
    a ← checked (rdn u 0 size);
    Done (Some (n, a), u, S n)
  else Done (None, u, n).

(** From [Calloc] on: the structure for the entry at [ptr], whose interface is up. *)
Definition describe (b : list Z) (ptr fam : Z) (name u : list Z) (flags myflags : Z) (n : nat)
    : outcome (ifi_info * nat) :=
  u ← Ioctl SIOCGIFMTU name u;
  mtu ← checked (rd32 u 0);
  let ifi := Ifi n (take (IFI_NAME - 1) name ++ [0]) 0 (s16 (s32 mtu)) (replicate IFI_HADDR 0) 0 flags myflags in
  if fam =? AF_INET then
    a ← checked (rdn b (ptr + 16) sizeof_sockaddr_in);
    '(brd, u, m) ← ask_addr IFF_BROADCAST SIOCGIFBRDADDR sizeof_sockaddr_in flags name u (S (S n));
    '(dst, u, m) ← ask_addr IFF_POINTOPOINT SIOCGIFDSTADDR sizeof_sockaddr_in flags name u m;
    Done (ifi (Some (S n, a)) brd dst, m)
  else if fam =? AF_INET6 then
    a ← checked (rdn b (ptr + 16) sizeof_sockaddr_in6);
    '(dst, u, m) ← ask_addr IFF_POINTOPOINT SIOCGIFDSTADDR sizeof_sockaddr_in6 flags name u (S (S n));
    Done (ifi (Some (S n, a)) None dst, m)
  else Done (ifi None None None, S n).

(** One turn of the loop: the next [ptr] and the state. *)
Definition turn (family : Z) (doaliases : bool) (ptr : Z) (s : walk_state) : outcome (Z * walk_state) :=
  fam ← checked (rd16 (buf s) (ptr + 16));
  let len := if fam =? AF_INET6 then sizeof_sockaddr_in6 else sizeof_sockaddr in
  let next := ptr + 16 + Z.of_nat len in
  if negb (fam =? family) then Done (next, s) else
  cptr ← strchr (drop (Z.to_nat ptr) (buf s)) colon ptr;
  b ← match cptr with Some i => checked (store (buf s) i [0]) | None => Done (buf s) end;
  name ← checked (rdn b ptr IFNAMSIZ);
  let same := strncmp_eq (lastname s) name in
  if same && negb doaliases then Done (next, Walk b (lastname s) (ifis s) (nalloc s)) else
  let myflags := if same then IFI_ALIAS else 0 in
  ifrcopy ← checked (rdn b ptr sizeof_ifreq);
  u ← Ioctl SIOCGIFFLAGS name (drop 16 ifrcopy);
  fl ← checked (rd16 u 0);
  let flags := s16 fl in
  if Z.land flags IFF_UP =? 0 then Done (next, Walk b name (ifis s) (nalloc s)) else
  '(ifi, n) ← describe b ptr fam name u flags myflags (nalloc s);
  Done (next, Walk b name (ifis s ++ [ifi]) n).

(** The loop [for (ptr = buf; ptr < buf + ifc.ifc_len; )]. *)
Fixpoint walk (family : Z) (doaliases : bool) (fuel : nat) (ifc_len ptr : Z) (s : walk_state)
    : option (outcome walk_state) :=
  if ptr <? ifc_len then
    match fuel with
    | O => None
    | S fuel =>
        match turn family doaliases ptr s with
        | Done (ptr, s) => walk family doaliases fuel ifc_len ptr s
        | Quits => Some Quits
        | Fault => Some Fault
        end
    end
  else Some (Done s).

(** [get_ifi_info]: [junk] is what [Malloc] leaves in the rest of the buffer and in
    [lastname]. *)
Definition get_ifi_info (family : Z) (doaliases : bool) (junk : list Z) (fuel : nat)
    : option (outcome (list ifi_info)) :=
  match ifconf fuel (100 * Z.of_nat sizeof_ifreq) 0 with
  | Some (Done (len, bytes)) =>
      let b := take (Z.to_nat len) (bytes ++ junk) in
      match walk family doaliases fuel (Z.of_nat (length bytes)) 0 (Walk b (0 :: take (IFNAMSIZ - 1) junk) [] 0) with
      | Some (Done s) => Some (Done (ifis s))
      | Some Quits => Some Quits
      | Some Fault => Some Fault
      | None => None
      end
  | Some Quits => Some Quits
  | Some Fault => Some Fault
  | None => None
  end.
End System.

(** [free_ifi_info]: the blocks freed, in order. *)
Definition free_addr (a : option (nat * list Z)) : list nat := match a with Some (i, _) => [i] | None => [] end.
Fixpoint free_ifi_info (l : list ifi_info) : list nat :=
  match l with
  | [] => []
  | ifi :: l => free_addr (ifi_addr ifi) ++ free_addr (ifi_brdaddr ifi) ++ free_addr (ifi_dstaddr ifi) ++
                [ifi_id ifi] ++ free_ifi_info l
  end.

(** [Get_ifi_info] does not return an empty list. *)
Definition Get_ifi_info (r : option (outcome (list ifi_info))) : option (outcome (list ifi_info)) :=
  match r with Some (Done []) => Some Quits | r => r end.

(** ** The buffer is large enough *)

Section Conf.
Variable sizeof_ifreq : nat.
Hypothesis ifreq_size : (32 <= sizeof_ifreq <= 40)%nat.
Variable ioctl_ifconf : Z -> errno + list Z.
Variable all : list Z.

(** What systems do with a buffer: the whole list when it fits, otherwise an error
    or the entries that fit. *)
Record ifconf_kernel : Prop := {
  k_fits len : Z.of_nat (length all) <= len -> ioctl_ifconf len = inr all;
  k_short : (forall len, len < Z.of_nat (length all) -> ioctl_ifconf len = inl EINVAL) \/
            (forall len, 0 < len < Z.of_nat (length all) -> exists k, ioctl_ifconf len = inr (take k all) /\
               len - 10 * Z.of_nat sizeof_ifreq < Z.of_nat k <= len);
  k_small : Z.of_nat (length all) < 2 ^ 30 }.

Lemma ifconf_run (K : ifconf_kernel) : forall fuel len lastlen,
  10 * Z.of_nat sizeof_ifreq <= len < 2 ^ 30 + 8000 ->
  (lastlen = 0 \/ (lastlen = Z.of_nat (length all) /\ lastlen <= len) \/
   ((forall l, 0 < l < Z.of_nat (length all) -> exists k, ioctl_ifconf l = inr (take k all) /\
       l - 10 * Z.of_nat sizeof_ifreq < Z.of_nat k <= l) /\ lastlen <= len - 10 * Z.of_nat sizeof_ifreq)) ->
  (if Z.of_nat (length all) <=? len then (if lastlen =? Z.of_nat (length all) then len < 2 ^ 30 + 8000 /\ 1 <= Z.of_nat fuel
     else len < 2 ^ 30 + 4000 /\ 2 <= Z.of_nat fuel)
   else Z.of_nat (length all) - len + 3 <= Z.of_nat fuel) ->
  exists len', ifconf sizeof_ifreq ioctl_ifconf fuel len lastlen = Some (Done (len', all)) /\ Z.of_nat (length all) <= len'.
Proof.
  destruct K as [Kf Ks Km]. induction fuel as [|fuel IH]; intros len lastlen Hlen Hlast Hfuel.
  { destruct (_ <=? _) eqn:E; [destruct (_ =? _)|]; lia. }
  cbn [ifconf]. assert (len + 10 * Z.of_nat sizeof_ifreq < 2 ^ 30 + 9000) by lia.
  assert (s32 (u64 (len + 10 * Z.of_nat sizeof_ifreq)) = len + 10 * Z.of_nat sizeof_ifreq) as ->.
  { rewrite s32_u64. apply swrap_small; lia. }
  destruct (Z.leb_spec (Z.of_nat (length all)) len) as [Hf|Hf].
  - rewrite Kf by done. destruct (Z.eqb_spec (Z.of_nat (length all)) lastlen) as [->|Hne]; [exists len; split; [done|lia]|].
    rewrite (proj2 (Z.eqb_neq lastlen _)) in Hfuel by congruence. apply IH; [lia|right; left; lia|].
    rewrite (proj2 (Z.leb_le _ _)) by lia. rewrite Z.eqb_refl. lia.
  - assert (Hgo : forall last, (if Z.of_nat (length all) <=? len + 10 * Z.of_nat sizeof_ifreq then
      (if last =? Z.of_nat (length all) then len + 10 * Z.of_nat sizeof_ifreq < 2 ^ 30 + 8000 /\ 1 <= Z.of_nat fuel
       else len + 10 * Z.of_nat sizeof_ifreq < 2 ^ 30 + 4000 /\ 2 <= Z.of_nat fuel)
      else Z.of_nat (length all) - (len + 10 * Z.of_nat sizeof_ifreq) + 3 <= Z.of_nat fuel)).
    { intros last. destruct (_ <=? _) eqn:E; [destruct (_ =? _)|]; lia. }
    destruct Ks as [Ks|Ks].
    + rewrite Ks by done. simpl. assert (lastlen = 0) as ->.
      { destruct Hlast as [|[[? ?]|[Hk ?]]]; [done|lia|]. destruct (Hk len ltac:(lia)) as (k & E & _). by rewrite Ks in E. }
      apply IH; [lia|by left|apply Hgo].
    + destruct (Ks len ltac:(lia)) as (k & -> & Hk). rewrite length_take.
      rewrite (proj2 (Z.eqb_neq _ _)) by (destruct Hlast as [|[[? ?]|[_ ?]]]; lia).
      apply IH; [lia|right; right; split; [done|lia]|apply Hgo].
Qed.

(** The first loop of [get_ifi_info] ends and has the whole list, both where
    [SIOCGIFCONF] fails on a buffer that is too small and where it stores what
    fits; fewer turns than bytes are needed. *)
Theorem ifconf_complete (fuel : nat) :
  ifconf_kernel -> (length all + 3 <= fuel)%nat ->
  exists len, ifconf sizeof_ifreq ioctl_ifconf fuel (100 * Z.of_nat sizeof_ifreq) 0 = Some (Done (len, all)) /\
    Z.of_nat (length all) <= len.
Proof.
  intros K Hf. apply (ifconf_run K); [lia|by left|]. destruct (_ <=? _) eqn:E; [destruct (_ =? _)|]; lia.
Qed.
End Conf.

(** ** Blocks *)

Lemma Permutation_seq_app n m (l l' : list nat) : l ≡ₚ seq 0 n -> l' ≡ₚ seq n m -> l ++ l' ≡ₚ seq 0 (n + m).
Proof. intros -> ->. by rewrite seq_app. Qed.

Lemma free_app l l' : free_ifi_info (l ++ l') = free_ifi_info l ++ free_ifi_info l'.
Proof. induction l as [|i l IH]; simpl; [done|]. by rewrite IH, <- !app_assoc. Qed.

(** The next operation of a sequence. *)
Ltac bound := cbn [mbind outcome_bind checked].

Section Blocks.
Variable sizeof_ifreq : nat.
Variable ioctl : request -> list Z -> list Z -> option (list Z).

Lemma ask_addr_blocks flag req size flags name u n a u' m :
  ask_addr ioctl flag req size flags name u n = Done (a, u', m) -> free_addr a = seq n (m - n) /\ (n <= m)%nat.
Proof.
  unfold ask_addr. destruct (negb _); [|intros [= <- <- <-]; by rewrite Nat.sub_diag].
  destruct (Ioctl _ _ _ _) as [u1| |]; [|done..]. bound. destruct (rdn u1 0 size) as [d|]; [|done]. bound. intros [= <- <- <-].
  replace (S n - n)%nat with 1%nat by lia. split; [done|lia].
Qed.

Lemma describe_blocks b ptr fam name u flags my n i m :
  describe ioctl b ptr fam name u flags my n = Done (i, m) -> (n <= m)%nat /\ free_ifi_info [i] ≡ₚ seq n (m - n).
Proof.
  unfold describe. destruct (Ioctl _ _ _ _) as [u1| |]; [|done..]. bound. destruct (rd32 u1 0) as [mtu|]; [|done]. bound.
  assert (Hp : forall m d1 d2, (S (S n) <= m)%nat -> d1 ++ d2 = seq (S (S n)) (m - S (S n)) ->
    [S n] ++ d1 ++ d2 ++ [n] ≡ₚ seq n (m - n)).
  { intros k d1 d2 Hk E. rewrite (app_assoc d1), E. replace (k - n)%nat with (S (S (k - S (S n)))) by lia. simpl.
    rewrite <- Permutation_cons_append. constructor. }
  destruct (fam =? AF_INET); [|destruct (fam =? AF_INET6)].
  - destruct (rdn b _ _) as [a|]; [|done]. bound.
    destruct (ask_addr _ IFF_BROADCAST _ _ _ _ _ _) as [[[brd u2] m1]| |] eqn:E1; [|done..]. bound.
    destruct (ask_addr _ IFF_POINTOPOINT _ _ _ _ _ _) as [[[dst u3] m2]| |] eqn:E2; [|done..]. bound. intros [= <- <-].
    apply ask_addr_blocks in E1 as [E1 H1], E2 as [E2 H2]. split; [lia|]. simpl. rewrite E1, E2. apply Hp; [lia|].
    replace (m2 - S (S n))%nat with ((m1 - S (S n)) + (m2 - m1))%nat by lia. rewrite seq_app. repeat f_equal; lia.
  - destruct (rdn b _ _) as [a|]; [|done]. bound.
    destruct (ask_addr _ IFF_POINTOPOINT _ _ _ _ _ _) as [[[dst u3] m2]| |] eqn:E2; [|done..]. bound. intros [= <- <-].
    apply ask_addr_blocks in E2 as [E2 H2]. split; [lia|]. simpl. rewrite E2. by apply (Hp _ []); [lia|].
  - intros [= <- <-]. split; [lia|]. by replace (S n - n)%nat with 1%nat by lia.
Qed.

(** Every block allocated is in the list. *)
Definition owns_all (s : walk_state) : Prop := free_ifi_info (ifis s) ≡ₚ seq 0 (nalloc s).

Lemma turn_owns family doaliases ptr s ptr' s' :
  owns_all s -> turn sizeof_ifreq ioctl family doaliases ptr s = Done (ptr', s') -> owns_all s'.
Proof.
  intros Ho. unfold turn. destruct (rd16 (buf s) (ptr + 16)) as [fam|]; [|done]. bound.
  destruct (negb _); [by intros [= <- <-]|]. destruct (strchr _ _ _) as [cptr| |]; [|done..]. bound.
  destruct (match cptr with Some _ => _ | None => _ end) as [b| |]; [|done..]. bound.
  destruct (rdn b ptr IFNAMSIZ) as [name|]; [|done]. bound.
  destruct (_ && _); [by intros [= <- <-]|]. destruct (rdn b ptr sizeof_ifreq) as [copy|]; [|done]. bound.
  destruct (Ioctl _ SIOCGIFFLAGS _ _) as [u| |]; [|done..]. bound.
  destruct (rd16 u 0) as [fl|]; [|done]. bound. destruct (_ =? 0); [by intros [= <- <-]|].
  destruct (describe _ _ _ _ _ _ _ _ _) as [[i n]| |] eqn:Ed; [|done..]. bound. intros [= <- <-].
  apply describe_blocks in Ed as [Hn Hb]. unfold owns_all in *. simpl. rewrite free_app.
  replace n with (nalloc s + (n - nalloc s))%nat by lia. by apply Permutation_seq_app.
Qed.

(** Whatever the kernel answers, [free_ifi_info] frees every block that the walk
    allocated, and each once. *)
Theorem free_ifi_info_frees family doaliases fuel : forall ifc_len ptr s s',
  owns_all s -> walk sizeof_ifreq ioctl family doaliases fuel ifc_len ptr s = Some (Done s') ->
  free_ifi_info (ifis s') ≡ₚ seq 0 (nalloc s').
Proof.
  induction fuel as [|fuel IH]; intros ifc_len ptr s s' Ho; simpl; (destruct (_ <? _); [|by intros [= <-]]); [done|].
  destruct (turn _ _ _ _ _ _) as [[ptr1 s1]| |] eqn:E; [|done..]. apply turn_owns in E; [|done]. by apply IH.
Qed.
End Blocks.

(** ** Entries *)

(** An entry of the buffer: the name without its NUL, the bytes behind it, the
    socket address. *)
Record entry := Entry { e_name : list Z; e_pad : list Z; e_sa : list Z }.

Definition fam (e : entry) : Z := nth 0 (e_sa e) 0 + 256 * nth 1 (e_sa e) 0.
Definition encode (e : entry) : list Z := e_name e ++ [0] ++ e_pad e ++ e_sa e.

Record entry_wf (e : entry) : Prop := {
  w_name : 0 ∉ e_name e;
  w_length : (length (e_name e) + length (e_pad e) = 15)%nat;
  w_sa : length (e_sa e) = if fam e =? AF_INET6 then sizeof_sockaddr_in6 else sizeof_sockaddr }.

(** The name of the interface an alias belongs to: up to the colon. *)
Fixpoint base (name : list Z) : list Z :=
  match name with [] => [] | x :: name => if x =? colon then [] else x :: base name end.

(** The name with the colon replaced. *)
Fixpoint cut (name : list Z) : list Z :=
  match name with [] => [] | x :: name => if x =? colon then 0 :: name else x :: cut name end.

Lemma cut_length name : length (cut name) = length name.
Proof. induction name as [|x name IH]; simpl; [done|]. destruct (x =? colon); simpl; lia. Qed.

Lemma base_length name : (length (base name) <= length name)%nat.
Proof. induction name as [|x name IH]; simpl; [done|]. destruct (x =? colon); simpl; lia. Qed.

Lemma base_nonzero name : 0 ∉ name -> 0 ∉ base name.
Proof.
  induction name as [|x name IH]; simpl; [done|]. intros H. apply not_elem_of_cons in H as [H1 H2].
  destruct (x =? colon); [apply not_elem_of_nil|]. apply not_elem_of_cons. auto.
Qed.

Lemma cut_shape name r : exists z, cut name ++ 0 :: r = base name ++ 0 :: z.
Proof.
  induction name as [|x name [z IH]]; simpl; [by eexists|]. destruct (x =? colon); [by eexists|]. exists z. simpl. by rewrite IH.
Qed.

(** [strchr] and the store through its result. *)
Lemma cut_in_place (pre name r : list Z) :
  0 ∉ name ->
  (cptr ← strchr (drop (Z.to_nat (Z.of_nat (length pre))) (pre ++ name ++ 0 :: r)) colon (Z.of_nat (length pre));
   match cptr with Some i => checked (store (pre ++ name ++ 0 :: r) i [0]) | None => Done (pre ++ name ++ 0 :: r) end) =
  Done (pre ++ cut name ++ 0 :: r).
Proof.
  intros Hn. rewrite Nat2Z.id, drop_app_length. revert pre. induction name as [|x name IH]; intros pre; simpl; [done|].
  apply not_elem_of_cons in Hn as [H1 H2]. destruct (Z.eqb_spec x colon) as [->|Hx].
  - bound. pose proof (store_over pre [colon] (name ++ 0 :: r) [0] _ eq_refl eq_refl) as E. cbn [app] in E. by rewrite E.
  - rewrite (proj2 (Z.eqb_neq x 0)) by done. specialize (IH H2 (pre ++ [x])). rewrite length_app in IH. simpl in IH.
    replace (Z.of_nat (length pre + 1)) with (Z.of_nat (length pre) + 1) in IH by lia. by rewrite <- !app_assoc in IH.
Qed.

Lemma strncmp_strings a b x y : 0 ∉ a -> 0 ∉ b -> strncmp_eq (a ++ 0 :: x) (b ++ 0 :: y) = bool_decide (a = b).
Proof.
  revert b. induction a as [|c a IH]; intros [|d b] Ha Hb; simpl; [done|..].
  - apply not_elem_of_cons in Hb as [Hb _]. by destruct d.
  - apply not_elem_of_cons in Ha as [Ha _]. rewrite (proj2 (Z.eqb_neq c 0)) by done. done.
  - apply not_elem_of_cons in Ha as [Ha Ha'], Hb as [Hb Hb']. rewrite (proj2 (Z.eqb_neq c 0)) by done. simpl.
    rewrite IH by done. destruct (Z.eqb_spec c d) as [->|Hne]; simpl.
    + apply bool_decide_ext. split; [by intros ->|by intros [= ->]].
    + symmetry. apply bool_decide_eq_false. by intros [= ? ?].
Qed.

(** The 16 bytes of the name in the copy of the entry. *)
Definition name16 (e : entry) : list Z := cut (e_name e) ++ 0 :: e_pad e.

Section Walk.
Variable ioctl : request -> list Z -> list Z -> option (list Z).

(** The kernel fills the member of the union the request is about. *)
Definition answer_size (req : request) : nat := match req with SIOCGIFFLAGS => 2 | SIOCGIFMTU => 4 | _ => 16 end.
Hypothesis answer_length : forall req name u r, ioctl req name u = Some r -> length r = answer_size req.

(** The flags the kernel gives for an entry. *)
Definition flags_of (e : entry) : option Z :=
  r ← ioctl SIOCGIFFLAGS (name16 e) (e_sa e); w ← rd16 (memcpy_into (e_sa e) r) 0; Some (s16 w).

Definition up (e : entry) : bool := match flags_of e with Some f => negb (Z.land f IFF_UP =? 0) | None => false end.

(** The entries looked at, each with whether it is an alias: an entry of the family
    whose base name is that of the entry of the family directly before it; [last] is
    the base name of that entry.  Aliases are passed over unless they are asked
    for. *)
Fixpoint visited (doaliases : bool) (last : list Z) (es : list entry) : list (entry * bool) :=
  match es with
  | [] => []
  | e :: es =>
      if fam e =? AF_INET then
        let alias := bool_decide (last = base (e_name e)) in
        (if alias && negb doaliases then [] else [(e, alias)]) ++ visited doaliases (base (e_name e)) es
      else visited doaliases last es
  end.

(** The entries to list. *)
Definition selected (doaliases : bool) (last : list Z) (es : list entry) : list (entry * bool) :=
  filter (fun ea => up ea.1 = true) (visited doaliases last es).

(** The requests about an entry with given flags, and the answers of the kernel to
    them, each made with the union that the one before has left; [None] when one
    fails. *)
Definition requests (flags : Z) : list request :=
  SIOCGIFFLAGS ::
  if Z.land flags IFF_UP =? 0 then [] else
  SIOCGIFMTU :: (if Z.land flags IFF_BROADCAST =? 0 then [] else [SIOCGIFBRDADDR]) ++
                (if Z.land flags IFF_POINTOPOINT =? 0 then [] else [SIOCGIFDSTADDR]).

Fixpoint talk (name : list Z) (reqs : list request) (u : list Z) : option (list (request * list Z)) :=
  match reqs with
  | [] => Some []
  | req :: reqs => r ← ioctl req name u; l ← talk name reqs (memcpy_into u r); Some ((req, r) :: l)
  end.

Definition answers (e : entry) : option (list (request * list Z)) :=
  f ← flags_of e; talk (name16 e) (requests f) (e_sa e).

Definition answer_to (req : request) (l : list (request * list Z)) : option (list Z) :=
  snd <$> head (filter (fun a => a.1 = req) l).

(** What the list says of an entry, for the answers [l] of the kernel. *)
Record listed (e : entry) (alias : bool) (l : list (request * list Z)) (i : ifi_info) : Prop := {
  l_name : exists z, ifi_name i = base (e_name e) ++ 0 :: z;
  l_flags : flags_of e = Some (ifi_flags i);
  l_alias : ifi_myflags i = if alias then IFI_ALIAS else 0;
  l_addr : snd <$> ifi_addr i = Some (e_sa e);
  l_mtu : exists w, (r ← answer_to SIOCGIFMTU l; rd32 r 0) = Some w /\ ifi_mtu i = s16 (s32 w);
  l_brd : snd <$> ifi_brdaddr i = answer_to SIOCGIFBRDADDR l;
  l_dst : snd <$> ifi_dstaddr i = answer_to SIOCGIFDSTADDR l;
  l_hard : ifi_index i = 0 /\ ifi_hlen i = 0 }.

Definition reported (ea : entry * bool) (i : ifi_info) : Prop :=
  exists l, answers ea.1 = Some l /\ listed ea.1 ea.2 l i.

Lemma rd_is_some (l : list Z) off : (off < length l)%nat -> exists b, rd l (Z.of_nat off) = Some b.
Proof. intros H. unfold rd. rewrite (proj2 (Z.ltb_ge _ 0)) by lia. rewrite Nat2Z.id. by apply lookup_lt_is_Some_2. Qed.

Lemma rd16_is_some (l : list Z) off : (off + 1 < length l)%nat -> exists w, rd16 l (Z.of_nat off) = Some w.
Proof.
  intros H. unfold rd16. destruct (rd_is_some l off) as [b0 ->]; [lia|].
  replace (Z.of_nat off + 1) with (Z.of_nat (S off)) by lia. destruct (rd_is_some l (S off)) as [b1 ->]; [lia|]. by eexists.
Qed.

Lemma rd32_is_some (l : list Z) : (4 <= length l)%nat -> exists w, rd32 l 0 = Some w.
Proof.
  intros H. unfold rd32. destruct (rd16_is_some l 0) as [w0 E0]; [lia|]. destruct (rd16_is_some l 2) as [w1 E1]; [lia|].
  change (Z.of_nat 0) with 0 in E0. change (Z.of_nat 2) with (0 + 2) in E1. rewrite E0, E1. by eexists.
Qed.

Lemma rd32_answer (u r : list Z) : length r = 4%nat -> rd32 (memcpy_into u r) 0 = rd32 r 0.
Proof. intros Hr. do 4 (destruct r as [|? r]; [done|]). destruct r; [|done]. reflexivity. Qed.

Lemma memcpy_over (u r : list Z) : length r = length u -> memcpy_into u r = r.
Proof. intros H. unfold memcpy_into. by rewrite drop_ge, app_nil_r by lia. Qed.

(** An address is the kernel's answer, which fills the union. *)
Lemma ask_addr_in flag req flags name u n :
  length u = 16%nat -> answer_size req = 16%nat ->
  ask_addr ioctl flag req sizeof_sockaddr_in flags name u n =
  if Z.land flags flag =? 0 then Done (None, u, n)
  else match ioctl req name u with Some r => Done (Some (n, r), memcpy_into u r, S n) | None => Quits end.
Proof.
  intros Hu Hr. unfold ask_addr. destruct (Z.land flags flag =? 0); [done|]. cbn [negb]. unfold Ioctl.
  destruct (ioctl req name u) as [r|] eqn:E; [|done]. apply answer_length in E. bound.
  rewrite memcpy_over by lia. rewrite rdn_all by (unfold sizeof_sockaddr_in; lia). done.
Qed.

(** The name copied into the structure. *)
Lemma copied_name e : entry_wf e -> exists z, take (IFI_NAME - 1) (name16 e) ++ [0] = base (e_name e) ++ 0 :: z.
Proof.
  intros [Wn Wl _]. destruct (cut_shape (e_name e) (e_pad e)) as [z Hz]. unfold name16. rewrite Hz.
  assert (length (base (e_name e) ++ 0 :: z) = 16%nat) as Hl.
  { rewrite <- Hz, length_app, cut_length. simpl. lia. }
  pose proof (base_length (e_name e)). rewrite length_app in Hl. simpl in Hl.
  change (IFI_NAME - 1)%nat with 15%nat.
  destruct (decide (length (base (e_name e)) = 15%nat)) as [E|E].
  - exists []. rewrite take_app_le by lia. by rewrite take_ge by lia.
  - exists (take (14 - length (base (e_name e))) z ++ [0]). rewrite take_app_ge by lia.
    replace (15 - length (base (e_name e)))%nat with (S (14 - length (base (e_name e)))) by lia. simpl. by rewrite <- app_assoc.
Qed.

(** The structure for an entry of the family whose interface is up. *)
Lemma describe_listed b ptr e r flags (alias : bool) n :
  entry_wf e -> fam e = AF_INET -> rdn b (ptr + 16) 16 = Some (e_sa e) -> length (e_sa e) = 16%nat ->
  ioctl SIOCGIFFLAGS (name16 e) (e_sa e) = Some r -> flags_of e = Some flags -> (Z.land flags IFF_UP =? 0) = false ->
  match describe ioctl b ptr AF_INET (name16 e) (memcpy_into (e_sa e) r) flags (if alias then IFI_ALIAS else 0) n with
  | Done (i, _) => reported (e, alias) i
  | Quits => answers e = None
  | Fault => False
  end.
Proof.
  intros We Hf Ha Hsa Er Hfl Hup. unfold describe, reported, answers. simpl fst. rewrite Hfl. cbn [mbind option_bind].
  unfold requests. rewrite Hup. cbn [talk]. rewrite Er. cbn [mbind option_bind].
  assert (length (memcpy_into (e_sa e) r) = 16%nat) as Hu.
  { apply answer_length in Er. simpl in Er. rewrite memcpy_into_length; lia. }
  set (u := memcpy_into (e_sa e) r) in *. clearbody u. unfold Ioctl.
  destruct (ioctl SIOCGIFMTU (name16 e) u) as [r1|] eqn:E1; [|done]. bound. cbn [mbind option_bind].
  pose proof (answer_length _ _ _ _ E1) as L1. simpl in L1. rewrite rd32_answer by done.
  destruct (rd32_is_some r1) as [mtu Hmtu]; [lia|]. rewrite Hmtu. bound.
  rewrite Z.eqb_refl. change sizeof_sockaddr_in with 16%nat. rewrite Ha. bound.
  assert (length (memcpy_into u r1) = 16%nat) as Hu1 by (rewrite memcpy_into_length; lia).
  set (u1 := memcpy_into u r1) in *. clearbody u1. change 16%nat with sizeof_sockaddr_in at 1 2.
  rewrite (ask_addr_in IFF_BROADCAST SIOCGIFBRDADDR) by done.
  pose proof (copied_name e We) as Hname.
  destruct (Z.land flags IFF_BROADCAST =? 0); cycle 1; cbn [app talk mbind option_bind].
  - destruct (ioctl SIOCGIFBRDADDR (name16 e) u1) as [r2|] eqn:E2; [|done]. bound. cbn [mbind option_bind].
    pose proof (answer_length _ _ _ _ E2) as L2. simpl in L2.
    assert (length (memcpy_into u1 r2) = 16%nat) as Hu2 by (rewrite memcpy_into_length; lia).
    set (u2 := memcpy_into u1 r2) in *. clearbody u2. rewrite ask_addr_in by done.
    destruct (Z.land flags IFF_POINTOPOINT =? 0); cycle 1; cbn [talk mbind option_bind];
      [destruct (ioctl SIOCGIFDSTADDR (name16 e) u2) as [r3|]; [|done]|]; bound;
      (eexists; split; [reflexivity|]; split; try done; simpl; eauto).
  - bound. rewrite ask_addr_in by done.
    destruct (Z.land flags IFF_POINTOPOINT =? 0); cycle 1; cbn [talk mbind option_bind];
      [destruct (ioctl SIOCGIFDSTADDR (name16 e) u1) as [r3|]; [|done]|]; bound;
      (eexists; split; [reflexivity|]; split; try done; simpl; eauto).
Qed.

(** Reading a part of a buffer. *)
Lemma rdn_part (l m r : list Z) off n :
  off = Z.of_nat (length l) -> n = length m -> rdn (l ++ m ++ r) off n = Some m.
Proof. intros -> ->. rewrite rdn_app by lia. rewrite Z.sub_diag. apply rdn_here. Qed.

Lemma encode_fam (pre suf : list Z) e :
  entry_wf e -> rd16 (pre ++ encode e ++ suf) (Z.of_nat (length pre) + 16) = Some (fam e).
Proof.
  intros [_ Wl Ws]. unfold encode.
  replace (pre ++ (e_name e ++ [0] ++ e_pad e ++ e_sa e) ++ suf) with ((pre ++ e_name e ++ [0] ++ e_pad e) ++ e_sa e ++ suf)
    by (by rewrite <- !app_assoc).
  assert (length (pre ++ e_name e ++ [0] ++ e_pad e) = (length pre + 16)%nat) as Hl by (rewrite !length_app; simpl length; lia).
  rewrite rd16_app by lia. rewrite Hl. replace (Z.of_nat (length pre) + 16 - Z.of_nat (length pre + 16)) with 0 by lia.
  unfold fam in *. destruct (e_sa e) as [|x [|y sa]]; [destruct (_ =? _) in Ws; done..|]. reflexivity.
Qed.

Definition last_name (last : list Z) (e : entry) : list Z := if fam e =? AF_INET then base (e_name e) else last.

Lemma visited_cons doaliases last e es :
  visited doaliases last (e :: es) = visited doaliases last [e] ++ visited doaliases (last_name last e) es.
Proof. unfold last_name. simpl. destruct (fam e =? AF_INET); [|done]. by rewrite app_nil_r. Qed.

Lemma selected_cons doaliases last e es :
  selected doaliases last (e :: es) = selected doaliases last [e] ++ selected doaliases (last_name last e) es.
Proof. unfold selected. by rewrite visited_cons, filter_app. Qed.

(** A request about one of the entries looked at fails. *)
Definition request_fails (doaliases : bool) (last : list Z) (es : list entry) : Prop :=
  exists ea, ea ∈ visited doaliases last es /\ answers ea.1 = None.

(** The state after a turn over [e], with what the turn adds to the list. *)
Definition after (doaliases : bool) (pre suf last : list Z) (e : entry) (s s' : walk_state) : Prop :=
  (exists e', buf s' = pre ++ e' ++ suf /\ length e' = length (encode e)) /\
  (exists x, lastname s' = last_name last e ++ 0 :: x) /\
  exists l, ifis s' = ifis s ++ l /\ Forall2 reported (selected doaliases last [e]) l.

Lemma turn_entry doaliases (pre suf last x : list Z) e s :
  entry_wf e -> 0 ∉ last -> buf s = pre ++ encode e ++ suf -> lastname s = last ++ 0 :: x ->
  match turn 32 ioctl AF_INET doaliases (Z.of_nat (length pre)) s with
  | Done (ptr, s') => ptr = Z.of_nat (length (pre ++ encode e)) /\ after doaliases pre suf last e s s'
  | Quits => request_fails doaliases last [e]
  | Fault => False
  end.
Proof.
  intros We H0 Hb Hlast. pose proof We as [Wn Wl Ws]. unfold turn. rewrite Hb, encode_fam by done. bound.
  assert (Z.of_nat (length pre) + 16 + Z.of_nat (if fam e =? AF_INET6 then sizeof_sockaddr_in6 else sizeof_sockaddr) =
          Z.of_nat (length (pre ++ encode e))) as ->.
  { rewrite <- Ws. unfold encode. rewrite !length_app. simpl length. lia. }
  destruct (Z.eqb_spec (fam e) AF_INET) as [Ef|Ef]; cbn [negb]; cycle 1.
  { apply Z.eqb_neq in Ef. split; [done|]. unfold after, last_name, selected. simpl. rewrite Hb, Hlast, Ef.
    split; [by eexists|]. split; [by exists x|]. exists []. rewrite app_nil_r. split; [done|constructor]. }
  rewrite Ef in Ws. simpl in Ws. change sizeof_sockaddr with 16%nat in Ws.
  assert (pre ++ encode e ++ suf = pre ++ e_name e ++ 0 :: e_pad e ++ e_sa e ++ suf) as ->
    by (unfold encode; by rewrite <- !app_assoc).
  pose proof (cut_in_place pre (e_name e) (e_pad e ++ e_sa e ++ suf) Wn) as Hc.
  destruct (strchr _ _ _) as [cptr| |]; [|done..]. bound. cbn [mbind outcome_bind] in Hc. rewrite Hc. bound.
  set (b := pre ++ cut (e_name e) ++ 0 :: e_pad e ++ e_sa e ++ suf).
  assert (b = pre ++ name16 e ++ e_sa e ++ suf) as Eb by (unfold b, name16; by rewrite <- app_assoc).
  assert (length (name16 e) = 16%nat) as Hn by (unfold name16; rewrite length_app, cut_length; simpl; lia).
  rewrite Eb. rewrite (rdn_part pre (name16 e) _ _ _ eq_refl (eq_sym Hn)). bound. rewrite Hlast.
  destruct (cut_shape (e_name e) (e_pad e)) as [z Hz]. fold (name16 e) in Hz.
  set (same := bool_decide (last = base (e_name e))).
  assert (strncmp_eq (last ++ 0 :: x) (name16 e) = same) as ->.
  { rewrite Hz. apply strncmp_strings; [done|by apply base_nonzero]. }
  assert (Hlast1 : last_name last e = base (e_name e)) by (unfold last_name; by rewrite Ef, Z.eqb_refl).
  assert (Haft : forall l n, Forall2 reported (selected doaliases last [e]) l ->
     after doaliases pre suf last e s (Walk (pre ++ name16 e ++ e_sa e ++ suf) (name16 e) (ifis s ++ l) n)).
  { intros l n HF. split; [|split; [|by exists l] ].
    - exists (name16 e ++ e_sa e). simpl. rewrite <- app_assoc. split; [done|]. unfold encode.
      rewrite !length_app, Hn. simpl length. lia.
    - exists z. by rewrite Hlast1. }
  assert (Hvis : visited doaliases last [e] = if same && negb doaliases then [] else [(e, same)]).
  { cbn [visited]. rewrite Ef, Z.eqb_refl. fold same. apply app_nil_r. }
  destruct (same && negb doaliases) eqn:Es.
  { split; [done|]. pose proof (Haft [] (nalloc s) ltac:(unfold selected; by rewrite Hvis)) as Ha.
    rewrite app_nil_r in Ha. destruct Ha as (H1 & _ & H3). split; [done|]. split; [|done].
    exists x. rewrite Hlast1. simpl. apply andb_true_iff in Es as [Es _]. apply bool_decide_eq_true in Es. by rewrite <- Es. }
  assert (Hfail : answers e = None -> request_fails doaliases last [e]) by (intros E; exists (e, same); rewrite Hvis; set_solver).
  assert (rdn (pre ++ name16 e ++ e_sa e ++ suf) (Z.of_nat (length pre)) 32 = Some (name16 e ++ e_sa e)) as ->.
  { rewrite (app_assoc (name16 e)). apply rdn_part; [done|]. rewrite length_app. lia. }
  bound. rewrite <- Hn, drop_app_length. unfold Ioctl.
  destruct (ioctl SIOCGIFFLAGS (name16 e) (e_sa e)) as [r|] eqn:Er;
    [|apply Hfail; unfold answers, flags_of; by rewrite Er]. bound.
  pose proof (answer_length _ _ _ _ Er) as Lr. simpl in Lr.
  destruct (rd16_is_some (memcpy_into (e_sa e) r) 0) as [w Ew]; [rewrite memcpy_into_length; lia|].
  change (Z.of_nat 0) with 0 in Ew. rewrite Ew. bound.
  assert (flags_of e = Some (s16 w)) as Efl by (unfold flags_of; rewrite Er; cbn -[rd16 swrap memcpy_into]; by rewrite Ew).
  assert (Hsel : selected doaliases last [e] = if negb (Z.land (s16 w) IFF_UP =? 0) then [(e, same)] else []).
  { unfold selected. rewrite Hvis, filter_cons, filter_nil. case_decide as Hu; cbn [fst] in Hu;
      unfold up in Hu; rewrite Efl in Hu; destruct (negb (Z.land _ _ =? 0)); congruence. }
  destruct (Z.land (s16 w) IFF_UP =? 0) eqn:E0; cbn [negb] in Hsel.
  { split; [done|]. pose proof (Haft [] (nalloc s) ltac:(by rewrite Hsel)) as Ha. by rewrite app_nil_r in Ha. }
  rewrite Ef. pose proof (describe_listed (pre ++ name16 e ++ e_sa e ++ suf) (Z.of_nat (length pre)) e r
    (s16 w) same (nalloc s) We Ef) as Hd.
  specialize (Hd ltac:(rewrite app_assoc; apply rdn_part; [rewrite length_app; lia|lia]) Ws Er Efl E0).
  destruct (describe _ _ _ _ _ _ _ _ _) as [[i n]| |]; [|by apply Hfail|done].
  bound. split; [done|]. apply Haft. rewrite Hsel. constructor; [done|constructor].
Qed.

(** The walk over the entries from [pre] on. *)
Lemma walk_entries doaliases (junk : list Z) es : forall (pre last x : list Z) s fuel,
  Forall entry_wf es -> 0 ∉ last -> buf s = pre ++ concat (encode <$> es) ++ junk -> lastname s = last ++ 0 :: x ->
  (length es <= fuel)%nat ->
  match walk 32 ioctl AF_INET doaliases fuel (Z.of_nat (length (pre ++ concat (encode <$> es)))) (Z.of_nat (length pre)) s with
  | Some (Done s') => exists l, ifis s' = ifis s ++ l /\ Forall2 reported (selected doaliases last es) l
  | Some Quits => request_fails doaliases last es
  | Some Fault | None => False
  end.
Proof.
  induction es as [|e es IH]; intros pre last x s fuel HF H0 Hb Hl Hf.
  - assert (forall ioctl, walk 32 ioctl AF_INET doaliases fuel (Z.of_nat (length (pre ++ concat (encode <$> [])))) (Z.of_nat (length pre)) s =
      Some (Done s)) as ->.
    { intros io. rewrite app_nil_r. destruct fuel; cbn [walk]; by rewrite Z.ltb_irrefl. }
    exists []. by rewrite app_nil_r.
  - apply Forall_cons in HF as [We HF]. destruct fuel as [|fuel]; [simpl in Hf; lia|]. cbn [walk].
    assert (0 < length (encode e))%nat as Hpos by (unfold encode; rewrite !length_app; simpl length; lia).
    destruct (Z.ltb_spec (Z.of_nat (length pre)) (Z.of_nat (length (pre ++ concat (encode <$> e :: es))))) as [_|Hlt]; cycle 1.
    { rewrite fmap_cons in Hlt. cbn [concat] in Hlt. rewrite !length_app in Hlt. lia. }
    rewrite fmap_cons in Hb. cbn [concat] in Hb. rewrite <- app_assoc in Hb.
    pose proof (turn_entry doaliases pre (concat (encode <$> es) ++ junk) last x e s We H0 Hb Hl) as Ht.
    destruct (turn _ _ _ _ _ _) as [[ptr s1]| |]; [| |done]; cycle 1.
    { destruct Ht as (ea & Hin & Hea). exists ea. rewrite visited_cons. set_solver. }
    destruct Ht as (-> & (e' & Hb1 & Hle) & (x1 & Hl1) & l1 & Hi1 & HF1).
    assert (length (pre ++ encode e) = length (pre ++ e')) as Hpre by (rewrite !length_app; lia). rewrite Hpre.
    assert (length (pre ++ concat (encode <$> e :: es)) = length ((pre ++ e') ++ concat (encode <$> es))) as ->.
    { rewrite fmap_cons. cbn [concat]. rewrite !length_app. lia. }
    rewrite selected_cons. rewrite app_assoc in Hb1. assert (0 ∉ last_name last e) as H1.
    { unfold last_name. destruct (fam e =? AF_INET); [apply base_nonzero, We|done]. }
    simpl in Hf. specialize (IH (pre ++ e') _ x1 s1 fuel HF H1 Hb1 Hl1 ltac:(lia)).
    destruct (walk _ _ _ _ _ _ _ _) as [[s2| |]|]; try done; cycle 1.
    { destruct IH as (ea & Hin & Hea). exists ea. rewrite visited_cons. set_solver. }
    destruct IH as (l2 & Hi2 & HF2).
    exists (l1 ++ l2). rewrite Hi2, Hi1, app_assoc. split; [done|]. by apply Forall2_app.
Qed.

Lemma entries_length es : Forall entry_wf es -> (length es <= length (concat (encode <$> es)))%nat.
Proof.
  induction 1 as [|e es _ _ IH]; [done|]. rewrite fmap_cons. cbn [concat length]. rewrite length_app.
  assert (0 < length (encode e))%nat by (unfold encode; rewrite !length_app; simpl length; lia). lia.
Qed.

(** C40: [get_ifi_info] for IPv4, where [struct ifreq] has the 32 bytes of a name and a
    socket address: for every list of interfaces the kernel may have, of whatever
    families, it ends and does not leave its buffer.  The list returned has in order
    exactly the IPv4 entries whose interface is up, without aliases unless they are
    asked for, an alias being an entry whose name up to the colon is that of the IPv4
    entry directly before it; each has the name up to the colon, the address, the flags,
    the mark of an alias, the MTU (cut to a [short]) and, where the flags say so, the
    broadcast and the destination address, all as the kernel answers the requests about
    that entry, which are made in turn with the same [ifreq].  The process ends only if
    the kernel refuses one of these requests about an entry that is looked at. *)
Theorem get_ifi_info_lists (ioctl_ifconf : Z -> errno + list Z) (doaliases : bool) (es : list entry) (junk : list Z) (fuel : nat) :
  Forall entry_wf es -> ifconf_kernel 32 ioctl_ifconf (concat (encode <$> es)) ->
  (length (concat (encode <$> es)) + 3 <= fuel)%nat ->
  match get_ifi_info 32 ioctl_ifconf ioctl AF_INET doaliases junk fuel with
  | Some (Done l) => Forall2 reported (selected doaliases [] es) l
  | Some Quits => request_fails doaliases [] es
  | Some Fault | None => False
  end.
Proof.
  intros HF K Hf. unfold get_ifi_info.
  destruct (ifconf_complete 32 ltac:(lia) ioctl_ifconf _ fuel K Hf) as (len & -> & Hlen).
  set (all := concat (encode <$> es)) in *. rewrite take_app_ge by lia. set (j := take _ junk).
  pose proof (walk_entries doaliases j es [] [] (take (IFNAMSIZ - 1) junk)
    (Walk (all ++ j) (0 :: take (IFNAMSIZ - 1) junk) [] 0) fuel HF (not_elem_of_nil _) eq_refl eq_refl) as Hw.
  pose proof (entries_length es HF). specialize (Hw ltac:(unfold all in *; lia)). cbn [app length] in Hw. fold all in Hw. change (Z.of_nat 0) with 0 in Hw.
  destruct (walk _ _ _ _ _ _ _ _) as [[s| |]|]; try done. by destruct Hw as (l & -> & HF2).
Qed.
End Walk.

Lemma rdn_short (l : list Z) n : forall off, 0 <= off -> (length l < Z.to_nat off + n)%nat -> (0 < n)%nat -> rdn l off n = None.
Proof.
  induction n as [|n IH]; intros off Ho Hl Hn; [lia|]. cbn [rdn]. destruct (rd l off) as [b|] eqn:E; [|done]. simpl.
  unfold rd in E. rewrite (proj2 (Z.ltb_ge _ _)) in E by done. apply lookup_lt_Some in E. rewrite IH; [done|lia..].
Qed.

(** ** A machine with three addresses *)

Definition demo_entry (name : list Z) (addr : list Z) : entry :=
  Entry name (replicate (15 - length name) 0) ([2; 0; 0; 0] ++ addr ++ replicate 8 0).
Definition demo_entries : list entry :=
  [demo_entry (codes "lo") [127; 0; 0; 1]; demo_entry (codes "eth0") [10; 0; 0; 5]; demo_entry (codes "eth0:1") [10; 0; 0; 6]].

(** The loopback interface, whose maximum is 65536 bytes, and one with broadcast. *)
Definition demo_ioctl (req : request) (name u : list Z) : option (list Z) :=
  let lo := hd 0 name =? 108 in
  match req with
  | SIOCGIFFLAGS => Some (if lo then [73; 0] else [67; 16])
  | SIOCGIFMTU => Some (if lo then [0; 0; 1; 0] else [220; 5; 0; 0])
  | SIOCGIFBRDADDR => Some ([2; 0; 0; 0; 10; 0; 0; 255] ++ replicate 8 0)
  | SIOCGIFDSTADDR => Some (replicate 16 0)
  end.

Definition demo_ifconf (all : list Z) (len : Z) : errno + list Z :=
  if Z.of_nat (length all) <=? len then inr all else inl EINVAL.

Lemma demo_ifconf_kernel sizeof_ifreq all :
  Z.of_nat (length all) < 2 ^ 30 -> ifconf_kernel sizeof_ifreq (demo_ifconf all) all.
Proof.
  intros H. split; [|left|done]; intros len Hl; unfold demo_ifconf.
  - by rewrite (proj2 (Z.leb_le _ _)).
  - by rewrite (proj2 (Z.leb_gt _ _)).
Qed.

Lemma demo_ioctl_length req name u r : demo_ioctl req name u = Some r -> length r = answer_size req.
Proof. destruct req; simpl; try destruct (_ =? _); by intros [= <-]. Qed.

Lemma demo_entries_wf : Forall entry_wf demo_entries.
Proof.
  assert (forall l : list Z, bool_decide (0 ∉ l) = true -> 0 ∉ l) as Hb by (intros l; apply bool_decide_eq_true).
  repeat constructor; apply Hb; vm_compute; done.
Qed.

Lemma demo_small : Z.of_nat (length (concat (encode <$> demo_entries))) < 2 ^ 30.
Proof. vm_compute. reflexivity. Qed.

Lemma demo_fuel : (length (concat (encode <$> demo_entries)) + 3 <= 99)%nat.
Proof. apply Nat.leb_le. vm_compute. reflexivity. Qed.

Lemma get_ifi_info_lists_witness :
  exists l, get_ifi_info 32 (demo_ifconf (concat (encode <$> demo_entries))) demo_ioctl AF_INET false [] 99 = Some (Done l) /\
    (ifi_name <$> l) = [codes "lo" ++ replicate 14 0; codes "eth0" ++ replicate 12 0] /\
    ifi_brdaddr <$> l = [None; Some (4%nat, [2; 0; 0; 0; 10; 0; 0; 255] ++ replicate 8 0)] /\
    Forall2 (reported demo_ioctl) (selected demo_ioctl false [] demo_entries) l.
Proof.
  assert (exists l, get_ifi_info 32 (demo_ifconf (concat (encode <$> demo_entries))) demo_ioctl AF_INET false [] 99 =
      Some (Done l) /\ (ifi_name <$> l) = [codes "lo" ++ replicate 14 0; codes "eth0" ++ replicate 12 0] /\
      ifi_brdaddr <$> l = [None; Some (4%nat, [2; 0; 0; 0; 10; 0; 0; 255] ++ replicate 8 0)]) as (l & E & En & Eb).
  { eexists. split; [vm_compute; reflexivity|split; vm_compute; reflexivity]. }
  exists l. split; [exact E|]. split; [exact En|]. split; [exact Eb|].
  pose proof (get_ifi_info_lists demo_ioctl demo_ioctl_length (demo_ifconf (concat (encode <$> demo_entries))) false
    demo_entries [] 99 demo_entries_wf (demo_ifconf_kernel 32 _ demo_small) demo_fuel) as H.
  by rewrite E in H.
Defined.

(** What the kernel stores where [struct ifreq] has 40 bytes: the union is larger
    than a socket address. *)
Definition encode40 (e : entry) : list Z := encode e ++ replicate 8 0.

(** There the second entry is looked for 32 bytes behind the first, and missed: of
    three addresses only that of the loopback interface is found; and its maximum
    of 65536 bytes is 0 as a [short]. *)
Theorem lp64_skips :
  exists i, get_ifi_info 40 (demo_ifconf (concat (encode40 <$> demo_entries))) demo_ioctl AF_INET true (replicate 4000 0) 200
    = Some (Done [i]) /\ ifi_name i = codes "lo" ++ replicate 14 0 /\ ifi_mtu i = 0 /\
    length (selected demo_ioctl true [] demo_entries) = 3%nat.
Proof. eexists. split; [vm_compute; reflexivity|]. by split_and!. Qed.

(** A destination address of IPv6 is copied from a union that is smaller. *)
Theorem v6_destination_overreads (ioctl : request -> list Z -> list Z -> option (list Z)) b ptr name u flags myflags n :
  (forall req name u r, ioctl req name u = Some r -> length r = answer_size req) ->
  (16 <= length u <= 24)%nat -> Z.land flags IFF_POINTOPOINT <> 0 ->
  (forall u, is_Some (ioctl SIOCGIFMTU name u)) -> (forall u, is_Some (ioctl SIOCGIFDSTADDR name u)) ->
  describe ioctl b ptr AF_INET6 name u flags myflags n = Fault.
Proof.
  intros Hlen Hu Hf H1 H2. unfold describe, Ioctl. destruct (H1 u) as [r1 E1]. rewrite E1. bound.
  apply Hlen in E1. simpl in E1. rewrite rd32_answer by done. destruct (rd32_is_some r1) as [mtu ->]; [lia|]. bound.
  cbn -[rdn ask_addr]. destruct (rdn b (ptr + 16) sizeof_sockaddr_in6) as [a|]; [|done]. bound.
  unfold ask_addr. rewrite (proj2 (Z.eqb_neq _ _)) by done. cbn [negb]. unfold Ioctl.
  destruct (H2 (memcpy_into u r1)) as [r2 E2]. rewrite E2. bound. apply Hlen in E2. simpl in E2.
  assert (length (memcpy_into u r1) = length u) as L1 by (apply memcpy_into_length; lia).
  rewrite rdn_short; [done|done| |unfold sizeof_sockaddr_in6; lia].
  rewrite memcpy_into_length; unfold sizeof_sockaddr_in6; lia.
Qed.

End IfiInfo.
