(* ===== verification/SockAddr.v ===== *)
(** * Socket address helpers: [unixNetV1/lib/sock_*.c]

    Formatting, comparing and setting the addresses and ports of socket address
    structures of any family.  The text is built in a static buffer of 128 bytes, here
    with every store into it checked; [inet_ntop] is the one of [libfree] ([Inet]).
    Ports are kept as they are stored, in network byte order, on a little-endian
    machine. *)
From S2P Require Import Prelude Inet Gai GaiSpec.

(** ** The structures *)

Definition AF_UNIX : Z := 1.

(** [sockaddr_in], [sockaddr_in6], [sockaddr_un] with its 108 bytes of path, and a
    structure of another family. *)
Inductive SA :=
| Sa_in (sin_port : Z) (sin_addr : list Z)
| Sa_in6 (sin6_port : Z) (sin6_addr : list Z)
| Sa_un (sun_path : list Z)
| Sa_other (family : Z).

Definition sa_family (sa : SA) : Z :=
  match sa with
  | Sa_in _ _ => AF_INET | Sa_in6 _ _ => AF_INET6 | Sa_un _ => AF_UNIX | Sa_other f => f
  end.

(** [ntohs], [htons] *)
Definition ntohs (w : Z) : Z := Z.lor (Z.shiftl (Z.land w 0xff) 8) (Z.land (Z.shiftr w 8) 0xff).

(** ** Strings *)

Definition sizeof_str : Z := 128.
Definition sizeof_portstr : Z := 8.

(** The string at the start of some bytes; [None] if no NUL ends it there. *)
Fixpoint cstr (l : list Z) : option (list Z) :=
  match l with
  | [] => None
  | c :: l' => if c =? 0 then Some [] else cons c <$> cstr l'
  end.

(** What [snprintf] stores before the NUL. *)
Definition snprintf (size : Z) (text : list Z) : list Z := take (Z.to_nat (size - 1)) text.

(** [%d] *)
Definition fmt_d (z : Z) : list Z := if z <? 0 then 45 :: fmt_u (- z) else fmt_u z.

(** What the formatting functions return: a text, [NULL], or nothing because they have
    gone outside an array. *)
Inductive text_result := Text (t : list Z) | Null (e : errno) | Out_of_bounds.

(** [strcat(str, t)] when [str] holds [s]. *)
Definition strcat (s t : list Z) : text_result :=
  if Z.of_nat (length (s ++ t)) + 1 >? sizeof_str then Out_of_bounds else Text (s ++ t).

(** ** Formatting *)

Section Ntop.
Variable len0 : Z.

Definition path_text (path : list Z) : text_result :=
  match path with
  | 0 :: _ => Text (codes "(no pathname bound)")
  | _ => match cstr path with
         | Some t => Text (snprintf sizeof_str t)
         | None => Out_of_bounds
         end
  end.

Definition sock_ntop (sa : SA) (salen : Z) : text_result :=
  match sa with
  | Sa_in port addr =>
      match Ntop.inet_ntop len0 AF_INET addr sizeof_str with
      | Err e => Null e
      | Ok str =>
          if negb (ntohs port =? 0) then strcat str (snprintf sizeof_portstr (codes ":" ++ fmt_d (ntohs port)))
          else Text str
      end
  | Sa_in6 port addr =>
      match Ntop.inet_ntop len0 AF_INET6 addr (sizeof_str - 1) with
      | Err e => Null e
      | Ok str =>
          if negb (ntohs port =? 0)
          then strcat (codes "[" ++ str) (snprintf sizeof_portstr (codes "]:" ++ fmt_d (ntohs port)))
          else Text str
      end
  | Sa_un path => path_text path
  | Sa_other f =>
      Text (snprintf sizeof_str (codes "sock_ntop: unknown AF_xxx: " ++ fmt_d f ++ codes ", len " ++ fmt_d (s32 salen)))
  end.

Definition sock_ntop_host (sa : SA) (salen : Z) : text_result :=
  match sa with
  | Sa_in _ addr =>
      match Ntop.inet_ntop len0 AF_INET addr sizeof_str with Err e => Null e | Ok str => Text str end
  | Sa_in6 _ addr =>
      match Ntop.inet_ntop len0 AF_INET6 addr sizeof_str with Err e => Null e | Ok str => Text str end
  | Sa_un path => path_text path
  | Sa_other f =>
      Text (snprintf sizeof_str (codes "sock_ntop_host: unknown AF_xxx: " ++ fmt_d f ++ codes ", len " ++ fmt_d (s32 salen)))
  end.
End Ntop.

(** ** Comparing and setting *)

(** The difference of the first bytes that differ. *)
Fixpoint memcmp (a b : list Z) : Z :=
  match a, b with
  | x :: a', y :: b' => if x =? y then memcmp a' b' else x - y
  | _, _ => 0
  end.

(** [strcmp] of the strings the arrays hold. *)
Fixpoint strcmp (a b : list Z) : Z :=
  match a, b with
  | x :: a', y :: b' => if x =? y then (if x =? 0 then 0 else strcmp a' b') else x - y
  | _, _ => 0
  end.

Definition sock_cmp_addr (sa1 sa2 : SA) : Z :=
  if negb (sa_family sa1 =? sa_family sa2) then -1
  else match sa1, sa2 with
       | Sa_in _ a, Sa_in _ b => memcmp a b
       | Sa_in6 _ a, Sa_in6 _ b => memcmp a b
       | Sa_un a, Sa_un b => strcmp a b
       | _, _ => -1
       end.

Definition sock_cmp_port (sa1 sa2 : SA) : Z :=
  if negb (sa_family sa1 =? sa_family sa2) then -1
  else match sa1, sa2 with
       | Sa_in p _, Sa_in q _ => if p =? q then 1 else 0
       | Sa_in6 p _, Sa_in6 q _ => if p =? q then 1 else 0
       | _, _ => -1
       end.

Definition sock_get_port (sa : SA) : Z :=
  match sa with Sa_in p _ => p | Sa_in6 p _ => p | _ => -1 end.

Definition sock_set_addr (addr : list Z) (sa : SA) : SA :=
  match sa with
  | Sa_in p _ => Sa_in p (take 4 addr)
  | Sa_in6 p _ => Sa_in6 p (take 16 addr)
  | _ => sa
  end.

Definition sock_set_port (port : Z) (sa : SA) : SA :=
  match sa with
  | Sa_in _ a => Sa_in (u16 port) a
  | Sa_in6 _ a => Sa_in6 (u16 port) a
  | _ => sa
  end.

Definition sock_set_wild (sa : SA) : SA :=
  match sa with
  | Sa_in _ _ => sock_set_addr (replicate 4 0) sa
  | Sa_in6 _ _ => sock_set_addr (replicate 16 0) sa
  | _ => sa
  end.

(** ** Reading the text back

    The reader the text is meant for: an address in brackets with a port, an IPv4
    address with or without a port, or an IPv6 address. *)

(** The text before the first [c], and what follows it. *)
Fixpoint split_at (c : Z) (s : list Z) : list Z * option (list Z) :=
  match s with
  | [] => ([], None)
  | x :: s' => if x =? c then ([], Some s') else let (t, r) := split_at c s' in (x :: t, r)
  end.

Definition read_text (s : list Z) : option SA :=
  if hd 0 s =? 91 then
    let (t, r) := split_at 93 (tl s) in
    match Pton.inet_pton6 t, r with
    | Some a, Some (58 :: d) => Some (Sa_in6 (ntohs (digits_value d 0)) a)
    | _, _ => None
    end
  else
    let (t, r) := split_at 58 s in
    match Pton.inet_pton4 t with
    | Some a => Some (Sa_in (match r with Some d => ntohs (digits_value d 0) | None => 0 end) a)
    | None => Sa_in6 0 <$> Pton.inet_pton6 s
    end.

(** An Internet socket address. *)
Definition inet_ok (sa : SA) : Prop :=
  match sa with
  | Sa_in p a => 0 <= p < 2 ^ 16 /\ length a = 4%nat /\ Forall byte a
  | Sa_in6 p a => 0 <= p < 2 ^ 16 /\ length a = 16%nat /\ Forall byte a
  | _ => False
  end.

(** ** Lemmas *)

Lemma ntohs_eq w : ntohs w = w mod 256 * 256 + w / 256 mod 256.
Proof.
  unfold ntohs. change 0xff with (Z.ones 8). rewrite !Z.land_ones, Z.shiftr_div_pow2 by lia.
  change (2 ^ 8) with 256. pose proof (Z.mod_pos_bound (w / 256) 256).
  rewrite lor_shiftl by lia. done.
Qed.

Lemma ntohs_range w : 0 <= ntohs w < 2 ^ 16.
Proof.
  rewrite ntohs_eq. pose proof (Z.mod_pos_bound w 256). pose proof (Z.mod_pos_bound (w / 256) 256). lia.
Qed.

Lemma ntohs_twice w : 0 <= w < 2 ^ 16 -> ntohs (ntohs w) = w.
Proof. intros Hw. rewrite !ntohs_eq. Z.to_euclidean_division_equations. lia. Qed.

Lemma ntohs_zero w : 0 <= w < 2 ^ 16 -> ntohs w = 0 -> w = 0.
Proof. intros Hw E. rewrite <- (ntohs_twice w Hw), E. done. Qed.

Lemma split_at_app c s t : c ∉ s -> split_at c (s ++ c :: t) = (s, Some t).
Proof.
  induction s as [|x s IH]; intros Hn; simpl; [by rewrite Z.eqb_refl|]. rewrite not_elem_of_cons in Hn. destruct Hn as [Hne Hn].
  destruct (Z.eqb_spec x c); [done|]. by rewrite IH.
Qed.

Lemma split_at_none c s : c ∉ s -> split_at c s = (s, None).
Proof.
  induction s as [|x s IH]; intros Hn; simpl; [done|]. rewrite not_elem_of_cons in Hn. destruct Hn as [Hne Hn].
  destruct (Z.eqb_spec x c); [done|]. by rewrite IH.
Qed.

Lemma split_at_prefix c s t r : split_at c s = (t, r) -> exists u, s = t ++ u.
Proof.
  revert t r. induction s as [|x s IH]; intros t r; simpl; [intros [= <- <-]; by exists []|].
  destruct (x =? c); [intros [= <- <-]; by eexists|]. destruct (split_at c s) as [t' r']. intros [= <- <-].
  destruct (IH _ _ eq_refl) as [u ->]. by exists u.
Qed.

(** A port in decimal: its digits, and reading them. *)
Lemma port_text p : 0 <= p < 2 ^ 16 ->
  Forall is_digit (fmt_d p) /\ (length (fmt_d p) <= 5)%nat /\ digits_value (fmt_d p) 0 = p.
Proof.
  intros Hp. unfold fmt_d. replace (p <? 0) with false by lia. destruct (fmt_u_digits p) as (HF & _ & Hv); [lia|].
  split_and!; [done|by apply fmt_u_port_length|]. by rewrite digits_value_dec.
Qed.

(** [inet_pton4] accepts digits and dots only. *)
Lemma pton4_chars s bs c : Pton.inet_pton4 s = Some bs -> c ∈ s -> is_digit c \/ c = chr_dot.
Proof.
  intros (a & b & x & d & (_ & Ha & _) & (_ & Hb & _) & (_ & Hx & _) & (_ & Hd & _) & -> & _)%pton4_sound Hc.
  rewrite Forall_forall in Ha, Hb, Hx, Hd. unfold dotted in Hc. simpl in Hc. set_solver.
Qed.

(** [inet_pton6] rejects a text with a bracket in it. *)
Lemma pton6_loop_chars src : forall tok saw val s r,
  (exists pre, tok = pre ++ src) -> Pton.pton6_loop src tok saw val s = Some r -> 93 ∉ src.
Proof.
  induction src as [|ch src IH]; intros tok saw val s r [pre Htok]; simpl; [set_solver|].
  assert (Hrest : exists pre', tok = pre' ++ src) by (exists (pre ++ [ch]); by rewrite <- app_assoc).
  assert (Hself : exists pre' : list Z, src = pre' ++ src) by (by exists []).
  rewrite not_elem_of_cons. destruct (Pton.xdigit_of ch) as [d|] eqn:Ex.
  - destruct (_ >? _); [done|]. intros E%IH; [|done]. split; [|done]. intros <-. done.
  - destruct (Z.eqb_spec ch chr_colon) as [->|Hc].
    + destruct (negb saw).
      * destruct (Pton.colonp s); [done|]. intros E%IH; done.
      * destruct (Pton.put_word s val); [|done]. simpl. intros E%IH; done.
    + destruct (Z.eqb_spec ch chr_dot) as [->|]; [|done]. unfold Pton.put_v4.
      destruct (_ <=? _)%nat; [|done]. destruct (Pton.inet_pton4 tok) as [bs|] eqn:E4; [|done]. intros _. split; [done|].
      intros Hin. destruct (pton4_chars tok bs 93 E4) as [H|H]; [rewrite Htok; set_solver|unfold is_digit in H; lia|done].
Qed.

Lemma pton6_no_bracket t bs : Pton.inet_pton6 t = Some bs -> 93 ∉ t /\ hd 0 t <> 91.
Proof.
  intros E. split.
  - unfold Pton.inet_pton6 in E. destruct (Pton.pton6_start t) as [src|] eqn:Es; [|done]. simpl in E.
    destruct (Pton.pton6_loop src src false 0 _) as [r|] eqn:El; [|done].
    apply pton6_loop_chars in El; [|by exists []]. unfold Pton.pton6_start in Es.
    destruct t as [|ch t]; [by injection Es as <-|]. destruct (Z.eqb_spec ch chr_colon) as [->|]; [|by injection Es as <-].
    destruct t as [|ch' t]; [done|]. destruct (ch' =? chr_colon); [|done]. injection Es as <-. set_solver.
  - apply inet_pton6_shape in E as (_ & _ & Hh). intros E. by rewrite E in Hh.
Qed.

(** Digits and a dot make [inet_pton6] read the rest of the text as an IPv4 address. *)
Lemma pton6_loop_dot s r tok : Forall is_digit s -> Pton.inet_pton4 tok = None -> forall saw val st,
  Pton.pton6_loop (s ++ chr_dot :: r) tok saw val st = None.
Proof.
  intros Hd E4. induction Hd as [|c s Hc _ IH]; intros saw val st; simpl.
  - unfold Pton.put_v4. destruct (_ <=? _)%nat; [|done]. by rewrite E4.
  - unfold is_digit in Hc. unfold Pton.xdigit_of. replace ((48 <=? c) && (c <=? 57)) with true by lia.
    destruct (_ >? _); [done|]. apply IH.
Qed.

(** The part of an IPv6 address before its first colon is no IPv4 address. *)
Lemma pton6_first_group s bs t r : Pton.inet_pton6 s = Some bs -> split_at 58 s = (t, r) -> Pton.inet_pton4 t = None.
Proof.
  intros E6 Es. destruct (Pton.inet_pton4 t) as [b4|] eqn:E4; [exfalso|done].
  destruct (split_at_prefix _ _ _ _ Es) as [u ->]. pose proof (inet_pton6_shape _ _ E6) as (_ & Hcol & _).
  assert (Hall : Pton.inet_pton4 (t ++ u) = None).
  { destruct (Pton.inet_pton4 (t ++ u)) as [b|] eqn:E; [|done]. by apply inet_pton4_shape in E as (_ & Hn & _). }
  apply pton4_sound in E4 as (a & b & x & d & (Hne & Ha & _) & _ & _ & _ & -> & _).
  assert (exists rest, dotted [a; b; x; d] ++ u = a ++ chr_dot :: rest) as [rest Erest].
  { eexists. unfold dotted. simpl. rewrite <- app_assoc. reflexivity. }
  rewrite Erest in *. unfold Pton.inet_pton6, Pton.pton6_start in E6. destruct a as [|c a]; [done|].
  assert (Hc : (c =? chr_colon) = false) by (apply Forall_cons in Ha as [Hc _]; unfold is_digit, chr_colon in *; lia).
  cbn [app] in *. rewrite Hc in E6. cbn [mbind option_bind] in E6.
  change (c :: a ++ chr_dot :: rest) with ((c :: a) ++ chr_dot :: rest) in *.
  by rewrite (pton6_loop_dot (c :: a) rest _ Ha Hall) in E6.
Qed.

(** ** Theorems *)

Lemma read_text_v4 p a t u : Pton.inet_pton4 t = Some a -> u = [] \/ (exists d, u = 58 :: d /\ ntohs (digits_value d 0) = p) ->
  (u = [] -> p = 0) -> read_text (t ++ u) = Some (Sa_in p a).
Proof.
  intros E4 Hu H0. destruct (inet_pton4_shape _ _ E4) as (_ & Hcol & Hh).
  assert (Hhd : hd 0 (t ++ u) = hd 0 t) by (destruct t; [done|done]).
  unfold read_text. rewrite Hhd. assert ((hd 0 t =? 91) = false) as -> by (unfold isdigit in Hh; lia).
  destruct Hu as [->|(d & -> & <-)].
  - rewrite app_nil_r, split_at_none by done. rewrite E4. by rewrite H0.
  - rewrite split_at_app by done. by rewrite E4.
Qed.

(** the text of an Internet socket address identifies it: [sock_ntop] never
    returns [NULL] and never leaves its buffers, whatever the port, the port is
    not cut off, and from the text the family, the address and the port can be read
    back. *)
Theorem sock_ntop_roundtrip (len0 salen : Z) (sa : SA) :
  inet_ok sa -> exists t, sock_ntop len0 sa salen = Text t /\ read_text t = Some sa /\ (length t <= 53)%nat.
Proof.
  destruct sa as [p a|p a| |]; [| |done|done]; intros (Hp & Hl & Hb);
    destruct (port_text (ntohs p) (ntohs_range p)) as (Hd & Hd5 & Hv).
  - do 4 (destruct a as [|? a]; [done|]). destruct a; [|done]. apply Forall_cons in Hb as [B1 Hb].
    apply Forall_cons in Hb as [B2 Hb]. apply Forall_cons in Hb as [B3 Hb]. apply Forall_cons in Hb as [B4 _].
    pose proof (v4_text_length _ _ _ _ B1 B2 B3 B4) as Hlen. pose proof (pton4_v4_text _ _ _ _ B1 B2 B3 B4) as E4.
    set (t := v4_text _) in *. unfold sock_ntop, Ntop.inet_ntop. rewrite ntop4_text. fold t.
    unfold sizeof_str. rewrite Z.gtb_ltb, (proj2 (Z.ltb_ge _ _)) by lia. simpl.
    destruct (Z.eqb_spec (ntohs p) 0) as [E0|E0]; simpl.
    + exists t. split_and!; [done| |lia]. rewrite <- (app_nil_r t). apply read_text_v4; [done|by left|].
      intros _. by apply ntohs_zero.
    + unfold strcat, snprintf, sizeof_str, sizeof_portstr. cbn [codes]. rewrite take_ge by (simpl; lia).
      rewrite Z.gtb_ltb, (proj2 (Z.ltb_ge _ _)) by (rewrite length_app; simpl; lia).
      eexists. split_and!; [reflexivity| |rewrite length_app; simpl; lia].
      apply read_text_v4; [done| |done]. right. eexists. split; [reflexivity|]. rewrite Hv. by apply ntohs_twice.
  - destruct (ntop6_read_back len0 a Hl Hb) as (t & Et & E6 & Hlen). unfold Ntop.sizeof_tmp in Hlen.
    destruct (pton6_no_bracket _ _ E6) as [Hnb Hhd].
    unfold sock_ntop, Ntop.inet_ntop, Ntop.inet_ntop6. simpl. rewrite Et. simpl. unfold sizeof_str.
    rewrite Z.gtb_ltb, (proj2 (Z.ltb_ge _ _)) by lia. destruct (Z.eqb_spec (ntohs p) 0) as [E0|E0]; simpl.
    + exists t. split_and!; [done| |lia]. unfold read_text. apply Z.eqb_neq in Hhd. rewrite Hhd.
      destruct (split_at 58 t) as [u r] eqn:Es. rewrite (pton6_first_group _ _ _ _ E6 Es), E6. simpl.
      by rewrite (ntohs_zero p Hp E0).
    + unfold strcat, snprintf, sizeof_str, sizeof_portstr. cbn [codes]. rewrite take_ge by (simpl; lia).
      rewrite Z.gtb_ltb, (proj2 (Z.ltb_ge _ _)) by (simpl; rewrite length_app; simpl; lia).
      eexists. split_and!; [reflexivity| |simpl; rewrite length_app; simpl; lia].
      unfold read_text. simpl. change (t ++ 93 :: 58 :: fmt_d (ntohs p)) with (t ++ 93 :: (58 :: fmt_d (ntohs p))).
      rewrite split_at_app by done. rewrite E6, Hv. by rewrite ntohs_twice.
Qed.

Lemma sock_ntop_roundtrip_witness :
  exists t, sock_ntop 0 (Sa_in6 0x5000 (replicate 15 0 ++ [1])) 28 = Text t /\ read_text t = Some (Sa_in6 0x5000 (replicate 15 0 ++ [1])) /\
    (length t <= 53)%nat.
Proof. apply (sock_ntop_roundtrip 0 28). simpl. split; [lia|]. split; [reflexivity|]. repeat constructor; vm_compute; intuition congruence. Defined.

(** The address of an Internet socket address. *)
Definition inet_addr (sa : SA) : list Z :=
  match sa with Sa_in _ a => a | Sa_in6 _ a => a | _ => [] end.

Lemma memcmp_zero a b : length a = length b -> memcmp a b = 0 <-> a = b.
Proof.
  revert b. induction a as [|x a IH]; intros [|y b] Hl; try done. simpl in *. injection Hl as Hl.
  destruct (Z.eqb_spec x y) as [->|Hne]; [rewrite IH by done|]; split; intros E; try congruence; lia.
Qed.

(** the helpers on Internet socket addresses agree: [sock_cmp_addr] gives 0
    exactly for equal families and addresses, [sock_cmp_port] 1 exactly for equal families
    and ports (0 for different ports, -1 for different families); after
    [sock_set_addr] and [sock_set_port] the address and the port are the ones
    given, the other one is kept, and the structure is still well formed;
    [sock_set_wild] sets the address 0. *)
Theorem sock_helpers_agree (sa sb : SA) (addr : list Z) (port : Z) :
  inet_ok sa -> inet_ok sb -> length addr = length (inet_addr sa) -> Forall byte addr -> 0 <= port < 2 ^ 16 ->
  (sock_cmp_addr sa sb = 0 <-> sa_family sa = sa_family sb /\ inet_addr sa = inet_addr sb) /\
  sock_cmp_port sa sb =
    (if negb (sa_family sa =? sa_family sb) then -1 else if sock_get_port sa =? sock_get_port sb then 1 else 0) /\
  (let sa' := sock_set_port port (sock_set_addr addr sa) in
   inet_ok sa' /\ sa_family sa' = sa_family sa /\ inet_addr sa' = addr /\ sock_get_port sa' = port) /\
  sock_get_port (sock_set_addr addr sa) = sock_get_port sa /\ inet_addr (sock_set_port port sa) = inet_addr sa /\
  sock_set_wild sa = sock_set_addr (replicate (length (inet_addr sa)) 0) sa.
Proof.
  intros Ha Hb Hl HF Hp. split_and!.
  - destruct sa as [p a|p a| |], sb as [q b|q b| |]; try done; unfold sock_cmp_addr; simpl; try naive_solver;
      destruct Ha as (_ & Hla & _), Hb as (_ & Hlb & _); rewrite memcmp_zero by congruence; naive_solver.
  - destruct sa as [p a|p a| |], sb as [q b|q b| |]; try done.
  - destruct sa as [p a|p a| |]; try done; destruct Ha as (_ & Hla & _); simpl in *; rewrite take_ge by lia; rewrite uwrap_small by lia;
      (split; [split; [done|split; [lia|done]]|done]).
  - by destruct sa.
  - by destruct sa.
  - destruct sa as [p a|p a| |]; try done; destruct Ha as (_ & Hla & _); simpl in *; by rewrite Hla.
Qed.

Lemma sock_helpers_agree_witness :
  sock_cmp_addr (Sa_in 80 [127; 0; 0; 1]) (Sa_in 81 [127; 0; 0; 1]) = 0 /\
  sock_cmp_port (Sa_in 80 [127; 0; 0; 1]) (Sa_in 81 [127; 0; 0; 1]) = 0.
Proof.
  assert (Hb : Forall byte [127; 0; 0; 1]) by (repeat constructor; unfold byte; lia).
  assert (Hok : forall p, 0 <= p < 2 ^ 16 -> inet_ok (Sa_in p [127; 0; 0; 1])) by (intros p Hp; by split).
  destruct (sock_helpers_agree (Sa_in 80 [127; 0; 0; 1]) (Sa_in 81 [127; 0; 0; 1]) [127; 0; 0; 1] 7
    (Hok 80 ltac:(lia)) (Hok 81 ltac:(lia)) eq_refl Hb ltac:(lia)) as (H1 & H2 & _).
  split; [by apply H1|exact H2].
Defined.

(** A path that fills [sun_path], as [bind] accepts it, is read past its end. *)
Example unterminated_path_read (len0 salen : Z) : sock_ntop len0 (Sa_un (replicate 108 97)) salen = Out_of_bounds.
Proof. reflexivity. Qed.

(** A path that ends inside [sun_path] is copied whole. *)
Lemma path_text_ok path t : cstr path = Some t -> (length path <= 108)%nat -> t <> [] -> path_text path = Text t.
Proof.
  assert (Hlen : forall l u, cstr l = Some u -> (length u < length l)%nat).
  { induction l as [|c l IH]; intros u E; simpl in E; [done|]. destruct (c =? 0); [injection E as <-; simpl; lia|].
    destruct (cstr l) as [v|]; [|done]. injection E as <-. specialize (IH v eq_refl). simpl. lia. }
  intros E Hl Hne. pose proof (Hlen _ _ E). unfold path_text. rewrite E.
  replace (snprintf sizeof_str t) with t; [|unfold snprintf, sizeof_str; rewrite take_ge by lia; done].
  destruct path as [|c path]; [done|]. simpl in E. destruct c; [simpl in E; by injection E as <-|done|done].
Qed.
