(* ===== verification/NetLib.v ===== *)
(** * The connection functions of the library: [unixNetV1/lib]

    [tcp_connect], [tcp_listen], [udp_client], [udp_connect], [udp_server],
    [connect_nonb], [connect_timeo] and the timed waits, as programs over their system
    calls ([Prog]); the theorems hold for every sequence of
    replies.  [getaddrinfo] is the one of [libgai] ([Gai]): its result is an
    argument. *)
From S2P Require Import Prelude Prog Inet Gai GaiSpec.
Open Scope prog_scope.

(** ** Calls and replies *)

Inductive call :=
| Socket (family socktype protocol : Z)
| Connect (fd : Z) (addr : option sockaddr) (len : Z)
| Bind (fd : Z) (addr : option sockaddr) (len : Z)
| Listen (fd backlog : Z)
| Reuseaddr (fd : Z)
| Close (fd : Z)
| Malloc (len : Z)
| Freeaddrinfo
| Fcntl_getfl (fd : Z)
| Fcntl_setfl (fd flags : Z)
| Select (fd : Z) (rd wr : bool) (nsec : option Z)
| So_error (fd : Z)
| Signal_alrm (handler : Z)
| Alarm (nsec : Z).

(** A call succeeds with a value, or fails with an error number; [select] gives the
    sum of 1 for a readable and 2 for a writable descriptor. *)
Inductive reply := Rok (v : Z) | Rerr (e : errno).

Abbreviation nprog := (prog call reply).

(** What a function returns: a value, -1 with [errno], nothing because [err_sys] or
    [err_quit] ends the process, or nothing because it follows a null pointer. *)
Inductive result (A : Type) := Value (a : A) | Minus1 (e : errno) | Exits | Null_pointer.
Arguments Value {A} _.
Arguments Minus1 {A} _.
Arguments Exits {A}.
Arguments Null_pointer {A}.

Definition LISTENQ : Z := 1024.

(** ** One of several addresses *)

Section Each.
Context {A : Type}.
(** The calls made on the new socket: one whose failure ends the process ([Setsockopt]
    of [tcp_listen]), and the one that decides. *)
Variable prepare : option (Z -> call).
Variable attempt : option (Z -> addrinfo -> call).

(** [do { ... } while ((res = res->ai_next) != NULL);] and what follows it: [found]
    after the [break], [err_sys] when the list is exhausted. *)
Fixpoint each (l : list addrinfo) (found : Z -> addrinfo -> nprog (result A)) : nprog (result A) :=
  match l with
  | [] => Ret Exits
  | res :: l' =>
      r <- Socket (ai_family res) (ai_socktype res) (ai_protocol res) ;;
      match r with
      | Rok sockfd =>
          let go_on :=
            match attempt with
            | None => found sockfd res
            | Some call =>
                r <- call sockfd res ;;
                match r with
                | Rok _ => found sockfd res
                | _ => r <- Close sockfd ;;
                       match r with Rok _ => each l' found | _ => Ret Exits end
                end
            end in
          match prepare with
          | None => go_on
          | Some call => r <- call sockfd ;; match r with Rok _ => go_on | _ => Ret Exits end
          end
      | _ => each l' found
      end
  end.

(** The function's body after [getaddrinfo]. *)
Definition with_addresses (gai : gai) (found : Z -> addrinfo -> nprog (result A)) : nprog (result A) :=
  match gai with
  | GaiErr _ | GaiQuit => Ret Exits
  | GaiOk [] => Ret Null_pointer
  | GaiOk l => each l found
  end.
End Each.

Definition connect_to (sockfd : Z) (res : addrinfo) : call := Connect sockfd (snd <$> ai_addr res) (ai_addrlen res).
Definition bind_to (sockfd : Z) (res : addrinfo) : call := Bind sockfd (snd <$> ai_addr res) (ai_addrlen res).

(** The hints each function gives to [getaddrinfo]. *)
Definition tcp_connect_hints : hints := Hints 0 AF_UNSPEC SOCK_STREAM 0.
Definition udp_client_hints : hints := Hints 0 AF_UNSPEC SOCK_DGRAM 0.
Definition udp_connect_hints : hints := Hints 0 AF_UNSPEC SOCK_DGRAM 0.
Definition tcp_listen_hints : hints := Hints AI_PASSIVE AF_UNSPEC SOCK_STREAM 0.
Definition udp_server_hints : hints := Hints AI_PASSIVE AF_UNSPEC SOCK_DGRAM 0.

Definition tcp_connect (gai : gai) : nprog (result Z) :=
  with_addresses None (Some connect_to) gai (fun sockfd _ => Freeaddrinfo ;; Ret (Value sockfd)).

Definition udp_connect (gai : gai) : nprog (result Z) :=
  with_addresses None (Some connect_to) gai (fun sockfd _ => Freeaddrinfo ;; Ret (Value sockfd)).

(** With the address and its length for the caller; [Malloc] ends the process when it
    fails. *)
Definition udp_client (gai : gai) : nprog (result (Z * option sockaddr * Z)) :=
  with_addresses None None gai (fun sockfd res =>
    r <- Malloc (ai_addrlen res) ;;
    match r with
    | Rok _ => Freeaddrinfo ;; Ret (Value (sockfd, snd <$> ai_addr res, ai_addrlen res))
    | _ => Ret Exits
    end).

Definition tcp_listen (gai : gai) : nprog (result (Z * Z)) :=
  with_addresses (Some Reuseaddr) (Some bind_to) gai (fun listenfd res =>
    r <- Listen listenfd LISTENQ ;;
    match r with
    | Rok _ => Freeaddrinfo ;; Ret (Value (listenfd, ai_addrlen res))
    | _ => Ret Exits
    end).

Definition udp_server (gai : gai) : nprog (result (Z * Z)) :=
  with_addresses None (Some bind_to) gai (fun sockfd res => Freeaddrinfo ;; Ret (Value (sockfd, ai_addrlen res))).

(** ** Connecting with a time limit *)

Definition O_NONBLOCK : Z := 0x800.

(** The label [done] of [connect_nonb]; [error] is [None] for 0. *)
Definition nonb_done (sockfd flags : Z) (error : option errno) : nprog (result Z) :=
  r <- Fcntl_setfl sockfd flags ;;
  match r with
  | Rok _ =>
      match error with
      | Some e => Close sockfd ;; Ret (Minus1 e)
      | None => Ret (Value 0)
      end
  | _ => Ret Exits
  end.

(** The number [SO_ERROR] gives (as [<errno.h>] of Linux has them), 0 for no error. *)
Definition error_of (v : Z) : option errno :=
  if v =? 0 then None
  else Some (if v =? 4 then EINTR else if v =? 32 then EPIPE else if v =? 103 then ECONNABORTED
             else if v =? 110 then ETIMEDOUT else if v =? 115 then EINPROGRESS else Eother v).

Definition connect_nonb (sockfd : Z) (addr : option sockaddr) (salen nsec : Z) : nprog (result Z) :=
  r <- Fcntl_getfl sockfd ;;
  match r with
  | Rok flags =>
      r <- Fcntl_setfl sockfd (Z.lor flags O_NONBLOCK) ;;
      match r with
      | Rok _ =>
          let wait :=
            r <- Select sockfd true true (if nsec =? 0 then None else Some nsec) ;;
            match r with
            | Rok n =>
                if n =? 0 then Close sockfd ;; Ret (Minus1 ETIMEDOUT)
                else if has_flag n 1 || has_flag n 2 then
                  r <- So_error sockfd ;;
                  match r with
                  | Rok v => nonb_done sockfd flags (error_of v)
                  | Rerr e => Ret (Minus1 e)
                  end
                else Ret Exits
            | _ => Ret Exits
            end in
          r <- Connect sockfd addr salen ;;
          match r with
          | Rok _ => nonb_done sockfd flags None
          | Rerr EINPROGRESS => wait
          | Rerr e => Ret (Minus1 e)
          end
      | _ => Ret Exits
      end
  | _ => Ret Exits
  end.

(** The handler that only interrupts. *)
Definition connect_alarm : Z := 1.

Definition connect_timeo (sockfd : Z) (addr : option sockaddr) (salen nsec : Z) : nprog (result Z) :=
  r <- Signal_alrm connect_alarm ;;
  match r with
  | Rok sigfunc =>
      Alarm nsec ;;
      let restore res := Alarm 0 ;; r <- Signal_alrm sigfunc ;; match r with Rok _ => Ret res | _ => Ret Exits end in
      r <- Connect sockfd addr salen ;;
      match r with
      | Rok n => restore (Value n)
      | Rerr e =>
          c <- Close sockfd ;;
          let e := match c with Rerr e' => e' | _ => e end in
          restore (Minus1 (if bool_decide (e = EINTR) then ETIMEDOUT else e))
      end
  | _ => Ret Exits
  end.

Definition err_sys_on_minus1 {A} (r : result A) : result A := match r with Minus1 _ => Exits | _ => r end.

Definition Connect_timeo (sockfd : Z) (addr : option sockaddr) (salen nsec : Z) : nprog (result Z) :=
  pmap err_sys_on_minus1 (connect_timeo sockfd addr salen nsec).

(** What [select] returns. *)
Definition readable_timeo (fd sec : Z) : nprog (result Z) :=
  r <- Select fd true false (Some sec) ;; Ret (match r with Rok n => Value n | Rerr e => Minus1 e end).
Definition writable_timeo (fd sec : Z) : nprog (result Z) :=
  r <- Select fd false true (Some sec) ;; Ret (match r with Rok n => Value n | Rerr e => Minus1 e end).
Definition Readable_timeo (fd sec : Z) := pmap err_sys_on_minus1 (readable_timeo fd sec).
Definition Writable_timeo (fd sec : Z) := pmap err_sys_on_minus1 (writable_timeo fd sec).

(** ** Descriptors

    The events of a trace that matter. *)

Definition opens (k : Z) (e : call * reply) : bool :=
  match e with (Socket _ _ _, Rok fd) => fd =? k | _ => false end.
Definition closes (k : Z) (e : call * reply) : bool :=
  match e with (Close fd, _) => fd =? k | _ => false end.
Definition frees (e : call * reply) : bool := match e with (Freeaddrinfo, _) => true | _ => false end.

(** The sockets asked for, in order (a trace has the last call first). *)
Definition sockets (tr : trace call reply) : list (Z * Z * Z) :=
  omap (fun e => match e with (Socket a b c, _) => Some (a, b, c) | _ => None end) (rev tr).

Definition socket_args (ai : addrinfo) : Z * Z * Z := (ai_family ai, ai_socktype ai, ai_protocol ai).

(** A call failed whose wrapper ends the process. *)
Definition fatal (e : call * reply) : bool :=
  match e with
  | (Close _, Rok _) | (Reuseaddr _, Rok _) | (Listen _ _, Rok _) | (Malloc _, Rok _) => false
  | (Close _, _) | (Reuseaddr _, _) | (Listen _ _, _) | (Malloc _, _) => true
  | _ => false
  end.

Definition fatal_call (tr : trace call reply) : Prop := exists e, e ∈ tr /\ fatal e = true.

(** Every socket opened is closed again, but [kept]. *)
Definition balanced (kept : option Z) (tr : trace call reply) : Prop :=
  forall k, count (opens k) tr = count (closes k) tr + (if bool_decide (kept = Some k) then 1 else 0).

(** The call that decides whether an address works: [attempt] succeeds, or, where
    there is none, [socket]. *)
Definition works (attempt : option (Z -> addrinfo -> call)) (e : call * reply) : bool :=
  match attempt, e with
  | None, (Socket _ _ _, Rok _) => true
  | Some _, (Connect _ _ _, Rok _) | Some _, (Bind _ _ _, Rok _) => true
  | _, _ => false
  end.

(** What holds when the loop has tried the addresses [l], of which [n] worked, and
    keeps a socket for the last of them, or none. *)
Definition tried (attempt : option (Z -> addrinfo -> call)) (n : Z) (kept : option Z) (l : list addrinfo)
    (tr : trace call reply) : Prop :=
  balanced kept tr /\ sockets tr = map socket_args l /\ count frees tr = 0 /\ count (works attempt) tr = n.

Lemma sockets_cons e tr : sockets (e :: tr) = sockets tr ++ option_list (match e with (Socket a b c, _) => Some (a, b, c) | _ => None end).
Proof. unfold sockets. simpl. rewrite omap_app. by destruct e as [[] r]. Qed.

Section Descriptors.
Variable attempt : option (Z -> addrinfo -> call).

(** The calls on the new socket open and close nothing; those that prepare it decide
    nothing. *)
Definition quiet_call (c : call) : Prop :=
  match c with Socket _ _ _ | Close _ | Freeaddrinfo | Connect _ _ _ | Bind _ _ _ => False | _ => True end.
Definition deciding (c : call) : Prop :=
  match c with Connect _ _ _ | Bind _ _ _ => True | _ => False end.
Definition succeeded (r : reply) : Z := match r with Rok _ => 1 | _ => 0 end.

Lemma tried_quiet n kept l tr c r :
  quiet_call c -> tried attempt n kept l tr -> tried attempt n kept l ((c, r) :: tr).
Proof.
  intros Hp (Hb & Hs & Hf & Hn). split_and!.
  - intros k. rewrite !count_cons, Hb. by destruct c.
  - rewrite sockets_cons, Hs. destruct c; simpl; by rewrite ?app_nil_r.
  - rewrite count_cons, Hf. by destruct c.
  - rewrite count_cons, Hn. unfold works. by destruct attempt, c.
Qed.

Lemma tried_deciding n kept l tr f c r : attempt = Some f ->
  deciding c -> tried attempt n kept l tr -> tried attempt (succeeded r + n) kept l ((c, r) :: tr).
Proof.
  intros Ha Hp (Hb & Hs & Hf & Hn). split_and!.
  - intros k. rewrite !count_cons, Hb. by destruct c.
  - rewrite sockets_cons, Hs. destruct c; simpl; by rewrite ?app_nil_r.
  - rewrite count_cons, Hf. by destruct c.
  - rewrite count_cons, Hn. rewrite Ha. destruct c, r; simpl; done.
Qed.

Lemma tried_socket n l tr ai r : tried attempt n None l tr ->
  tried attempt (match attempt with None => succeeded r + n | Some _ => n end)
    (match r with Rok fd => Some fd | _ => None end) (l ++ [ai])
    ((Socket (ai_family ai) (ai_socktype ai) (ai_protocol ai), r) :: tr).
Proof.
  intros (Hb & Hs & Hf & Hn). split_and!.
  - intros k. rewrite !count_cons, Hb. simpl. change (bool_decide (None = Some k)) with false.
    destruct r as [fd|e]; simpl; try lia.
    destruct (Z.eqb_spec fd k) as [->|Hne]; [rewrite bool_decide_true by done; lia|].
    rewrite bool_decide_false by congruence. lia.
  - rewrite sockets_cons, Hs, map_app. done.
  - by rewrite count_cons, Hf.
  - rewrite count_cons, Hn. unfold works. by destruct attempt, r.
Qed.

Lemma tried_close n l tr fd r : tried attempt n (Some fd) l tr -> tried attempt n None l ((Close fd, r) :: tr).
Proof.
  intros (Hb & Hs & Hf & Hn). split_and!.
  - intros k. rewrite !count_cons, Hb. simpl.
    destruct (Z.eqb_spec fd k) as [->|Hne]; [rewrite bool_decide_true by done; lia|].
    rewrite bool_decide_false by congruence. lia.
  - rewrite sockets_cons, Hs. simpl. by rewrite app_nil_r.
  - by rewrite count_cons, Hf.
  - rewrite count_cons, Hn. unfold works. by destruct attempt.
Qed.

End Descriptors.

Lemma each_spec {A} prepare attempt (Q : result A -> trace call reply -> Prop)
    (found : Z -> addrinfo -> nprog (result A)) (l0 : list addrinfo) :
  (forall f fd, prepare = Some f ->
     quiet_call (f fd) /\ forall r, (match r with Rok _ => False | _ => True end) -> fatal (f fd, r) = true) ->
  (forall f fd ai, attempt = Some f -> deciding (f fd ai)) ->
  (forall tr, tried attempt 0 None l0 tr -> Q Exits tr) -> (forall tr, fatal_call tr -> Q Exits tr) ->
  (forall pre ai post fd tr, l0 = pre ++ ai :: post -> tried attempt 1 (Some fd) (pre ++ [ai]) tr ->
     (forall f, attempt = Some f -> exists v tr', tr = (f fd ai, Rok v) :: tr') -> wp (found fd ai) Q tr) ->
  forall l pre tr, l0 = pre ++ l -> tried attempt 0 None pre tr -> wp (each prepare attempt l found) Q tr.
Proof.
  intros Hpp Had Hnone Hfatal Hfound. induction l as [|ai l IH]; intros pre tr Hl Ht; simpl.
  { rewrite app_nil_r in Hl. subst. by apply Hnone. }
  intros r. pose proof (tried_socket attempt 0 pre tr ai r Ht) as Ht1.
  assert (Hl' : l0 = (pre ++ [ai]) ++ l) by (by rewrite <- app_assoc).
  destruct r as [fd|e]; [|apply (IH (pre ++ [ai])); [done|]; simpl in Ht1; by destruct attempt].
  simpl in Ht1. set (n := match attempt with None => 1 | Some _ => 0 end) in Ht1.
  assert (Hgo : forall tr', tried attempt n (Some fd) (pre ++ [ai]) tr' ->
    wp match attempt with
       | None => found fd ai
       | Some call => r <- call fd ai ;; match r with
           | Rok _ => found fd ai
           | _ => r <- Close fd ;; match r with Rok _ => each prepare attempt l found | _ => Ret Exits end end
       end Q tr').
  { intros tr' Ht'. unfold n in Ht'. clear n Ht1. destruct attempt as [f|].
    - intros r. assert (Hp : deciding (f fd ai)) by (by apply Had).
      pose proof (tried_deciding (Some f) _ _ _ _ f _ r eq_refl Hp Ht') as Ht2. destruct r as [v|e].
      + apply (Hfound pre ai l fd); [done|done|]. intros f' [= <-]. by eexists _, _.
      + intros r. destruct r; [apply (IH (pre ++ [ai])); [done|by apply tried_close]|..]; apply Hfatal; eexists; (split; [by left|done]).
    - by apply (Hfound pre ai l fd). }
  destruct prepare as [f|]; [|apply Hgo; unfold n; by destruct attempt].
  intros r. destruct (Hpp f fd eq_refl) as [Hp Hf]. destruct r as [v|e].
  - apply Hgo. apply tried_quiet; [done|]. unfold n. by destruct attempt.
  - simpl. apply Hfatal. eexists. split; [by left|]. by apply Hf.
Qed.

(** What the five functions promise for the list [l] of [getaddrinfo]: a socket that is
    returned is the only one left open; it was made for the address [ai], after all
    before it had been tried, and no call that decides ([connect] or [bind], or
    [socket] itself) succeeded but the one for [ai]: it is the first address that
    works; and the list was freed once.  When the process ends, either a call failed
    that must not, or every address was tried, none worked, and every socket was
    closed. *)
Definition promised {A} (fd_of : A -> Z) (attempt : option (Z -> addrinfo -> call)) (l : list addrinfo)
    (r : result A) (tr : trace call reply) : Prop :=
  match r with
  | Value a =>
      (exists pre ai post, l = pre ++ ai :: post /\ sockets tr = map socket_args (pre ++ [ai]) /\
         forall f, attempt = Some f -> exists v, (f (fd_of a) ai, Rok v) ∈ tr) /\
      count (works attempt) tr = 1 /\ balanced (Some (fd_of a)) tr /\ count frees tr = 1
  | Exits => fatal_call tr \/ (balanced None tr /\ sockets tr = map socket_args l /\ count (works attempt) tr = 0)
  | Minus1 _ => False
  | Null_pointer => l = []
  end.

Lemma tried_kept {A} (fd_of : A -> Z) attempt l pre ai post fd a tr tr1 tr' e :
  l = pre ++ ai :: post -> tried attempt 1 (Some fd) (pre ++ [ai]) tr -> fd_of a = fd ->
  (forall f, attempt = Some f -> exists v tr', tr = (f fd ai, Rok v) :: tr') ->
  tr' = (Freeaddrinfo, e) :: tr1 -> tried attempt 1 (Some fd) (pre ++ [ai]) tr1 -> (exists l1, tr1 = l1 ++ tr) ->
  promised fd_of attempt l (Value a) tr'.
Proof.
  intros Hl _ Hfd Ha -> (Hb & Hs & Hf & Hn) [l1 Htr1]. subst fd. split_and!.
  - exists pre, ai, post. split_and!; [done|rewrite sockets_cons, Hs; simpl; by rewrite app_nil_r|].
    intros f Hat. destruct (Ha f Hat) as (v & tr0 & Htr). exists v. right. rewrite Htr1, Htr. set_solver.
  - rewrite count_cons, Hn. unfold works. by destruct attempt.
  - intros k. rewrite !count_cons, Hb. done.
  - rewrite count_cons, Hf. done.
Qed.

Lemma with_addresses_spec {A} (fd_of : A -> Z) prepare attempt found (l : list addrinfo) :
  (forall f fd, prepare = Some f ->
     quiet_call (f fd) /\ forall r, (match r with Rok _ => False | _ => True end) -> fatal (f fd, r) = true) ->
  (forall f fd ai, attempt = Some f -> deciding (f fd ai)) ->
  (forall pre ai post fd tr, l = pre ++ ai :: post -> tried attempt 1 (Some fd) (pre ++ [ai]) tr ->
     (forall f, attempt = Some f -> exists v tr', tr = (f fd ai, Rok v) :: tr') ->
     wp (found fd ai) (promised fd_of attempt l) tr) ->
  wp (with_addresses prepare attempt (GaiOk l) found) (promised fd_of attempt l) [].
Proof.
  intros Hp Ha Hfound. assert (H0 : tried attempt 0 None [] []) by (by split_and!).
  unfold with_addresses. destruct l as [|ai l]; [done|].
  apply (each_spec prepare attempt _ _ (ai :: l) Hp Ha) with (pre := []); try done.
  - intros tr (Hb & Hs & _ & Hn). by right.
  - intros tr Hf. by left.
Qed.


(** ** The state a timed connect leaves *)

(** The status flags read, and the last ones set. *)
Definition flags_read (tr : trace call reply) : list Z :=
  omap (fun e => match e with (Fcntl_getfl _, Rok v) => Some v | _ => None end) tr.
Definition flags_now (tr : trace call reply) : option Z :=
  head (omap (fun e => match e with (Fcntl_setfl _ v, Rok _) => Some v | _ => None end) tr).
(** The handlers of [SIGALRM] replaced (the last one first), the one installed, and the last alarm. *)
Definition handlers_replaced (tr : trace call reply) : list Z :=
  omap (fun e => match e with (Signal_alrm _, Rok v) => Some v | _ => None end) tr.
Definition handler_now (tr : trace call reply) : option Z :=
  head (omap (fun e => match e with (Signal_alrm v, Rok _) => Some v | _ => None end) tr).
Definition alarm_now (tr : trace call reply) : option Z :=
  head (omap (fun e => match e with (Alarm v, _) => Some v | _ => None end) tr).

(** How a nonblocking connect ends. *)
Inductive nonb_outcome (fd : Z) (addr : option sockaddr) (len nsec flags : Z) (tr : trace call reply) : result Z -> Prop :=
| Nonb_connected :
    (exists v, (Connect fd addr len, Rok v) ∈ tr) \/ (So_error fd, Rok 0) ∈ tr ->
    count (closes fd) tr = 0 -> flags_now tr = Some flags ->
    nonb_outcome fd addr len nsec flags tr (Value 0)
| Nonb_timeout :
    (Select fd true true (Some nsec), Rok 0) ∈ tr \/ (nsec = 0 /\ (Select fd true true None, Rok 0) ∈ tr) ->
    count (closes fd) tr = 1 -> flags_now tr = Some (Z.lor flags O_NONBLOCK) ->
    nonb_outcome fd addr len nsec flags tr (Minus1 ETIMEDOUT)
| Nonb_refused v e :
    (So_error fd, Rok v) ∈ tr -> error_of v = Some e ->
    count (closes fd) tr = 1 -> flags_now tr = Some flags ->
    nonb_outcome fd addr len nsec flags tr (Minus1 e)
| Nonb_left_open e :
    ((Connect fd addr len, Rerr e) ∈ tr /\ e <> EINPROGRESS) \/ (So_error fd, Rerr e) ∈ tr ->
    count (closes fd) tr = 0 -> flags_now tr = Some (Z.lor flags O_NONBLOCK) ->
    nonb_outcome fd addr len nsec flags tr (Minus1 e)
| Nonb_exits :
    (exists fl e, (Fcntl_setfl fd fl, Rerr e) ∈ tr) \/ (exists t e, (Select fd true true t, Rerr e) ∈ tr) \/
    (exists t n, (Select fd true true t, Rok n) ∈ tr /\ n <> 0 /\ has_flag n 1 = false /\ has_flag n 2 = false) ->
    count (closes fd) tr = 0 ->
    nonb_outcome fd addr len nsec flags tr Exits.

(** Membership in a trace that is written out. *)
#[local] Ltac in_trace := repeat (first [apply list_elem_of_here | apply list_elem_of_further]).

(** The counts of a trace that is written out. *)
#[local] Ltac count_trace := rewrite ?count_cons, ?count_nil; simpl; rewrite ?Z.eqb_refl; done.

(** What [connect_nonb] promises. *)
Definition nonb_post (fd : Z) (addr : option sockaddr) (len nsec : Z) (r : result Z) (tr : trace call reply) : Prop :=
  (r = Exits /\ (exists e, tr = [(Fcntl_getfl fd, Rerr e)])) \/
  exists flags, flags_read tr = [flags] /\ nonb_outcome fd addr len nsec flags tr r.

Lemma nonb_done_spec fd addr len nsec flags error tr : flags_read tr = [flags] -> count (closes fd) tr = 0 ->
  (error = None -> (exists v, (Connect fd addr len, Rok v) ∈ tr) \/ (So_error fd, Rok 0) ∈ tr) ->
  (forall e, error = Some e -> exists v, (So_error fd, Rok v) ∈ tr /\ error_of v = Some e) ->
  wp (nonb_done fd flags error) (nonb_post fd addr len nsec) tr.
Proof.
  intros Hr Hc Hok Hbad [v|e]; simpl.
  2: { right. exists flags. split; [done|]. apply Nonb_exits; [left; eexists _, _; in_trace|]. by rewrite count_cons. }
  destruct error as [e|]; simpl.
  - intros r. right. exists flags. split; [done|]. destruct (Hbad e eq_refl) as (v' & Hin & He).
    eapply Nonb_refused; [by do 2 right|done| |done]. rewrite !count_cons, Hc. simpl. by rewrite Z.eqb_refl.
  - right. exists flags. split; [done|]. apply Nonb_connected; [|by rewrite count_cons|done].
    destruct (Hok eq_refl) as [[v' H]|H]; [left; exists v'|right]; by right.
Qed.

(** C30: however the system answers, a nonblocking connect that returns 0 is connected,
    has its status flags back and is open; after a timeout it is closed and the
    error is [ETIMEDOUT]; when the connection was refused while waiting it is closed,
    and the error is the one of the socket; but when [connect] fails at once, or
    [getsockopt] gives the pending error, the descriptor stays open and
    nonblocking. *)
Theorem connect_nonb_outcomes (fd : Z) (addr : option sockaddr) (len nsec : Z) :
  wp (connect_nonb fd addr len nsec) (nonb_post fd addr len nsec) [].
Proof.
  unfold connect_nonb. intros [flags|e]; [|left; by eauto].
  intros [v1|e1]; [|right; exists flags; split; [done|]; apply Nonb_exits; [left; eexists _, _; in_trace|count_trace] ].
  intros [v2|e2]; [apply nonb_done_spec; [done|count_trace|intros _; left; eexists; in_trace|done]|].
  destruct (decide (e2 = EINPROGRESS)) as [->|Hne].
  2: { assert (H : forall tr, tr = [(Connect fd addr len, Rerr e2); (Fcntl_setfl fd (Z.lor flags O_NONBLOCK), Rok v1); (Fcntl_getfl fd, Rok flags)] ->
         exists flags0, flags_read tr = [flags0] /\ nonb_outcome fd addr len nsec flags0 tr (Minus1 e2)).
       { intros tr ->. exists flags. split; [done|]. apply Nonb_left_open; [left; split; [in_trace|done]|count_trace|done]. }
       destruct e2; try done; right; by apply H. }
  intros [n|e3]; cycle 1.
  { right. exists flags. split; [done|]. apply Nonb_exits; [right; left; eexists _, _; in_trace|count_trace]. }
  destruct (Z.eqb_spec n 0) as [->|Hn].
  { intros r. right. exists flags. split; [done|]. apply Nonb_timeout; [|count_trace|done].
    destruct (Z.eqb_spec nsec 0) as [->|]; [right; split; [done|]|left]; in_trace. }
  destruct (has_flag n 1 || has_flag n 2) eqn:Hf; cycle 1.
  { right. exists flags. split; [done|]. apply orb_false_iff in Hf.
    apply Nonb_exits; [right; right; eexists _, n; split; [in_trace|done]|count_trace]. }
  intros [v4|e4].
  - apply nonb_done_spec; [done|count_trace|..].
    + intros He. right. unfold error_of in He. destruct (Z.eqb_spec v4 0) as [E|]; [rewrite E; in_trace|done].
    + intros e He. exists v4. split; [in_trace|done].
  - right. exists flags. split; [done|]. apply Nonb_left_open; [right; in_trace|count_trace|done].
Qed.

(** The handler of [SIGALRM] is the one found, and no alarm is set. *)
Definition alarm_restored (tr : trace call reply) : Prop :=
  exists mine found, handlers_replaced tr = [mine; found] /\ handler_now tr = Some found /\ alarm_now tr = Some 0.

(** however the system answers, when [connect_timeo] returns, the handler of
    [SIGALRM] is the one it found and no alarm is left; a failed connect is closed
    once and never reported as [EINTR] but as [ETIMEDOUT], any other error of
    [connect] is reported when the close succeeds; a successful connect stays
    open; the process ends only when [signal] fails. *)
Theorem connect_timeo_restores (fd : Z) (addr : option sockaddr) (len nsec : Z) :
  wp (connect_timeo fd addr len nsec) (fun r tr =>
    match r with
    | Value n => (Connect fd addr len, Rok n) ∈ tr /\ count (closes fd) tr = 0 /\ alarm_restored tr
    | Minus1 e => e <> EINTR /\ count (closes fd) tr = 1 /\ alarm_restored tr /\
        exists e0, (Connect fd addr len, Rerr e0) ∈ tr /\
          (forall v, (Close fd, Rok v) ∈ tr -> e = if bool_decide (e0 = EINTR) then ETIMEDOUT else e0)
    | Exits => exists h e, (Signal_alrm h, Rerr e) ∈ tr
    | Null_pointer => False
    end) [].
Proof.
  unfold connect_timeo. intros [found|e]; [|eexists _, _; in_trace]. intros ra [n|e0].
  - intros r0 [v|e]; [|eexists _, _; in_trace]. split_and!; [in_trace|count_trace|by eexists _, _].
  - intros c r0 [v|e]; [|eexists _, _; in_trace]. split_and!; [by repeat case_bool_decide|count_trace|by eexists _, _|].
    exists e0. split; [in_trace|]. intros v' Hin. destruct c as [vc|ec]; [done|]. exfalso.
    rewrite !elem_of_cons, elem_of_nil in Hin. by repeat (destruct Hin as [Hin|Hin]; [by inversion Hin|]).
Qed.

(** ** By name: [getaddrinfo] of [libgai] and the connection functions *)

(** A call the kernel accepts by its type: a socket of a family the library knows, of
    the type [socktype], and an address of the length its family has. *)
Definition typed_call (socktype : Z) (e : call * reply) : Prop :=
  match e.1 with
  | Socket f t p => (f = AF_INET \/ f = AF_INET6 \/ f = AF_LOCAL) /\ t = socktype /\ p = 0
  | Connect _ a len | Bind _ a len =>
      match a with
      | Some (Sin port addr) => len = sizeof_sockaddr_in /\ length addr = 4%nat /\ 0 <= port < 2 ^ 16
      | Some (Sin6 port addr) => len = sizeof_sockaddr_in6 /\ length addr = 16%nat /\ 0 <= port < 2 ^ 16
      | Some (Sun path) => len = sizeof_sockaddr_un /\ Z.of_nat (length path) < sizeof_sun_path
      | _ => False
      end
  | _ => True
  end.

Definition typed_run {A} (socktype : Z) (r : result A) (tr : trace call reply) : Prop :=
  r <> Null_pointer /\ Forall (typed_call socktype) tr.

Lemma answer_typed hi ai : h_socktype hi <> 0 -> h_protocol hi = 0 -> answer_wf hi (view ai) ->
  forall fd r, typed_call (h_socktype hi) (Socket (ai_family ai) (ai_socktype ai) (ai_protocol ai), r) /\
    typed_call (h_socktype hi) (connect_to fd ai, r) /\ typed_call (h_socktype hi) (bind_to fd ai, r).
Proof.
  intros Ht Hp (Hs & _ & Hpr & Ha) fd r. unfold typed_call, view in *. simpl in *.
  destruct (snd <$> ai_addr ai) as [[]|]; [..|done]; [| | |done]; destruct Ha as (? & ? & ?);
    intuition (congruence || lia).
Qed.

Section Typed.
Context {A : Type}.
Variable hi : hints.
Variable prepare : option (Z -> call).
Variable attempt : option (Z -> addrinfo -> call).
Variable found : Z -> addrinfo -> nprog (result A).
Hypothesis prepare_typed : forall f fd r, prepare = Some f -> typed_call (h_socktype hi) (f fd, r).
Hypothesis attempt_known : forall f, attempt = Some f -> f = connect_to \/ f = bind_to.
Hypothesis found_typed : forall fd ai tr, Forall (typed_call (h_socktype hi)) tr ->
  wp (found fd ai) (typed_run (h_socktype hi)) tr.
Hypothesis hints_typed : h_socktype hi <> 0 /\ h_protocol hi = 0.

Lemma each_typed l : Forall (answer_wf hi) (view <$> l) -> forall tr, Forall (typed_call (h_socktype hi)) tr ->
  wp (each prepare attempt l found) (typed_run (h_socktype hi)) tr.
Proof.
  induction l as [|ai l IH]; intros HF tr Htr; [done|]. apply Forall_cons in HF as [Ha HF]. specialize (IH HF).
  destruct hints_typed as [Ht Hp]. pose proof (answer_typed hi ai Ht Hp Ha) as Hai.
  intros [fd|e]; [|apply IH; by constructor; [exact (proj1 (Hai 0 _))|] ].
  assert (H1 : forall tr', Forall (typed_call (h_socktype hi)) tr' ->
    wp match attempt with
       | None => found fd ai
       | Some call => r <- call fd ai ;; match r with
           | Rok _ => found fd ai
           | _ => r <- Close fd ;; match r with Rok _ => each prepare attempt l found | _ => Ret Exits end end
       end (typed_run (h_socktype hi)) tr').
  { intros tr' Htr'. pose proof attempt_known as Hk. destruct attempt as [f|]; [|by apply found_typed].
    intros r. assert (Hf : typed_call (h_socktype hi) (f fd ai, r)) by (destruct (Hk f eq_refl) as [-> | ->]; [exact (proj1 (proj2 (Hai fd r)))|exact (proj2 (proj2 (Hai fd r)))]).
    destruct r; [apply found_typed; by constructor|]. intros [|]; [apply IH|split; [done|] ]; by repeat constructor. }
  assert (H2 : Forall (typed_call (h_socktype hi)) ((Socket (ai_family ai) (ai_socktype ai) (ai_protocol ai), Rok fd) :: tr))
    by (constructor; [exact (proj1 (Hai 0 _))|done]).
  pose proof prepare_typed as Hpt. destruct prepare as [f|]; [|by apply H1].
  intros [v|e]; [apply H1|split; [done|] ]; constructor; eauto.
Qed.

Lemma by_name_typed l : l <> [] -> Forall (answer_wf hi) (view <$> l) ->
  wp (with_addresses prepare attempt (GaiOk l) found) (typed_run (h_socktype hi)) [].
Proof. intros Hl HF. destruct l as [|ai l]; [done|]. by apply each_typed. Qed.
End Typed.

Section ByName.
Variable fails : nat -> bool.
Variable getservbyname : list Z -> bool -> option Z.
Variable uname : option (list Z).
Variable gethostbyname2 : list Z -> Z -> h_errno + hostent.
Variable gethostbyname : bool -> list Z -> h_errno + hostent.

(** The list for the hints. *)
Definition resolve (hi : hints) (host serv : option (list Z)) (h : heap) : gai :=
  (getaddrinfo fails getservbyname uname gethostbyname2 gethostbyname host serv (Some hi) h).1.

(** C29: the connection functions on what [getaddrinfo] of [libgai] returns for any host
    and service, any state of memory, and whatever the system answers: they never
    follow a null list, every socket asked for has a family the library knows, the
    type of the function and protocol 0, and every address given to [connect] or
    [bind] has the length of its family. *)
Theorem by_name_never_null (host serv : option (list Z)) (h : heap) :
  resolver_ok gethostbyname2 gethostbyname ->
  wp (tcp_connect (resolve tcp_connect_hints host serv h)) (typed_run SOCK_STREAM) [] /\
  wp (udp_connect (resolve udp_connect_hints host serv h)) (typed_run SOCK_DGRAM) [] /\
  wp (udp_client (resolve udp_client_hints host serv h)) (typed_run SOCK_DGRAM) [] /\
  wp (tcp_listen (resolve tcp_listen_hints host serv h)) (typed_run SOCK_STREAM) [] /\
  wp (udp_server (resolve udp_server_hints host serv h)) (typed_run SOCK_DGRAM) [].
Proof.
  intros Hres.
  assert (Hgo : forall A (hi : hints) prepare attempt (found : Z -> addrinfo -> nprog (result A)),
    (forall f fd r, prepare = Some f -> typed_call (h_socktype hi) (f fd, r)) ->
    (forall f, attempt = Some f -> f = connect_to \/ f = bind_to) ->
    (forall fd ai tr, Forall (typed_call (h_socktype hi)) tr -> wp (found fd ai) (typed_run (h_socktype hi)) tr) ->
    h_socktype hi <> 0 /\ h_protocol hi = 0 ->
    wp (with_addresses prepare attempt (resolve hi host serv h) found) (typed_run (h_socktype hi)) []).
  { intros A hi prepare attempt found H1 H2 H3 H4. unfold resolve.
    destruct (getaddrinfo _ _ _ _ _ _ _ _ _) as [[l|e|] h'] eqn:E; [|done..].
    apply (getaddrinfo_answers_wf _ _ _ _ _ Hres) in E as [Hl HF]. by apply by_name_typed. }
  split_and!; eapply Hgo; try done; try (by intros f [= <-]; auto); try (by intros f fd r [= <-]);
    intros fd ai tr Htr r; repeat (split || (by repeat constructor) || (destruct r; [intros ?|]) || done).
Qed.
End ByName.

(** The name has an address of each family; the IPv6 one cannot be reached. *)
Lemma by_name_never_null_witness :
  let p := tcp_connect (resolve (fun _ => false) demo_serv None demo_byname2 demo_byname tcp_connect_hints
             (Some demo_host) (Some (codes "daytime")) heap0) in
  let r := run p (fun n => nth n [Rok 3; Rerr ETIMEDOUT; Rok 0; Rok 3; Rok 0; Rok 0] (Rok 0)) 0 [] in
  r.1 = Value 3 /\ sockets r.2 = [(AF_INET6, SOCK_STREAM, 0); (AF_INET, SOCK_STREAM, 0)] /\ typed_run SOCK_STREAM r.1 r.2.
Proof.
  split; [vm_compute; reflexivity|]. split; [vm_compute; reflexivity|].
  refine (wp_run _ _ _ _ _ (proj1 (by_name_never_null (fun _ => false) demo_serv None demo_byname2 demo_byname
    (Some demo_host) (Some (codes "daytime")) heap0 _))). exact demo_resolver_ok.
Defined.
