(* ===== verification/Traceroute.v ===== *)
(** * Traceroute: [unixNetV1/traceroute]

    [recv_v4] and [recv_v6], which look for the ICMP error that quotes a probe, and
    [traceloop], which sends the probes.  The receive buffer is static: a datagram is
    stored over what earlier ones left, and every load from it is checked.  What the
    network and the clock do is a sequence of events, any one.  The lines that
    [verbose] adds are left out. *)
From S2P Require Import Prelude Mem Inet Gai GaiSpec Cksum SockAddr.

Definition BUFSIZE : nat := 1500.

Definition ICMP_UNREACH : Z := 3.
Definition ICMP_UNREACH_PORT : Z := 3.
Definition ICMP_TIMXCEED : Z := 11.
Definition ICMP_TIMXCEED_INTRANS : Z := 0.
Definition ICMP6_DST_UNREACH : Z := 1.
Definition ICMP6_DST_UNREACH_NOPORT : Z := 4.
Definition ICMP6_TIME_EXCEEDED : Z := 3.
Definition ICMP6_TIME_EXCEED_TRANSIT : Z := 0.

(** [sizeof(struct ip)], [sizeof(struct ip6_hdr)] *)
Definition sizeof_ip_hdr : Z := 20.
Definition sizeof_ip6_hdr : Z := 40.

(** ** The packets *)

(** [ip_hl << 2] of the IP header at an offset. *)
Definition hlen (buf : list Z) (off : Z) : option Z :=
  b ← rd buf off; Some (Z.shiftl (Z.land b 15) 2).

(** What one turn of a receive loop makes of a datagram: [break] with [ret], which
    may never have been assigned, or the next turn. *)
Inductive verdict := Break (ret : option Z) | Next.

Section Ports.
Variables sport dport : Z.

(** The last test: a UDP packet with the ports of probe [seq]. *)
Definition probe_ports (buf : list Z) (proto_off udp_off seq : Z) : option bool :=
  p ← rd buf proto_off;
  if negb (p =? IPPROTO_UDP) then Some false
  else sp ← rd16 buf udp_off;
       if negb (sp =? ntohs sport) then Some false
       else dp ← rd16 buf (udp_off + 2); Some (dp =? ntohs (u16 (dport + seq))).

(** From [if (icmplen < 8 + sizeof(struct ip))] to the test of the ports, in both
    branches of [recv_v4]. *)
Definition quoted_v4 (buf : list Z) (hlen1 icmplen seq : Z) : option bool :=
  if icmplen <? 8 + sizeof_ip_hdr then Some false
  else hlen2 ← hlen buf (hlen1 + 8);
       if icmplen <? 8 + hlen2 + 4 then Some false
       else probe_ports buf (hlen1 + 8 + 9) (hlen1 + 8 + hlen2) seq.

(** The loop body of [recv_v4] after [recvfrom] has returned [n]. *)
Definition turn_v4 (buf : list Z) (n seq : Z) : option verdict :=
  hlen1 ← hlen buf 0;
  let icmplen := n - hlen1 in
  if icmplen <? 8 then Some Next
  else
    icmp_type ← rd buf hlen1;
    timxceed ← (if icmp_type =? ICMP_TIMXCEED then c ← rd buf (hlen1 + 1); Some (c =? ICMP_TIMXCEED_INTRANS) else Some false);
    if (timxceed : bool) then
      q ← quoted_v4 buf hlen1 icmplen seq;
      Some (if (q : bool) then Break (Some (-2)) else Next)
    else if icmp_type =? ICMP_UNREACH then
      q ← quoted_v4 buf hlen1 icmplen seq;
      if (q : bool) then
        code ← rd buf (hlen1 + 1);
        Some (Break (Some (if code =? ICMP_UNREACH_PORT then -1 else code)))
      else Some Next
    else Some Next.

(** The loop body of [recv_v6]: the kernel gives no IP header; in the first branch
    [break] is not under the [if]. *)
Definition turn_v6 (buf : list Z) (n seq : Z) : option verdict :=
  let icmp6len := n in
  if icmp6len <? 8 then Some Next
  else
    icmp6_type ← rd buf 0;
    timxceed ← (if icmp6_type =? ICMP6_TIME_EXCEEDED then c ← rd buf 1; Some (c =? ICMP6_TIME_EXCEED_TRANSIT) else Some false);
    if (timxceed : bool) then
      if icmp6len <? 8 + sizeof_ip6_hdr + 4 then Some Next
      else q ← probe_ports buf (8 + 6) (8 + sizeof_ip6_hdr) seq;
           Some (Break (if (q : bool) then Some (-2) else None))
    else if icmp6_type =? ICMP6_DST_UNREACH then
      if icmp6len <? 8 + sizeof_ip6_hdr + 4 then Some Next
      else q ← probe_ports buf (8 + 6) (8 + sizeof_ip6_hdr) seq;
           if (q : bool) then
             code ← rd buf 1;
             Some (Break (Some (if code =? ICMP6_DST_UNREACH_NOPORT then -1 else code)))
           else Some Next
    else Some Next.
End Ports.

(** ** Receiving *)

(** What [recvfrom] returns and what happens around it: a datagram with its sender and
    the time, and whether the alarm arrives after it and before the next turn;
    [EINTR], because the alarm arrives; another error.  An alarm between the test of
    [gotalarm] and [recvfrom] is lost to this turn: the next event is then the next
    datagram, with the flag set, and with no further event the call blocks. *)
Inductive event :=
| Datagram (from : SA) (now : timeval) (bytes : list Z) (alarmed : bool)
| Interrupted
| Recv_error.

(** The end of [recv_v4] or [recv_v6]: the value returned with the buffer, the address
    in [pr->sarecv], [tv], and the events that are left; or no return. *)
Inductive received :=
| Returns (ret : option Z) (buf : list Z) (sarecv : SA) (tv : option timeval) (rest : list event)
| Blocks
| Err_sys
| Out_of_buffer.

Section Recv.
Variable turn : list Z -> Z -> Z -> option verdict.

(** [for ( ; ; )]; [recvfrom] cuts the datagram to the size of the buffer. *)
Fixpoint recv_loop (seq : Z) (gotalarm : bool) (buf : list Z) (sarecv : SA) (evs : list event) : received :=
  if gotalarm then Returns (Some (-3)) buf sarecv None evs
  else match evs with
       | [] => Blocks
       | Recv_error :: _ => Err_sys
       | Interrupted :: evs' => recv_loop seq true buf sarecv evs'
       | Datagram from now bytes alarmed :: evs' =>
           let d := take BUFSIZE bytes in
           let buf := memcpy_into buf d in
           match turn buf (Z.of_nat (length d)) seq with
           | None => Out_of_buffer
           | Some (Break ret) => Returns ret buf from (Some now) evs'
           | Some Next => recv_loop seq alarmed buf from evs'
           end
       end.
End Recv.

Definition recv_v4 (sport dport seq : Z) : list Z -> SA -> list event -> received :=
  recv_loop (turn_v4 sport dport) seq false.
Definition recv_v6 (sport dport seq : Z) : list Z -> SA -> list event -> received :=
  recv_loop (turn_v6 sport dport) seq false.

(** [icmpcode_v4] and [icmpcode_v6]; [None] is the text with the number. *)
Definition icmpcode_v4 (code : Z) : option string :=
  nth_error
    ["network unreachable"; "host unreachable"; "protocol unreachable"; "port unreachable";
     "fragmentation required but DF bit set"; "source route failed"; "destination network unknown";
     "destination host unknown"; "source host isolated (obsolete)";
     "destination network administratively prohibited"; "destination host administratively prohibited";
     "network unreachable for TOS"; "host unreachable for TOS";
     "communication administratively prohibited by filtering"; "host recedence violation";
     "precedence cutoff in effect"]%string (if code <? 0 then 16%nat else Z.to_nat code).

Definition icmpcode_v6 (code : Z) : option string :=
  if code =? 0 then Some "no route to host"%string
  else if code =? 1 then Some "administratively prohibited"%string
  else if code =? 2 then Some "not a neighbor"%string
  else if code =? 3 then Some "address unreachable"%string
  else if code =? 4 then Some "port unreachable"%string
  else None.

(** ** Sending *)

(** A probe: the TTL of the socket, the destination port, and the record in the packet. *)
Record probe := Probe { p_ttl : Z; p_port : Z; rec_seq : Z; rec_ttl : Z; rec_tv : timeval }.

(** What is printed for one probe: a star, or the address if it is not the last one, the
    round-trip time and the text of another ICMP code. *)
Inductive line := Star | Reply (shown : option SA) (rtt : timeval) (icmp : option (Z * option string)).

Record state := State {
  seq : Z; done : Z; recvbuf : list Z; sarecv : SA; events : list event;
  sent : list probe; printed : list (Z * list line) }.

(** Why [traceloop] does not return. *)
Inductive stop := Blocked | Error | Indeterminate | Overrun.

Section Trace.
Variable recv : Z -> list Z -> SA -> list event -> received.
Variable icmpcode : Z -> option string.
Variables dport max_ttl nprobes : Z.
(** [gettimeofday] before probe [seq], and whether the kernel accepts a TTL. *)
Variable send_time : Z -> timeval.
Variable ttl_ok : Z -> bool.

(** One turn of the loop over the probes; [salast] is the address last shown, and
    [lines] what this TTL has printed. *)
Definition probe_one (ttl : Z) (salast : SA) (lines : list line) (s : state) : (state * SA * list line) + stop :=
  let sq := seq s + 1 in
  let pr := Probe ttl (u16 (dport + sq)) (u16 sq) (u16 ttl) (send_time sq) in
  match recv sq (recvbuf s) (sarecv s) (events s) with
  | Blocks => inr Blocked
  | Err_sys => inr Error
  | Out_of_buffer => inr Overrun
  | Returns None _ _ _ _ => inr Indeterminate
  | Returns (Some code) buf from tv rest =>
      let s' d := State sq (done s + d) buf from rest (sent s ++ [pr]) (printed s) in
      if code =? -3 then inl (s' 0, salast, lines ++ [Star])
      else
        let shown := if negb (sock_cmp_addr from salast =? 0) then Some from else None in
        let rtt := tv_sub (default (Timeval 0 0) tv) (rec_tv pr) in
        let icmp := if code >=? 0 then Some (code, icmpcode code) else None in
        inl (s' (if code =? -1 then 1 else 0),
             match shown with Some a => a | None => salast end, lines ++ [Reply shown rtt icmp])
  end.

Fixpoint probes (n : nat) (ttl : Z) (salast : SA) (lines : list line) (s : state) : (state * list line) + stop :=
  match n with
  | O => inl (s, lines)
  | S n' =>
      match probe_one ttl salast lines s with
      | inl (s', salast', lines') => probes n' ttl salast' lines' s'
      | inr e => inr e
      end
  end.

(** The loop over the TTLs, of which [n] are left. *)
Fixpoint hops (n : nat) (ttl : Z) (s : state) : state + stop :=
  match n with
  | O => inl s
  | S n' =>
      if negb (done s =? 0) then inl s
      else if negb (ttl_ok ttl) then inr Error
      else match probes (Z.to_nat nprobes) ttl (Sa_other 0) [] s with
           | inr e => inr e
           | inl (s', lines) =>
               hops n' (ttl + 1) (State (seq s') (done s') (recvbuf s') (sarecv s') (events s') (sent s')
                                    (printed s' ++ [(ttl, lines)]))
           end
  end.

Definition traceloop (buf : list Z) (evs : list event) : state + stop :=
  hops (Z.to_nat max_ttl) 1 (State 0 0 buf (Sa_other 0) evs [] []).
End Trace.

(** ** The packets a receiver looks for *)

(** The length the first byte of an IP header gives. *)
Definition ip_len (l : list Z) : nat := Z.to_nat (4 * (hd 0 l mod 16)).

(** A datagram with an ICMP error of the given type and code that quotes [q]. *)
Definition icmp_error4 (ty code : Z) (q d : list Z) : Prop :=
  exists ip mid, d = ip ++ [ty; code] ++ mid ++ q /\ length ip = ip_len d /\ length mid = 6%nat.

(** The start of a UDP packet over IPv4 with the given ports. *)
Definition quotes4 (sp dp : Z) (q : list Z) : Prop :=
  exists ip rest, q = ip ++ net16 sp ++ net16 dp ++ rest /\ length ip = ip_len q /\
    (20 <= length q)%nat /\ nth 9 q 0 = IPPROTO_UDP.

(** The datagram answers probe [seq], and what the receiver is to return for it. *)
Definition answers4 (sport dport seq : Z) (d : list Z) (ret : Z) : Prop :=
  exists ty code q, icmp_error4 ty code q d /\ quotes4 sport (u16 (dport + seq)) q /\
    ((ty = ICMP_TIMXCEED /\ code = ICMP_TIMXCEED_INTRANS /\ ret = -2) \/
     (ty = ICMP_UNREACH /\ ret = if code =? ICMP_UNREACH_PORT then -1 else code)).

(** The same for IPv6, where the datagram starts with the ICMP header and the IP header
    quoted has 40 bytes. *)
Definition icmp_error6 (ty code : Z) (q d : list Z) : Prop :=
  exists mid, d = [ty; code] ++ mid ++ q /\ length mid = 6%nat.

Definition quotes6 (sp dp : Z) (q : list Z) : Prop :=
  exists ip rest, q = ip ++ net16 sp ++ net16 dp ++ rest /\ length ip = 40%nat /\ nth 6 q 0 = IPPROTO_UDP.

Definition answers6 (sport dport seq : Z) (d : list Z) (ret : Z) : Prop :=
  exists ty code q, icmp_error6 ty code q d /\ quotes6 sport (u16 (dport + seq)) q /\
    ((ty = ICMP6_TIME_EXCEEDED /\ code = ICMP6_TIME_EXCEED_TRANSIT /\ ret = -2) \/
     (ty = ICMP6_DST_UNREACH /\ ret = if code =? ICMP6_DST_UNREACH_NOPORT then -1 else code)).

(** A time exceeded in transit that quotes enough, but not this probe. *)
Definition stray6 (sport dport seq : Z) (d : list Z) : Prop :=
  exists q, icmp_error6 ICMP6_TIME_EXCEEDED ICMP6_TIME_EXCEED_TRANSIT q d /\ (44 <= length q)%nat /\
    ~ quotes6 sport (u16 (dport + seq)) q.

(** *** Loads *)

Lemma land_15 b : Z.land b 15 = b mod 16.
Proof. change 15 with (Z.ones 4). by rewrite Z.land_ones by lia. Qed.

Lemma ip_len_eq l : Z.of_nat (ip_len l) = 4 * (hd 0 l mod 16).
Proof. unfold ip_len. pose proof (Z.mod_pos_bound (hd 0 l) 16). lia. Qed.

(** The length of an IP header behind the first [k] bytes. *)
Lemma hlen_behind (buf d : list Z) k : (k < length d)%nat ->
  hlen (memcpy_into buf d) (Z.of_nat k) = Some (Z.of_nat (ip_len (drop k d))).
Proof.
  intros H. unfold hlen. pose proof (rd_behind buf d k 0) as Hr. rewrite Z.add_0_r in Hr.
  rewrite Hr by (rewrite length_drop; lia). simpl.
  rewrite land_15, ip_len_eq, hd_nth, Z.shiftl_mul_pow2 by lia. change (2 ^ 2) with 4. change (Z.to_nat 0) with 0%nat. f_equal. lia.
Qed.

(** Two bytes of a port. *)
Lemma port_bytes b0 b1 p : byte b0 -> byte b1 -> 0 <= p < 2 ^ 16 ->
  (b0 + 256 * b1 =? ntohs p) = true <-> [b0; b1] = net16 p.
Proof.
  unfold byte. intros H0 H1 Hp. rewrite Z.eqb_eq, ntohs_eq. unfold net16, store16.
  assert (Hd : 0 <= p / 256 < 256) by (split; [apply Z.div_pos|apply Z.div_lt_upper_bound]; lia).
  rewrite (Z.mod_small (p / 256)) by lia. pose proof (Z.mod_pos_bound p 256).
  split; [intros E; assert (b0 = p / 256 /\ b1 = p mod 256) as [-> ->]; [lia|done]|intros [= -> ->]; lia].
Qed.

Lemma nth_middle4 (ip : list Z) a b c e rest :
  let l := ip ++ [a; b] ++ [c; e] ++ rest in let k := length ip in
  nth k l 0 = a /\ nth (S k) l 0 = b /\ nth (S (S k)) l 0 = c /\ nth (S (S (S k))) l 0 = e /\ (k + 4 <= length l)%nat.
Proof. induction ip as [|x ip IH]; simpl; [split_and!; done || lia|]. simpl in IH. destruct IH as (?&?&?&?&?). split_and!; done || lia. Qed.

(** Quoting the ports, by offsets. *)
Lemma quotes_at (q : list Z) uo sp dp : (exists ip rest, q = ip ++ net16 sp ++ net16 dp ++ rest /\ length ip = uo) <->
  (uo + 4 <= length q)%nat /\ [nth uo q 0; nth (S uo) q 0] = net16 sp /\
  [nth (S (S uo)) q 0; nth (S (S (S uo))) q 0] = net16 dp.
Proof.
  split.
  - intros (ip & rest & -> & <-). unfold net16, store16.
    destruct (nth_middle4 ip (sp / 256) (sp mod 256) (dp / 256) (dp mod 256) rest) as (-> & -> & -> & -> & ?). done.
  - intros (Hl & H1 & H2). exists (take uo q), (drop (uo + 4) q). split; [|rewrite length_take; lia].
    rewrite <- H1, <- H2. by apply split_four.
Qed.

Section Classify.
Variables sport dport : Z.
Hypothesis sport_ok : 0 <= sport < 2 ^ 16.
Variables buf d : list Z.
Hypothesis buf_len : length buf = BUFSIZE.
Hypothesis d_bytes : Forall byte d.

Lemma nth_byte k i : byte (nth i (drop k d) 0).
Proof.
  rewrite nth_lookup, lookup_drop. destruct (d !! (k + i)%nat) eqn:E; simpl; [|unfold byte; lia].
  by eapply Forall_lookup_1.
Qed.

(** What the test of the ports finds in the bytes quoted from the [k]th on. *)
Lemma probe_ports_behind k pp uo sq : (pp < length (drop k d))%nat -> (uo + 4 <= length (drop k d))%nat ->
  exists b, probe_ports sport dport (memcpy_into buf d) (Z.of_nat k + Z.of_nat pp) (Z.of_nat k + Z.of_nat uo) sq = Some b /\
    (b = true <-> nth pp (drop k d) 0 = IPPROTO_UDP /\
       [nth uo (drop k d) 0; nth (S uo) (drop k d) 0] = net16 sport /\
       [nth (S (S uo)) (drop k d) 0; nth (S (S (S uo))) (drop k d) 0] = net16 (u16 (dport + sq))).
Proof.
  intros Hp Hu. unfold probe_ports. rewrite rd_behind by lia. rewrite Nat2Z.id. simpl.
  destruct (Z.eqb_spec (nth pp (drop k d) 0) IPPROTO_UDP) as [Ep|Ep]; simpl; [|eexists; split; [done|split; [done|tauto] ] ].
  rewrite rd16_behind by lia. simpl.
  pose proof (port_bytes _ _ sport (nth_byte k uo) (nth_byte k (S uo)) sport_ok) as H1.
  destruct (_ =? ntohs sport); simpl.
  - replace (Z.of_nat k + Z.of_nat uo + 2) with (Z.of_nat k + Z.of_nat (S (S uo))) by lia.
    rewrite rd16_behind by lia. simpl. eexists. split; [done|].
    rewrite port_bytes by (apply nth_byte || apply u16_range). tauto.
  - eexists. split; [done|]. split; [done|]. intros (_ & H & _). by apply H1 in H.
Qed.

(** [quoted_v4] decides whether the bytes behind the ICMP header quote the probe. *)
Lemma quoted_v4_spec k sq : (k + 8 <= length d)%nat ->
  exists b, quoted_v4 sport dport (memcpy_into buf d) (Z.of_nat k) (Z.of_nat (length d - k)) sq = Some b /\
    (b = true <-> quotes4 sport (u16 (dport + sq)) (drop (k + 8) d)).
Proof.
  intros Hk. unfold quoted_v4, sizeof_ip_hdr. set (q := drop (k + 8) d).
  assert (Hq : length q = (length d - k - 8)%nat) by (unfold q; rewrite length_drop; lia).
  destruct (Z.ltb_spec (Z.of_nat (length d - k)) (8 + 20)) as [H|H].
  { eexists. split; [done|]. split; [done|]. intros (ip & rest & _ & _ & H20 & _). lia. }
  replace (Z.of_nat k + 8) with (Z.of_nat (k + 8)) by lia. rewrite hlen_behind by lia. fold q. simpl.
  destruct (Z.ltb_spec (Z.of_nat (length d - k)) (8 + Z.of_nat (ip_len q) + 4)) as [Hs|Hs].
  { eexists. split; [done|]. split; [done|]. intros (ip & rest & E & El & _).
    apply (f_equal length) in E. rewrite !length_app in E. simpl in E. lia. }
  change (Z.of_nat (k + 8) + 9) with (Z.of_nat (k + 8) + Z.of_nat 9).
  destruct (probe_ports_behind (k + 8) 9 (ip_len q) sq) as (b & -> & Hb); [fold q; lia..|]. fold q in Hb.
  exists b. split; [done|]. rewrite Hb. unfold quotes4. split.
  - intros (Hp & Hports). assert (Hq' : (ip_len q + 4 <= length q)%nat) by lia.
    destruct (proj2 (quotes_at q (ip_len q) sport (u16 (dport + sq))) (conj Hq' Hports)) as (ip & rest & E & El).
    exists ip, rest. split_and!; [done..|lia|done].
  - intros (ip & rest & E & El & _ & Hp). split; [done|]. apply quotes_at. by exists ip, rest.
Qed.
End Classify.

(** An ICMP error behind [k] bytes, by offsets. *)
Lemma icmp_at k ty code q (d : list Z) :
  (exists ip mid, d = ip ++ [ty; code] ++ mid ++ q /\ length ip = k /\ length mid = 6%nat) <->
  (k + 8 <= length d)%nat /\ nth k d 0 = ty /\ nth (S k) d 0 = code /\ q = drop (k + 8) d.
Proof.
  split.
  - intros (ip & mid & -> & <- & Hm). do 6 (destruct mid as [|? mid]; [done|]). destruct mid; [|done].
    rewrite !length_app. simpl. split_and!; [lia|..].
    + by rewrite nth_lookup, list_lookup_middle.
    + by rewrite nth_lookup, lookup_app_r, Nat.sub_succ_l, Nat.sub_diag by lia.
    + by rewrite drop_app_add.
  - intros (Hl & <- & <- & ->). exists (take k d), (take 6 (drop (k + 2) d)).
    split_and!; [|rewrite length_take; lia|rewrite length_take, length_drop; lia].
    rewrite <- (take_drop k d) at 1. f_equal.
    replace (nth k d 0) with (nth 0 (drop k d) 0) by (rewrite nth_drop; f_equal; lia).
    replace (nth (S k) d 0) with (nth 1 (drop k d) 0) by (rewrite nth_drop; f_equal; lia).
    rewrite <- !drop_drop. assert (H8 : (8 <= length (drop k d))%nat) by (rewrite length_drop; lia).
    destruct (drop k d) as [|a [|b l] ]; [simpl in H8; lia..|]. simpl. do 2 f_equal.
    rewrite <- (take_drop 6 l) at 1. done.
Qed.

Lemma icmp_error4_at ty code q d : icmp_error4 ty code q d <->
  (ip_len d + 8 <= length d)%nat /\ nth (ip_len d) d 0 = ty /\ nth (S (ip_len d)) d 0 = code /\ q = drop (ip_len d + 8) d.
Proof. exact (icmp_at (ip_len d) ty code q d). Qed.

Lemma icmp_error6_at ty code q d : icmp_error6 ty code q d <->
  (8 <= length d)%nat /\ nth 0 d 0 = ty /\ nth 1 d 0 = code /\ q = drop 8 d.
Proof.
  rewrite <- (icmp_at 0 ty code q d). split.
  - intros (mid & E & Hm). by exists [], mid.
  - intros (ip & mid & E & Hi & Hm). destruct ip; [|done]. by exists mid.
Qed.

Section Turns.
Variables sport dport : Z.
Hypothesis sport_ok : 0 <= sport < 2 ^ 16.
Variables buf d : list Z.
Hypothesis buf_len : length buf = BUFSIZE.
Hypothesis d_bytes : Forall byte d.

(** The first byte may be a stale one, when the datagram is empty. *)
Lemma hlen_first : exists h, hlen (memcpy_into buf d) 0 = Some h /\ 0 <= h /\ (d <> [] -> h = Z.of_nat (ip_len d)).
Proof.
  destruct (decide (d = [])) as [->|Hne].
  - destruct (rd_stale buf []) as [b Hb]; [rewrite buf_len; unfold BUFSIZE; lia|]. unfold hlen. rewrite Hb.
    eexists. split; [done|]. split; [|done]. rewrite land_15, Z.shiftl_mul_pow2 by lia.
    pose proof (Z.mod_pos_bound b 16). change (2 ^ 2) with 4. lia.
  - assert (Hl : (0 < length d)%nat) by (destruct d; [done|simpl; lia]).
    exists (Z.of_nat (ip_len d)). split; [exact (hlen_behind buf d 0 Hl)|]. split; [lia|done].
Qed.

(** Neither sort of error. *)
Lemma next_spec (P : Z -> Prop) : (forall ret, ~ P ret) ->
  exists v, Some Next = Some v /\ v <> Break None /\ (forall ret, v = Break (Some ret) <-> P ret).
Proof. intros HP. exists Next. split; [done|]. split; [done|]. intros ret. split; [done|]. by intros H%HP. Qed.

Lemma break_spec (P : Z -> Prop) r : (forall ret, P ret <-> ret = r) ->
  exists v, Some (Break (Some r)) = Some v /\ v <> Break None /\ (forall ret, v = Break (Some ret) <-> P ret).
Proof. intros HP. eexists. split; [done|]. split; [done|]. intros ret. rewrite HP. split; [by intros [= ->]|by intros ->]. Qed.

Lemma turn_v4_spec sq : exists v, turn_v4 sport dport (memcpy_into buf d) (Z.of_nat (length d)) sq = Some v /\
  v <> Break None /\ (forall ret, v = Break (Some ret) <-> answers4 sport dport sq d ret).
Proof.
  unfold turn_v4. destruct hlen_first as (h & -> & H0 & Hh). simpl.
  destruct (Z.ltb_spec (Z.of_nat (length d) - h) 8) as [H8|H8].
  { apply next_spec. intros ret (ty & code & q & [Hl _]%icmp_error4_at & _).
    assert (d <> []) as Hd%Hh by (by intros ->; simpl in Hl; lia). lia. }
  assert (d <> []) as ->%Hh by (intros ->; simpl in H8; lia). set (k := ip_len d) in *.
  replace (Z.of_nat k + 1) with (Z.of_nat (S k)) by lia.
  rewrite (rd_in buf d (Z.of_nat k)), (rd_in buf d (Z.of_nat (S k))), !Nat2Z.id by lia. simpl.
  replace (Z.of_nat (length d) - Z.of_nat k) with (Z.of_nat (length d - k)) by lia.
  destruct (quoted_v4_spec sport dport sport_ok buf d buf_len d_bytes k sq) as (b & -> & Hb); [lia|].
  simpl.
  assert (Hans : forall ret, answers4 sport dport sq d ret <-> b = true /\
    ((nth k d 0 = ICMP_TIMXCEED /\ nth (S k) d 0 = ICMP_TIMXCEED_INTRANS /\ ret = -2) \/
     (nth k d 0 = ICMP_UNREACH /\ ret = if nth (S k) d 0 =? ICMP_UNREACH_PORT then -1 else nth (S k) d 0))).
  { intros ret. rewrite Hb. split.
    - intros (ty & code & q & (_ & <- & <- & ->)%icmp_error4_at & Hq & H). done.
    - intros (Hq & H). exists (nth k d 0), (nth (S k) d 0), (drop (k + 8) d). split_and!; [|done..].
      apply icmp_error4_at. split_and!; [fold k; lia|done..]. }
  destruct (Z.eqb_spec (nth k d 0) ICMP_TIMXCEED) as [Et|Et]; simpl;
    [destruct (Z.eqb_spec (nth (S k) d 0) ICMP_TIMXCEED_INTRANS) as [Ec|Ec]; simpl|].
  - destruct b; [apply break_spec|apply next_spec]; intros ret; rewrite Hans, Et; unfold ICMP_TIMXCEED, ICMP_UNREACH; intuition congruence.
  - rewrite Et. apply next_spec. intros ret. rewrite Hans, Et. unfold ICMP_TIMXCEED, ICMP_UNREACH. intuition congruence.
  - destruct (Z.eqb_spec (nth k d 0) ICMP_UNREACH) as [Eu|Eu]; [|apply next_spec; intros ret; rewrite Hans; intuition congruence].
    destruct b; simpl; [apply break_spec|apply next_spec]; intros ret; rewrite Hans, Eu; unfold ICMP_TIMXCEED, ICMP_UNREACH; intuition congruence.
Qed.

Lemma quotes6_at (q : list Z) sp dp : quotes6 sp dp q <->
  (44 <= length q)%nat /\ nth 6 q 0 = IPPROTO_UDP /\ [nth 40 q 0; nth 41 q 0] = net16 sp /\ [nth 42 q 0; nth 43 q 0] = net16 dp.
Proof.
  pose proof (quotes_at q 40 sp dp) as H. unfold quotes6. split.
  - intros (ip & rest & E & Hl & Hn). destruct (proj1 H) as (? & ? & ?); [by exists ip, rest|]. split_and!; done.
  - intros (Hl & Hn & H1 & H2). destruct (proj2 H) as (ip & rest & E & Hi); [split_and!; done|]. by exists ip, rest.
Qed.

(** Both branches of [recv_v6] on a datagram that is long enough. *)
Lemma turn_v6_spec sq : exists v, turn_v6 sport dport (memcpy_into buf d) (Z.of_nat (length d)) sq = Some v /\
  (v = Break None <-> stray6 sport dport sq d) /\ (forall ret, v = Break (Some ret) <-> answers6 sport dport sq d ret).
Proof.
  unfold turn_v6, sizeof_ip6_hdr.
  assert (Hlong : forall ret, answers6 sport dport sq d ret -> (52 <= length d)%nat).
  { intros ret (ty & code & q & (Hl & _ & _ & ->)%icmp_error6_at & (Hq & _)%quotes6_at & _). rewrite length_drop in Hq. lia. }
  assert (Hstray : stray6 sport dport sq d -> (52 <= length d)%nat).
  { intros (q & (Hl & _ & _ & ->)%icmp_error6_at & Hq & _). rewrite length_drop in Hq. lia. }
  assert (Hno : (length d < 52)%nat -> exists v, Some Next = Some v /\ (v = Break None <-> stray6 sport dport sq d) /\
    (forall ret, v = Break (Some ret) <-> answers6 sport dport sq d ret)).
  { intros Hs. exists Next. split; [done|]. split; [|intros ret]; (split; [done|]); [intros H%Hstray|intros H%Hlong]; lia. }
  destruct (Z.ltb_spec (Z.of_nat (length d)) 8) as [H8|H8]; [apply Hno; lia|].
  rewrite !rd_in by lia. simpl. change (Z.to_nat 1) with 1%nat. change (Z.to_nat 0) with 0%nat. change (8 + 40 + 4) with 52.
  destruct (Z.ltb_spec (Z.of_nat (length d)) 52) as [H52|H52].
  { destruct Hno as (v & [= <-] & Hv); [lia|]. exists Next. split; [|done].
    destruct (nth 0 d 0 =? ICMP6_TIME_EXCEEDED); destruct (nth 1 d 0 =? ICMP6_TIME_EXCEED_TRANSIT), (nth 0 d 0 =? ICMP6_DST_UNREACH); done. }
  destruct (probe_ports_behind sport dport sport_ok buf d buf_len d_bytes 8 6 40 sq) as (b & Hpp & Hb); [rewrite length_drop; lia..|].
  change (8 + 6) with (Z.of_nat 8 + Z.of_nat 6). change (8 + 40) with (Z.of_nat 8 + Z.of_nat 40). rewrite Hpp. simpl.
  assert (Hb' : b = true <-> quotes6 sport (u16 (dport + sq)) (drop 8 d)).
  { rewrite Hb, quotes6_at, length_drop. intuition lia. }
  assert (Hans : forall ret, answers6 sport dport sq d ret <-> b = true /\
    ((nth 0 d 0 = ICMP6_TIME_EXCEEDED /\ nth 1 d 0 = ICMP6_TIME_EXCEED_TRANSIT /\ ret = -2) \/
     (nth 0 d 0 = ICMP6_DST_UNREACH /\ ret = if nth 1 d 0 =? ICMP6_DST_UNREACH_NOPORT then -1 else nth 1 d 0))).
  { intros ret. rewrite Hb'. split.
    - intros (ty & code & q & (_ & <- & <- & ->)%icmp_error6_at & Hq & H). done.
    - intros (Hq & H). exists (nth 0 d 0), (nth 1 d 0), (drop 8 d). split_and!; [apply icmp_error6_at; split_and!; [lia|done..]|done..]. }
  assert (Hst : stray6 sport dport sq d <-> b = false /\ nth 0 d 0 = ICMP6_TIME_EXCEEDED /\ nth 1 d 0 = ICMP6_TIME_EXCEED_TRANSIT).
  { split.
    - intros (q & (_ & H1 & H2 & ->)%icmp_error6_at & _ & Hq). rewrite <- Hb' in Hq. by destruct b.
    - intros (-> & H1 & H2). exists (drop 8 d). split_and!; [apply icmp_error6_at; split_and!; [lia|done..]|rewrite length_drop; lia|].
      by rewrite <- Hb'. }
  clear Hlong Hstray Hno Hpp Hb Hb'.
  destruct (Z.eqb_spec (nth 0 d 0) ICMP6_TIME_EXCEEDED) as [Et|Et]; simpl;
    [destruct (Z.eqb_spec (nth 1 d 0) ICMP6_TIME_EXCEED_TRANSIT) as [Ec|Ec]; simpl|];
    [|rewrite Et; simpl|destruct (Z.eqb_spec (nth 0 d 0) ICMP6_DST_UNREACH) as [Eu|Eu]; simpl];
    destruct b; simpl; (eexists; split; [done|]; split; [rewrite Hst|intros ret; rewrite Hans]);
    rewrite ?Et, ?Ec, ?Eu; unfold ICMP6_TIME_EXCEEDED, ICMP6_DST_UNREACH; intuition congruence.
Qed.
End Turns.

(** ** Receiving: what the loop makes of the events *)

Definition event_ok (e : event) : Prop := match e with Datagram _ _ b _ => Forall byte b | _ => True end.

Lemma store_length (buf b : list Z) : length buf = BUFSIZE -> length (memcpy_into buf (take BUFSIZE b)) = BUFSIZE.
Proof. intros H. unfold memcpy_into. rewrite length_app, length_drop, !length_take. lia. Qed.

Section Loop.
Variables sport dport : Z.
Hypothesis sport_ok : 0 <= sport < 2 ^ 16.
Variable sq : Z.

Definition answer (b : list Z) (ret : Z) : Prop := answers4 sport dport sq (take BUFSIZE b) ret.

(** A datagram that is no answer, and no alarm. *)
Definition junk (e : event) : Prop :=
  match e with Datagram _ _ b alarmed => alarmed = false /\ Forall byte b /\ forall ret, ~ answer b ret | _ => False end.

Lemma turn_v4_stored (buf b : list Z) : length buf = BUFSIZE -> Forall byte b ->
  let d := take BUFSIZE b in
  exists v, turn_v4 sport dport (memcpy_into buf d) (Z.of_nat (length d)) sq = Some v /\
    v <> Break None /\ (forall ret, v = Break (Some ret) <-> answer b ret).
Proof. intros Hb Hd d. apply turn_v4_spec; [done..|]. by apply Forall_take. Qed.

(** The loop skips what is no answer. *)
Lemma recv_junk pre evs : Forall junk pre -> forall (buf : list Z) sa, length buf = BUFSIZE ->
  exists (buf' : list Z) sa', length buf' = BUFSIZE /\ recv_v4 sport dport sq buf sa (pre ++ evs) = recv_v4 sport dport sq buf' sa' evs.
Proof.
  induction 1 as [|e pre He _ IH]; intros buf sa Hb; [by exists buf, sa|].
  destruct e as [from now b alarmed| |]; [|done..]. destruct He as (-> & Hd & Hj).
  destruct (turn_v4_stored buf b Hb Hd) as (v & E & Hv & Ha).
  destruct (IH (memcpy_into buf (take BUFSIZE b)) from (store_length buf b Hb)) as (buf' & sa' & Hb' & E').
  exists buf', sa'. split; [done|]. rewrite <- E'. unfold recv_v4. simpl. rewrite E.
  destruct v as [[ret|]|]; [|done..]. by destruct (Hj ret); apply Ha.
Qed.

(** It returns at the first answer, with its sender and time. *)
Lemma recv_answer (buf : list Z) sa from now b alarmed ret evs : length buf = BUFSIZE -> Forall byte b -> answer b ret ->
  exists (buf' : list Z), length buf' = BUFSIZE /\
    recv_v4 sport dport sq buf sa (Datagram from now b alarmed :: evs) = Returns (Some ret) buf' from (Some now) evs.
Proof.
  intros Hb Hd Ha. destruct (turn_v4_stored buf b Hb Hd) as (v & E & Hv & Hr). apply Hr in Ha as ->.
  eexists. split; [by apply (store_length buf b)|]. unfold recv_v4. simpl. by rewrite E.
Qed.

(** It gives up when the alarm interrupts it, or comes with a datagram that is no answer. *)
Lemma recv_alarm (buf : list Z) sa e evs : length buf = BUFSIZE ->
  match e with Interrupted => True | Datagram _ _ b al => al = true /\ Forall byte b /\ (forall ret, ~ answer b ret) | Recv_error => False end ->
  exists (buf' : list Z) sa', length buf' = BUFSIZE /\ recv_v4 sport dport sq buf sa (e :: evs) = Returns (Some (-3)) buf' sa' None evs.
Proof.
  intros Hb He. destruct e as [from now b al| |]; [|exists buf, sa; split; [done|by destruct evs]|done]. destruct He as (-> & Hd & Hj).
  destruct (turn_v4_stored buf b Hb Hd) as (v & E & Hv & Ha).
  eexists _, _. split; [by apply (store_length buf b)|]. unfold recv_v4. simpl. rewrite E.
  destruct v as [[ret|]|]; [by destruct (Hj ret); apply Ha|done|]. by destruct evs.
Qed.

(** Whatever the events are: the buffer is not left, a value is always assigned. *)
Lemma recv_v4_total evs : Forall event_ok evs -> forall gotalarm (buf : list Z) sa, length buf = BUFSIZE ->
  match recv_loop (turn_v4 sport dport) sq gotalarm buf sa evs with
  | Returns ret buf' _ _ rest => ret <> None /\ length buf' = BUFSIZE /\ Forall event_ok rest
  | Out_of_buffer => False
  | Blocks | Err_sys => True
  end.
Proof.
  induction 1 as [|e evs He Hevs IH]; intros gotalarm buf sa Hb; simpl.
  - destruct gotalarm; [|done]. by split_and!.
  - destruct gotalarm; [by split_and!; [|done|constructor]|].
    destruct e as [from now b al| |]; [|by apply IH|done].
    destruct (turn_v4_stored buf b Hb He) as (v & -> & Hv & _).
    destruct v as [[ret|]|]; [|done|by apply IH, store_length].
    split_and!; [done|by apply store_length|done].
Qed.
End Loop.

(** ** [traceloop] *)

Section Trace4.
Variables sport dport : Z.
Hypothesis sport_ok : 0 <= sport < 2 ^ 16.
Variables max_ttl nprobes : Z.
Variable send_time : Z -> timeval.
Variable ttl_ok : Z -> bool.

Definition trace_v4 : list Z -> list event -> state + stop :=
  traceloop (recv_v4 sport dport) icmpcode_v4 dport max_ttl nprobes send_time ttl_ok.

(** Probe number [k], sent with the given TTL. *)
Definition probe_k (ttl k : Z) : probe := Probe ttl (u16 (dport + k)) (u16 k) (u16 ttl) (send_time k).

Lemma probes_total n ttl : forall salast lines s, Forall event_ok (events s) -> length (recvbuf s) = BUFSIZE ->
  match probes (recv_v4 sport dport) icmpcode_v4 dport send_time n ttl salast lines s with
  | inl (s', lines') =>
      seq s' = seq s + Z.of_nat n /\ sent s' = sent s ++ map (probe_k ttl) (seqZ (seq s + 1) (Z.of_nat n)) /\
      length lines' = (length lines + n)%nat /\ printed s' = printed s /\
      Forall event_ok (events s') /\ length (recvbuf s') = BUFSIZE
  | inr e => e = Blocked \/ e = Error
  end.
Proof.
  induction n as [|n IH]; intros salast lines s Hev Hb; simpl.
  { rewrite app_nil_r. split_and!; try done; lia. }
  unfold probe_one. pose proof (recv_v4_total sport dport sport_ok (seq s + 1) (events s) Hev false (recvbuf s) (sarecv s) Hb) as Hr.
  change (recv_loop (turn_v4 sport dport) (seq s + 1) false (recvbuf s) (sarecv s) (events s))
    with (recv_v4 sport dport (seq s + 1) (recvbuf s) (sarecv s) (events s)) in Hr.
  destruct (recv_v4 _ _ _ _ _ _) as [[code|] buf from tv rest| | |]; [|tauto|by left|by right|done].
  destruct Hr as (_ & Hb' & Hrest).
  assert (Hgo : forall d salast lines', length lines' = S (length lines) ->
    match probes (recv_v4 sport dport) icmpcode_v4 dport send_time n ttl salast lines'
            (State (seq s + 1) d buf from rest (sent s ++ [probe_k ttl (seq s + 1)]) (printed s)) with
    | inl (s', lines') =>
        seq s' = seq s + Z.of_nat (S n) /\ sent s' = sent s ++ map (probe_k ttl) (seqZ (seq s + 1) (Z.of_nat (S n))) /\
        length lines' = (length lines + S n)%nat /\ printed s' = printed s /\
        Forall event_ok (events s') /\ length (recvbuf s') = BUFSIZE
    | inr e => e = Blocked \/ e = Error
    end).
  { intros d salast' lines' Hl. specialize (IH salast' lines'
      (State (seq s + 1) d buf from rest (sent s ++ [probe_k ttl (seq s + 1)]) (printed s)) Hrest Hb').
    destruct (probes _ _ _ _ _ _ _ _ _) as [[s' l']|e]; [|done]. destruct IH as (H1 & H2 & H3 & H4 & H5). simpl in *.
    split_and!; [lia| |lia|done|apply H5..]. rewrite H2, <- app_assoc. f_equal.
    rewrite (seqZ_cons (seq s + 1)) by lia. simpl. do 3 f_equal; lia. }
  destruct (code =? -3); apply Hgo; rewrite length_app; simpl; lia.
Qed.

(** The TTL of probe number [k]. *)
Definition ttl_of (k : Z) : Z := 1 + (k - 1) / nprobes.

Lemma probe_k_ttl ttl n : 0 <= n <= nprobes ->
  map (probe_k ttl) (seqZ ((ttl - 1) * nprobes + 1) n) =
  map (fun k => probe_k (ttl_of k) k) (seqZ ((ttl - 1) * nprobes + 1) n).
Proof.
  intros Hn. apply map_ext_in. intros k Hk. apply list_elem_of_In, elem_of_seqZ in Hk. f_equal.
  unfold ttl_of. assert ((k - 1) / nprobes = ttl - 1); [|lia].
  symmetry. apply (Z.div_unique _ _ _ (k - 1 - nprobes * (ttl - 1))); nia.
Qed.

(** What holds before the turn for [ttl]. *)
Record traced (ttl : Z) (s : state) : Prop := {
  t_seq : seq s = (ttl - 1) * nprobes;
  t_sent : sent s = map (fun k => probe_k (ttl_of k) k) (seqZ 1 (seq s));
  t_printed : map fst (printed s) = seqZ 1 (ttl - 1);
  t_lines : Forall (fun p => length p.2 = Z.to_nat nprobes) (printed s);
  t_events : Forall event_ok (events s);
  t_buf : length (recvbuf s) = BUFSIZE }.

Lemma hops_total n : 0 <= nprobes -> forall ttl s, 1 <= ttl -> traced ttl s ->
  match hops (recv_v4 sport dport) icmpcode_v4 dport nprobes send_time ttl_ok n ttl s with
  | inl s' => exists ttl', ttl <= ttl' <= ttl + Z.of_nat n /\ traced ttl' s' /\ (done s' <> 0 \/ ttl' = ttl + Z.of_nat n)
  | inr e => e = Blocked \/ e = Error
  end.
Proof.
  intros Hnp. induction n as [|n IH]; intros ttl s Ht HI; simpl.
  { exists ttl. split_and!; [lia..|done|right; lia]. }
  destruct (Z.eqb_spec (done s) 0) as [Ed|Ed]; simpl; [|exists ttl; split_and!; [lia..|done|by left] ].
  destruct (ttl_ok ttl); simpl; [|by right].
  pose proof (probes_total (Z.to_nat nprobes) ttl (Sa_other 0) [] s (t_events _ _ HI) (t_buf _ _ HI)) as Hp.
  destruct (probes _ _ _ _ _ _ _ _ _) as [[s' lines]|e]; [|done]. destruct Hp as (H1 & H2 & H3 & H4 & H5 & H6).
  destruct HI as [I1 I2 I3 I4 _ _]. rewrite Z2Nat.id in * by done.
  match goal with |- match hops _ _ _ _ _ _ _ _ ?st with _ => _ end => assert (HI' : traced (ttl + 1) st) end.
  { constructor; simpl; [nia| | | |done|done].
    - rewrite H2, I2, I1, probe_k_ttl by lia. rewrite H1, I1, seqZ_app, map_app by nia. do 3 f_equal. lia.
    - rewrite H4, map_app, I3. replace (ttl + 1 - 1) with (ttl - 1 + 1) by lia. rewrite seqZ_app by lia.
      f_equal. rewrite seqZ_cons by lia. simpl. f_equal. lia.
    - rewrite H4. apply Forall_app. split; [done|]. by repeat constructor. }
  specialize (IH (ttl + 1) _ ltac:(lia) HI'). destruct (hops _ _ _ _ _ _ _ _ _) as [s''|e]; [|done].
  destruct IH as (t' & Hr & Ht' & Hd). exists t'. split_and!; [lia..|done|]. destruct Hd; [by left|right; lia].
Qed.
End Trace4.

(** whatever arrives (datagrams of any content, late answers, alarms at any time),
    [traceloop] over IPv4 never reads outside its buffer and never uses a value that
    was not assigned; when it returns it has sent probes 1, 2, ... in order,
    [nprobes] of each TTL from 1 on, printed one line per TTL and one entry per
    probe, and it has stopped because the destination answered or the last TTL was
    reached; otherwise it waits for a datagram, or a system call has failed. *)
Theorem traceroute_bounded sport dport max_ttl nprobes send_time ttl_ok (buf : list Z) (evs : list event) :
  0 <= sport < 2 ^ 16 -> 0 <= nprobes -> length buf = BUFSIZE -> Forall event_ok evs ->
  match trace_v4 sport dport max_ttl nprobes send_time ttl_ok buf evs with
  | inl s => exists h, 0 <= h <= Z.max 0 max_ttl /\
      sent s = map (fun k => probe_k dport send_time (1 + (k - 1) / nprobes) k) (seqZ 1 (h * nprobes)) /\
      map fst (printed s) = seqZ 1 h /\ Forall (fun p => length p.2 = Z.to_nat nprobes) (printed s) /\
      (done s <> 0 \/ h = Z.max 0 max_ttl)
  | inr e => e = Blocked \/ e = Error
  end.
Proof.
  intros Hs Hn Hb He. unfold trace_v4, traceloop.
  pose proof (hops_total sport dport Hs nprobes send_time ttl_ok (Z.to_nat max_ttl) Hn 1 (State 0 0 buf (Sa_other 0) evs [] [])) as H.
  destruct (hops _ _ _ _ _ _ _ _ _) as [s|e]; [|apply H; [lia|by constructor] ].
  destruct H as (t & Ht & [H1 H2 H3 H4 _ _] & Hd); [lia|by constructor|].
  exists (t - 1). rewrite H1 in H2. split_and!; [lia..|done|done|done|]. destruct Hd; [by left|right; lia].
Qed.

(** *** A network *)

(** What becomes of a probe: no answer within the time, or one, from [from], for which
    the receiver is to return [ret]. *)
Inductive fate := Lost | Answered (from : SA) (now : timeval) (ret : Z).

Section Network.
Variables sport dport : Z.

(** The events of one probe: datagrams that are no answer to it, then its fate. *)
Definition script (sq : Z) (f : fate) (evs : list event) : Prop :=
  exists pre e, evs = pre ++ [e] /\ Forall (junk sport dport sq) pre /\
    match f, e with
    | Lost, Interrupted => True
    | Lost, Datagram _ _ b al => al = true /\ Forall byte b /\ (forall ret, ~ answer sport dport sq b ret)
    | Answered from now ret, Datagram from' now' b _ => from' = from /\ now' = now /\ Forall byte b /\ answer sport dport sq b ret
    | _, _ => False
    end.

(** The events of the probes after [sq]. *)
Inductive scripts : Z -> list fate -> list event -> Prop :=
| scripts_nil sq : scripts sq [] []
| scripts_cons sq f fs e es : script (sq + 1) f e -> scripts (sq + 1) fs es -> scripts sq (f :: fs) (e ++ es).

Variable send_time : Z -> timeval.

(** What is to be printed for the probes after [sq] of one TTL; the address once. *)
Fixpoint expected (sq : Z) (shown : bool) (fs : list fate) : list line :=
  match fs with
  | [] => []
  | Lost :: fs => Star :: expected (sq + 1) shown fs
  | Answered from now ret :: fs =>
      Reply (if shown then None else Some from) (tv_sub now (send_time (sq + 1)))
        (if ret >=? 0 then Some (ret, icmpcode_v4 ret) else None) :: expected (sq + 1) true fs
  end.

Fixpoint report (nprobes ttl sq : Z) (route : list (SA * list fate)) : list (Z * list line) :=
  match route with
  | [] => []
  | (_, fs) :: r => (ttl, expected sq false fs) :: report nprobes (ttl + 1) (sq + nprobes) r
  end.

Definition answered (f : fate) : bool := match f with Lost => false | _ => true end.

(** The fates of one TTL: all answers come from [a], with the value [r]. *)
Definition from_hop (a : SA) (r : Z) (f : fate) : Prop := f = Lost \/ exists now, f = Answered a now r.

(** A route: routers that report the time exceeded, then the destination, which reports
    the port unreachable and answers one probe at least. *)
Fixpoint route_ok (nprobes : Z) (route : list (SA * list fate)) : Prop :=
  match route with
  | [] => False
  | [(a, fs)] => inet_ok a /\ length fs = Z.to_nat nprobes /\ Forall (from_hop a (-1)) fs /\ existsb answered fs = true
  | (a, fs) :: r => inet_ok a /\ length fs = Z.to_nat nprobes /\ Forall (from_hop a (-2)) fs /\ route_ok nprobes r
  end.

(** The addresses printed in one line. *)
Definition addresses (ls : list line) : list SA :=
  omap (fun l => match l with Reply a _ _ => a | Star => None end) ls.

(** The routers and the destination, where they answered. *)
Definition hops_of (route : list (SA * list fate)) : list (list SA) :=
  map (fun p => if existsb answered p.2 then [p.1] else []) route.
End Network.

Lemma memcmp_same l : memcmp l l = 0.
Proof. induction l as [|x l IH]; simpl; [done|]. by rewrite Z.eqb_refl. Qed.

Lemma cmp_same a : inet_ok a -> sock_cmp_addr a a = 0.
Proof. destruct a; simpl; [|..|done|done]; intros _; unfold sock_cmp_addr; simpl; apply memcmp_same. Qed.

Lemma cmp_blank a : inet_ok a -> sock_cmp_addr a (Sa_other 0) = -1.
Proof. by destruct a. Qed.

Section Path.
Variables sport dport : Z.
Hypothesis sport_ok : 0 <= sport < 2 ^ 16.
Variable nprobes : Z.
Hypothesis nprobes_ok : 0 <= nprobes.
Variable send_time : Z -> timeval.
Variable ttl_ok : Z -> bool.

(** The receiver on the events of one probe. *)
Lemma recv_script sq f e rest buf sa : script sport dport sq f e -> length buf = BUFSIZE ->
  exists (buf' : list Z) sa', length buf' = BUFSIZE /\
    recv_v4 sport dport sq buf sa (e ++ rest) =
    match f with
    | Lost => Returns (Some (-3)) buf' sa' None rest
    | Answered from now ret => Returns (Some ret) buf' from (Some now) rest
    end.
Proof.
  intros (pre & ev & -> & Hj & Hf) Hb. rewrite <- app_assoc. simpl.
  destruct (recv_junk sport dport sport_ok sq pre (ev :: rest) Hj buf sa Hb) as (buf1 & sa1 & Hb1 & ->).
  destruct f as [|from now ret]; destruct ev as [from' now' b al| |]; try done.
  - exact (recv_alarm sport dport sport_ok sq buf1 sa1 (Datagram from' now' b al) rest Hb1 Hf).
  - exact (recv_alarm sport dport sport_ok sq buf1 sa1 Interrupted rest Hb1 I).
  - destruct Hf as (-> & -> & Hd & Ha).
    destruct (recv_answer sport dport sport_ok sq buf1 sa1 from now b al ret rest Hb1 Hd Ha) as (buf' & Hb' & E).
    by exists buf', from.
Qed.

Lemma probes_script a r ttl fs es : r = -1 \/ r = -2 -> inet_ok a -> forall s lines (shown : bool) rest,
  scripts sport dport (seq s) fs es -> Forall (from_hop a r) fs -> length (recvbuf s) = BUFSIZE -> events s = es ++ rest ->
  exists s', probes (recv_v4 sport dport) icmpcode_v4 dport send_time (length fs) ttl (if shown then a else Sa_other 0) lines s =
      inl (s', lines ++ expected send_time (seq s) shown fs) /\
    seq s' = seq s + Z.of_nat (length fs) /\ events s' = rest /\ printed s' = printed s /\ length (recvbuf s') = BUFSIZE /\
    done s' = done s + (if r =? -1 then Z.of_nat (length (List.filter answered fs)) else 0).
Proof.
  intros Hr Ha. revert es. induction fs as [|f fs IH]; intros es s lines shown rest Hs HF Hb He; inversion Hs; subst; simpl.
  { exists s. rewrite app_nil_r, He. split_and!; [done|lia|done..|]. destruct (r =? -1); lia. }
  apply Forall_cons in HF as [Hf HF].
  match goal with H : script _ _ _ _ ?e |- _ => rename H into Hsc; rename e into e0 end.
  match goal with H : scripts _ _ _ _ ?e |- _ => rename H into Hscs; rename e into es0 end.
  unfold probe_one. rewrite He, <- app_assoc.
  destruct (recv_script (seq s + 1) f e0 (es0 ++ rest) (recvbuf s) (sarecv s) Hsc Hb) as (buf' & sa' & Hb' & ->).
  set (pr := Probe ttl (u16 (dport + (seq s + 1))) (u16 (seq s + 1)) (u16 ttl) (send_time (seq s + 1))).
  destruct Hf as [->|[now ->] ]; simpl.
  - destruct (IH es0 (State (seq s + 1) (done s + 0) buf' sa' (es0 ++ rest) (sent s ++ [pr]) (printed s)) (lines ++ [Star]) shown rest)
      as (s' & E & H1 & H2 & H3 & H4 & H5); try done.
    exists s'. rewrite E, <- app_assoc. simpl in *. split_and!; [done|lia|done..|]. rewrite H5. destruct (r =? -1); lia.
  - rewrite (proj2 (Z.eqb_neq r (-3))) by lia.
    assert (Hsh : (if negb (sock_cmp_addr a (if shown then a else Sa_other 0) =? 0) then Some a else None) =
              (if shown then None else Some a)) by (destruct shown; [by rewrite cmp_same|by rewrite cmp_blank]).
    assert (Hla : match (if shown then None else Some a) with Some a => a | None => if shown then a else Sa_other 0 end = a)
      by (by destruct shown).
    rewrite Hsh, Hla.
    destruct (IH es0 (State (seq s + 1) (done s + (if r =? -1 then 1 else 0)) buf' a (es0 ++ rest) (sent s ++ [pr]) (printed s))
      (lines ++ [Reply (if shown then None else Some a) (tv_sub now (send_time (seq s + 1)))
         (if r >=? 0 then Some (r, icmpcode_v4 r) else None)]) true rest) as (s' & E & H1 & H2 & H3 & H4 & H5); try done.
    exists s'. simpl in E. rewrite E, <- app_assoc. simpl in *. split_and!; [done|lia|done..|]. rewrite H5. destruct (r =? -1); lia.
Qed.

(** The lines name the address once, if there was an answer. *)
Lemma expected_addresses a r fs : Forall (from_hop a r) fs -> forall sq (shown : bool),
  addresses (expected send_time sq shown fs) = if shown then [] else if existsb answered fs then [a] else [].
Proof.
  induction 1 as [|f fs Hf _ IH]; intros sq shown; simpl; [by destruct shown|].
  destruct Hf as [->|[now ->] ]; simpl; unfold addresses in *; simpl; rewrite IH; by destruct shown.
Qed.

Lemma existsb_filter fs : existsb answered fs = true -> List.filter answered fs <> [].
Proof. intros (f & Hin & Hf)%existsb_exists E. assert (H : In f (List.filter answered fs)) by (by apply filter_In). by rewrite E in H. Qed.

Lemma scripts_app_inv sq fs fs' evs : scripts sport dport sq (fs ++ fs') evs ->
  exists e1 e2, evs = e1 ++ e2 /\ scripts sport dport sq fs e1 /\ scripts sport dport (sq + Z.of_nat (length fs)) fs' e2.
Proof.
  revert sq evs. induction fs as [|f fs IH]; intros sq evs H; simpl in *.
  { exists [], evs. rewrite Z.add_0_r. by split_and!; [|constructor|]. }
  inversion H as [|? ? ? e es Hf Hs]; subst. destruct (IH _ _ Hs) as (e1 & e2 & -> & H1 & H2).
  exists (e ++ e1), e2. split_and!; [by rewrite app_assoc|by constructor|].
  replace (sq + Z.of_nat (S (length fs))) with (sq + 1 + Z.of_nat (length fs)) by lia. done.
Qed.

Lemma hops_route route : route_ok nprobes route -> forall n ttl s rest es,
  (length route <= n)%nat -> (forall t, ttl <= t < ttl + Z.of_nat (length route) -> ttl_ok t = true) ->
  scripts sport dport (seq s) (concat (map snd route)) es -> events s = es ++ rest -> length (recvbuf s) = BUFSIZE -> done s = 0 ->
  exists s', hops (recv_v4 sport dport) icmpcode_v4 dport nprobes send_time ttl_ok n ttl s = inl s' /\
    printed s' = printed s ++ report send_time nprobes ttl (seq s) route /\ events s' = rest.
Proof.
  induction route as [|[a fs] route IH]; intros Hr n ttl s rest es Hn Ht Hs He Hb Hd; [done|].
  destruct n as [|n]; [simpl in Hn; lia|]. simpl in Hs. apply scripts_app_inv in Hs as (e1 & e2 & -> & Hs1 & Hs2).
  rewrite <- app_assoc in He. simpl. rewrite Hd, (Ht ttl) by (simpl; lia). simpl.
  assert (Hone : forall r, r = -1 \/ r = -2 -> inet_ok a -> length fs = Z.to_nat nprobes -> Forall (from_hop a r) fs ->
    exists s', probes (recv_v4 sport dport) icmpcode_v4 dport send_time (Z.to_nat nprobes) ttl (Sa_other 0) [] s =
      inl (s', expected send_time (seq s) false fs) /\
    seq s' = seq s + nprobes /\ events s' = e2 ++ rest /\ printed s' = printed s /\ length (recvbuf s') = BUFSIZE /\
    done s' = (if r =? -1 then Z.of_nat (length (List.filter answered fs)) else 0)).
  { intros r Hrr Ha Hl HF. destruct (probes_script a r ttl fs e1 Hrr Ha s [] false (e2 ++ rest) Hs1 HF Hb He)
      as (s' & E & H1 & H2 & H3 & H4 & H5). exists s'. rewrite Hl in E, H1. split_and!; [done|lia|done..|lia]. }
  destruct route as [|hop route].
  - destruct Hr as (Ha & Hl & HF & Hans). destruct (Hone (-1)) as (s' & -> & H1 & H2 & H3 & H4 & H5); [by left|done..|].
    simpl in Hs2. inversion Hs2; subst. simpl in H2.
    apply existsb_filter in Hans. destruct n as [|n]; simpl.
    + eexists. split; [done|]. simpl. by rewrite H3, H2.
    + rewrite (proj2 (Z.eqb_neq (done s') 0)) by (rewrite H5; destruct (List.filter answered fs); [done|simpl; lia]). simpl.
      eexists. split; [done|]. simpl. by rewrite H3, H2.
  - change (inet_ok a /\ length fs = Z.to_nat nprobes /\ Forall (from_hop a (-2)) fs /\ route_ok nprobes (hop :: route)) in Hr.
    destruct Hr as (Ha & Hl & HF & Hr). destruct (Hone (-2)) as (s' & -> & H1 & H2 & H3 & H4 & H5); [by right|done..|].
    rewrite Hl, Z2Nat.id in Hs2 by done.
    edestruct (IH Hr n (ttl + 1) (State (seq s') (done s') (recvbuf s') (sarecv s') (events s') (sent s')
      (printed s' ++ [(ttl, expected send_time (seq s) false fs)])) rest e2) as (s'' & E & Hp & Hrest);
      [simpl in Hn |- *; lia|intros t Htt; apply Ht; simpl in *; lia|by rewrite H1|done..|].
    exists s''. split; [done|]. split; [|done]. simpl in Hp. by rewrite Hp, H3, H1, <- app_assoc.
Qed.

Lemma route_hops route : route_ok nprobes route -> Forall (fun p => exists r, Forall (from_hop p.1 r) p.2) route.
Proof.
  induction route as [|[a fs] [|hop route] IH]; simpl; [done|intros (_ & _ & H & _); repeat constructor; by exists (-1)|].
  intros (_ & _ & H & Hr). constructor; [by exists (-2)|by apply IH].
Qed.

Lemma report_addresses route : Forall (fun p => exists r, Forall (from_hop p.1 r) p.2) route -> forall ttl sq,
  map (fun p => addresses p.2) (report send_time nprobes ttl sq route) = hops_of route.
Proof.
  induction 1 as [|[a fs] route [r Hr] _ IH]; intros ttl sq; simpl; [done|]. by rewrite IH, (expected_addresses a r).
Qed.
End Path.

(** C31: IPv4 ([trace_v4]), on a route that is no longer than [max_ttl], whose TTLs can be
    set, and where the routers answer some probes with "time exceeded" and the
    destination at least one with "port unreachable", each answer quoting the probe,
    between any other datagrams and late answers to earlier probes: [traceroute] finds
    the route: for every TTL it prints the address of that hop once, if it answered,
    with the time of each answer and a star for each probe lost, and it stops at the
    destination. *)
Theorem traceroute_finds_route sport dport max_ttl nprobes send_time ttl_ok route buf evs rest :
  0 <= sport < 2 ^ 16 -> 0 <= nprobes -> route_ok nprobes route -> Z.of_nat (length route) <= max_ttl ->
  (forall t, 1 <= t <= Z.of_nat (length route) -> ttl_ok t = true) ->
  scripts sport dport 0 (concat (map snd route)) evs -> length buf = BUFSIZE ->
  exists s, trace_v4 sport dport max_ttl nprobes send_time ttl_ok buf (evs ++ rest) = inl s /\
    printed s = report send_time nprobes 1 0 route /\ events s = rest /\
    map (fun p => addresses p.2) (printed s) = hops_of route.
Proof.
  intros Hs Hn Hr Hm Ht He Hb.
  destruct (hops_route sport dport Hs nprobes Hn send_time ttl_ok route Hr (Z.to_nat max_ttl) 1
    (State 0 0 buf (Sa_other 0) (evs ++ rest) [] []) rest evs) as (s & E & Hp & Hrest); try done; [lia|intros t ?; apply Ht; lia|].
  exists s. split_and!; [done..|]. rewrite Hp. apply report_addresses. by apply (route_hops nprobes).
Qed.

(** *** Concrete packets *)

(** An ICMP error with a 20-byte IP header that quotes a UDP packet; late ones quote an
    earlier probe. *)
Definition ip_header (proto : Z) : list Z := 69 :: replicate 8 0 ++ [proto] ++ replicate 10 0.
Definition icmp_reply (ty code sp dp : Z) : list Z :=
  ip_header 1 ++ [ty; code] ++ replicate 6 0 ++ ip_header 17 ++ net16 sp ++ net16 dp ++ [0; 28; 0; 0].

Definition hop1 : SA := Sa_in 0 [10; 0; 0; 1].
Definition hop2 : SA := Sa_in 0 [10; 0; 0; 2].
Definition demo_route : list (SA * list fate) :=
  [(hop1, [Answered hop1 (Timeval 5 0) (-2); Lost]); (hop2, [Lost; Answered hop2 (Timeval 6 0) (-1)])].

Definition demo_events : list event :=
  [Datagram hop1 (Timeval 5 0) (icmp_reply 11 0 40000 33435) false; Interrupted; Interrupted;
   Datagram hop1 (Timeval 5 9) (icmp_reply 11 0 40000 33435) false;
   Datagram hop2 (Timeval 6 0) (icmp_reply 3 3 40000 33438) false].

(** Deciding whether a datagram is an answer, by running the receiver. *)
Lemma answer_turn sport dport sq b v : 0 <= sport < 2 ^ 16 -> Forall byte b ->
  turn_v4 sport dport (memcpy_into (replicate BUFSIZE 0) (take BUFSIZE b)) (Z.of_nat (length (take BUFSIZE b))) sq = Some v ->
  forall ret, answer sport dport sq b ret <-> v = Break (Some ret).
Proof.
  intros Hs Hb E ret. destruct (turn_v4_stored sport dport Hs sq (replicate BUFSIZE 0) b) as (v' & E' & _ & H);
    [by rewrite length_replicate|done|]. rewrite E in E'. injection E' as <-. by rewrite <- H.
Qed.

Definition byteb (b : Z) : bool := (0 <=? b) && (b <? 256).
Lemma bytes_b l : forallb byteb l = true -> Forall byte l.
Proof. intros H. apply List.Forall_forall. intros x Hx. apply (proj1 (forallb_forall _ _) H) in Hx. unfold byteb in Hx. unfold byte. lia. Qed.

Definition demo_time (_ : Z) : timeval := Timeval 0 0.
Definition demo_ttl (t : Z) : bool := t <=? 255.
Definition demo_buf : list Z := replicate BUFSIZE 0.

Lemma demo_events_ok : Forall event_ok demo_events.
Proof. constructor; [by apply bytes_b|]. do 2 (constructor; [exact I|]). do 2 (constructor; [by apply bytes_b|]). constructor. Qed.

Lemma traceroute_bounded_witness :
  match trace_v4 40000 33434 30 2 demo_time demo_ttl demo_buf demo_events with
  | inl s => exists h, 0 <= h <= Z.max 0 30 /\
      sent s = map (fun k => probe_k 33434 demo_time (1 + (k - 1) / 2) k) (seqZ 1 (h * 2)) /\
      map fst (printed s) = seqZ 1 h /\ Forall (fun p => length p.2 = Z.to_nat 2) (printed s) /\
      (done s <> 0 \/ h = Z.max 0 30)
  | inr e => e = Blocked \/ e = Error
  end /\ exists s, trace_v4 40000 33434 30 2 demo_time demo_ttl demo_buf demo_events = inl s.
Proof.
  split; [apply (traceroute_bounded 40000 33434 30 2)|eexists; vm_compute; reflexivity]; [lia|lia|reflexivity|exact demo_events_ok].
Defined.

(** The events are those of the route. *)
Lemma demo_scripts : scripts 40000 33434 0 (concat (map snd demo_route)) demo_events.
Proof.
  assert (Ha : forall b v sq, forallb byteb b = true ->
    turn_v4 40000 33434 (memcpy_into demo_buf (take BUFSIZE b)) (Z.of_nat (length (take BUFSIZE b))) sq = Some v ->
    forall ret, answer 40000 33434 sq b ret <-> v = Break (Some ret)).
  { intros b v sq Hb E. apply answer_turn; [lia|by apply bytes_b|exact E]. }
  apply (scripts_cons _ _ 0 (Answered hop1 (Timeval 5 0) (-2)) _ [Datagram hop1 (Timeval 5 0) (icmp_reply 11 0 40000 33435) false]).
  { exists [], (Datagram hop1 (Timeval 5 0) (icmp_reply 11 0 40000 33435) false). split_and!; [done|constructor|done|done|..].
    - by apply bytes_b.
    - by eapply Ha. }
  apply (scripts_cons _ _ _ Lost _ [Interrupted]); [by exists [], Interrupted|].
  apply (scripts_cons _ _ _ Lost _ [Interrupted]); [by exists [], Interrupted|].
  eapply (scripts_cons _ _ _ _ [] [_; _] []); [|constructor].
  exists [Datagram hop1 (Timeval 5 9) (icmp_reply 11 0 40000 33435) false], (Datagram hop2 (Timeval 6 0) (icmp_reply 3 3 40000 33438) false).
  split; [done|]. split.
  - constructor; [|constructor]. split_and!; [done|by apply bytes_b|]. intros ret Hr. eapply Ha in Hr; [..|vm_compute; reflexivity]; [done|done].
  - split_and!; [done|done|by apply bytes_b|]. by eapply Ha.
Qed.

Lemma traceroute_finds_route_witness :
  exists s, trace_v4 40000 33434 30 2 demo_time demo_ttl demo_buf (demo_events ++ []) = inl s /\
    printed s = report demo_time 2 1 0 demo_route /\ events s = [] /\
    map (fun p => addresses p.2) (printed s) = [[hop1]; [hop2]].
Proof.
  apply (traceroute_finds_route 40000 33434 30 2 demo_time demo_ttl demo_route demo_buf demo_events []); [lia|lia| |simpl; lia| |exact demo_scripts|reflexivity].
  - assert (H1 : inet_ok hop1) by (split_and!; [lia..|done|by apply bytes_b]).
    assert (H2 : inet_ok hop2) by (split_and!; [lia..|done|by apply bytes_b]).
    split; [exact H1|]. split; [done|]. split; [constructor; [right; by exists (Timeval 5 0)|constructor; [by left|constructor] ]|].
    split; [exact H2|]. split; [done|]. split; [constructor; [by left|constructor; [right; by exists (Timeval 6 0)|constructor] ]|done].
  - intros t Ht. simpl in Ht. unfold demo_ttl. apply Z.leb_le. lia.
Defined.

(** *** IPv6 *)

(** the loop of [recv_v6] on any datagram, over any contents of its buffer: it stays
    inside the buffer, and returns a value that was assigned exactly for an answer
    to the probe, the right one; but any other "time exceeded in transit" that is
    long enough ends it too, with a value that was never assigned. *)
Theorem recv_v6_indeterminate sport dport sq (buf b : list Z) sa from now alarmed evs :
  0 <= sport < 2 ^ 16 -> length buf = BUFSIZE -> Forall byte b ->
  let d := take BUFSIZE b in
  let buf' := memcpy_into buf d in
  (forall ret, answers6 sport dport sq d ret ->
     recv_v6 sport dport sq buf sa (Datagram from now b alarmed :: evs) = Returns (Some ret) buf' from (Some now) evs) /\
  (stray6 sport dport sq d ->
     recv_v6 sport dport sq buf sa (Datagram from now b alarmed :: evs) = Returns None buf' from (Some now) evs) /\
  ((forall ret, ~ answers6 sport dport sq d ret) -> ~ stray6 sport dport sq d ->
     recv_v6 sport dport sq buf sa (Datagram from now b alarmed :: evs) =
     recv_loop (turn_v6 sport dport) sq alarmed buf' from evs).
Proof.
  intros Hs Hb Hd d buf'. destruct (turn_v6_spec sport dport Hs buf d Hb (Forall_take _ _ _ Hd) sq) as (v & E & Hn & Hr).
  unfold recv_v6. cbn [recv_loop]. fold d. rewrite E. fold buf'. clearbody buf'. split_and!.
  - intros ret Ha. by apply Hr in Ha as ->.
  - intros Hst. by apply Hn in Hst as ->.
  - intros Hna Hns. destruct v as [[ret|]|]; [by destruct (Hna ret); apply Hr|by destruct Hns; apply Hn|done].
Qed.

(** A time exceeded that quotes another port. *)
Definition stray : list Z := [3; 0] ++ replicate 6 0 ++ (replicate 6 0 ++ [17] ++ replicate 33 0) ++ net16 50000 ++ net16 53 ++ [0; 8; 0; 0].

Lemma recv_v6_indeterminate_witness :
  exists buf', recv_v6 40000 33434 1 demo_buf (Sa_other 0) [Datagram (Sa_other 10) (Timeval 0 0) stray false] =
    Returns None buf' (Sa_other 10) (Some (Timeval 0 0)) [].
Proof.
  eexists. refine (proj1 (proj2 (recv_v6_indeterminate 40000 33434 1 demo_buf stray (Sa_other 0) (Sa_other 10) (Timeval 0 0) false [] _ _ _)) _).
  - lia.
  - reflexivity.
  - by apply bytes_b.
  - exists (drop 8 stray). split_and!; [exists (replicate 6 0); done|vm_compute; lia|].
    intros (ip & rest & E & Hl & _). apply (f_equal (fun l => nth 40 l 0)) in E. revert E.
    rewrite nth_lookup, (nth_lookup _ 40), lookup_app_r, Hl by lia. by vm_compute.
Defined.
