(* ===== verification/PfKey.v ===== *)
(** * Key management messages: [unixNetV1/key]

    [sadb_add] of [add.c] builds a PF_KEY message in a buffer on the stack, and
    [print_sadb_msg] of [printsadbmsg.c] prints one; [register.c] and [dump.c] send a
    header alone.  Every store and load is checked.  A socket address is formatted by
    [sock_ntop] ([SockAddr]).  The structures are those of RFC 2367 on a
    little-endian machine; texts of algorithms and times are kept as numbers. *)
From S2P Require Import Prelude Mem Inet Gai GaiSpec SockAddr.

Definition BUFLEN : nat := 4096.

Definition PF_KEY_V2 : Z := 2.
Definition SADB_ADD : Z := 3.
Definition SADB_REGISTER : Z := 7.
Definition SADB_DUMP : Z := 10.
Definition SADB_SASTATE_MATURE : Z := 1.
Definition SADB_EALG_NONE : Z := 0.
Definition SADB_SAFLAGS_PFS : Z := 1.
Definition SADB_EXT_SA : Z := 1.
Definition SADB_EXT_ADDRESS_SRC : Z := 5.
Definition SADB_EXT_ADDRESS_DST : Z := 6.
Definition SADB_EXT_KEY_AUTH : Z := 8.
Definition SADB_EXT_SUPPORTED_AUTH : Z := 14.

(** The sizes of [sadb_msg], [sadb_sa], [sadb_address], [sadb_key], [sadb_supported],
    [sadb_alg]. *)
Definition sizeof_msg : Z := 16.
Definition sizeof_sa : Z := 16.
Definition sizeof_address : Z := 8.
Definition sizeof_key : Z := 8.
Definition sizeof_supported : Z := 8.
Definition sizeof_alg : Z := 8.

(** ** [printsadbmsg.c] *)

(** [None] is the text with the number. *)
Definition get_sadb_msg_type (type : Z) : option string :=
  nth_error ["Reserved"; "Get SPI"; "Update"; "Add"; "Delete"; "Get"; "Acquire"; "Register"; "Expire"; "Flush"; "Dump"]%string
    (if type <? 0 then 11%nat else Z.to_nat type).

Definition get_sadb_satype (type : Z) : option string :=
  if type =? 0 then Some "Unspecified"%string
  else if type =? 2 then Some "IPsec AH"%string
  else if type =? 3 then Some "IPsec ESP"%string
  else if type =? 5 then Some "RSVP"%string
  else if type =? 6 then Some "OSPFv2"%string
  else if type =? 7 then Some "RIPv2"%string
  else if type =? 8 then Some "Mobile IP"%string
  else None.

Definition get_sa_state (state : Z) : option string :=
  nth_error ["Larval"; "Mature"; "Dying"; "Dead"]%string (if state <? 0 then 4%nat else Z.to_nat state).

(** What is printed. *)
Inductive item :=
| Sa (spi replay : Z) (state : option string) (auth encrypt : Z) (pfs : bool)
| Lifetime (exttype allocations bytes addtime usetime : Z)
| Address (exttype : Z) (text : text_result) (prefixlen proto : Z)
| Key (exttype bits : Z) (bytes : list Z)
| Supported (exttype : Z) (algs : list (Z * Z * Z * Z))
| Other (exttype : Z).

(** The socket address at an offset, as [sock_ntop] looks at it; a path goes on to the
    end of the buffer, where it is cut after 108 bytes. *)
Definition load_sockaddr (mem : list Z) (off : Z) : option SA :=
  family ← rd16 mem off;
  if family =? AF_INET then
    port ← rd16 mem (off + 2); addr ← rdn mem (off + 4) 4; Some (Sa_in port addr)
  else if family =? AF_INET6 then
    port ← rd16 mem (off + 2); addr ← rdn mem (off + 8) 16; Some (Sa_in6 port addr)
  else if family =? AF_UNIX then Some (Sa_un (take 108 (drop (Z.to_nat (off + 2)) mem)))
  else Some (Sa_other family).

Section Print.
Variable len0 : Z.
Variable mem : list Z.

Definition sa_print (ext : Z) : option item :=
  spi ← rd32 mem (ext + 4); replay ← rd mem (ext + 8); state ← rd mem (ext + 9);
  auth ← rd mem (ext + 10); encrypt ← rd mem (ext + 11); flags ← rd32 mem (ext + 12);
  Some (Sa spi replay (get_sa_state state) auth encrypt (has_flag flags SADB_SAFLAGS_PFS)).

(** The loop over the algorithms, [n] of them. *)
Fixpoint algs (alg : Z) (n : nat) : option (list (Z * Z * Z * Z)) :=
  match n with
  | O => Some []
  | S n' =>
      id ← rd mem alg; ivlen ← rd mem (alg + 1); minbits ← rd16 mem (alg + 2); maxbits ← rd16 mem (alg + 4);
      rest ← algs (alg + sizeof_alg) n';
      Some ((id, ivlen, minbits, maxbits) :: rest)
  end.

(** [len] goes down by 8 from [sadb_supported_len * 8 - 8] while it is positive. *)
Definition supported_print (ext : Z) : option item :=
  exttype ← rd16 mem (ext + 2); sadb_len ← rd16 mem ext;
  let len := sadb_len * 8 - sizeof_supported in
  l ← algs (ext + sizeof_supported) (Z.to_nat ((len + 7) / 8));
  Some (Supported exttype l).

Definition lifetime_print (ext : Z) : option item :=
  exttype ← rd16 mem (ext + 2); allocations ← rd32 mem (ext + 4); bytes ← rd64 mem (ext + 8);
  addtime ← rd64 mem (ext + 16); usetime ← rd64 mem (ext + 24);
  Some (Lifetime exttype allocations bytes addtime usetime).

Definition address_print (ext : Z) : option item :=
  exttype ← rd16 mem (ext + 2); sadb_len ← rd16 mem ext; sa ← load_sockaddr mem (ext + sizeof_address);
  prefixlen ← rd mem (ext + 5); proto ← rd mem (ext + 4);
  Some (Address exttype (sock_ntop len0 sa (sadb_len * 8 - sizeof_address)) prefixlen proto).

(** [for (p = key + 1, bits = sadb_key_bits; bits > 0; p++, bits -= 8)] *)
Definition key_print (ext : Z) : option item :=
  exttype ← rd16 mem (ext + 2); bits ← rd16 mem (ext + 4);
  bytes ← rdn mem (ext + sizeof_key) (Z.to_nat ((bits + 7) / 8));
  Some (Key exttype bits bytes).

(** The switch on [sadb_ext_type]. *)
Definition print_ext (ext : Z) : option item :=
  type ← rd16 mem (ext + 2);
  if type =? 1 then sa_print ext
  else if (2 <=? type) && (type <=? 4) then lifetime_print ext
  else if (5 <=? type) && (type <=? 7) then address_print ext
  else if (8 <=? type) && (type <=? 9) then key_print ext
  else if (14 <=? type) && (type <=? 15) then supported_print ext
  else Some (Other type).

(** The end of the loop over the extensions: done, a load outside the memory, or more
    turns than the fuel. *)
Inductive walked := Done (l : list item) | Fault (l : list item) | More (l : list item).

(** [while (msglen > 0)] *)
Fixpoint walk (fuel : nat) (msglen ext : Z) (out : list item) : walked :=
  if msglen <=? 0 then Done out
  else match fuel with
       | O => More out
       | S fuel' =>
           match print_ext ext, rd16 mem ext with
           | Some i, Some ext_len =>
               walk fuel' (msglen - Z.shiftl ext_len 3) (ext + Z.shiftl ext_len 3) (out ++ [i])
           | _, _ => Fault out
           end
       end.

Inductive printed :=
| Bad_length
| Bad_version
| Message (type : option string) (errno : Z) (satype : option string) (seq pid : Z) (exts : walked)
| Outside.

(** The fuel is the length: every turn takes at least 8, or nothing for ever. *)
Definition print_sadb_msg (msglen : Z) : printed :=
  match rd16 mem 4, rd mem 0, rd mem 1, rd mem 2, rd mem 3, rd32 mem 8, rd32 mem 12 with
  | Some msg_len, Some version, Some type, Some errno, Some satype, Some seq, Some pid =>
      if negb (msglen =? msg_len * 8) then Bad_length
      else if negb (version =? PF_KEY_V2) then Bad_version
      else Message (get_sadb_msg_type type) errno (get_sadb_satype satype) seq pid
             (if msglen =? sizeof_msg then Done []
              else walk (Z.to_nat msglen) (msglen - sizeof_msg) sizeof_msg [])
  | _, _, _, _, _, _, _ => Outside
  end.
End Print.

(** ** [add.c], [register.c], [dump.c] *)

(** [HAVE_SOCKADDR_SA_LEN] is not defined. *)
Definition salen (sa : SA) : Z :=
  if sa_family sa =? AF_INET then 16 else if sa_family sa =? AF_INET6 then 28 else 0.

Definition prefix_all (sa : SA) : Z :=
  if sa_family sa =? AF_INET then 32 else if sa_family sa =? AF_INET6 then 128 else 0.

(** The first [salen] bytes of a socket address from [getaddrinfo], whose other fields
    are 0. *)
Definition sockaddr_bytes (sa : SA) : list Z :=
  match sa with
  | Sa_in port addr => le16 AF_INET ++ le16 port ++ addr ++ replicate 8 0
  | Sa_in6 port addr => le16 AF_INET6 ++ le16 port ++ replicate 4 0 ++ addr ++ replicate 4 0
  | _ => []
  end.

(** [htonl] *)
Definition htonl (w : Z) : list Z := rev (le32 w).

(** The structures as they are stored; the reserved fields and the padding are 0 from
    [bzero]. *)
Definition msg_header (type satype pid : Z) : list Z :=
  [PF_KEY_V2; u8 type; 0; u8 satype; 0; 0; 0; 0; 0; 0; 0; 0] ++ le32 pid.
Definition sa_struct (spi alg : Z) : list Z :=
  le16 (sizeof_sa / 8) ++ le16 SADB_EXT_SA ++ htonl spi ++ [0; SADB_SASTATE_MATURE; u8 alg; SADB_EALG_NONE; 0; 0; 0; 0].
Definition address_len (sa : SA) : Z := (sizeof_address + salen sa + 7) / 8.
Definition address_struct (exttype : Z) (sa : SA) : list Z :=
  le16 (address_len sa) ++ le16 exttype ++ [0; prefix_all sa; 0; 0].
Definition key_len (keybits : Z) : Z := u16 ((sizeof_key + keybits / 8 + 7) / 8).
Definition key_struct (keybits : Z) : list Z :=
  le16 (key_len keybits) ++ le16 SADB_EXT_KEY_AUTH ++ le16 (u16 keybits) ++ [0; 0].

(** The message [sadb_add] builds in [buf], with its length; [None] when a store goes
    outside [buf]. *)
Definition sadb_add (src dst : SA) (type alg spi keybits : Z) (keydata : list Z) (pid : Z) : option (list Z * Z) :=
  let buf := replicate BUFLEN 0 in
  buf ← store buf 0 (msg_header SADB_ADD type pid);
  let p := sizeof_msg in
  buf ← store buf p (sa_struct spi alg);
  let p := p + sizeof_sa in
  buf ← store buf p (address_struct SADB_EXT_ADDRESS_SRC src);
  buf ← store buf (p + sizeof_address) (sockaddr_bytes src);
  let p := p + address_len src * 8 in
  buf ← store buf p (address_struct SADB_EXT_ADDRESS_DST dst);
  buf ← store buf (p + sizeof_address) (sockaddr_bytes dst);
  let p := p + address_len dst * 8 in
  buf ← store buf p (key_struct keybits);
  buf ← store buf (p + sizeof_key) (take (Z.to_nat (keybits / 8)) keydata);
  let len := p + key_len keybits * 8 in
  buf ← store buf 4 (le16 (u16 (len / 8)));
  Some (buf, len).

(** [sadb_register] and [sadb_dump]: the message alone. *)
Definition sadb_request (type satype pid : Z) : option (list Z) :=
  store (msg_header type satype pid) 4 (le16 (sizeof_msg / 8)).
Definition sadb_register (satype pid : Z) : option (list Z) := sadb_request SADB_REGISTER satype pid.
Definition sadb_dump (satype pid : Z) : option (list Z) := sadb_request SADB_DUMP satype pid.

(** ** The parts of the message *)

Definition message (type satype pid len : Z) : list Z :=
  [PF_KEY_V2; u8 type; 0; u8 satype] ++ le16 (u16 (len / 8)) ++ [0; 0; 0; 0; 0; 0] ++ le32 pid.
Definition address_ext (exttype : Z) (sa : SA) : list Z :=
  address_struct exttype sa ++ sockaddr_bytes sa ++ replicate (Z.to_nat (address_len sa * 8 - sizeof_address - salen sa)) 0.
Definition key_ext (keybits : Z) (keydata : list Z) : list Z :=
  key_struct keybits ++ keydata ++ replicate (Z.to_nat (key_len keybits * 8 - sizeof_key - keybits / 8)) 0.

(** A word with its bytes in the other order. *)
Definition bswap32 (w : Z) : Z :=
  w / 2 ^ 24 mod 256 + 256 * (w / 2 ^ 16 mod 256) + 65536 * (w / 2 ^ 8 mod 256) + 2 ^ 24 * (w mod 256).

(** ** Lemmas *)

(** *** Printing does not depend on what lies before *)

Section Shift.
Variable len0 : Z.
Variables pre r : list Z.

#[local] Ltac shift :=
  repeat match goal with
  | |- context [rd (?l ++ ?q) ?o] => rewrite (rd_app l q o) by lia
  | |- context [rd16 (?l ++ ?q) ?o] => rewrite (rd16_app l q o) by lia
  | |- context [rd32 (?l ++ ?q) ?o] => rewrite (rd32_app l q o) by lia
  | |- context [rd64 (?l ++ ?q) ?o] => rewrite (rd64_app l q o) by lia
  | |- context [rdn (?l ++ ?q) ?o ?n] => rewrite (rdn_app l q n o) by lia
  end;
  repeat match goal with
  | |- context [?n + ?e + ?k - ?n] => replace (n + e + k - n) with (e + k) by lia
  | |- context [?n + ?e - ?n] => replace (n + e - n) with e by lia
  end.

Lemma load_sockaddr_app e : 0 <= e -> load_sockaddr (pre ++ r) (Z.of_nat (length pre) + e) = load_sockaddr r e.
Proof.
  intros He. unfold load_sockaddr. shift.
  replace (drop (Z.to_nat (Z.of_nat (length pre) + e + 2)) (pre ++ r)) with (drop (Z.to_nat (e + 2)) r); [done|].
  rewrite drop_app_ge by lia. f_equal. lia.
Qed.

Lemma algs_app n : forall e, 0 <= e -> algs (pre ++ r) (Z.of_nat (length pre) + e) n = algs r e n.
Proof.
  induction n as [|n IH]; intros e He; simpl; [done|]. shift.
  replace (Z.of_nat (length pre) + e + sizeof_alg) with (Z.of_nat (length pre) + (e + sizeof_alg)) by lia.
  by rewrite IH by (unfold sizeof_alg; lia).
Qed.

Lemma key_print_app e : 0 <= e -> key_print (pre ++ r) (Z.of_nat (length pre) + e) = key_print r e.
Proof.
  intros He. unfold key_print, sizeof_key. shift. destruct (rd16 r (e + 2)); simpl; [|done].
  destruct (rd16 r (e + 4)); simpl; [|done]. shift. done.
Qed.

Lemma supported_print_app e : 0 <= e -> supported_print (pre ++ r) (Z.of_nat (length pre) + e) = supported_print r e.
Proof.
  intros He. unfold supported_print, sizeof_supported. shift. destruct (rd16 r (e + 2)); simpl; [|done].
  destruct (rd16 r e); simpl; [|done].
  replace (Z.of_nat (length pre) + e + 8) with (Z.of_nat (length pre) + (e + 8)) by lia. by rewrite algs_app by lia.
Qed.

Lemma address_print_app e : 0 <= e -> address_print len0 (pre ++ r) (Z.of_nat (length pre) + e) = address_print len0 r e.
Proof.
  intros He. unfold address_print, sizeof_address.
  replace (Z.of_nat (length pre) + e + 8) with (Z.of_nat (length pre) + (e + 8)) by lia.
  rewrite load_sockaddr_app by lia. shift. destruct (rd16 r (e + 2)); simpl; [|done].
  destruct (rd16 r e); simpl; [|done]. destruct (load_sockaddr r (e + 8)); simpl; [|done].
  destruct (rd r (e + 5)); simpl; [|done]. shift. done.
Qed.

Lemma sa_print_app e : 0 <= e -> sa_print (pre ++ r) (Z.of_nat (length pre) + e) = sa_print r e.
Proof. intros He. unfold sa_print. shift. done. Qed.

Lemma print_ext_app e : 0 <= e -> print_ext len0 (pre ++ r) (Z.of_nat (length pre) + e) = print_ext len0 r e.
Proof.
  intros He. unfold print_ext, lifetime_print.
  rewrite sa_print_app, address_print_app, key_print_app, supported_print_app by lia. shift.
  destruct (rd16 r (e + 2)); simpl; [|done]. by repeat case_match.
Qed.
End Shift.

(** *** Building *)

(** A store behind what has been written, into the part that is still 0. *)
Lemma store_end (l bs : list Z) n off : off = Z.of_nat (length l) ->
  store (l ++ replicate n 0) off bs =
  if (length bs <=? n)%nat then Some ((l ++ bs) ++ replicate (n - length bs) 0) else None.
Proof.
  intros ->. unfold store. rewrite length_app, length_replicate.
  destruct (Nat.leb_spec (length bs) n) as [H|H].
  - rewrite (proj2 (orb_false_iff _ _)) by (split; apply Z.ltb_ge; lia). f_equal.
    unfold poke. rewrite Nat2Z.id, take_app_length, drop_app_ge, <- app_assoc by lia.
    rewrite drop_replicate. do 3 f_equal. lia.
  - rewrite (proj2 (orb_true_iff _ _)) by (right; apply Z.ltb_lt; lia). done.
Qed.

(** Leaving some of it 0. *)
Lemma skip_end (l : list Z) m n : (m <= n)%nat -> l ++ replicate n 0 = (l ++ replicate m 0) ++ replicate (n - m) 0.
Proof. intros H. rewrite <- app_assoc, <- replicate_add. do 2 f_equal. lia. Qed.

Lemma sockaddr_length sa : inet_ok sa -> Z.of_nat (length (sockaddr_bytes sa)) = salen sa.
Proof.
  destruct sa as [p a|p a| |]; [| |done|done]; intros (_ & Hl & _); simpl; rewrite ?length_app, Hl; done.
Qed.

Lemma address_ext_length t sa : inet_ok sa -> Z.of_nat (length (address_ext t sa)) = address_len sa * 8.
Proof.
  intros H. pose proof (sockaddr_length sa H). unfold address_ext. rewrite !length_app, length_replicate.
  assert (E : address_len sa * 8 = if sa_family sa =? AF_INET then 24 else 40) by (destruct sa; done).
  assert (Es : salen sa = if sa_family sa =? AF_INET then 16 else 28) by (destruct sa; done).
  rewrite E, Es in *. unfold sizeof_address. simpl (length (address_struct t sa)). destruct (sa_family sa =? AF_INET); lia.
Qed.

(** The bytes [sadb_add] fills before the key. *)
Definition before_key (src dst : SA) : Z := sizeof_msg + sizeof_sa + address_len src * 8 + address_len dst * 8.

(** One address extension: both stores fit, and what follows is still 0. *)
Lemma store_address (l : list Z) n t sa off : inet_ok sa -> off = Z.of_nat (length l) ->
  (length (address_ext t sa) <= n)%nat -> forall (A : Type) (k : list Z -> option A),
  (buf ← store (l ++ replicate n 0) off (address_struct t sa);
   buf ← store buf (off + sizeof_address) (sockaddr_bytes sa); k buf) =
  k ((l ++ address_ext t sa) ++ replicate (n - length (address_ext t sa)) 0).
Proof.
  intros Hs -> Hn A k. pose proof (sockaddr_length sa Hs) as Hl. pose proof (address_ext_length t sa Hs) as He.
  assert (H8 : length (address_struct t sa) = 8%nat) by done.
  assert (Hp : salen sa + 8 <= address_len sa * 8) by (unfold address_len, sizeof_address; Z.to_euclidean_division_equations; lia).
  rewrite store_end, (proj2 (Nat.leb_le _ _)) by lia. simpl mbind.
  rewrite store_end, (proj2 (Nat.leb_le _ _)) by (rewrite ?length_app; unfold sizeof_address; lia). simpl mbind.
  f_equal. unfold address_ext at 1. rewrite !app_assoc.
  rewrite (skip_end _ (Z.to_nat (address_len sa * 8 - sizeof_address - salen sa))) by (unfold sizeof_address; lia).
  f_equal. f_equal. unfold sizeof_address. lia.
Qed.

(** The length at its place in the header. *)
Lemma store_len type satype pid len r :
  store (msg_header type satype pid ++ r) 4 (le16 (u16 (len / 8))) = Some (message type satype pid len ++ r).
Proof.
  unfold store. rewrite (proj2 (orb_false_iff _ _)); [done|]. split; [done|]. apply Z.ltb_ge.
  rewrite length_app. simpl. lia.
Qed.

Lemma key_ext_length keybits (keydata : list Z) : 0 <= keybits < 2 ^ 16 -> Z.of_nat (length keydata) = keybits / 8 ->
  Z.of_nat (length (key_ext keybits keydata)) = key_len keybits * 8 /\
  key_len keybits = (sizeof_key + keybits / 8 + 7) / 8 /\ sizeof_key + keybits / 8 <= key_len keybits * 8.
Proof.
  intros Hk Hl. assert (E : key_len keybits = (sizeof_key + keybits / 8 + 7) / 8)
    by (unfold key_len, sizeof_key; apply uwrap_small; Z.to_euclidean_division_equations; lia).
  assert (Hle : sizeof_key + keybits / 8 <= key_len keybits * 8) by (rewrite E; unfold sizeof_key; Z.to_euclidean_division_equations; lia).
  split_and!; [|done..]. unfold key_ext. rewrite !length_app, length_replicate. unfold sizeof_key in *. simpl length. lia.
Qed.

(** The whole of [sadb_add]: the message, or a store outside the buffer when the key does
    not fit. *)
Lemma sadb_add_builds src dst type alg spi keybits keydata pid : inet_ok src -> inet_ok dst ->
  0 <= keybits < 2 ^ 16 -> Z.of_nat (length keydata) = keybits / 8 ->
  let len := before_key src dst + key_len keybits * 8 in
  sadb_add src dst type alg spi keybits keydata pid =
  if before_key src dst + sizeof_key + keybits / 8 <=? Z.of_nat BUFLEN then
    Some (message SADB_ADD type pid len ++ sa_struct spi alg ++ address_ext SADB_EXT_ADDRESS_SRC src ++
          address_ext SADB_EXT_ADDRESS_DST dst ++ key_ext keybits keydata ++ replicate (BUFLEN - Z.to_nat len) 0, len)
  else None.
Proof.
  intros Hs Hd Hk Hl len. pose proof (address_ext_length SADB_EXT_ADDRESS_SRC src Hs) as Las.
  pose proof (address_ext_length SADB_EXT_ADDRESS_DST dst Hd) as Lad.
  destruct (key_ext_length keybits keydata Hk Hl) as (Lk & Ek & Hle).
  assert (Es : address_len src = 3 \/ address_len src = 5) by (destruct src; [by left|by right|done|done]).
  assert (Ed : address_len dst = 3 \/ address_len dst = 5) by (destruct dst; [by left|by right|done|done]).
  set (hd := msg_header SADB_ADD type pid). assert (Hh : length hd = 16%nat) by done.
  assert (Hsa : length (sa_struct spi alg) = 16%nat) by done.
  unfold sadb_add, before_key, sizeof_msg, sizeof_sa, sizeof_key in *. fold hd. unfold BUFLEN in *.
  change (store (replicate 4096 0) 0 hd) with (store ([] ++ replicate 4096 0) 0 hd).
  rewrite (store_end [] hd 4096 0 eq_refl), (proj2 (Nat.leb_le _ _)) by lia. cbn [mbind option_bind]. cbn [app].
  rewrite store_end, (proj2 (Nat.leb_le _ _)) by lia. cbn [mbind option_bind].
  rewrite (store_address _ _ SADB_EXT_ADDRESS_SRC src) by (rewrite ?length_app; done || lia).
  rewrite (store_address _ _ SADB_EXT_ADDRESS_DST dst) by (rewrite ?length_app; done || lia).
  assert (Hks : length (key_struct keybits) = 8%nat) by done.
  rewrite store_end by (rewrite !length_app; lia).
  change (Z.of_nat 4096) with 4096.
  destruct (Z.leb_spec (16 + 16 + address_len src * 8 + address_len dst * 8 + 8 + keybits / 8) 4096) as [Hfit|Hfit].
  - rewrite (proj2 (Nat.leb_le _ _)) by lia. cbn [mbind option_bind].
    rewrite take_ge by lia. rewrite store_end, (proj2 (Nat.leb_le _ _)) by (rewrite ?length_app; lia). cbn [mbind option_bind].
    assert (Hup : key_len keybits * 8 <= 8 + keybits / 8 + 7) by (rewrite Ek; Z.to_euclidean_division_equations; lia).
    set (pad := Z.to_nat (key_len keybits * 8 - 8 - keybits / 8)).
    match goal with |- context [replicate ?m 0] => replace m with (pad + (4096 - Z.to_nat len))%nat by (unfold len, pad; lia) end.
    rewrite replicate_add, <- !app_assoc. unfold hd. rewrite store_len. cbn [mbind option_bind].
    unfold key_ext, sizeof_key. by rewrite <- !app_assoc.
  - rewrite (proj2 (Nat.leb_le _ _)) by lia. cbn [mbind option_bind].
    rewrite take_ge by lia. rewrite store_end, (proj2 (Nat.leb_gt _ _)) by (rewrite ?length_app; lia). done.
Qed.

(** *** Printing *)

Lemma le16_value w : 0 <= w < 2 ^ 16 -> w mod 256 + 256 * (w / 256 mod 256) = w.
Proof. intros H. assert (0 <= w / 256 < 256) by (Z.to_euclidean_division_equations; lia). rewrite (Z.mod_small (w / 256)) by lia. pose proof (Z.div_mod w 256). lia. Qed.

Section Parts.
Variable len0 : Z.

Lemma print_sa spi alg r :
  print_ext len0 (sa_struct spi alg ++ r) 0 =
    Some (Sa (bswap32 spi) 0 (Some "Mature"%string) (u8 alg) SADB_EALG_NONE false) /\
  rd16 (sa_struct spi alg ++ r) 0 = Some 2.
Proof.
  split; [|done]. set (m := sa_struct spi alg ++ r).
  assert (Hspi : rd32 m (0 + 4) = Some (bswap32 spi)).
  { transitivity (Some ((spi / 65536 / 256 mod 256 + 256 * (spi / 65536 mod 256)) + 65536 * (spi / 256 mod 256 + 256 * (spi mod 256)))); [done|].
    unfold bswap32. rewrite Z.div_div by lia. change (65536 * 256) with 16777216. change (2 ^ 24) with 16777216.
    change (2 ^ 16) with 65536. change (2 ^ 8) with 256. f_equal. lia. }
  assert (Ht : rd16 m (0 + 2) = Some 1) by done.
  unfold print_ext, sa_print. rewrite Ht, Hspi. done.
Qed.

Lemma sock_ntop_salen sa a b : inet_ok sa -> sock_ntop len0 sa a = sock_ntop len0 sa b.
Proof. by destruct sa. Qed.

Lemma print_address t sa r : t = SADB_EXT_ADDRESS_SRC \/ t = SADB_EXT_ADDRESS_DST -> inet_ok sa ->
  print_ext len0 (address_ext t sa ++ r) 0 = Some (Address t (sock_ntop len0 sa (salen sa)) (prefix_all sa) 0) /\
  rd16 (address_ext t sa ++ r) 0 = Some (address_len sa).
Proof.
  intros Ht Hs. split; [|by destruct sa].
  assert (Hl : load_sockaddr (address_ext t sa ++ r) 8 = Some sa).
  { destruct sa as [p a|p a| |]; [| |done|done]; destruct Hs as (Hp & Hl & _).
    - do 4 (destruct a as [|? a]; [done|]). destruct a; [|done]. unfold load_sockaddr. set (m := address_ext _ _ ++ r).
      assert (Hf : rd16 m 8 = Some AF_INET) by done.
      assert (Hport : rd16 m (8 + 2) = Some p) by (rewrite <- (le16_value p Hp); done).
      rewrite Hf, Hport. done.
    - do 16 (destruct a as [|? a]; [done|]). destruct a; [|done]. unfold load_sockaddr. set (m := address_ext _ _ ++ r).
      assert (Hf : rd16 m 8 = Some AF_INET6) by done.
      assert (Hport : rd16 m (8 + 2) = Some p) by (rewrite <- (le16_value p Hp); done).
      rewrite Hf, Hport. done. }
  unfold print_ext, address_print, sizeof_address. change (0 + 8) with 8. rewrite Hl.
  destruct sa as [p a|p a| |]; [| |done|done]; destruct Ht as [-> | ->]; done.
Qed.

Lemma print_key keybits keydata r : 0 <= keybits < 2 ^ 16 -> keybits mod 8 = 0 -> Z.of_nat (length keydata) = keybits / 8 ->
  print_ext len0 (key_ext keybits keydata ++ r) 0 = Some (Key SADB_EXT_KEY_AUTH keybits keydata) /\
  rd16 (key_ext keybits keydata ++ r) 0 = Some (key_len keybits).
Proof.
  intros Hk Hm Hl. destruct (key_ext_length keybits keydata Hk Hl) as (_ & Ek & _).
  assert (Hkl : 0 <= key_len keybits < 2 ^ 16) by (unfold key_len; apply u16_range). split.
  - unfold print_ext, key_print, sizeof_key.
    assert (Hb : rd16 (key_ext keybits keydata ++ r) (0 + 4) = Some keybits).
    { unfold key_ext, key_struct. rewrite (uwrap_small 16 keybits) by done. 
      transitivity (Some (keybits mod 256 + 256 * (keybits / 256 mod 256))); [done|by rewrite le16_value]. }
    assert (Ht : rd16 (key_ext keybits keydata ++ r) (0 + 2) = Some SADB_EXT_KEY_AUTH) by done.
    assert (Hd : rdn (key_ext keybits keydata ++ r) (0 + 8) (Z.to_nat ((keybits + 7) / 8)) = Some keydata).
    { replace (Z.to_nat ((keybits + 7) / 8)) with (length keydata) by (Z.to_euclidean_division_equations; lia).
      change (0 + 8) with (Z.of_nat (length (key_struct keybits)) + 0). unfold key_ext. rewrite <- !app_assoc.
      rewrite rdn_app by lia. replace (_ + 0 - _) with 0 by lia. apply rdn_here. }
    rewrite Ht, Hb. cbn [mbind option_bind]. rewrite Hd. done.
  - unfold key_ext, key_struct. rewrite <- !app_assoc. by apply rd16_here.
Qed.
End Parts.

(** One turn of the loop, on an extension that is printed as [i]. *)
Lemma walk_step len0 pre ext r n i fuel msglen out :
  print_ext len0 (ext ++ r) 0 = Some i -> rd16 (ext ++ r) 0 = Some n -> Z.of_nat (length ext) = n * 8 -> 0 < msglen ->
  walk len0 (pre ++ ext ++ r) (S fuel) msglen (Z.of_nat (length pre)) out =
  walk len0 ((pre ++ ext) ++ r) fuel (msglen - n * 8) (Z.of_nat (length (pre ++ ext))) (out ++ [i]).
Proof.
  intros Hp Hn Hl Hm. simpl. rewrite (proj2 (Z.leb_gt _ _)) by lia.
  pose proof (print_ext_app len0 pre (ext ++ r) 0 ltac:(lia)) as Hp'. rewrite Z.add_0_r, Hp in Hp'. rewrite Hp'.
  rewrite rd16_app, Z.sub_diag, Hn by lia. rewrite Z.shiftl_mul_pow2 by lia. change (2 ^ 3) with 8.
  rewrite <- app_assoc, length_app. do 2 f_equal; lia.
Qed.

(** The header that was stored is the one that is printed. *)
Lemma print_message len0 ty satype pid len tail : 0 <= ty < 256 -> 0 <= satype < 256 -> 0 <= pid < 2 ^ 32 ->
  len = len / 8 * 8 -> 0 <= len / 8 < 2 ^ 16 ->
  let mem := message ty satype pid len ++ tail in
  print_sadb_msg len0 mem len =
  Message (get_sadb_msg_type ty) 0 (get_sadb_satype satype) 0 pid
    (if len =? sizeof_msg then Done [] else walk len0 mem (Z.to_nat len) (len - sizeof_msg) sizeof_msg []).
Proof.
  intros Hty Hsat Hpid Hlen Hr mem. unfold print_sadb_msg.
  assert (H4 : rd16 mem 4 = Some (len / 8)).
  { transitivity (Some (u16 (len / 8) mod 256 + 256 * (u16 (len / 8) / 256 mod 256))); [done|].
    rewrite (uwrap_small 16), le16_value by lia. done. }
  assert (H1 : rd mem 1 = Some ty) by (transitivity (Some (u8 ty)); [done|by rewrite (uwrap_small 8) by lia]).
  assert (H3 : rd mem 3 = Some satype) by (transitivity (Some (u8 satype)); [done|by rewrite (uwrap_small 8) by lia]).
  assert (H12 : rd32 mem 12 = Some pid).
  { change mem with (take 12 (message ty satype pid len) ++ (le32 pid ++ tail)).
    rewrite rd32_app by (change (length (take 12 (message ty satype pid len))) with 12%nat; lia).
    change (12 - Z.of_nat (length (take 12 (message ty satype pid len)))) with 0. by apply rd32_here. }
  rewrite H4, H1, H3, H12. change (rd mem 0) with (Some 2). change (rd mem 2) with (Some 0).
  change (rd32 mem 8) with (Some 0). by rewrite <- Hlen, Z.eqb_refl.
Qed.

(** C32: [sadb_add] and [print_sadb_msg] agree on the format, for IPv4 or IPv6 addresses and
    a key of less than 2^16 bits that is a multiple of 8: the message built for a key
    that fits the buffer is printed as an "Add" with the association, both addresses and
    the key, and its length is the one in its header; every load and store is inside the
    buffer; all values are printed as given but the SPI, whose bytes the printing
    function takes for network order and so prints reversed ([bswap32]).  A key that
    does not fit is stored outside the buffer. *)
Theorem sadb_add_printed len0 src dst type alg spi keybits keydata pid :
  inet_ok src -> inet_ok dst -> 0 <= type < 256 -> 0 <= alg < 256 -> 0 <= pid < 2 ^ 32 ->
  0 <= keybits < 2 ^ 16 -> keybits mod 8 = 0 -> Z.of_nat (length keydata) = keybits / 8 ->
  if before_key src dst + sizeof_key + keybits / 8 <=? Z.of_nat BUFLEN then
    exists buf len, sadb_add src dst type alg spi keybits keydata pid = Some (buf, len) /\ length buf = BUFLEN /\
      print_sadb_msg len0 buf len =
        Message (Some "Add"%string) 0 (get_sadb_satype type) 0 pid
          (Done [Sa (bswap32 spi) 0 (Some "Mature"%string) alg SADB_EALG_NONE false;
                 Address SADB_EXT_ADDRESS_SRC (sock_ntop len0 src (salen src)) (prefix_all src) 0;
                 Address SADB_EXT_ADDRESS_DST (sock_ntop len0 dst (salen dst)) (prefix_all dst) 0;
                 Key SADB_EXT_KEY_AUTH keybits keydata])
  else sadb_add src dst type alg spi keybits keydata pid = None.
Proof.
  intros Hs Hd Ht Ha Hpid Hk Hm Hl. rewrite (sadb_add_builds src dst type alg spi keybits keydata pid Hs Hd Hk Hl).
  destruct (Z.leb_spec (before_key src dst + sizeof_key + keybits / 8) (Z.of_nat BUFLEN)) as [Hfit|]; [|done].
  eexists _, _. split; [done|].
  pose proof (address_ext_length SADB_EXT_ADDRESS_SRC src Hs) as Ls. pose proof (address_ext_length SADB_EXT_ADDRESS_DST dst Hd) as Ld.
  destruct (key_ext_length keybits keydata Hk Hl) as (Lk & Ek & Hle).
  set (len := before_key src dst + key_len keybits * 8). set (z := replicate (BUFLEN - Z.to_nat len) 0).
  assert (As : address_len src = 3 \/ address_len src = 5) by (destruct src; [by left|by right|done|done]).
  assert (Ad : address_len dst = 3 \/ address_len dst = 5) by (destruct dst; [by left|by right|done|done]).
  assert (Hlen : 32 < len <= 4096 /\ len = len / 8 * 8).
  { unfold len, before_key, sizeof_msg, sizeof_sa, sizeof_key, BUFLEN in *. Z.to_euclidean_division_equations; lia. }
  split.
  { rewrite !length_app. unfold z. rewrite length_replicate. unfold len, before_key, sizeof_msg, sizeof_sa in *.
    change (length (message SADB_ADD type pid (16 + 16 + address_len src * 8 + address_len dst * 8 + key_len keybits * 8))) with 16%nat.
    change (length (sa_struct spi alg)) with 16%nat. unfold BUFLEN in *. lia. }
  rewrite print_message by (unfold SADB_ADD; lia). change (get_sadb_msg_type SADB_ADD) with (Some "Add"%string).
  rewrite (proj2 (Z.eqb_neq len sizeof_msg)) by (unfold sizeof_msg; lia). f_equal. set (hd := message SADB_ADD type pid len).
  replace (Z.to_nat len) with (S (S (S (S (Z.to_nat len - 4))))) by lia.
  change sizeof_msg with (Z.of_nat (length hd)) at 2.
  assert (Hh : Z.of_nat (length hd) = 16) by done.
  destruct (print_sa len0 spi alg (address_ext SADB_EXT_ADDRESS_SRC src ++ address_ext SADB_EXT_ADDRESS_DST dst ++ key_ext keybits keydata ++ z)) as [P1 R1].
  destruct (print_address len0 SADB_EXT_ADDRESS_SRC src (address_ext SADB_EXT_ADDRESS_DST dst ++ key_ext keybits keydata ++ z)) as [P2 R2]; [by left|done|].
  destruct (print_address len0 SADB_EXT_ADDRESS_DST dst (key_ext keybits keydata ++ z)) as [P3 R3]; [by right|done|].
  destruct (print_key len0 keybits keydata z Hk Hm Hl) as [P4 R4].
  assert (0 <= keybits / 8) by lia. unfold len, before_key, sizeof_msg, sizeof_sa, sizeof_key in *.
  rewrite (walk_step _ _ _ _ _ _ _ _ _ P1 R1 eq_refl) by lia.
  rewrite (walk_step _ _ _ _ _ _ _ _ _ P2 R2 Ls) by lia.
  rewrite (walk_step _ _ _ _ _ _ _ _ _ P3 R3 Ld) by lia.
  rewrite (walk_step _ _ _ _ _ _ _ _ _ P4 R4 Lk) by lia.
  rewrite (uwrap_small 8 alg) by lia.
  match goal with |- walk _ _ ?f ?m _ _ = _ => replace m with 0 by lia; by destruct f end.
Qed.

(** A message without extensions: [sadb_register] and [sadb_dump]. *)
Lemma sadb_request_printed len0 type satype pid : 0 <= type < 256 -> 0 <= satype < 256 -> 0 <= pid < 2 ^ 32 ->
  exists buf, sadb_request type satype pid = Some buf /\
    print_sadb_msg len0 buf sizeof_msg = Message (get_sadb_msg_type type) 0 (get_sadb_satype satype) 0 pid (Done []).
Proof.
  intros Ht Hs Hp. exists (message type satype pid sizeof_msg). split; [done|].
  rewrite <- (app_nil_r (message type satype pid sizeof_msg)). by rewrite print_message.
Qed.

(** An extension of length 0 is printed for ever. *)
Lemma zero_length_forever len0 mem msglen ext i : 0 < msglen -> print_ext len0 mem ext = Some i -> rd16 mem ext = Some 0 ->
  forall fuel out, walk len0 mem fuel msglen ext out = More (out ++ replicate fuel i).
Proof.
  intros Hm Hp Hl fuel. induction fuel as [|fuel IH]; intros out; simpl; rewrite (proj2 (Z.leb_gt _ _)) by lia.
  - by rewrite app_nil_r.
  - rewrite Hp, Hl. change (Z.shiftl 0 3) with 0. rewrite Z.sub_0_r, Z.add_0_r, IH, <- app_assoc. done.
Qed.

Definition demo_src : SA := Sa_in 0 [10; 0; 0; 1].
Definition demo_dst : SA := Sa_in6 0 (replicate 15 0 ++ [1]).

Lemma sadb_add_printed_witness :
  exists buf len, sadb_add demo_src demo_dst 2 2 0x9876 128 (replicate 16 171) 77 = Some (buf, len) /\ length buf = BUFLEN /\
    print_sadb_msg 0 buf len =
      Message (Some "Add"%string) 0 (Some "IPsec AH"%string) 0 77
        (Done [Sa 0x76980000 0 (Some "Mature"%string) 2 0 false; Address 5 (Text (codes "10.0.0.1")) 32 0;
               Address 6 (Text (codes "::1")) 128 0; Key 8 128 (replicate 16 171)]).
Proof.
  apply (sadb_add_printed 0 demo_src demo_dst 2 2 0x9876 128 (replicate 16 171) 77); try lia; try reflexivity.
  - split; [lia|]. split; [reflexivity|]. repeat constructor; vm_compute; intuition congruence.
  - split; [lia|]. split; [reflexivity|]. repeat constructor; vm_compute; intuition congruence.
Defined.
