(* ===== verification/Icmpd.v ===== *)
(** * The ICMP daemon: [unixNetV1/icmpd]

    Clients pass their UDP sockets to the daemon over Unix domain connections; it
    reads all ICMP messages and writes each error to the clients whose port it quotes.
    [readable_listen], [readable_conn], [readable_v4], [readable_v6] and the loop of
    [icmpd.c], over all answers of the kernel; loads from the receive buffer, which is
    on the stack, are checked.  Writes to clients succeed; the text printed is left
    out. *)
From S2P Require Import Prelude Mem Inet Gai GaiSpec Cksum SockAddr TcpServ Traceroute.

Definition FD_SETSIZE : nat := 1024.
Definition MAXLINE : nat := 4096.
Definition ICMP_SOURCEQUENCH : Z := 4.
Definition ICMP_UNREACH_NEEDFRAG : Z := 4.
Definition ICMP6_PACKET_TOO_BIG : Z := 2.

(** [struct client]; the array is global, so it is 0 at first. *)
Record entry := Entry { connfd : Z; family : Z; lport : Z }.

(** The globals of [icmpd.h]. *)
Record daemon := Daemon { client : list entry; maxi : Z; maxfd : Z; nready : Z; allset : gset Z }.

(** [icmpd_errno] *)
Inductive icmp_errno := EHOSTUNREACH | EMSGSIZE | ECONNREFUSED.

(** [struct icmpd_err] *)
Record icmpd_err := IcmpdErr { icmpd_errno : icmp_errno; icmpd_type : Z; icmpd_code : Z; icmpd_len : Z; icmpd_dest : SA }.

(** What the daemon does to its descriptors; [Status_to fd (Some (fam, port))] is the "1"
    for a socket of that family bound to that port, [Status_to fd None] the "0". *)
Inductive event :=
| Accepted (fd : Z)
| Error_to (fd : Z) (err : icmpd_err)
| Status_to (fd : Z) (socket : option (Z * Z))
| Closed (fd : Z).

(** How a function ends: with what it did; [err_quit]; a load outside the buffer; [FD_SET]
    on a descriptor that does not fit. *)
Inductive outcome := Ends (d : daemon) (evs : list event) | Quits | Overrun | Set_overflow.

Definition less_ready (d : daemon) : daemon := Daemon (client d) (maxi d) (maxfd d) (nready d - 1) (allset d).
Definition set_client (i : nat) (e : entry) (d : daemon) : daemon :=
  Daemon (<[i := e]> (client d)) (maxi d) (maxfd d) (nready d) (allset d).

(** ** [readable_listen] *)

Definition readable_listen (fd : Z) (d : daemon) : outcome :=
  match find_free (map connfd (client d)) with
  | None => Ends (less_ready d) [Accepted fd; Closed fd]
  | Some i =>
      if Z.of_nat FD_SETSIZE <=? fd then Set_overflow
      else
        let e := default (Entry 0 0 0) (client d !! i) in
        Ends (less_ready (Daemon (<[i := Entry fd (family e) (lport e)]> (client d))
                            (if Z.of_nat i >? maxi d then Z.of_nat i else maxi d)
                            (if fd >? maxfd d then fd else maxfd d) (nready d) (allset d ∪ {[fd]})))
          [Accepted fd]
  end.

(** ** [readable_conn] *)

(** [sock_bind_wild]: whether [bind] succeeds, and the port [getsockname] gives then. *)
Definition sock_bind_wild (bound : bool) (name : option Z) (fam : Z) : Z :=
  if (fam =? AF_INET) || (fam =? AF_INET6) then
    if bound then default (-1) name else -1
  else -1.

(** What the kernel answers: the data read and the descriptor that came with it, the
    name of its socket, and the answers to [sock_bind_wild]. *)
Record conn_answers := ConnAnswers {
  n_read : Z; recvfd : Z; sockname : option SA; bound : bool; wild_port : option Z }.

(** The labels [clienterr] and [clientdone]. *)
Definition clientdone (i : nat) (unixfd rfd : Z) (d : daemon) : daemon * list event :=
  let e := default (Entry 0 0 0) (client d !! i) in
  (less_ready (Daemon (<[i := Entry (-1) (family e) (lport e)]> (client d)) (maxi d) (maxfd d) (nready d) (allset d ∖ {[unixfd]})),
   [Closed unixfd] ++ (if rfd >=? 0 then [Closed rfd] else [])).

Definition readable_conn (i : nat) (a : conn_answers) (d : daemon) : daemon * list event :=
  let e := default (Entry 0 0 0) (client d !! i) in
  let unixfd := connfd e in
  let clienterr d rfd := let (d', evs) := clientdone i unixfd rfd d in (d', Status_to unixfd None :: evs) in
  if n_read a =? 0 then clientdone i unixfd (-1) d
  else if recvfd a <? 0 then clienterr d (-1)
  else match sockname a with
       | None => clienterr d (recvfd a)
       | Some ss =>
           let fam := sa_family ss in
           let port := sock_get_port ss in
           let accept p := (less_ready (set_client i (Entry unixfd fam p) d), [Status_to unixfd (Some (fam, p)); Closed (recvfd a)]) in
           if port =? 0 then
             let p := sock_bind_wild (bound a) (wild_port a) fam in
             if p <=? 0 then clienterr (set_client i (Entry unixfd fam p) d) (recvfd a) else accept p
           else accept port
       end.

(** ** [readable_v4], [readable_v6] *)

(** A message read: the errors to write, [err_quit], or a load outside [buf]. *)
Inductive read_msg := Writes (evs : list event) | Too_short | Bad_load.

(** The loop over the clients with a family and a port. *)
Definition clients_of (fam sport : Z) (d : daemon) : list Z :=
  map connfd (List.filter (fun e => negb (connfd e <? 0) && (family e =? fam) && (lport e =? sport))
                (take (Z.to_nat (maxi d + 1)) (client d))).

Definition errno_v4 (ty code : Z) : icmp_errno :=
  if ty =? ICMP_UNREACH then
    if code =? ICMP_UNREACH_PORT then ECONNREFUSED
    else if code =? ICMP_UNREACH_NEEDFRAG then EMSGSIZE else EHOSTUNREACH
  else EHOSTUNREACH.

Definition errno_v6 (ty code : Z) : icmp_errno :=
  let e := if (ty =? ICMP6_DST_UNREACH) && (code =? ICMP6_DST_UNREACH_NOPORT) then ECONNREFUSED else EHOSTUNREACH in
  if ty =? ICMP6_PACKET_TOO_BIG then EMSGSIZE else e.

(** One record for every client found; the destination is loaded only if there is one. *)
Definition tell (fds : list Z) (dest : option SA) (err : SA -> icmpd_err) : read_msg :=
  match fds, dest with
  | [], _ => Writes []
  | _, Some sa => Writes (map (fun fd => Error_to fd (err sa)) fds)
  | _, None => Bad_load
  end.

Definition or_bad_load (r : option read_msg) : read_msg := default Bad_load r.

Definition read_v4 (buf : list Z) (n : Z) (d : daemon) : read_msg := or_bad_load (
  hlen1 ← hlen buf 0;
  let icmplen := n - hlen1 in
  if icmplen <? 8 then Some Too_short
  else
    ty ← rd buf hlen1; code ← rd buf (hlen1 + 1);
    if (ty =? ICMP_UNREACH) || (ty =? ICMP_TIMXCEED) || (ty =? ICMP_SOURCEQUENCH) then
      if icmplen <? 8 + 20 + 8 then Some Too_short
      else
        let hip := hlen1 + 8 in
        hlen2 ← hlen buf hip; src ← rdn buf (hip + 12) 4; dst ← rdn buf (hip + 16) 4; proto ← rd buf (hip + 9);
        if proto =? IPPROTO_UDP then
          sport ← rd16 buf (hip + hlen2);
          Some (tell (clients_of AF_INET sport d)
                  (dport ← rd16 buf (hip + hlen2 + 2); Some (Sa_in dport dst))
                  (IcmpdErr (errno_v4 ty code) ty code 16))
        else Some (Writes [])
    else Some (Writes [])).

Definition read_v6 (buf : list Z) (n : Z) (d : daemon) : read_msg := or_bad_load (
  if n <? 8 then Some Too_short
  else
    ty ← rd buf 0; code ← rd buf 1;
    if (ty =? ICMP6_DST_UNREACH) || (ty =? ICMP6_PACKET_TOO_BIG) || (ty =? ICMP6_TIME_EXCEEDED) then
      if n <? 8 + 8 then Some Too_short
      else
        src ← rdn buf (8 + 8) 16; dst ← rdn buf (8 + 24) 16; nxt ← rd buf (8 + 6);
        if nxt =? IPPROTO_UDP then
          sport ← rd16 buf (8 + 40);
          Some (tell (clients_of AF_INET6 sport d)
                  (dport ← rd16 buf (8 + 40 + 2); Some (Sa_in6 dport dst))
                  (IcmpdErr (errno_v6 ty code) ty code 28))
        else Some (Writes [])
    else Some (Writes [])).

(** [Recvfrom] over what the stack holds. *)
Definition readable_v (read : list Z -> Z -> daemon -> read_msg) (stack msg : list Z) (d : daemon) : outcome :=
  let m := take MAXLINE msg in
  match read (memcpy_into stack m) (Z.of_nat (length m)) d with
  | Writes evs => Ends (less_ready d) evs
  | Too_short => Quits
  | Bad_load => Overrun
  end.
Definition readable_v4 := readable_v read_v4.
Definition readable_v6 := readable_v read_v6.

(** ** [main] *)

Section Main.
Variables fd4 fd6 listenfd : Z.

Definition main_init : daemon :=
  Daemon (replicate FD_SETSIZE (Entry (-1) 0 0)) (-1) (Z.max (Z.max fd4 fd6) listenfd) 0 {[fd4; fd6; listenfd]}.

(** What the kernel answers in one pass: the descriptors [select] reports, the connection
    accepted, the messages, what the stack holds, and the answers for each client. *)
Record answers := Answers {
  rset : gset Z; new_fd : Z; msg4 : list Z; msg6 : list Z; stack : list Z; conn : nat -> conn_answers }.

(** The loop over the clients; [nready] decides after each one that was readable. *)
Fixpoint check_clients (a : answers) (idx : list nat) (d : daemon) (evs : list event) : daemon * list event :=
  match idx with
  | [] => (d, evs)
  | i :: idx' =>
      let fd := connfd (default (Entry (-1) 0 0) (client d !! i)) in
      if negb (fd <? 0) && bool_decide (fd ∈ rset a) then
        let (d', evs') := readable_conn i (conn a i) d in
        if nready d' <=? 0 then (d', evs ++ evs') else check_clients a idx' d' (evs ++ evs')
      else check_clients a idx' d evs
  end.

(** [if (FD_ISSET(fd, &rset)) if (readable_x() <= 0) continue;] and the rest of the pass. *)
Definition guarded (ready : bool) (f : daemon -> outcome) (d : daemon) (evs : list event)
    (k : daemon -> list event -> outcome) : outcome :=
  if ready then
    match f d with
    | Ends d' evs' => if nready d' <=? 0 then Ends d' (evs ++ evs') else k d' (evs ++ evs')
    | o => o
    end
  else k d evs.

Definition pass (a : answers) (d : daemon) : outcome :=
  let d := Daemon (client d) (maxi d) (maxfd d) (Z.of_nat (size (rset a))) (allset d) in
  guarded (bool_decide (listenfd ∈ rset a)) (readable_listen (new_fd a)) d [] (fun d evs =>
  guarded (bool_decide (fd4 ∈ rset a)) (readable_v4 (stack a) (msg4 a)) d evs (fun d evs =>
  guarded (bool_decide (fd6 ∈ rset a)) (readable_v6 (stack a) (msg6 a)) d evs (fun d evs =>
  let (d', evs') := check_clients a (List.seq 0 (Z.to_nat (maxi d + 1))) d evs in Ends d' evs'))).
End Main.

(** ** The table *)

Section Table.
Variables fd4 fd6 listenfd : Z.

Definition base : gset Z := {[fd4; fd6; listenfd]}.

(** Every client in use has an entry of its own up to [maxi], and the set given to
    [select] holds exactly the clients and the daemon's own descriptors. *)
Record inv (d : daemon) : Prop := {
  i_len : length (client d) = FD_SETSIZE;
  i_maxi : -1 <= maxi d < Z.of_nat FD_SETSIZE;
  i_active : forall i e, client d !! i = Some e -> 0 <= connfd e ->
    Z.of_nat i <= maxi d /\ (connfd e ∈ allset d) /\ (connfd e ∉ base) /\ connfd e < Z.of_nat FD_SETSIZE;
  i_distinct : forall i j e e', client d !! i = Some e -> client d !! j = Some e' -> 0 <= connfd e -> connfd e = connfd e' -> i = j;
  i_set : forall x, x ∈ allset d -> x ∈ base \/ exists i e, client d !! i = Some e /\ connfd e = x /\ 0 <= x;
  i_base : base ⊆ allset d;
  i_maxfd : forall x, x ∈ allset d -> x <= maxfd d }.

Lemma main_init_table : inv (main_init fd4 fd6 listenfd).
Proof.
  constructor; unfold main_init; cbn [client maxi maxfd allset].
  - reflexivity.
  - unfold FD_SETSIZE. lia.
  - intros i e [-> _]%lookup_replicate. cbn. lia.
  - intros i j e e' [-> _]%lookup_replicate. cbn. lia.
  - intros x Hx. by left.
  - done.
  - intros x. rewrite !elem_of_union, !elem_of_singleton. lia.
Qed.

Lemma less_ready_table d : inv d -> inv (less_ready d).
Proof. intros []. by constructor. Qed.

Lemma set_nready_table d n : inv d -> inv (Daemon (client d) (maxi d) (maxfd d) n (allset d)).
Proof. intros []. by constructor. Qed.

(** An entry that keeps its descriptor. *)
Lemma set_client_table d i e fam p : inv d -> client d !! i = Some e -> inv (set_client i (Entry (connfd e) fam p) d).
Proof.
  intros [I1 I2 I3 I4 I5 I6 I7] Hi.
  assert (Hl : forall j e', <[i := Entry (connfd e) fam p]> (client d) !! j = Some e' ->
    exists e0, client d !! j = Some e0 /\ connfd e' = connfd e0).
  { intros j e' [(-> & <- & _)|(_ & H)]%list_lookup_insert_Some; [by exists e|by exists e']. }
  constructor; simpl; try done.
  - by rewrite length_insert.
  - intros j e' (e0 & Hj & ->)%Hl. by apply I3.
  - intros j k e1 e2 (e1' & Hj & ->)%Hl (e2' & Hk & ->)%Hl. by apply (I4 j k e1' e2').
  - intros x [Hx|(j & e0 & Hj & Hx & Hpos)]%I5; [by left|right].
    destruct (decide (j = i)) as [->|Hne].
    + exists i, (Entry (connfd e) fam p). simplify_eq. split; [|done]. apply list_lookup_insert_eq. by apply lookup_lt_Some in Hi.
    + exists j, e0. by rewrite list_lookup_insert_ne.
Qed.

(** A client leaves. *)
Lemma clientdone_table d i e rfd : inv d -> client d !! i = Some e -> 0 <= connfd e ->
  inv (clientdone i (connfd e) rfd d).1.
Proof.
  intros [I1 I2 I3 I4 I5 I6 I7] Hi Hp. unfold clientdone. rewrite Hi. simpl. apply less_ready_table.
  assert (Hl : forall j e', <[i := Entry (-1) (family e) (lport e)]> (client d) !! j = Some e' -> 0 <= connfd e' ->
    j <> i /\ client d !! j = Some e').
  { intros j e' [(-> & <- & _)|(Hne & H)]%list_lookup_insert_Some; simpl; [lia|done]. }
  constructor; simpl; try done.
  - by rewrite length_insert.
  - intros j e' Hj Hpos. destruct (Hl j e' Hj Hpos) as [Hne Hj']. destruct (I3 j e' Hj' Hpos) as (H1 & H2 & H3 & H4).
    split_and!; try done. apply elem_of_difference. split; [done|]. rewrite elem_of_singleton. intros E.
    apply Hne. symmetry. by apply (I4 i j e e').
  - intros j k e1 e2 Hj Hk Hpos E. destruct (Hl j e1 Hj Hpos) as [_ Hj']. destruct (Hl k e2 Hk) as [_ Hk']; [lia|].
    by apply (I4 j k e1 e2).
  - intros x [Hx Hne]%elem_of_difference. destruct (I5 x Hx) as [|(j & e0 & Hj & E & Hpos)]; [by left|right].
    exists j, e0. split; [|done]. rewrite list_lookup_insert_ne; [done|]. intros <-. simplify_eq. set_solver.
  - destruct (I3 i e Hi Hp) as (_ & _ & Hb & _). set_solver.
  - intros x [Hx _]%elem_of_difference. by apply I7.
Qed.

Lemma readable_conn_table d i e a : inv d -> client d !! i = Some e -> 0 <= connfd e ->
  inv (readable_conn i a d).1.
Proof.
  intros HI Hi Hp. unfold readable_conn. rewrite Hi. simpl.
  assert (Hdone : forall rfd, inv (clientdone i (connfd e) rfd d).1) by (intros; by apply clientdone_table).
  assert (Hdone' : forall fam p rfd, inv (clientdone i (connfd e) rfd (set_client i (Entry (connfd e) fam p) d)).1).
  { intros fam p rfd. apply (clientdone_table _ i (Entry (connfd e) fam p)); [by apply set_client_table| |done].
    simpl. apply list_lookup_insert_eq. by apply lookup_lt_Some in Hi. }
  destruct (_ =? 0); [apply Hdone|]. destruct (_ <? 0); [apply (Hdone (-1))|].
  destruct (sockname a) as [ss|]; [|apply (Hdone (recvfd a))].
  destruct (_ =? 0); [destruct (_ <=? 0)|]; [apply (Hdone' _ _ (recvfd a))|simpl..]; by apply less_ready_table, set_client_table.
Qed.

Lemma check_clients_table a idx : forall d evs, inv d -> inv (check_clients a idx d evs).1.
Proof.
  induction idx as [|i idx IH]; intros d evs HI; simpl; [done|].
  destruct (client d !! i) as [e|] eqn:Hi; simpl; [|by apply IH].
  destruct (Z.ltb_spec (connfd e) 0) as [|Hp]; simpl; [by apply IH|]. destruct (bool_decide _); [|by apply IH].
  pose proof (readable_conn_table d i e (conn a i) HI Hi Hp) as HI'.
  destruct (readable_conn i (conn a i) d) as [d' evs']. destruct (nready d' <=? 0); [done|by apply IH].
Qed.

(** A client comes. *)
Lemma readable_listen_table d fd : inv d -> fd ∉ allset d -> 0 <= fd ->
  match readable_listen fd d with
  | Ends d' _ => inv d'
  | Set_overflow => Z.of_nat FD_SETSIZE <= fd
  | Quits | Overrun => False
  end.
Proof.
  intros HI Hf Hp. unfold readable_listen. destruct (find_free _) as [i|] eqn:E; [|by apply less_ready_table].
  apply find_free_some in E as (x & (e & -> & Hi)%list_lookup_fmap_Some_1 & Hneg).
  destruct (Z.leb_spec (Z.of_nat FD_SETSIZE) fd) as [|Hsz]; [done|]. apply less_ready_table.
  destruct HI as [I1 I2 I3 I4 I5 I6 I7]. rewrite Hi. cbn [default from_option].
  pose proof (lookup_lt_Some _ _ _ Hi) as Hlt. rewrite I1 in Hlt.
  assert (Hm : maxi d <= (if Z.of_nat i >? maxi d then Z.of_nat i else maxi d) < Z.of_nat FD_SETSIZE /\
    Z.of_nat i <= (if Z.of_nat i >? maxi d then Z.of_nat i else maxi d)) by (destruct (Z.gtb_spec (Z.of_nat i) (maxi d)); lia).
  assert (Hx : maxfd d <= (if fd >? maxfd d then fd else maxfd d) /\ fd <= (if fd >? maxfd d then fd else maxfd d))
    by (destruct (Z.gtb_spec fd (maxfd d)); lia).
  assert (Hb : fd ∉ base) by set_solver.
  assert (Hl : forall j e', <[i := Entry fd (family e) (lport e)]> (client d) !! j = Some e' -> 0 <= connfd e' ->
    (j = i /\ connfd e' = fd) \/ (j <> i /\ client d !! j = Some e' /\ connfd e' <> fd)).
  { intros j e' [(-> & <- & _)|(Hne & H)]%list_lookup_insert_Some Hpos; [by left|right]. split_and!; [done|done|].
    intros <-. by destruct (I3 j e' H Hpos) as (_ & ? & _). }
  constructor; cbn [client maxi maxfd allset].
  - by rewrite length_insert.
  - lia.
  - intros j e' Hj Hpos. destruct (Hl j e' Hj Hpos) as [[-> ->]|(_ & Hj' & _)]; [split_and!; [lia|set_solver|done|done]|].
    destruct (I3 j e' Hj' Hpos) as (? & ? & ? & ?). split_and!; [lia|set_solver|done|done].
  - intros j k e1 e2 Hj Hk Hpos E. destruct (Hl j e1 Hj Hpos) as [[-> H1]|(Hn1 & Hj' & H1)];
      (destruct (Hl k e2 Hk) as [[-> H2]|(Hn2 & Hk' & H2)]; [lia|..]); try done; [congruence|congruence|].
    by apply (I4 j k e1 e2).
  - intros x [Hx'| ->%elem_of_singleton]%elem_of_union.
    + destruct (I5 x Hx') as [|(j & e0 & Hj & E & Hpos)]; [by left|right]. exists j, e0. split; [|done].
      rewrite list_lookup_insert_ne; [done|]. intros <-. simplify_eq. lia.
    + right. exists i, (Entry fd (family e) (lport e)). split; [|done]. apply list_lookup_insert_eq. lia.
  - set_solver.
  - intros x [Hx'%I7| ->%elem_of_singleton]%elem_of_union; lia.
Qed.
End Table.

(** ** The messages *)

Lemma rd_in_range (buf : list Z) off : 0 <= off < Z.of_nat (length buf) -> exists b, rd buf off = Some b.
Proof. intros H. unfold rd. rewrite (proj2 (Z.ltb_ge _ _)) by lia. apply lookup_lt_is_Some. lia. Qed.

Lemma rd16_in_range (buf : list Z) off : 0 <= off -> off + 1 < Z.of_nat (length buf) -> exists w, rd16 buf off = Some w.
Proof.
  intros H1 H2. unfold rd16. destruct (rd_in_range buf off) as [a ->]; [lia|]. destruct (rd_in_range buf (off + 1)) as [b ->]; [lia|].
  by eexists.
Qed.

Lemma rdn_in_range (buf : list Z) n : forall off, 0 <= off -> off + Z.of_nat n <= Z.of_nat (length buf) -> exists l, rdn buf off n = Some l.
Proof.
  induction n as [|n IH]; intros off H1 H2; simpl; [by eexists|]. destruct (rd_in_range buf off) as [a ->]; [lia|].
  destruct (IH (off + 1)) as [l E]; [lia..|]. simpl. rewrite E. by eexists.
Qed.

Lemma hlen_in_range (buf : list Z) off : 0 <= off < Z.of_nat (length buf) -> exists h, hlen buf off = Some h /\ 0 <= h <= 60.
Proof.
  intros H. unfold hlen. destruct (rd_in_range buf off H) as [b ->]. eexists. split; [done|].
  rewrite land_15, Z.shiftl_mul_pow2 by lia. change (2 ^ 2) with 4. pose proof (Z.mod_pos_bound b 16). lia.
Qed.

Lemma tell_safe fds (o : option SA) err : (exists sa, o = Some sa) -> tell fds o err <> Bad_load.
Proof. intros [sa ->]. by destruct fds. Qed.

(** No byte of a message makes the daemon leave its buffer. *)
Lemma read_v4_safe buf n d : length buf = MAXLINE -> n <= Z.of_nat MAXLINE -> read_v4 buf n d <> Bad_load.
Proof.
  intros Hb Hn. assert (H : Z.of_nat (length buf) = 4096) by (by rewrite Hb). unfold read_v4.
  destruct (hlen_in_range buf 0) as (h1 & -> & H1); [lia|]. cbn -[rd rd16 rdn hlen Z.add Z.sub Z.ltb].
  destruct (n - h1 <? 8); [done|]. destruct (rd_in_range buf h1) as [ty ->]; [lia|].
  destruct (rd_in_range buf (h1 + 1)) as [code ->]; [lia|]. cbn -[rd rd16 rdn hlen Z.add Z.sub Z.ltb Z.eqb].
  destruct (_ || _); [|done]. destruct (_ <? _); [done|].
  destruct (hlen_in_range buf (h1 + 8)) as (h2 & -> & H2); [lia|].
  destruct (rdn_in_range buf 4 (h1 + 8 + 12)) as [src Es]; [lia..|]. destruct (rdn_in_range buf 4 (h1 + 8 + 16)) as [dst Ed]; [lia..|].
  destruct (rd_in_range buf (h1 + 8 + 9)) as [p Ep]; [lia|]. cbn [mbind option_bind]. rewrite Es. cbn [mbind option_bind]. rewrite Ed.
  cbn [mbind option_bind]. rewrite Ep. cbn [mbind option_bind]. destruct (p =? IPPROTO_UDP); [|done].
  destruct (rd16_in_range buf (h1 + 8 + h2)) as [sp ->]; [lia..|]. cbn [mbind option_bind or_bad_load default from_option].
  apply tell_safe. destruct (rd16_in_range buf (h1 + 8 + h2 + 2)) as [dp ->]; [lia..|]. by eexists.
Qed.

Lemma read_v6_safe buf n d : length buf = MAXLINE -> read_v6 buf n d <> Bad_load.
Proof.
  intros Hb. assert (H : Z.of_nat (length buf) = 4096) by (by rewrite Hb). unfold read_v6.
  destruct (n <? 8); [done|]. destruct (rd_in_range buf 0) as [ty ->]; [lia|]. destruct (rd_in_range buf 1) as [code ->]; [lia|].
  cbn [mbind option_bind]. destruct (_ || _); [|done]. destruct (_ <? _); [done|].
  destruct (rdn_in_range buf 16 (8 + 8)) as [src ->]; [lia..|]. destruct (rdn_in_range buf 16 (8 + 24)) as [dst ->]; [lia..|].
  destruct (rd_in_range buf (8 + 6)) as [p ->]; [lia|]. cbn [mbind option_bind]. destruct (p =? IPPROTO_UDP); [|done].
  destruct (rd16_in_range buf (8 + 40)) as [sp ->]; [lia..|]. cbn [mbind option_bind or_bad_load default from_option].
  apply tell_safe. destruct (rd16_in_range buf (8 + 40 + 2)) as [dp ->]; [lia..|]. by eexists.
Qed.

Section Pass.
Variables fd4 fd6 listenfd : Z.

(** The kernel's answers make sense: a new descriptor is not in use. *)
Definition answers_ok (a : answers) (d : daemon) : Prop := (new_fd a ∉ allset d) /\ 0 <= new_fd a /\ length (stack a) = MAXLINE.

(** How one pass may end. *)
Definition pass_ends (a : answers) (o : outcome) : Prop :=
  match o with
  | Ends d' _ => inv fd4 fd6 listenfd d'
  | Quits => True
  | Overrun => False
  | Set_overflow => Z.of_nat FD_SETSIZE <= new_fd a
  end.

Lemma guarded_ends a ready f d evs k : inv fd4 fd6 listenfd d ->
  pass_ends a (f d) -> (forall d' evs', inv fd4 fd6 listenfd d' -> pass_ends a (k d' evs')) ->
  pass_ends a (guarded ready f d evs k).
Proof.
  intros HI Hf Hk. unfold guarded. destruct ready; [|by apply Hk].
  destruct (f d) as [d' evs'| | |]; [|done..]. destruct (nready d' <=? 0); [done|by apply Hk].
Qed.

Lemma readable_v_ends read a msg d : inv fd4 fd6 listenfd d -> length (stack a) = MAXLINE ->
  (forall buf n, length buf = MAXLINE -> n <= Z.of_nat MAXLINE -> read buf n d <> Bad_load) ->
  pass_ends a (readable_v read (stack a) msg d).
Proof.
  intros HI Hs Hr. unfold readable_v. set (m := take MAXLINE msg). assert (Hm : (length m <= MAXLINE)%nat) by (unfold m; rewrite length_take; lia).
  specialize (Hr (memcpy_into (stack a) m) (Z.of_nat (length m))). destruct (read _ _ d); simpl; [by apply less_ready_table|done|].
  apply Hr; [|lia|done]. rewrite memcpy_into_length; lia.
Qed.

Lemma pass_table a d : inv fd4 fd6 listenfd d -> answers_ok a d -> pass_ends a (pass fd4 fd6 listenfd a d).
Proof.
  intros HI (Hnew & Hpos & Hs). unfold pass. apply (set_nready_table _ _ _ d (Z.of_nat (size (rset a)))) in HI.
  apply guarded_ends; [done| |].
  { pose proof (readable_listen_table fd4 fd6 listenfd _ (new_fd a) HI Hnew Hpos) as Hl. by destruct (readable_listen _ _). }
  intros d1 e1 H1. apply guarded_ends; [done|apply readable_v_ends; [done..|]; intros; by apply read_v4_safe|].
  intros d2 e2 H2. apply guarded_ends; [done|apply readable_v_ends; [done..|]; intros; by apply read_v6_safe|].
  intros d3 e3 H3. pose proof (check_clients_table fd4 fd6 listenfd a (List.seq 0 (Z.to_nat (maxi d3 + 1))) d3 e3 H3) as H4.
  by destruct (check_clients _ _ _ _).
Qed.

(** The states of the daemon, with what it has done so far. *)
Inductive reachable : daemon -> list event -> Prop :=
| reach_init : reachable (main_init fd4 fd6 listenfd) []
| reach_pass a d log d' evs :
    reachable d log -> answers_ok a d -> pass fd4 fd6 listenfd a d = Ends d' evs -> reachable d' (log ++ evs).

Lemma reachable_clients d log : reachable d log -> inv fd4 fd6 listenfd d.
Proof.
  induction 1 as [|a d log d' evs _ IH Ha E]; [apply main_init_table|].
  pose proof (pass_table a d IH Ha) as H. by rewrite E in H.
Qed.

(** *** Registrations

    What the client on a descriptor has registered since it was accepted. *)
Definition note (fd : Z) (r : option (Z * Z)) (ev : event) : option (Z * Z) :=
  match ev with
  | Accepted fd' => if fd' =? fd then None else r
  | Status_to fd' (Some s) => if fd' =? fd then Some s else r
  | _ => r
  end.
Definition registration (log : list event) (fd : Z) : option (Z * Z) := fold_left (note fd) log None.

Lemma registration_app log evs fd : registration (log ++ evs) fd = fold_left (note fd) evs (registration log fd).
Proof. apply fold_left_app. Qed.

(** The entry of a client that has registered holds what it has registered. *)
Definition logged (d : daemon) (log : list event) : Prop :=
  forall i e, client d !! i = Some e -> 0 <= connfd e ->
    registration log (connfd e) = None \/ registration log (connfd e) = Some (family e, lport e).

(** Events that register nothing. *)
Lemma logged_quiet d log evs :
  (forall fd r, fold_left (note fd) evs r = r) -> logged d log -> logged d (log ++ evs).
Proof. intros H Hl i e Hi Hp. rewrite registration_app, H. by apply (Hl i). Qed.

Lemma logged_listen d log fd d' evs : inv fd4 fd6 listenfd d -> fd ∉ allset d ->
  logged d log -> readable_listen fd d = Ends d' evs -> logged d' (log ++ evs).
Proof.
  intros HI Hf Hl E.
  assert (Hother : forall e i, client d !! i = Some e -> 0 <= connfd e -> (fd =? connfd e) = false).
  { intros e i Hi Hp. apply Z.eqb_neq. intros ->. by destruct (i_active _ _ _ d HI i e Hi Hp) as (_ & ? & _). }
  unfold readable_listen in E. destruct (find_free _) as [i|].
  - destruct (_ <=? _); [done|]. injection E as <- <-. intros j e Hj Hp. simpl in Hj. rewrite registration_app. simpl.
    apply list_lookup_insert_Some in Hj as [(-> & <- & _)|(_ & Hj)]; [left; simpl; by rewrite Z.eqb_refl|].
    rewrite (Hother e j) by done. by apply (Hl j).
  - injection E as <- <-. intros j e Hj Hp. rewrite registration_app. simpl. simpl in Hj.
    rewrite (Hother e j) by done. by apply (Hl j).
Qed.

Lemma clientdone_logged d log i e rfd : client d !! i = Some e ->
  (forall j e', j <> i -> client d !! j = Some e' -> 0 <= connfd e' ->
     registration log (connfd e') = None \/ registration log (connfd e') = Some (family e', lport e')) ->
  logged (clientdone i (connfd e) rfd d).1 log /\ forall fd r, fold_left (note fd) (clientdone i (connfd e) rfd d).2 r = r.
Proof.
  intros Hi Hl. unfold clientdone. rewrite Hi. split; [|intros fd r; simpl; by destruct (rfd >=? 0)].
  intros j e' Hj Hp. simpl in Hj. apply list_lookup_insert_Some in Hj as [(-> & <- & _)|(Hne & Hj)]; [simpl in Hp; lia|].
  by apply (Hl j).
Qed.

Lemma logged_conn d log i e a : inv fd4 fd6 listenfd d -> client d !! i = Some e -> 0 <= connfd e ->
  logged d log -> logged (readable_conn i a d).1 (log ++ (readable_conn i a d).2).
Proof.
  intros HI Hi Hp Hl. unfold readable_conn. rewrite Hi. simpl.
  assert (Hother : forall j e', j <> i -> client d !! j = Some e' -> 0 <= connfd e' ->
     registration log (connfd e') = None \/ registration log (connfd e') = Some (family e', lport e'))
    by (intros j e' _; apply Hl).
  assert (Hdone : forall rfd, logged (clientdone i (connfd e) rfd d).1 (log ++ (clientdone i (connfd e) rfd d).2) /\
            logged (clientdone i (connfd e) rfd d).1 (log ++ Status_to (connfd e) None :: (clientdone i (connfd e) rfd d).2)).
  { intros rfd. destruct (clientdone_logged d log i e rfd Hi Hother) as [H1 H2].
    split; apply logged_quiet; [exact H2|done|exact H2|done]. }
  assert (Hset : forall fam p, client (set_client i (Entry (connfd e) fam p) d) !! i = Some (Entry (connfd e) fam p)).
  { intros fam p. simpl. apply list_lookup_insert_eq. by apply lookup_lt_Some in Hi. }
  assert (Hacc : forall fam p rfd, logged (less_ready (set_client i (Entry (connfd e) fam p) d))
            (log ++ [Status_to (connfd e) (Some (fam, p)); Closed rfd])).
  { intros fam p rfd j e' Hj Hp'. simpl in Hj. rewrite registration_app. simpl.
    apply list_lookup_insert_Some in Hj as [(-> & <- & _)|(Hne & Hj)]; [right; simpl; by rewrite Z.eqb_refl|].
    rewrite (proj2 (Z.eqb_neq _ _)); [by apply (Hl j)|]. intros E. apply Hne. by apply (i_distinct _ _ _ d HI i j e e'). }
  destruct (_ =? 0); [apply Hdone|]. destruct (_ <? 0); [apply (Hdone (-1))|].
  destruct (sockname a) as [ss|]; [|apply (Hdone (recvfd a))].
  destruct (_ =? 0); [destruct (_ <=? 0)|]; [|apply Hacc..].
  set (e1 := Entry (connfd e) (sa_family ss) _).
  destruct (clientdone_logged (set_client i e1 d) log i e1 (recvfd a) (Hset _ _)) as [H1 H2].
  { intros j e' Hne Hj Hp'. simpl in Hj. rewrite list_lookup_insert_ne in Hj by done. by apply (Hl j). }
  simpl connfd in H1, H2. unfold clientdone in *. simpl in *. apply logged_quiet; [exact H2|done].
Qed.

Lemma logged_check a log idx : forall d evs, inv fd4 fd6 listenfd d -> logged d (log ++ evs) ->
  logged (check_clients a idx d evs).1 (log ++ (check_clients a idx d evs).2).
Proof.
  induction idx as [|i idx IH]; intros d evs HI Hl; simpl; [done|].
  destruct (client d !! i) as [e|] eqn:Hi; simpl; [|by apply IH].
  destruct (Z.ltb_spec (connfd e) 0) as [|Hp]; simpl; [by apply IH|]. destruct (bool_decide _); [|by apply IH].
  pose proof (readable_conn_table fd4 fd6 listenfd d i e (conn a i) HI Hi Hp) as HI'.
  pose proof (logged_conn d _ i e (conn a i) HI Hi Hp Hl) as Hl'.
  destruct (readable_conn i (conn a i) d) as [d' evs']. simpl in HI', Hl'. rewrite <- app_assoc in Hl'.
  destruct (nready d' <=? 0); [done|by apply IH].
Qed.

(** A message registers nothing. *)
Lemma readable_v_quiet read stack msg d d' evs :
  (forall buf n evs, read buf n d = Writes evs -> forall ev, ev ∈ evs -> exists fd err, ev = Error_to fd err) ->
  readable_v read stack msg d = Ends d' evs -> client d' = client d /\ forall fd r, fold_left (note fd) evs r = r.
Proof.
  intros Hr. unfold readable_v. destruct (read _ _ d) as [l| |] eqn:E; [|done..]. intros [= <- <-]. split; [done|].
  specialize (Hr _ _ _ E). clear E. intros fd. induction l as [|ev l IH]; intros r; [done|]. simpl.
  destruct (Hr ev) as (fd' & err & ->); [by left|]. apply IH. intros ev' Hev. apply Hr. by right.
Qed.

Lemma tell_writes fds dest err evs : tell fds dest err = Writes evs -> forall ev, ev ∈ evs -> exists fd er, ev = Error_to fd er.
Proof.
  intros E ev Hev. destruct dest as [sa|].
  - assert (evs = map (fun fd => Error_to fd (err sa)) fds) as -> by (destruct fds; by injection E as <-).
    apply list_elem_of_fmap in Hev as (fd & -> & _). by eexists _, _.
  - destruct fds; [|done]. injection E as <-. by apply elem_of_nil in Hev.
Qed.

(** Whatever is loaded, a message is answered by [tell] or by nothing. *)
Ltac writes_case :=
  unfold or_bad_load; cbv zeta;
  repeat match goal with
    | |- default _ (?o ≫= _) = _ -> _ => destruct o; cbn [mbind option_bind]; [|done]
    | |- default _ (if ?b then _ else _) = _ -> _ => destruct b
    end;
  cbn [default from_option];
  first [done | apply tell_writes | by intros [= <-] ? ?%elem_of_nil].

Lemma read_v4_writes buf n d evs : read_v4 buf n d = Writes evs -> forall ev, ev ∈ evs -> exists fd er, ev = Error_to fd er.
Proof. unfold read_v4. writes_case. Qed.

Lemma read_v6_writes buf n d evs : read_v6 buf n d = Writes evs -> forall ev, ev ∈ evs -> exists fd er, ev = Error_to fd er.
Proof. unfold read_v6. writes_case. Qed.

(** What a part of a pass leaves. *)
Definition pass_logs (log : list event) (o : outcome) : Prop :=
  match o with Ends d' evs => inv fd4 fd6 listenfd d' /\ logged d' (log ++ evs) | _ => True end.

Lemma guarded_logs log ready f d evs k : inv fd4 fd6 listenfd d -> logged d (log ++ evs) ->
  (forall d' evs', f d = Ends d' evs' -> inv fd4 fd6 listenfd d' /\ logged d' ((log ++ evs) ++ evs')) ->
  (forall d' evs', inv fd4 fd6 listenfd d' -> logged d' (log ++ evs') -> pass_logs log (k d' evs')) ->
  pass_logs log (guarded ready f d evs k).
Proof.
  intros HI Hl Hf Hk. unfold guarded. destruct ready; [|by apply Hk].
  destruct (f d) as [d' evs'| | |]; [|done..]. destruct (Hf d' evs' eq_refl) as [HI' Hl']. rewrite <- app_assoc in Hl'.
  destruct (nready d' <=? 0); [done|by apply Hk].
Qed.

Lemma readable_v_logs read log st msg d d' evs : inv fd4 fd6 listenfd d -> logged d log -> length st = MAXLINE ->
  (forall buf n evs, read buf n d = Writes evs -> forall ev, ev ∈ evs -> exists fd err, ev = Error_to fd err) ->
  readable_v read st msg d = Ends d' evs -> inv fd4 fd6 listenfd d' /\ logged d' (log ++ evs).
Proof.
  intros HI Hl Hs Hr E. destruct (readable_v_quiet _ _ _ _ _ _ Hr E) as [Hc Hq]. split.
  - unfold readable_v in E. destruct (read _ _ d); [|done..]. injection E as <- _. by apply less_ready_table.
  - apply logged_quiet; [done|]. intros i e. rewrite Hc. apply Hl.
Qed.

Lemma pass_logged a d log : inv fd4 fd6 listenfd d -> logged d log -> answers_ok a d ->
  pass_logs log (pass fd4 fd6 listenfd a d).
Proof.
  intros HI Hl (Hnew & Hpos & Hs). unfold pass. apply (set_nready_table _ _ _ d (Z.of_nat (size (rset a)))) in HI.
  apply guarded_logs; [done|by rewrite app_nil_r| |].
  { intros d' evs' E. rewrite app_nil_r. pose proof (readable_listen_table fd4 fd6 listenfd _ (new_fd a) HI Hnew Hpos) as Hi.
    rewrite E in Hi. split; [done|]. by eapply logged_listen; [exact HI|..|exact E]. }
  intros d1 e1 H1 L1. apply guarded_logs; [done|done| |].
  { intros d' evs'. apply readable_v_logs; [done..|]. intros buf n evs. apply read_v4_writes. }
  intros d2 e2 H2 L2. apply guarded_logs; [done|done| |].
  { intros d' evs'. apply readable_v_logs; [done..|]. intros buf n evs. apply read_v6_writes. }
  intros d3 e3 H3 L3.
  pose proof (check_clients_table fd4 fd6 listenfd a (List.seq 0 (Z.to_nat (maxi d3 + 1))) d3 e3 H3) as H4.
  pose proof (logged_check a log (List.seq 0 (Z.to_nat (maxi d3 + 1))) d3 e3 H3 L3) as L4.
  by destruct (check_clients _ _ _ _).
Qed.

Lemma reachable_logged d log : reachable d log -> logged d log.
Proof.
  induction 1 as [|a d log d' evs Hr IH Ha E].
  - intros i e Hi. apply lookup_replicate in Hi as [-> _]. simpl. lia.
  - pose proof (pass_logged a d log (reachable_clients d log Hr) IH Ha) as H. rewrite E in H. apply H.
Qed.
End Pass.

(** in every state the daemon reaches, whatever clients and the network send, each
    client in use has an entry of its own below [maxi], and [select] watches exactly
    the clients and the daemon's own sockets; no message makes a pass read outside
    the receive buffer; a pass ends early only with [err_quit] for a message that is
    too short, or by overrunning the descriptor set with a descriptor of
    [FD_SETSIZE] or more. *)
Theorem icmpd_table fd4 fd6 listenfd a d log :
  reachable fd4 fd6 listenfd d log -> answers_ok a d ->
  inv fd4 fd6 listenfd d /\ pass_ends fd4 fd6 listenfd a (pass fd4 fd6 listenfd a d).
Proof. intros HI%reachable_clients Ha. split; [done|by apply pass_table]. Qed.

(** *** Routing *)

Lemma rdn_in (buf m : list Z) k n : forall i, (i + n <= length (drop k m))%nat ->
  rdn (memcpy_into buf m) (Z.of_nat k + Z.of_nat i) n = Some (take n (drop i (drop k m))).
Proof.
  induction n as [|n IH]; intros i Hi; simpl; [done|]. rewrite rd_behind by lia. rewrite Nat2Z.id. cbn [mbind option_bind].
  replace (Z.of_nat k + Z.of_nat i + 1) with (Z.of_nat k + Z.of_nat (S i)) by lia. rewrite IH by lia. cbn [mbind option_bind].
  f_equal. assert (Hlt : (i < length (drop k m))%nat) by lia.
  apply lookup_lt_is_Some in Hlt as [x Hx]. rewrite (drop_S _ _ _ Hx). simpl. by rewrite nth_lookup, Hx.
Qed.

Lemma net16_value b0 b1 p : 0 <= p < 2 ^ 16 -> [b0; b1] = net16 p -> b0 + 256 * b1 = ntohs p.
Proof.
  intros Hp [= -> ->]. rewrite ntohs_eq. assert (0 <= p / 256 < 256) by (split; [apply Z.div_pos|apply Z.div_lt_upper_bound]; lia).
  rewrite (Z.mod_small (p / 256)) by lia. lia.
Qed.

(** The ports of a UDP packet that is quoted from the [k]th byte on, behind [uo] bytes. *)
Lemma quoted_ports (buf m : list Z) k uo sp dp : 0 <= sp < 2 ^ 16 -> 0 <= dp < 2 ^ 16 ->
  (exists ip rest, drop k m = ip ++ net16 sp ++ net16 dp ++ rest /\ length ip = uo) ->
  rd16 (memcpy_into buf m) (Z.of_nat k + Z.of_nat uo) = Some (ntohs sp) /\
  rd16 (memcpy_into buf m) (Z.of_nat k + Z.of_nat uo + 2) = Some (ntohs dp).
Proof.
  intros Hs Hd (Hl & H1 & H2)%quotes_at. rewrite rd16_behind by lia.
  replace (Z.of_nat k + Z.of_nat uo + 2) with (Z.of_nat k + Z.of_nat (S (S uo))) by lia. rewrite rd16_behind by lia.
  by rewrite (net16_value _ _ sp Hs H1), (net16_value _ _ dp Hd H2).
Qed.

Lemma tell_map fds sa err : tell fds (Some sa) err = Writes (map (fun fd => Error_to fd (err sa)) fds).
Proof. by destruct fds. Qed.

Section Routing.
Variables (stack m : list Z) (d : daemon) (ty code : Z) (q : list Z) (sp dp : Z).
Hypothesis Hs : 0 <= sp < 2 ^ 16.
Hypothesis Hd : 0 <= dp < 2 ^ 16.

Lemma read_v4_routes : icmp_error4 ty code q m -> quotes4 sp dp q -> (28 <= length q)%nat ->
  ty = ICMP_UNREACH \/ ty = ICMP_TIMXCEED \/ ty = ICMP_SOURCEQUENCH ->
  read_v4 (memcpy_into stack m) (Z.of_nat (length m)) d = Writes
    (map (fun fd => Error_to fd (IcmpdErr (errno_v4 ty code) ty code 16 (Sa_in (ntohs dp) (take 4 (drop 16 q)))))
       (clients_of AF_INET (ntohs sp) d)).
Proof.
  intros (Hl & Hty & Hcode & ->)%icmp_error4_at Hq Hlq Htype. rewrite length_drop in Hlq. set (k := ip_len m) in *.
  destruct Hq as (ip & rest & Eq & Hip & _ & Hproto).
  destruct (quoted_ports stack m (k + 8) _ sp dp Hs Hd (ex_intro _ ip (ex_intro _ rest (conj Eq eq_refl)))) as [Esp Edp].
  rewrite Hip in Esp, Edp.
  unfold read_v4.
  pose proof (hlen_behind stack m 0 ltac:(lia)) as Hh. change (Z.of_nat 0) with 0 in Hh. change (drop 0 m) with m in Hh.
  rewrite Hh. cbn [mbind option_bind]. fold k. rewrite (proj2 (Z.ltb_ge _ 8)) by lia.
  replace (Z.of_nat k + 1) with (Z.of_nat (S k)) by lia. rewrite (rd_in stack m (Z.of_nat k)), (rd_in stack m (Z.of_nat (S k))), !Nat2Z.id by lia.
  cbn [mbind option_bind]. rewrite Hty, Hcode.
  assert (Ht : (ty =? ICMP_UNREACH) || (ty =? ICMP_TIMXCEED) || (ty =? ICMP_SOURCEQUENCH) = true) by (destruct Htype as [-> | [-> | ->] ]; done).
  rewrite Ht, (proj2 (Z.ltb_ge _ _)) by lia. replace (Z.of_nat k + 8) with (Z.of_nat (k + 8)) by lia.
  rewrite hlen_behind by lia. cbn [mbind option_bind].
  pose proof (rdn_in stack m (k + 8) 4 12 ltac:(rewrite length_drop; lia)) as Ea. change (Z.of_nat 12) with 12 in Ea.
  pose proof (rdn_in stack m (k + 8) 4 16 ltac:(rewrite length_drop; lia)) as Eb. change (Z.of_nat 16) with 16 in Eb.
  rewrite Ea. cbn [mbind option_bind]. rewrite Eb. cbn [mbind option_bind].
  rewrite rd_behind by (rewrite length_drop; lia). change (Z.to_nat 9) with 9%nat. rewrite Hproto. cbn [mbind option_bind]. rewrite Z.eqb_refl.
  rewrite Esp, Edp. cbn [mbind option_bind or_bad_load default from_option]. by rewrite tell_map.
Qed.

Lemma read_v6_routes : icmp_error6 ty code q m -> quotes6 sp dp q ->
  ty = ICMP6_DST_UNREACH \/ ty = ICMP6_PACKET_TOO_BIG \/ ty = ICMP6_TIME_EXCEEDED ->
  read_v6 (memcpy_into stack m) (Z.of_nat (length m)) d = Writes
    (map (fun fd => Error_to fd (IcmpdErr (errno_v6 ty code) ty code 28 (Sa_in6 (ntohs dp) (take 16 (drop 24 q)))))
       (clients_of AF_INET6 (ntohs sp) d)).
Proof.
  intros (Hl & Hty & Hcode & ->)%icmp_error6_at Hq Htype. pose proof Hq as Hq'. apply quotes6_at in Hq' as (Hlq & _ & _). rewrite length_drop in Hlq.
  destruct Hq as (ip & rest & Eq & Hip & Hproto).
  destruct (quoted_ports stack m 8 _ sp dp Hs Hd (ex_intro _ ip (ex_intro _ rest (conj Eq eq_refl)))) as [Esp Edp].
  rewrite Hip in Esp, Edp. change (Z.of_nat 8 + Z.of_nat 40) with (8 + 40) in *.
  unfold read_v6.
  rewrite (proj2 (Z.ltb_ge _ 8)) by lia. rewrite (rd_in stack m 0), (rd_in stack m 1) by lia.
  change (Z.to_nat 0) with 0%nat. change (Z.to_nat 1) with 1%nat. cbn [mbind option_bind]. rewrite Hty, Hcode.
  assert (Ht : (ty =? ICMP6_DST_UNREACH) || (ty =? ICMP6_PACKET_TOO_BIG) || (ty =? ICMP6_TIME_EXCEEDED) = true) by (destruct Htype as [-> | [-> | ->] ]; done).
  rewrite Ht, (proj2 (Z.ltb_ge _ (8 + 8))) by lia.
  pose proof (rdn_in stack m 8 16 8 ltac:(rewrite length_drop; lia)) as Ea. change (Z.of_nat 8 + Z.of_nat 8) with (8 + 8) in Ea.
  pose proof (rdn_in stack m 8 16 24 ltac:(rewrite length_drop; lia)) as Eb. change (Z.of_nat 8 + Z.of_nat 24) with (8 + 24) in Eb.
  rewrite Ea. cbn [mbind option_bind]. rewrite Eb. cbn [mbind option_bind].
  change (8 + 6) with (Z.of_nat 8 + Z.of_nat 6). rewrite rd_behind by (rewrite length_drop; lia).
  rewrite Nat2Z.id, Hproto. cbn [mbind option_bind]. rewrite Z.eqb_refl.
  rewrite Esp, Edp. cbn [mbind option_bind or_bad_load default from_option]. by rewrite tell_map.
Qed.
End Routing.

(** *** The clients an error goes to *)

(** The indices of the elements that satisfy [p], from [k] on. *)
Fixpoint indices {A} (p : A -> bool) (k : nat) (l : list A) : list nat :=
  match l with
  | [] => []
  | x :: l' => (if p x then [k] else []) ++ indices p (S k) l'
  end.

Lemma indices_spec {A} (p : A -> bool) l : forall k,
  (forall i, i ∈ indices p k l <-> (k <= i)%nat /\ exists x, l !! (i - k)%nat = Some x /\ p x = true) /\
  StronglySorted lt (indices p k l) /\
  forall (f : nat -> option A), (forall i, f (k + i)%nat = l !! i) ->
    forall B (g : A -> B) b, map (fun i => from_option g b (f i)) (indices p k l) = map g (List.filter p l).
Proof.
  induction l as [|x l IH]; intros k; simpl; [split_and!; [|constructor|done]|].
  { intros i. rewrite elem_of_nil. split; [done|]. by intros (_ & x & E & _). }
  destruct (IH (S k)) as (H1 & H2 & H3). split_and!.
  - intros i. rewrite elem_of_app, H1. split.
    + intros [Hi|(Hle & y & Hy & Hp)].
      * destruct (p x) eqn:E; [|by rewrite elem_of_nil in Hi]. apply list_elem_of_singleton in Hi as ->. split; [lia|].
        exists x. by rewrite Nat.sub_diag.
      * split; [lia|]. exists y. replace (i - k)%nat with (S (i - S k)) by lia. done.
    + intros (Hle & y & Hy & Hp). destruct (decide (i = k)) as [->|Hne].
      * left. rewrite Nat.sub_diag in Hy. simplify_eq/=. rewrite Hp. by apply list_elem_of_singleton.
      * right. split; [lia|]. exists y. replace (i - k)%nat with (S (i - S k)) in Hy by lia. done.
  - destruct (p x); [|done]. constructor; [done|]. apply List.Forall_forall. intros i Hi%list_elem_of_In. apply H1 in Hi. lia.
  - intros f Hf B g b. rewrite map_app, (H3 f) by (intros i; replace (S k + i)%nat with (k + S i)%nat by lia; apply (Hf (S i))).
    specialize (Hf 0%nat). rewrite Nat.add_0_r in Hf. by destruct (p x); simpl; rewrite ?Hf.
Qed.

(** The descriptors of all clients in use whose entry has the family and the port, in
    the order of the table. *)
Definition in_table (fam port : Z) (d : daemon) (fds : list Z) : Prop :=
  exists idx, StronglySorted lt idx /\
    (forall i, i ∈ idx <-> exists e, client d !! i = Some e /\ 0 <= connfd e /\ family e = fam /\ lport e = port) /\
    fds = map (fun i => from_option connfd (-1) (client d !! i)) idx.

(** A client in use. *)
Definition is_client (d : daemon) (fd : Z) : Prop := exists i e, client d !! i = Some e /\ connfd e = fd /\ 0 <= fd.

(** Whom an error for a family and a port goes to: every client that has registered
    them, each once; nobody that has registered others; but also a client that has
    registered nothing yet, if its entry still has them from a former client. *)
Record addressed (log : list event) (fam port : Z) (d : daemon) (fds : list Z) : Prop := {
  a_table : in_table fam port d fds;
  a_once : NoDup fds;
  a_all : forall fd, is_client d fd -> registration log fd = Some (fam, port) -> fd ∈ fds;
  a_only : forall fd, fd ∈ fds ->
    is_client d fd /\ (registration log fd = Some (fam, port) \/ registration log fd = None) }.

Lemma clients_of_table fd4 fd6 listenfd d fam port : inv fd4 fd6 listenfd d -> in_table fam port d (clients_of fam port d).
Proof.
  intros HI. unfold clients_of. set (p := fun e : entry => _).
  assert (Hp : forall e, p e = true <-> 0 <= connfd e /\ family e = fam /\ lport e = port).
  { intros e. unfold p. rewrite !andb_true_iff, negb_true_iff, Z.ltb_ge, !Z.eqb_eq. tauto. }
  set (t := take (Z.to_nat (maxi d + 1)) (client d)).
  destruct (indices_spec p t 0) as (H1 & H2 & H3). exists (indices p 0 t). split; [done|]. split.
  - intros i. rewrite H1. rewrite Nat.sub_0_r. unfold t. split.
    + intros (_ & e & [He Hlt]%lookup_take_Some & Hpe). exists e. by rewrite Hp in Hpe.
    + intros (e & He & Hpe). split; [lia|]. exists e. destruct (i_active _ _ _ d HI i e He (proj1 Hpe)) as [Hi _].
      split; [apply lookup_take_Some; split; [done|lia]|by apply Hp].
  - rewrite <- (H3 (fun i => t !! i) (fun _ => eq_refl) _ connfd (-1)). apply map_ext_in. intros i Hi%list_elem_of_In.
    apply H1 in Hi as (_ & e & He & _). rewrite Nat.sub_0_r in He. rewrite He.
    by apply lookup_take_Some in He as [-> _].
Qed.

Lemma clients_of_addressed fd4 fd6 listenfd d log fam port :
  reachable fd4 fd6 listenfd d log -> addressed log fam port d (clients_of fam port d).
Proof.
  intros Hr. pose proof (reachable_clients _ _ _ _ _ Hr) as HI. pose proof (reachable_logged _ _ _ _ _ Hr) as Hl.
  pose proof (clients_of_table _ _ _ d fam port HI) as Ht. pose proof Ht as (idx & Hs & Hi & Efds). rewrite Efds in Ht |- *. clear Efds.
  assert (Hin : forall fd, fd ∈ map (fun i => from_option connfd (-1) (client d !! i)) idx <->
            exists i e, client d !! i = Some e /\ 0 <= connfd e /\ family e = fam /\ lport e = port /\ connfd e = fd).
  { intros fd. rewrite list_elem_of_fmap. split.
    - intros (i & -> & (e & He & Hp & Hf & Hq)%Hi). exists i, e. by rewrite He.
    - intros (i & e & He & Hp & Hf & Hq & <-). exists i. rewrite He. split; [done|]. apply Hi. by exists e. }
  split; [done|..].
  - apply NoDup_fmap_2_strong.
    + intros i j (e & He & Hp & _)%Hi (e' & He' & _)%Hi. rewrite He, He'. simpl. by apply (i_distinct _ _ _ d HI i j e e').
    + clear -Hs. induction Hs as [|i l _ IH HF]; constructor; [|done]. intros H. rewrite List.Forall_forall in HF.
      apply list_elem_of_In, HF in H. lia.
  - intros fd (i & e & He & <- & Hp) Hreg. apply Hin. exists i, e.
    destruct (Hl i e He Hp) as [E|E]; rewrite E in Hreg; [done|]. by injection Hreg as <- <-.
  - intros fd (i & e & He & Hp & <- & <- & <-)%Hin. split; [by exists i, e|]. destruct (Hl i e He Hp); auto.
Qed.

(** The [errno] for an ICMP error, by type and code: 3 is unreachable, with the codes 3
    for the port and 4 for the size; for IPv6, 1 is unreachable, with the code 4 for the
    port, and 2 too big. *)
Definition expected4 (ty code : Z) : icmp_errno :=
  match ty, code with 3, 3 => ECONNREFUSED | 3, 4 => EMSGSIZE | _, _ => EHOSTUNREACH end.
Definition expected6 (ty code : Z) : icmp_errno :=
  match ty, code with 1, 4 => ECONNREFUSED | 2, _ => EMSGSIZE | _, _ => EHOSTUNREACH end.

Lemma errno_v4_expected ty code : errno_v4 ty code = expected4 ty code.
Proof.
  unfold errno_v4, expected4, ICMP_UNREACH, ICMP_UNREACH_PORT, ICMP_UNREACH_NEEDFRAG.
  destruct (Z.eqb_spec ty 3) as [->|H].
  - destruct (Z.eqb_spec code 3) as [->|H1]; [done|]. destruct (Z.eqb_spec code 4) as [->|H2]; [done|].
    destruct code as [|[[|[]|]|[|[]|]|]|]; done.
  - destruct ty as [|[[| |]| |]|]; done.
Qed.

Lemma errno_v6_expected ty code : errno_v6 ty code = expected6 ty code.
Proof.
  unfold errno_v6, expected6, ICMP6_DST_UNREACH, ICMP6_DST_UNREACH_NOPORT, ICMP6_PACKET_TOO_BIG.
  destruct (Z.eqb_spec ty 2) as [->|H2]; [done|]. destruct (Z.eqb_spec ty 1) as [->|H1]; simpl.
  - destruct (Z.eqb_spec code 4) as [->|H]; [done|]. destruct code as [|[|[|[]|]|]|]; done.
  - destruct ty as [|[|[]|]|]; done.
Qed.


(** *** A client registers, an error arrives *)

Definition demo_stack : list Z := replicate MAXLINE 0.
Definition registers (p : Z) : conn_answers := ConnAnswers 1 9 (Some (Sa_in (ntohs p) [0; 0; 0; 0])) true None.
Definition leaves : conn_answers := ConnAnswers 0 (-1) None true None.
Definition demo_answers (ready : gset Z) (fd : Z) (msg : list Z) (c : conn_answers) : answers :=
  Answers ready fd msg [] demo_stack (fun _ => c).
Definition after (a : answers) (d : daemon) : daemon :=
  match pass 3 4 5 a d with Ends d' _ => d' | _ => d end.

(** The client on descriptor 6, registered for port 40000. *)
Definition demo_daemon : daemon :=
  after (demo_answers {[6]} 0 [] (registers 40000)) (after (demo_answers {[5]} 6 [] leaves) (main_init 3 4 5)).

Definition quoted_packet : list Z := ip_header 17 ++ net16 40000 ++ net16 53 ++ [0; 8; 0; 0].
Definition unreachable_msg : list Z := ip_header 1 ++ [3; 3] ++ replicate 6 0 ++ quoted_packet.

Lemma demo_answers_ok ready fd msg c d : fd ∉ allset d -> 0 <= fd -> answers_ok (demo_answers ready fd msg c) d.
Proof. intros. split; [done|]. split; [done|apply length_replicate]. Qed.

Definition demo_log : list event := [Accepted 6] ++ [Status_to 6 (Some (AF_INET, ntohs 40000)); Closed 9].

Lemma icmpd_demo_reachable : reachable 3 4 5 demo_daemon demo_log.
Proof.
  eapply (reach_pass _ _ _ (demo_answers {[6]} 0 [] (registers 40000))).
  - apply (reach_pass _ _ _ (demo_answers {[5]} 6 [] leaves) (main_init 3 4 5) []); [apply reach_init|apply demo_answers_ok; [by vm_compute|lia]|vm_compute; reflexivity].
  - apply demo_answers_ok; [by vm_compute|lia].
  - vm_compute. reflexivity.
Qed.

Lemma demo_clients i e : client demo_daemon !! i = Some e -> connfd e = 6 \/ connfd e = -1.
Proof.
  replace (client demo_daemon) with (Entry 6 AF_INET (ntohs 40000) :: replicate 1023 (Entry (-1) 0 0))
    by (vm_compute; reflexivity).
  destruct i as [|i]; [intros [= <-]; by left|]. intros [-> _]%lookup_replicate. by right.
Qed.


Lemma icmpd_table_witness :
  inv 3 4 5 demo_daemon /\
  pass_ends 3 4 5 (demo_answers {[3; 5]} 7 unreachable_msg leaves) (pass 3 4 5 (demo_answers {[3; 5]} 7 unreachable_msg leaves) demo_daemon).
Proof.
  apply (icmpd_table 3 4 5 (demo_answers {[3; 5]} 7 unreachable_msg leaves) demo_daemon demo_log); [exact icmpd_demo_reachable|].
  apply demo_answers_ok; [by vm_compute|lia].
Defined.

(** A new client in the entry of one that has left is sent its errors, before it has
    passed a socket. *)
Example stale_port :
  let d := after (demo_answers {[5]} 8 [] leaves) (after (demo_answers {[6]} 0 [] leaves) demo_daemon) in
  readable_v4 demo_stack unreachable_msg d = Ends (less_ready d)
    [Error_to 8 (IcmpdErr ECONNREFUSED 3 3 16 (Sa_in (ntohs 53) [0; 0; 0; 0]))].
Proof. vm_compute. reflexivity. Qed.

(** An IP header that claims 60 bytes in a message that ends before: the ports are what
    the stack holds. *)
Example stale_stack :
  let msg := ip_header 1 ++ [3; 3] ++ replicate 6 0 ++ (79 :: replicate 8 0 ++ [17] ++ replicate 18 0) in
  let stack := replicate 88 0 ++ net16 40000 ++ net16 53 ++ replicate 4004 0 in
  readable_v4 stack msg demo_daemon = Ends (less_ready demo_daemon)
    [Error_to 6 (IcmpdErr ECONNREFUSED 3 3 16 (Sa_in (ntohs 53) [0; 0; 0; 0]))].
Proof. vm_compute. reflexivity. Qed.
