(* ===== verification/MesgServ.v ===== *)
(** * File servers over System V message queues: [unixipc/svmsgmpx1q], [svmsgmpxnq]

    Clients send a request, an identifier and a pathname, with type 1 to the server's
    queue; the server answers with the lines of the file and an empty message.  With one
    queue ([Module Mpx1q]) the answers have the process identifier of the client as
    type; with a queue for each client ([Module MpxNq]) a child of the server writes to
    it.  Any number of clients, interleaved at every call on a queue; the files and the
    text of [strerror] are parameters.  [Module Pipe] is [mesg_send] of
    [unixipc/pipemesg]. *)
From S2P Require Import Prelude Inet Gai GaiSpec SockAddr.

(** [PIPE_BUF - 2*sizeof(long)]; [sizeof(struct mymesg) - MAXMESGDATA] *)
Definition PIPE_BUF : nat := 4096.
Definition MAXMESGDATA : nat := 4080.
Definition MESGHDRSIZE : Z := 16.

(** ** Text *)

(** The string that starts a buffer in which a NUL follows [l]. *)
Fixpoint until_nul (l : list Z) : list Z :=
  match l with
  | [] => []
  | c :: l' => if c =? 0 then [] else c :: until_nul l'
  end.

(** [fgets] into [n] bytes: what is stored before the NUL, and the rest of the stream. *)
Fixpoint fgets_loop (n : nat) (s : list Z) : list Z * list Z :=
  match n, s with
  | O, _ | _, [] => ([], s)
  | S n', c :: s' => if c =? 10 then ([c], s') else let (l, r) := fgets_loop n' s' in (c :: l, r)
  end.
Definition Fgets (n : nat) (s : list Z) : option (list Z * list Z) :=
  match s with [] => None | _ => Some (fgets_loop (n - 1) s) end.

(** [isspace] *)
Definition isspace (c : Z) : bool := (c =? 32) || ((9 <=? c) && (c <=? 13)).
Fixpoint skip_space (s : list Z) : list Z :=
  match s with c :: s' => if isspace c then skip_space s' else s | [] => [] end.

(** [atol], which saturates as [strtol] does. *)
Definition atol (s : list Z) : Z :=
  match skip_space s with
  | 45 :: s' => Z.max (- digits_value s' 0) (- 2 ^ 63)
  | 43 :: s' => Z.min (digits_value s' 0) (2 ^ 63 - 1)
  | s' => Z.min (digits_value s' 0) (2 ^ 63 - 1)
  end.

(** [if (mesg_data[len-1] == '\n') len--] *)
Definition chomp (s : list Z) : list Z :=
  match reverse s with 10 :: r => reverse r | _ => s end.

(** ** Requests and answers *)

(** The data of the request [client] sends: its identifier, a blank and the line read. *)
Definition client_request (id stdin : list Z) : list Z :=
  let start := id ++ [32] in
  let line := match Fgets (MAXMESGDATA - length start) stdin with Some (l, _) => until_nul l | None => [] end in
  chomp (start ++ line).

(** What [server] makes of a message from the well-known queue: "pathname missing"; a store
    of the NUL behind [mesg_data]; "bogus request"; the identifier and the pathname, with
    the length of the message. *)
Inductive request := Missing | Overrun | Bogus | Request (id path : list Z).

Definition server_request (d : list Z) : request :=
  if (length d =? 0)%nat then Missing
  else if (MAXMESGDATA <=? length d)%nat then Overrun
  else match split_at 32 (until_nul d) with
       | (_, None) => Bogus
       | (id, Some path) => Request id path
       end.

Section Files.
(** The contents of a file, if [fopen] succeeds, and the text of the error if not. *)
Variable fopen : list Z -> option (list Z).
Variable strerror : list Z -> list Z.

(** The loop [while (Fgets(...) != NULL)]: the data of the messages sent. *)
Fixpoint file_messages (fuel : nat) (content : list Z) : list (list Z) :=
  match fuel with
  | O => []
  | S fuel' =>
      match Fgets MAXMESGDATA content with
      | None => []
      | Some (l, rest) => until_nul l :: file_messages fuel' rest
      end
  end.

(** [": can't open, %s\n"] *)
Definition cant_open (path : list Z) : list Z := codes ": can't open, " ++ strerror path ++ [10].

(** The messages to the client; [snprintf] stores the error behind the [length d] bytes
    of the request [d], and the string from [ptr] on is sent. *)
Definition answers (d id path : list Z) : list (list Z) :=
  (match fopen path with
   | None => [until_nul (drop (length id + 1) (d ++ take (MAXMESGDATA - length d - 1) (cant_open path)))]
   | Some content => file_messages (length content) content
   end) ++ [[]].
End Files.

(** ** Message queues *)

(** The messages of a queue in order, with their types. *)
Abbreviation msgq := (list (Z * list Z)).

Inductive ipc (A : Type) := Blocks | Fails | Does (a : A).
Arguments Blocks {A}.
Arguments Fails {A}.
Arguments Does {A} a.

Section Msg.
(** [msg_qbytes], the limit of a queue. *)
Variable qbytes : Z.

Definition cbytes (q : msgq) : Z := zsum (fun m => Z.of_nat (length m.2)) q.

(** [msgsnd(id, ptr, length, 0)]: a type that is not positive is an error; the call waits
    while the bytes or the number of messages are over the limit. *)
Definition fits (q : msgq) (d : list Z) : bool :=
  (cbytes q + Z.of_nat (length d) <=? qbytes) && (Z.of_nat (length q) + 1 <=? qbytes).
Definition mesg_send (q : msgq) (type : Z) (d : list Z) : ipc msgq :=
  if type <? 1 then Fails else if fits q d then Does (q ++ [(type, d)]) else Blocks.

(** The first message of a type. *)
Fixpoint take_type (type : Z) (q : msgq) : option (list Z * msgq) :=
  match q with
  | [] => None
  | m :: q' =>
      if m.1 =? type then Some (m.2, q')
      else '(d, r) ← take_type type q'; Some (d, m :: r)
  end.

(** [msgrcv(id, ptr, MAXMESGDATA, type, 0)] for a positive type; a message that is too long
    is an error. *)
Definition mesg_recv (q : msgq) (type : Z) : ipc (list Z * msgq) :=
  match take_type type q with
  | None => Blocks
  | Some (d, q') => if (MAXMESGDATA <? length d)%nat then Fails else Does (d, q')
  end.
End Msg.

(** Where a client is. *)
Inductive cpc := C_send | C_recv | C_done | C_died.

(** *** Text *)

Lemma until_nul_id l : 0 ∉ l -> until_nul l = l.
Proof.
  induction l as [|c l IH]; simpl; [done|]. rewrite not_elem_of_cons. intros [Hc Hl].
  rewrite (proj2 (Z.eqb_neq c 0)) by done. by rewrite IH.
Qed.

Lemma until_nul_no_nul l : 0 ∉ until_nul l.
Proof.
  induction l as [|c l IH]; simpl; [by apply not_elem_of_nil|]. destruct (Z.eqb_spec c 0); [by apply not_elem_of_nil|].
  rewrite not_elem_of_cons. split; [done|exact IH].
Qed.

Lemma until_nul_length l : (length (until_nul l) <= length l)%nat.
Proof. induction l as [|c l IH]; simpl; [done|]. destruct (c =? 0); simpl; lia. Qed.

Lemma fgets_loop_split n s l r : fgets_loop n s = (l, r) -> s = l ++ r /\ (length l <= n)%nat /\ ((0 < n)%nat -> s <> [] -> l <> []).
Proof.
  revert s l r. induction n as [|n IH]; intros s l r; simpl; [intros [= <- <-]; split_and!; [done|simpl; lia|lia]|].
  destruct s as [|c s]; [intros [= <- <-]; split_and!; [done|simpl; lia|done]|].
  destruct (c =? 10); [intros [= <- <-]; split_and!; [done|simpl; lia|done]|].
  destruct (fgets_loop n s) as [l' r'] eqn:E. intros [= <- <-]. destruct (IH _ _ _ E) as (-> & Hl & _).
  split_and!; [done|simpl; lia|done].
Qed.

Lemma Fgets_split n s l r : (2 <= n)%nat -> Fgets n s = Some (l, r) -> s = l ++ r /\ (length l <= n - 1)%nat /\ l <> [].
Proof.
  unfold Fgets. intros Hn H. destruct s as [|c s]; [done|]. injection H as E.
  destruct (fgets_loop_split _ _ _ _ E) as (H1 & H2 & H3). split_and!; [done|done|apply H3; [lia|done]].
Qed.

Lemma chomp_app s t : s <> [] -> last s <> Some 10 -> chomp (s ++ t) = s ++ chomp t.
Proof.
  intros Hs Hl. destruct (decide (t = [])) as [->|Ht].
  - assert (chomp [] = []) as -> by done. rewrite !app_nil_r. unfold chomp.
    destruct (reverse s) as [|c r] eqn:E; [done|]. assert (s = reverse r ++ [c]) as Es by (rewrite <- (reverse_involutive s), E, reverse_cons; done).
    rewrite Es, last_snoc in Hl. rewrite Es. clear -Hl. repeat (destruct c as [|c|c]; try done); by destruct Hl.
  - destruct (exists_last Ht) as (t' & c & ->). unfold chomp. rewrite app_assoc, !reverse_snoc.
    destruct (decide (c = 10)) as [->|Hc]; [by rewrite !reverse_involutive|].
    assert (Hm : forall (A : Type) (a b : A), match c with 10 => a | _ => b end = b).
    { intros. repeat (destruct c as [|c|c]; try done). }
    rewrite !Hm. by rewrite app_assoc.
Qed.

Lemma chomp_length s : (length (chomp s) <= length s)%nat.
Proof.
  unfold chomp. destruct (reverse s) as [|c r] eqn:E; [done|]. assert (length s = S (length r)) as Hl by (rewrite <- length_reverse, E; done).
  repeat (destruct c as [|c|c]; try lia). rewrite length_reverse. lia.
Qed.

Lemma chomp_elem x s : x ∈ chomp s -> x ∈ s.
Proof.
  unfold chomp. destruct (reverse s) as [|c r] eqn:E; [done|]. repeat (destruct c as [|c|c]; try done).
  rewrite elem_of_reverse. intros H. apply elem_of_reverse. rewrite E. by right.
Qed.

(** *** Requests *)

Lemma id_digits_length fuel : forall k, (length (digits fuel 10 k) <= fuel)%nat.
Proof.
  induction fuel as [|n IH]; intros k; simpl; [done|]. destruct (k <? 10); simpl; [lia|]. rewrite length_app. simpl.
  specialize (IH (k / 10)). lia.
Qed.

Lemma id_text p : 0 <= p < 2 ^ 31 ->
  Forall is_digit (fmt_u p) /\ (length (fmt_u p) <= 10)%nat /\ fmt_u p <> [] /\ s32 (atol (fmt_u p)) = p.
Proof.
  intros Hp. destruct (fmt_u_digits p) as (HF & Hne & Hv); [lia|].
  split_and!; [done|unfold fmt_u; rewrite length_fmap; apply id_digits_length|done|].
  assert (Hd : digits_value (fmt_u p) 0 = p) by (rewrite digits_value_dec by done; exact Hv).
  assert (atol (fmt_u p) = Z.min (digits_value (fmt_u p) 0) (2 ^ 63 - 1)) as ->.
  { unfold atol. destruct (fmt_u p) as [|c s]; [done|]. apply Forall_cons in HF as [Hc _]. unfold is_digit in Hc.
    assert (skip_space (c :: s) = c :: s) as ->.
    { simpl. unfold isspace. rewrite (proj2 (Z.eqb_neq c 32)), (proj2 (Z.leb_gt c 13)), andb_false_r by lia. done. }
    repeat (destruct c as [|c|c]; try done; try lia). }
  rewrite Hd, Z.min_l by lia. apply swrap_small; lia.
Qed.

Lemma digits_no c s : Forall is_digit s -> ~ is_digit c -> c ∉ s.
Proof. intros HF Hc Hin. apply Hc. by apply (proj1 (Forall_forall _ _) HF). Qed.

(** The line of a client, as it is put behind its identifier. *)
Definition line_read (id stdin : list Z) : list Z :=
  match Fgets (MAXMESGDATA - length (id ++ [32])) stdin with Some (l, _) => until_nul l | None => [] end.

Lemma client_request_eq id stdin : client_request id stdin = id ++ [32] ++ chomp (line_read id stdin).
Proof.
  unfold client_request. fold (line_read id stdin). rewrite chomp_app, <- app_assoc; [done|by destruct id|].
  rewrite last_snoc. done.
Qed.

Lemma line_read_facts id stdin : (length id <= 10)%nat ->
  0 ∉ line_read id stdin /\ (length (line_read id stdin) <= MAXMESGDATA - length id - 2)%nat.
Proof.
  intros Hid. unfold line_read. destruct (Fgets _ _) as [[l r]|] eqn:E; [|split; [apply not_elem_of_nil|simpl; lia]].
  apply Fgets_split in E as (_ & Hl & _); [|rewrite length_app; unfold MAXMESGDATA; simpl; lia].
  split; [apply until_nul_no_nul|]. pose proof (until_nul_length l). rewrite length_app in Hl. simpl in Hl. lia.
Qed.

(** The server takes a client's request apart as it was put together. *)
Lemma request_parsed p stdin : 0 <= p < 2 ^ 31 ->
  let path := chomp (line_read (fmt_u p) stdin) in let d := client_request (fmt_u p) stdin in
  d = fmt_u p ++ 32 :: path /\ server_request d = Request (fmt_u p) path /\ 0 ∉ d /\
  (2 <= length d < MAXMESGDATA)%nat.
Proof.
  intros Hp path d. destruct (id_text p Hp) as (HF & Hlen & Hne & _).
  destruct (line_read_facts (fmt_u p) stdin Hlen) as [Hnul Hl].
  assert (Ed : d = fmt_u p ++ 32 :: path) by (unfold d, path; by rewrite client_request_eq).
  pose proof (chomp_length (line_read (fmt_u p) stdin)) as Hc. fold path in Hc.
  assert (Hld : length d = (length (fmt_u p) + S (length path))%nat) by (rewrite Ed, length_app; done).
  assert (H1 : (1 <= length (fmt_u p))%nat) by (destruct (fmt_u p); [done|simpl; lia]).
  assert (Hd0 : 0 ∉ d).
  { rewrite Ed. rewrite elem_of_app, elem_of_cons. intros [H|[H|H] ]; [|done|by apply chomp_elem in H].
    revert H. apply digits_no; [done|]. unfold is_digit. lia. }
  assert (2 <= length d < MAXMESGDATA)%nat by (unfold MAXMESGDATA in *; lia).
  split_and!; [done| |done|lia|lia].
  unfold server_request. rewrite (proj2 (Nat.eqb_neq _ _)), (proj2 (Nat.leb_gt _ _)) by lia.
  rewrite until_nul_id by done. rewrite Ed, split_at_app; [done|]. apply digits_no; [done|]. unfold is_digit. lia.
Qed.

(** *** Answers *)

Section Answers.
Variable fopen : list Z -> option (list Z).
Variable strerror : list Z -> list Z.

(** Files and error texts without NUL. *)
Definition files_ok : Prop :=
  (forall path content, fopen path = Some content -> 0 ∉ content) /\ (forall path, 0 ∉ strerror path).

Lemma file_messages_concat fuel : forall content, (length content <= fuel)%nat -> 0 ∉ content ->
  concat (file_messages fuel content) = content /\
  Forall (fun l => l <> [] /\ (length l < MAXMESGDATA)%nat) (file_messages fuel content).
Proof.
  induction fuel as [|fuel IH]; intros content Hl H0; simpl; [destruct content; [by repeat constructor|simpl in Hl; lia]|].
  destruct (Fgets MAXMESGDATA content) as [[l r]|] eqn:E; [|destruct content; [by repeat constructor|done] ].
  apply Fgets_split in E as (-> & Hll & Hne); [|unfold MAXMESGDATA; lia].
  rewrite not_elem_of_app in H0. destruct H0 as [Hl0 Hr0]. rewrite length_app in Hl.
  assert (1 <= length l)%nat by (destruct l; [done|simpl; lia]).
  destruct (IH r) as [Hc HF]; [lia|done|]. rewrite until_nul_id by done. simpl. rewrite Hc. split; [done|].
  constructor; [|done]. split; [done|]. unfold MAXMESGDATA in *. lia.
Qed.

Lemma cant_open_facts path : files_ok -> 0 ∉ cant_open strerror path /\ cant_open strerror path <> [].
Proof.
  intros [_ Hs]. unfold cant_open. split; [|done]. rewrite !not_elem_of_app. split_and!; [|apply Hs|].
  - by apply (bool_decide_unpack (0 ∉ codes ": can't open, ")).
  - by apply (bool_decide_unpack (0 ∉ [10])).
Qed.

(** What a client is to see: the file, or the pathname and the error as far as they fit. *)
Definition wanted (d path : list Z) : list Z :=
  match fopen path with
  | Some content => content
  | None => path ++ take (MAXMESGDATA - length d - 1) (cant_open strerror path)
  end.

(** The answer is what the client is to see in messages that are not empty, and an empty
    one. *)
Lemma answers_wanted p stdin : files_ok -> 0 <= p < 2 ^ 31 ->
  let d := client_request (fmt_u p) stdin in let path := chomp (line_read (fmt_u p) stdin) in
  exists body, answers fopen strerror d (fmt_u p) path = body ++ [[]] /\ concat body = wanted d path /\
    Forall (fun l => l <> [] /\ (length l < MAXMESGDATA)%nat) body.
Proof.
  intros Hf Hp d path. destruct (request_parsed p stdin Hp) as (Ed & _ & H0 & Hl). fold d path in Ed, H0, Hl.
  unfold answers, wanted. eexists. split; [done|]. destruct (fopen path) as [content|] eqn:Eo.
  { destruct Hf as [Hf _]. specialize (Hf _ _ Eo). by apply file_messages_concat. }
  destruct (cant_open_facts path Hf) as [Hn Hne]. set (t := take _ _).
  assert (E : drop (length (fmt_u p) + 1) (d ++ t) = path ++ t).
  { rewrite Ed, <- app_assoc, drop_app_ge, Nat.add_sub_swap, Nat.sub_diag by lia. done. }
  assert (Ht : 0 ∉ t) by (intros H; apply Hn; by apply elem_of_take in H as (i & H & _); apply list_elem_of_lookup_2 in H).
  rewrite Ed, not_elem_of_app, not_elem_of_cons in H0. destruct H0 as (_ & _ & Hpath).
  rewrite E, until_nul_id by (rewrite not_elem_of_app; done). simpl. rewrite app_nil_r. split; [done|].
  constructor; [|done]. assert (Hlt : (length t <= MAXMESGDATA - length d - 1)%nat) by (unfold t; rewrite length_take; lia).
  assert (Hld : length d = (length (fmt_u p) + S (length path))%nat) by (rewrite Ed, length_app; done).
  destruct (id_text p Hp) as (_ & Hten & _). rewrite length_app. split; [|lia].
  intros [Ep Et]%app_nil. unfold t in Et. destruct (cant_open strerror path) as [|c rest]; [done|].
  rewrite Ep in Hld. simpl in Hld. replace (MAXMESGDATA - length d - 1)%nat with (S (MAXMESGDATA - length d - 2)) in Et by (unfold MAXMESGDATA; lia). done.
Qed.
End Answers.

(** An answer ends with its only empty message. *)
Lemma app_last_empty (received rest body : list (list Z)) :
  Forall (fun d => d <> []) received -> Forall (fun d => d <> []) body -> received ++ [] :: rest = body ++ [[]] ->
  rest = [] /\ received = body.
Proof.
  intros HF. revert body. induction HF as [|d received Hd _ IH]; intros body HB E.
  - destruct body as [|b body]; [by injection E|]. injection E as <- E. by apply Forall_cons in HB as [Hb _].
  - destruct body as [|b body]; [by destruct received; simplify_eq|]. injection E as <- E. apply Forall_cons in HB as [_ HB].
    by destruct (IH body HB E) as [-> ->].
Qed.

(** *** Queues *)

(** The messages of a type. *)
Definition of_type (type : Z) (q : msgq) : list (list Z) := map snd (List.filter (fun m => m.1 =? type) q).

Lemma of_type_app t q q' : of_type t (q ++ q') = of_type t q ++ of_type t q'.
Proof. unfold of_type. by rewrite List.filter_app, map_app. Qed.

Lemma of_type_one t u d : of_type t [(u, d)] = if u =? t then [d] else [].
Proof. unfold of_type. simpl. by destruct (u =? t). Qed.

Lemma take_type_none t q : take_type t q = None -> of_type t q = [].
Proof.
  unfold of_type. induction q as [|m q IH]; simpl; [done|]. destruct (m.1 =? t); [done|].
  destruct (take_type t q) as [[d r]|]; [done|auto].
Qed.

Lemma take_type_some t q d r : take_type t q = Some (d, r) ->
  of_type t q = d :: of_type t r /\ (forall u, u <> t -> of_type u r = of_type u q) /\ q ≡ₚ (t, d) :: r.
Proof.
  unfold of_type. revert d r. induction q as [|m q IH]; intros d r; simpl; [done|].
  destruct (Z.eqb_spec m.1 t) as [Et|Ht].
  - intros [= <- <-]. split_and!; [done| |by destruct m; simplify_eq/=].
    intros u Hu. by rewrite (proj2 (Z.eqb_neq m.1 u)) by congruence.
  - destruct (take_type t q) as [[d' r']|]; [|done]. intros [= <- <-]. destruct (IH _ _ eq_refl) as (H1 & H2 & H3).
    split_and!.
    + rewrite H1. simpl. by rewrite (proj2 (Z.eqb_neq m.1 t)).
    + intros u Hu. specialize (H2 u Hu). simpl. destruct (m.1 =? u); simpl; by rewrite H2.
    + rewrite H3. apply Permutation_swap.
Qed.

(** ** One queue: [unixipc/svmsgmpx1q] *)

Module Mpx1q.

Record client := Client { pid : Z; stdin : list Z; at_ : cpc; out : list Z }.

(** Where the server is: at [Mesg_recv]; sending to a client what is left of the answer;
    ended by [err_sys]; behind its buffer. *)
Inductive spc := S_recv | S_send (type : Z) (msgs : list (list Z)) | S_died | S_overrun.

Record state := State { queue : msgq; server : spc; clients : list client }.

Section Run.
Variable fopen : list Z -> option (list Z).
Variable strerror : list Z -> list Z.
Variable qbytes : Z.

(** What [client] sends first. *)
Definition asks (c : client) : list Z := client_request (fmt_u (pid c)) (stdin c).

(** From a request to the first [Mesg_send] or the next [Mesg_recv]. *)
Definition serve (d : list Z) : spc :=
  match server_request d with
  | Missing | Bogus => S_recv
  | Overrun => S_overrun
  | Request id path => S_send (s32 (atol id)) (answers fopen strerror d id path)
  end.

(** [server], from one call on the queue to the next; [None] while the call waits. *)
Definition server_step (s : state) : option state :=
  match server s with
  | S_recv =>
      match mesg_recv (queue s) 1 with
      | Blocks => None
      | Fails => Some (State (queue s) S_died (clients s))
      | Does (d, q) => Some (State q (serve d) (clients s))
      end
  | S_send type (d :: msgs) =>
      match mesg_send qbytes (queue s) type d with
      | Blocks => None
      | Fails => Some (State (queue s) S_died (clients s))
      | Does q => Some (State q (match msgs with [] => S_recv | _ => S_send type msgs end) (clients s))
      end
  | _ => None
  end.

(** [client], the [i]th. *)
Definition client_step (i : nat) (s : state) : option state :=
  c ← clients s !! i;
  let move q pc o := Some (State q (server s) (<[i := Client (pid c) (stdin c) pc o]> (clients s))) in
  match at_ c with
  | C_send =>
      match mesg_send qbytes (queue s) 1 (asks c) with
      | Blocks => None
      | Fails => move (queue s) C_died (out c)
      | Does q => move q C_recv (out c)
      end
  | C_recv =>
      match mesg_recv (queue s) (pid c) with
      | Blocks => None
      | Fails => move (queue s) C_died (out c)
      | Does ([], q) => move q C_done (out c)
      | Does (d, q) => move q C_recv (out c ++ d)
      end
  | _ => None
  end.

(** One step of the system. *)
Inductive step (s s' : state) : Prop :=
| step_server : server_step s = Some s' -> step s s'
| step_client i : client_step i s = Some s' -> step s s'.

Definition main_init (cs : list (Z * list Z)) : state :=
  State [] S_recv (map (fun c => Client c.1 c.2 C_send []) cs).

(** ** What the clients are to see *)

Definition asked (c : client) : list Z := chomp (line_read (fmt_u (pid c)) (stdin c)).
Definition answer (c : client) : list Z := wanted fopen strerror (asks c) (asked c).

(** Different identifiers, none of them 1. *)
Definition clients_ok (cs : list (Z * list Z)) : Prop := NoDup (map fst cs) /\ Forall (fun c => 1 < c.1 < 2 ^ 31) cs.

(** The messages a client is sent. *)
Definition replies (c : client) : list (list Z) :=
  answers fopen strerror (asks c) (fmt_u (pid c)) (asked c).

(** *** The invariant *)

(** What the server still has to send to the [i]th client: all, if its request waits in
    the queue; the rest, if it is served. *)
Definition left_for (pend : list nat) (cur : option nat) (srv : spc) (i : nat) (c : client) : list (list Z) :=
  if decide (i ∈ pend) then replies c
  else if decide (cur = Some i) then match srv with S_send _ msgs => msgs | _ => [] end
  else [].

Definition client_ok (q : msgq) (left_ : list (list Z)) (c : client) : Prop :=
  match at_ c with
  | C_send => of_type (pid c) q = [] /\ out c = []
  | C_recv => exists received, out c = concat received /\ Forall (fun d => d <> []) received /\
      received ++ of_type (pid c) q ++ left_ = replies c
  | C_done => of_type (pid c) q = [] /\ out c = concat (replies c)
  | C_died => False
  end.

(** The request of the [i]th client. *)
Definition request_of (cs : list client) (i : nat) : list Z := from_option asks [] (cs !! i).

(** [pend]: the clients whose requests are in the queue, in order; [cur]: the client that
    is served. *)
Record inv_at (pend : list nat) (cur : option nat) (s : state) : Prop := {
  i_requests : of_type 1 (queue s) = map (request_of (clients s)) pend;
  i_nodup : NoDup pend;
  i_pend : forall i, i ∈ pend -> exists c, clients s !! i = Some c /\ at_ c = C_recv;
  i_server : match cur with
             | None => server s = S_recv
             | Some i => (i ∉ pend) /\ exists c msgs, clients s !! i = Some c /\ at_ c = C_recv /\
                 server s = S_send (pid c) msgs /\ msgs <> []
             end;
  i_clients : forall i c, clients s !! i = Some c -> client_ok (queue s) (left_for pend cur (server s) i c) c;
  i_types : forall m, m ∈ queue s -> m.1 = 1 \/ exists i c, clients s !! i = Some c /\ m.1 = pid c;
  i_pids : NoDup (map pid (clients s));
  i_range : forall i c, clients s !! i = Some c -> 1 < pid c < 2 ^ 31 }.

Hypothesis Hfiles : files_ok fopen strerror.

Lemma replies_body c : 1 < pid c < 2 ^ 31 -> exists body, replies c = body ++ [[]] /\ concat body = answer c /\
  Forall (fun l => l <> [] /\ (length l < MAXMESGDATA)%nat) body.
Proof. intros Hp. by apply (answers_wanted fopen strerror (pid c) (stdin c) Hfiles); lia. Qed.

Lemma replies_concat c : 1 < pid c < 2 ^ 31 -> concat (replies c) = answer c.
Proof. intros Hp. destruct (replies_body c Hp) as (body & -> & <- & _). by rewrite concat_app, app_nil_r. Qed.

Lemma replies_short c d : 1 < pid c < 2 ^ 31 -> d ∈ replies c -> (length d < MAXMESGDATA)%nat.
Proof.
  intros Hp Hd. destruct (replies_body c Hp) as (body & E & _ & HF). rewrite E in Hd.
  apply elem_of_app in Hd as [Hd| ->%list_elem_of_singleton]; [|unfold MAXMESGDATA; simpl; lia].
  by destruct (proj1 (Forall_forall _ _) HF d Hd).
Qed.

Lemma serve_asks c : 1 < pid c < 2 ^ 31 -> serve (asks c) = S_send (pid c) (replies c).
Proof.
  intros Hp. unfold serve, replies, asks, asked. destruct (request_parsed (pid c) (stdin c)) as (_ & -> & _); [lia|].
  destruct (id_text (pid c)) as (_ & _ & _ & ->); [lia|]. done.
Qed.

Lemma asks_length c : 1 < pid c < 2 ^ 31 -> (2 <= length (asks c) < MAXMESGDATA)%nat.
Proof. intros Hp. unfold asks. by destruct (request_parsed (pid c) (stdin c)) as (_ & _ & _ & H); [lia|]. Qed.

(** The end of an answer: an empty message comes last. *)
Lemma last_reply c received rest : 1 < pid c < 2 ^ 31 -> Forall (fun d => d <> []) received ->
  received ++ [] :: rest = replies c -> rest = [] /\ concat received = concat (replies c).
Proof.
  intros Hp HF E. destruct (replies_body c Hp) as (body & Eb & _ & HB). rewrite Eb in *. rewrite concat_app, app_nil_r.
  destruct (app_last_empty received rest body) as [-> ->]; try done. eapply Forall_impl; [exact HB|]. by intros d [Hd _].
Qed.

Lemma pid_inj s i j c c' : NoDup (map pid (clients s)) -> clients s !! i = Some c -> clients s !! j = Some c' -> pid c = pid c' -> i = j.
Proof.
  intros Hn Hi Hj E. apply (NoDup_lookup (map pid (clients s)) i j (pid c) Hn).
  - change (map pid) with (fmap (M := list) pid). by rewrite list_lookup_fmap, Hi.
  - change (map pid) with (fmap (M := list) pid). by rewrite list_lookup_fmap, Hj, E.
Qed.

(** A client that keeps its identifier and its input. *)
Lemma request_of_insert cs i c c' j : cs !! i = Some c -> pid c' = pid c -> stdin c' = stdin c ->
  request_of (<[i := c']> cs) j = request_of cs j.
Proof.
  intros Hi Hp Hs. unfold request_of.
  destruct (decide (j = i)) as [->|Hne]; [|by rewrite list_lookup_insert_ne].
  rewrite list_lookup_insert_eq by (by apply lookup_lt_Some in Hi). rewrite Hi. simpl. unfold asks. by rewrite Hp, Hs.
Qed.

Lemma pids_insert cs i c c' : cs !! i = Some c -> pid c' = pid c -> map pid (<[i := c']> cs) = map pid cs.
Proof.
  intros Hi Hp. change (map pid) with (fmap (M := list) pid). rewrite list_fmap_insert, Hp.
  apply list_insert_id. by rewrite list_lookup_fmap, Hi.
Qed.

(** A client for which neither queue nor server has changed. *)
Lemma client_ok_same q q' l c : of_type (pid c) q' = of_type (pid c) q -> client_ok q l c -> client_ok q' l c.
Proof. intros E. unfold client_ok. by destruct (at_ c); rewrite ?E. Qed.

(** The server takes a request. *)
Lemma server_recv_inv pend cur s s' : inv_at pend cur s -> server s = S_recv -> server_step s = Some s' ->
  exists pend' cur', inv_at pend' cur' s'.
Proof.
  intros [I1 I2 I3 I4 I5 I6 I7 I8] Hs. unfold server_step, mesg_recv. rewrite Hs.
  destruct (take_type 1 (queue s)) as [[d q]|] eqn:E; [|done]. destruct (take_type_some _ _ _ _ E) as (Eq & Hother & Hperm).
  rewrite I1 in Eq. destruct pend as [|i pend]; [done|]. simpl in Eq. injection Eq as Ed Eq.
  destruct (I3 i) as (c & Hi & Hc); [left|]. pose proof (I8 i c Hi) as Hp.
  assert (d = asks c) as ->. { rewrite <- Ed. unfold request_of. by rewrite Hi. }
  pose proof (asks_length c Hp). rewrite (proj2 (Nat.ltb_ge _ _)) by lia. intros [= <-]. rewrite serve_asks by done.
  apply NoDup_cons in I2 as [Hni I2]. exists pend, (Some i).
  assert (cur = None) as ->. { destruct cur as [j|]; [|done]. destruct I4 as (_ & ? & ? & _ & _ & Hs' & _). congruence. }
  constructor; simpl; try done.
  - intros j Hj. apply I3. by right.
  - split; [done|]. exists c, (replies c). split_and!; try done. destruct (replies_body c Hp) as (body & -> & _). by destruct body.
  - intros j c' Hj. apply (client_ok_same (queue s)); [apply Hother; pose proof (I8 j c' Hj); lia|]. specialize (I5 j c' Hj).
    unfold left_for in *. destruct (decide (j = i)) as [->|Hne].
    + simplify_eq. rewrite decide_True in I5 by left. rewrite decide_False, decide_True by done. done.
    + rewrite (decide_False (P := Some i = Some j)) by congruence.
      rewrite (decide_False (P := None = Some j)) in I5 by done.
      destruct (decide (j ∈ pend)) as [Hin|Hin]; [by rewrite decide_True in I5 by (by right)|].
      rewrite decide_False in I5; [done|]. rewrite elem_of_cons. intuition.
  - intros m Hm. apply I6. rewrite Hperm. by right.
Qed.

(** The server sends a message. *)
Lemma server_send_inv pend cur s s' t d msgs : inv_at pend cur s -> server s = S_send t (d :: msgs) -> server_step s = Some s' ->
  exists pend' cur', inv_at pend' cur' s'.
Proof.
  intros [I1 I2 I3 I4 I5 I6 I7 I8] Hs. unfold server_step, mesg_send. rewrite Hs.
  destruct cur as [i|]; [|congruence]. destruct I4 as (Hni & c & ms & Hi & Hc & Hs' & _). rewrite Hs in Hs'. injection Hs' as -> <-.
  pose proof (I8 i c Hi) as Hp. rewrite (proj2 (Z.ltb_ge _ _)) by lia. destruct (fits _ _ _); [|done]. intros [= <-].
  set (srv := match msgs with [] => S_recv | _ => S_send (pid c) msgs end).
  exists pend, (match msgs with [] => None | _ => Some i end).
  constructor; simpl; try done.
  - rewrite of_type_app, of_type_one, (proj2 (Z.eqb_neq _ _)), app_nil_r by lia. done.
  - unfold srv. destruct msgs as [|d' msgs]; [done|]. split; [done|]. by exists c, (d' :: msgs).
  - intros j c' Hj. specialize (I5 j c' Hj). unfold left_for in *. destruct (decide (j = i)) as [->|Hne].
    + simplify_eq. rewrite decide_False, decide_True in I5 by done. rewrite decide_False by done.
      unfold client_ok in *. rewrite Hc in *. destruct I5 as (received & Ho & HF & E). exists received. split_and!; try done.
      rewrite of_type_app, of_type_one, Z.eqb_refl. rewrite Hs in E. rewrite <- E, <- !app_assoc. unfold srv.
      destruct msgs; [done|]. by rewrite decide_True.
    + assert (pid c <> pid c') by (intros E; by apply Hne, (pid_inj s j i c' c)).
      apply (client_ok_same (queue s)); [by rewrite of_type_app, of_type_one, (proj2 (Z.eqb_neq _ _)), app_nil_r|].
      destruct (decide (j ∈ pend)); [done|]. rewrite (decide_False (P := Some i = Some j)) in I5 by congruence.
      destruct msgs; [done|]. by rewrite decide_False by congruence.
  - intros m [Hm| ->%list_elem_of_singleton]%elem_of_app; [by apply I6|]. right. by exists i, c.
Qed.

(** A client sends its request. *)
Lemma client_send_inv pend cur s s' i c : inv_at pend cur s -> clients s !! i = Some c -> at_ c = C_send -> client_step i s = Some s' ->
  exists pend' cur', inv_at pend' cur' s'.
Proof.
  intros [I1 I2 I3 I4 I5 I6 I7 I8] Hi Hc. unfold client_step, mesg_send. rewrite Hi. cbn [mbind option_bind]. rewrite Hc.
  change (1 <? 1) with false. cbn iota. destruct (fits _ _ _); [|done]. intros [= <-]. pose proof (I8 i c Hi) as Hp.
  set (c' := Client (pid c) (stdin c) C_recv (out c)).
  assert (Hni : i ∉ pend) by (intros Hin; destruct (I3 i Hin) as (? & ? & ?); simplify_eq; congruence).
  assert (Hncur : cur <> Some i) by (intros ->; destruct I4 as (_ & ? & ? & ? & ? & _); simplify_eq; congruence).
  assert (Hlen : (i < length (clients s))%nat) by (by apply lookup_lt_Some in Hi).
  exists (pend ++ [i]), cur. constructor; simpl.
  - rewrite of_type_app, I1, map_app. simpl. f_equal.
    + apply map_ext. intros j. symmetry. by apply request_of_insert with (c := c).
    + unfold of_type, request_of. simpl. by rewrite list_lookup_insert_eq.
  - apply NoDup_app. split_and!; [done| |apply NoDup_singleton]. intros j Hj ->%list_elem_of_singleton. done.
  - intros j [Hj|Hj%list_elem_of_singleton]%elem_of_app; [|exists c'; rewrite Hj; by rewrite list_lookup_insert_eq].
    destruct (I3 j Hj) as (c1 & H1 & H2). exists c1. rewrite list_lookup_insert_ne; [done|]. by intros ->.
  - destruct cur as [j|]; [|done]. destruct I4 as (Hj & c1 & ms & H1 & H2 & H3 & H4). split.
    + rewrite elem_of_app, list_elem_of_singleton. intros [?| ->]; done.
    + exists c1, ms. split_and!; try done. rewrite list_lookup_insert_ne; [done|]. by intros ->.
  - intros j c1 [(<- & <- & _)|(Hne & Hj)]%list_lookup_insert_Some.
    + specialize (I5 i c Hi). unfold client_ok in *. rewrite Hc in I5. destruct I5 as [Eq Eo]. simpl.
      exists []. split_and!; [done|constructor|]. rewrite of_type_app, Eq, of_type_one, (proj2 (Z.eqb_neq _ _)) by lia.
      unfold left_for. rewrite decide_True; [done|]. rewrite elem_of_app. right. by apply list_elem_of_singleton.
    + pose proof (I8 j c1 Hj). apply (client_ok_same (queue s)).
      { by rewrite of_type_app, of_type_one, (proj2 (Z.eqb_neq _ _)), app_nil_r by lia. }
      specialize (I5 j c1 Hj). unfold left_for in *. destruct (decide (j ∈ pend)) as [Hin|Hin].
      * rewrite decide_True; [done|]. rewrite elem_of_app. by left.
      * rewrite decide_False; [done|]. rewrite elem_of_app, list_elem_of_singleton. by intros [?| ->].
  - intros m [Hm| ->%list_elem_of_singleton]%elem_of_app; [|by left]. destruct (I6 m Hm) as [?|(j & c1 & Hj & E)]; [by left|right].
    destruct (decide (j = i)) as [->|Hne]; [exists i, c'; rewrite list_lookup_insert_eq; simplify_eq; done|].
    exists j, c1. by rewrite list_lookup_insert_ne.
  - by rewrite (pids_insert _ i c).
  - intros j c1 [(<- & <- & _)|(Hne & Hj)]%list_lookup_insert_Some; [done|by apply (I8 j)].
Qed.

(** A client that is waiting goes on; its queued messages and its output may change. *)
Lemma client_update_inv pend cur s i c c' q : inv_at pend cur s -> clients s !! i = Some c -> at_ c = C_recv ->
  pid c' = pid c -> stdin c' = stdin c ->
  (forall u, u <> pid c -> of_type u q = of_type u (queue s)) -> (forall m, m ∈ q -> m ∈ queue s) ->
  client_ok q (left_for pend cur (server s) i c) c' ->
  (at_ c' = C_recv \/ ((i ∉ pend) /\ cur <> Some i)) ->
  inv_at pend cur (State q (server s) (<[i := c']> (clients s))).
Proof.
  intros [I1 I2 I3 I4 I5 I6 I7 I8] Hi Hc Hpid Hin Hq Hsub Hok Hat. pose proof (I8 i c Hi) as Hp.
  assert (Hlen : (i < length (clients s))%nat) by (by apply lookup_lt_Some in Hi).
  constructor; simpl; try done.
  - rewrite Hq by lia. rewrite I1. apply map_ext. intros j. symmetry. by apply request_of_insert with (c := c).
  - intros j Hj. destruct (I3 j Hj) as (c1 & H1 & H2). destruct (decide (j = i)) as [->|Hne].
    + exists c'. rewrite list_lookup_insert_eq by done. split; [done|]. by destruct Hat as [|[? _] ].
    + exists c1. by rewrite list_lookup_insert_ne.
  - destruct cur as [j|]; [|done]. destruct I4 as (Hj & c1 & ms & H1 & H2 & H3 & H4). split; [done|].
    destruct (decide (j = i)) as [->|Hne].
    + exists c', ms. rewrite list_lookup_insert_eq by done. simplify_eq. rewrite Hpid. split_and!; try done. by destruct Hat as [|[_ ?] ].
    + exists c1, ms. by rewrite list_lookup_insert_ne.
  - intros j c1 [(<- & <- & _)|(Hne & Hj)]%list_lookup_insert_Some.
    + assert (replies c' = replies c) as E by (unfold replies, asks, asked; by rewrite Hpid, Hin).
      unfold left_for in *. by rewrite E.
    + apply (client_ok_same (queue s)); [|by apply I5]. apply Hq. intros E. by apply Hne, (pid_inj s i j c c1).
  - intros m Hm. destruct (I6 m (Hsub m Hm)) as [?|(j & c1 & Hj & E)]; [by left|right].
    destruct (decide (j = i)) as [->|Hne]; [exists i, c'; rewrite list_lookup_insert_eq by done; simplify_eq; by rewrite Hpid|].
    exists j, c1. by rewrite list_lookup_insert_ne.
  - by rewrite (pids_insert _ i c).
  - intros j c1 [(<- & <- & _)|(Hne & Hj)]%list_lookup_insert_Some; [by rewrite Hpid|by apply (I8 j)].
Qed.

(** What is left is never empty while a client is being answered. *)
Lemma left_nonempty pend cur s i c : inv_at pend cur s -> clients s !! i = Some c -> left_for pend cur (server s) i c = [] ->
  (i ∉ pend) /\ cur <> Some i.
Proof.
  intros [_ _ _ I4 _ _ _ I8] Hi. unfold left_for. destruct (decide (i ∈ pend)) as [Hin|Hni].
  - destruct (replies_body c (I8 i c Hi)) as (body & -> & _). by destruct body.
  - destruct (decide (cur = Some i)) as [->|Hne]; [|done]. destruct I4 as (_ & c1 & ms & _ & _ & -> & Hms). done.
Qed.

(** A client receives. *)
Lemma client_recv_inv pend cur s s' i c : inv_at pend cur s -> clients s !! i = Some c -> at_ c = C_recv -> client_step i s = Some s' ->
  exists pend' cur', inv_at pend' cur' s'.
Proof.
  intros HI Hi Hc. pose proof (i_range _ _ _ HI i c Hi) as Hp. pose proof (i_clients _ _ _ HI i c Hi) as Hok.
  unfold client_step, mesg_recv. rewrite Hi. cbn [mbind option_bind]. rewrite Hc.
  destruct (take_type (pid c) (queue s)) as [[d q]|] eqn:E; [|done].
  destruct (take_type_some _ _ _ _ E) as (Eq & Hother & Hperm). unfold client_ok in Hok. rewrite Hc in Hok.
  destruct Hok as (received & Ho & HF & Er). rewrite Eq in Er.
  assert (Hd : d ∈ replies c) by (rewrite <- Er; rewrite !elem_of_app; right; left; left).
  pose proof (replies_short c d Hp Hd). rewrite (proj2 (Nat.ltb_ge _ _)) by lia.
  assert (Hsub : forall m, m ∈ q -> m ∈ queue s) by (intros m Hm; rewrite Hperm; by right).
  intros Hs. exists pend, cur. destruct d as [|x d]; injection Hs as <-.
  - destruct (last_reply c received (of_type (pid c) q ++ left_for pend cur (server s) i c)) as [El Ec]; [done|done|done|].
    apply app_nil in El as [El Ef]. apply (client_update_inv pend cur s i c); try done.
    + unfold client_ok. simpl. split; [done|]. by rewrite Ho, Ec.
    + right. by apply (left_nonempty pend cur s i c).
  - apply (client_update_inv pend cur s i c); try done; [|by left]. unfold client_ok. simpl.
    exists (received ++ [x :: d]). split_and!.
    + by rewrite concat_app, Ho; simpl; rewrite app_nil_r.
    + apply Forall_app. split; [done|]. by constructor.
    + transitivity (replies c); [rewrite <- Er, <- app_assoc; done|done].
Qed.

Definition inv (s : state) : Prop := exists pend cur, inv_at pend cur s.

Lemma q1_step_inv s s' : inv s -> step s s' -> inv s'.
Proof.
  intros (pend & cur & HI) [Hs|i Hs].
  - destruct (server s) as [|t [|d msgs]| |] eqn:E; [by apply (server_recv_inv pend cur s)| |by apply (server_send_inv pend cur s s' t d msgs)|..];
      unfold server_step in Hs; by rewrite E in Hs.
  - destruct (clients s !! i) as [c|] eqn:Hi; [|by unfold client_step in Hs; rewrite Hi in Hs].
    destruct (at_ c) eqn:Hc; [by apply (client_send_inv pend cur s s' i c)|by apply (client_recv_inv pend cur s s' i c)|..];
      unfold client_step in Hs; rewrite Hi in Hs; cbn [mbind option_bind] in Hs; by rewrite Hc in Hs.
Qed.

Lemma q1_init_inv cs : clients_ok cs -> inv (main_init cs).
Proof.
  intros [Hn HF]. exists [], None.
  assert (Hl : forall i c, clients (main_init cs) !! i = Some c -> at_ c = C_send /\ out c = [] /\ 1 < pid c < 2 ^ 31).
  { intros i c. simpl. change (map ?f cs) with (f <$> cs). rewrite list_lookup_fmap. intros (x & Hx & ->)%fmap_Some. simpl.
    split_and!; try done; apply (proj1 (Forall_lookup _ _) HF i x Hx). }
  constructor; simpl; try done.
  - constructor.
  - intros i Hi. by apply elem_of_nil in Hi.
  - intros i c Hi. destruct (Hl i c Hi) as (Hc & Ho & _). unfold client_ok. by rewrite Hc.
  - intros m Hm. by apply elem_of_nil in Hm.
  - rewrite map_map. simpl. exact Hn.
  - intros i c Hi. by destruct (Hl i c Hi) as (_ & _ & H).
Qed.

(** *** Work *)

(** The calls on the queue that a message, a client and the server still make necessary. *)
Definition msg_work (m : Z * list Z) : Z :=
  if m.1 =? 1 then
    match server_request m.2 with
    | Request id path => 1 + 2 * Z.of_nat (length (answers fopen strerror m.2 id path))
    | _ => 1
    end
  else 1.
Definition client_work (c : client) : Z := match at_ c with C_send => 2 + 2 * Z.of_nat (length (replies c)) | _ => 0 end.
Definition server_work (srv : spc) : Z := match srv with S_send _ msgs => 2 * Z.of_nat (length msgs) | _ => 0 end.
Definition work (s : state) : Z := zsum msg_work (queue s) + zsum client_work (clients s) + server_work (server s).

Lemma q1_work_nonneg s : 0 <= work s.
Proof.
  unfold work. pose proof (zsum_nonneg msg_work (queue s)). pose proof (zsum_nonneg client_work (clients s)).
  assert (0 <= server_work (server s)) by (destruct (server s); simpl; lia).
  enough (0 <= zsum msg_work (queue s) /\ 0 <= zsum client_work (clients s)) by lia.
  split; [apply H; intros m; unfold msg_work; destruct (_ =? _); [destruct (server_request _)|]; lia|].
  apply H0. intros c. unfold client_work. destruct (at_ c); lia.
Qed.

Lemma request_work c : 1 < pid c < 2 ^ 31 -> msg_work (1, asks c) = 1 + 2 * Z.of_nat (length (replies c)).
Proof.
  intros Hp. unfold msg_work, replies, asks, asked. simpl. by destruct (request_parsed (pid c) (stdin c)) as (_ & -> & _); [lia|].
Qed.

Lemma reply_work t d : 1 < t -> msg_work (t, d) = 1.
Proof. intros Ht. unfold msg_work. simpl. by rewrite (proj2 (Z.eqb_neq t 1)) by lia. Qed.

(** Every step is one call. *)
Lemma q1_step_work s s' : inv s -> step s s' -> work s' = work s - 1.
Proof.
  intros (pend & cur & HI) [Hs|i Hs]; unfold work.
  - unfold server_step in Hs. destruct (server s) as [|t [|d msgs]| |] eqn:E; try done.
    + unfold mesg_recv in Hs. destruct (take_type 1 (queue s)) as [[d q]|] eqn:Et; [|done].
      destruct (take_type_some _ _ _ _ Et) as (Eq & _ & Hperm). rewrite (i_requests _ _ _ HI) in Eq.
      destruct pend as [|j pend]; [done|]. simpl in Eq. injection Eq as Ed _.
      destruct (i_pend _ _ _ HI j) as (c & Hj & _); [left|]. pose proof (i_range _ _ _ HI j c Hj) as Hp.
      assert (d = asks c) as -> by (rewrite <- Ed; unfold request_of; by rewrite Hj).
      pose proof (asks_length c Hp). rewrite (proj2 (Nat.ltb_ge _ _)) in Hs by lia. injection Hs as <-. simpl.
      rewrite serve_asks by done. rewrite (zsum_perm _ _ _ Hperm). simpl. rewrite request_work by done. lia.
    + pose proof (i_server _ _ _ HI) as Hc. destruct cur as [j|]; [|congruence]. destruct Hc as (_ & c & ms & Hj & _ & Es & _).
      pose proof (i_range _ _ _ HI j c Hj) as Hp. rewrite E in Es. injection Es as -> <-. unfold mesg_send in Hs.
      rewrite (proj2 (Z.ltb_ge _ _)) in Hs by lia. destruct (fits _ _ _); [|done]. injection Hs as <-. simpl.
      rewrite zsum_app. simpl. rewrite reply_work by lia. destruct msgs; simpl; lia.
  - unfold client_step in Hs. destruct (clients s !! i) as [c|] eqn:Hi; [|done]. cbn [mbind option_bind] in Hs.
    pose proof (i_range _ _ _ HI i c Hi) as Hp. destruct (at_ c) eqn:Hc; try done.
    + unfold mesg_send in Hs. change (1 <? 1) with false in Hs. cbn iota in Hs. destruct (fits _ _ _); [|done]. injection Hs as <-. simpl.
      rewrite zsum_app, (zsum_insert _ _ _ _ _ Hi). simpl. rewrite request_work by done. unfold client_work. rewrite Hc. simpl. lia.
    + unfold mesg_recv in Hs. destruct (take_type (pid c) (queue s)) as [[d q]|] eqn:Et; [|done].
      destruct (take_type_some _ _ _ _ Et) as (Eq & _ & Hperm). pose proof (i_clients _ _ _ HI i c Hi) as Hok.
      unfold client_ok in Hok. rewrite Hc in Hok. destruct Hok as (received & _ & _ & Er). rewrite Eq in Er.
      assert (Hd : d ∈ replies c) by (rewrite <- Er; rewrite !elem_of_app; right; left; left).
      pose proof (replies_short c d Hp Hd). rewrite (proj2 (Nat.ltb_ge _ _)) in Hs by lia.
      destruct d; injection Hs as <-; simpl; rewrite (zsum_insert _ _ _ _ _ Hi), (zsum_perm _ _ _ Hperm); simpl;
        rewrite reply_work by lia; unfold client_work; rewrite Hc; simpl; lia.
Qed.

Lemma q1_runs_inv cs n s : clients_ok cs -> nsteps step n (main_init cs) s -> inv s /\ Z.of_nat n + work s = work (main_init cs).
Proof.
  intros Hcs Hn. assert (Hall : forall s0, inv s0 -> nsteps step n s0 s -> inv s /\ Z.of_nat n + work s = work s0).
  { clear Hn. induction n as [|n IH]; intros s0 H0 Hn; inversion Hn as [|n' x y z Hs Hn']; subst; [split; [done|lia]|].
    destruct (IH y) as [Hi Hw]; [by apply (q1_step_inv s0)|done|]. split; [done|]. rewrite (q1_step_work s0 y) in Hw by done. lia. }
  apply Hall; [by apply q1_init_inv|done].
Qed.

(** *** Progress *)

(** All clients have their answers and the server waits for the next request. *)
Definition finished (s : state) : Prop :=
  server s = S_recv /\ queue s = [] /\ Forall (fun c => at_ c = C_done) (clients s).

(** The server waits to send, and the queue, in which there is no room, holds only requests. *)
Definition deadlocked (s : state) : Prop :=
  exists t d msgs, server s = S_send t (d :: msgs) /\ fits qbytes (queue s) d = false /\ Forall (fun m => m.1 = 1) (queue s).

(** The requests of all clients fit in the queue, with a message besides. *)
Definition room (cs : list (Z * list Z)) : Prop :=
  zsum (fun c => Z.of_nat (length (asks c))) (clients (main_init cs)) + Z.of_nat MAXMESGDATA <= qbytes /\
  Z.of_nat (length cs) < qbytes.

Lemma some_client (P : nat -> option state) n : (exists i s', P i = Some s') \/ (forall i, (i < n)%nat -> P i = None).
Proof.
  destruct (decide (Exists (fun i => is_Some (P i)) (List.seq 0 n))) as [H|H].
  - left. apply Exists_exists in H as (i & _ & s' & Hs). by exists i, s'.
  - right. intros i Hi. destruct (P i) eqn:E; [|done]. exfalso. apply H. apply Exists_exists. exists i.
    split; [apply elem_of_seq; lia|by eexists].
Qed.

Lemma blocked_client pend cur s i c : inv_at pend cur s -> clients s !! i = Some c -> client_step i s = None ->
  of_type (pid c) (queue s) = [] /\
  (at_ c = C_send -> fits qbytes (queue s) (asks c) = false) /\ (at_ c = C_recv -> (i ∈ pend) \/ cur = Some i).
Proof.
  intros HI Hi Hn. pose proof (i_range _ _ _ HI i c Hi) as Hp. pose proof (i_clients _ _ _ HI i c Hi) as Hok.
  unfold client_step in Hn. rewrite Hi in Hn. cbn [mbind option_bind] in Hn. unfold client_ok in Hok. destruct (at_ c) eqn:Hc.
  - split_and!; [by destruct Hok| |done]. intros _. unfold mesg_send in Hn. change (1 <? 1) with false in Hn. cbn iota in Hn.
    by destruct (fits _ _ _).
  - unfold mesg_recv in Hn. destruct (take_type (pid c) (queue s)) as [[d q]|] eqn:E.
    { destruct (MAXMESGDATA <? length d)%nat; [done|]. by destruct d. }
    apply take_type_none in E. split_and!; [done|done|]. intros _. destruct Hok as (received & _ & HF & Er).
    rewrite E in Er. unfold left_for in Er. destruct (decide (i ∈ pend)); [by left|].
    destruct (decide (cur = Some i)); [by right|]. exfalso. rewrite !app_nil_r in Er.
    destruct (replies_body c Hp) as (body & Eb & _). rewrite Er, Eb in HF. by apply Forall_app in HF as [_ [[] _]%Forall_cons].
  - split_and!; [by destruct Hok|done|done].
  - done.
Qed.

Lemma q1_progress s : inv s -> Z.of_nat MAXMESGDATA <= qbytes -> (exists s', step s s') \/ finished s \/ deadlocked s.
Proof.
  intros (pend & cur & HI) Hq. destruct (server_step s) as [s'|] eqn:Hsrv; [left; exists s'; by left|].
  destruct (some_client (fun i => client_step i s) (length (clients s))) as [(i & s' & Hs)|Hno]; [left; exists s'; by apply (step_client _ _ i)|].
  right. assert (Hb : forall i c, clients s !! i = Some c -> of_type (pid c) (queue s) = [] /\
    (at_ c = C_send -> fits qbytes (queue s) (asks c) = false) /\ (at_ c = C_recv -> (i ∈ pend) \/ cur = Some i)).
  { intros i c Hi. apply (blocked_client pend cur s i c HI Hi). apply Hno. by apply lookup_lt_Some in Hi. }
  assert (Hreq : Forall (fun m => m.1 = 1) (queue s)).
  { apply Forall_forall. intros m Hm. destruct (i_types _ _ _ HI m Hm) as [|(i & c & Hi & E)]; [done|exfalso].
    destruct (Hb i c Hi) as [Hnil _]. assert (m.2 ∈ of_type (pid c) (queue s)) as H.
    { unfold of_type. apply list_elem_of_In, in_map, filter_In. split; [by apply list_elem_of_In|]. by rewrite E, Z.eqb_refl. }
    rewrite Hnil in H. by apply elem_of_nil in H. }
  pose proof (i_server _ _ _ HI) as Hs. destruct cur as [i|].
  - right. destruct Hs as (_ & c & msgs & Hi & _ & Es & Hne). destruct msgs as [|d msgs]; [done|].
    exists (pid c), d, msgs. split_and!; try done. unfold server_step in Hsrv. rewrite Es in Hsrv. unfold mesg_send in Hsrv.
    pose proof (i_range _ _ _ HI i c Hi). rewrite (proj2 (Z.ltb_ge _ _)) in Hsrv by lia. by destruct (fits _ _ _).
  - left. unfold server_step in Hsrv. rewrite Hs in Hsrv. unfold mesg_recv in Hsrv.
    destruct (take_type 1 (queue s)) as [[d q]|] eqn:Et; [by destruct (_ <? _)%nat|]. apply take_type_none in Et.
    assert (Hempty : queue s = []).
    { destruct (queue s) as [|m q]; [done|]. apply Forall_cons in Hreq as [Em _]. unfold of_type in Et. simpl in Et.
      by rewrite Em, Z.eqb_refl in Et. }
    assert (Hpend : pend = []) by (pose proof (i_requests _ _ _ HI) as E; rewrite Et in E; by destruct pend).
    split_and!; try done. apply Forall_forall. intros c [i Hi]%list_elem_of_lookup. destruct (Hb i c Hi) as (_ & H1 & H2).
    pose proof (i_clients _ _ _ HI i c Hi) as Hok. destruct (at_ c) eqn:Hc; [|exfalso|done|by unfold client_ok in Hok; rewrite Hc in Hok].
    + specialize (H1 eq_refl). pose proof (asks_length c (i_range _ _ _ HI i c Hi)). rewrite Hempty in H1. unfold fits, cbytes in H1. simpl in H1.
      unfold MAXMESGDATA in *. apply andb_false_iff in H1 as [H1%Z.leb_gt|H1%Z.leb_gt]; lia.
    + destruct (H2 eq_refl) as [Hin|?]; [|done]. rewrite Hpend in Hin. by apply elem_of_nil in Hin.
Qed.

Lemma clients_same cs n s : clients_ok cs -> nsteps step n (main_init cs) s -> map (fun c => (pid c, stdin c)) (clients s) = cs.
Proof.
  intros Hcs. assert (Hone : forall s s', step s s' -> map (fun c => (pid c, stdin c)) (clients s') = map (fun c => (pid c, stdin c)) (clients s)).
  { intros s0 s' [Hs|i Hs].
    - unfold server_step in Hs. destruct (server s0) as [|t [|d msgs]| |]; try done;
        [destruct (mesg_recv _ _) as [| |[d q] ]|destruct (mesg_send _ _ _ _)]; try done; by injection Hs as <-.
    - unfold client_step in Hs. destruct (clients s0 !! i) as [c|] eqn:Hi; [|done]. cbn [mbind option_bind] in Hs.
      assert (Hins : forall pc o, map (fun c => (pid c, stdin c)) (<[i := Client (pid c) (stdin c) pc o]> (clients s0)) =
        map (fun c => (pid c, stdin c)) (clients s0)).
      { intros pc o. change (map ?f ?l) with (f <$> l). rewrite list_fmap_insert. apply list_insert_id. by rewrite list_lookup_fmap, Hi. }
      destruct (at_ c); [destruct (mesg_send _ _ _ _)|destruct (mesg_recv _ _) as [| |[ [|x d] q] ]|..]; try done; injection Hs as <-; apply Hins. }
  intros Hn. assert (Hall : forall s0, nsteps step n s0 s -> map (fun c => (pid c, stdin c)) (clients s) = map (fun c => (pid c, stdin c)) (clients s0)).
  { clear Hn. induction n as [|n IH]; intros s0 Hn; inversion Hn as [|n' x y z Hs Hn']; subst; [done|].
    rewrite (IH y Hn'). by apply Hone. }
  rewrite (Hall _ Hn). simpl. rewrite map_map. simpl. rewrite <- (map_id cs) at 2. apply map_ext. by intros [].
Qed.

(** With room for all requests the server is never blocked for good. *)
Lemma room_no_deadlock cs n s : clients_ok cs -> room cs -> nsteps step n (main_init cs) s -> ~ deadlocked s.
Proof.
  intros Hcs [Hb Hl] Hn (t & d & msgs & Es & Hfit & Hreq). destruct (q1_runs_inv cs n s Hcs Hn) as [(pend & cur & HI) _].
  pose proof (clients_same cs n s Hcs Hn) as Hsame.
  assert (Hd : (length d < MAXMESGDATA)%nat).
  { pose proof (i_server _ _ _ HI) as Hs. destruct cur as [i|]; [|congruence]. destruct Hs as (Hni & c & ms & Hi & Hc & Es' & _).
    pose proof (i_clients _ _ _ HI i c Hi) as Hok. unfold client_ok, left_for in Hok. rewrite Hc, decide_False, decide_True, Es in Hok by done.
    destruct Hok as (received & _ & _ & Er). apply (replies_short c); [by apply (i_range _ _ _ HI i)|].
    rewrite <- Er, !elem_of_app. right. right. left. }
  assert (Hdata : map snd (queue s) = map (request_of (clients s)) pend).
  { rewrite <- (i_requests _ _ _ HI). unfold of_type. f_equal. symmetry. apply forallb_filter_id, forallb_forall.
    intros m Hm%list_elem_of_In. apply Z.eqb_eq. by apply (proj1 (Forall_forall _ _) Hreq). }
  destruct (zsum_indices (fun c => Z.of_nat (length (asks c))) (clients s) pend) as [Hsum Hlen]; [lia|apply (i_nodup _ _ _ HI)| |].
  { intros i Hi. destruct (i_pend _ _ _ HI i Hi) as (c & Hc & _). by apply lookup_lt_Some in Hc. }
  assert (Hbytes : cbytes (queue s) = zsum (fun i => from_option (fun c => Z.of_nat (length (asks c))) 0 (clients s !! i)) pend).
  { unfold cbytes. rewrite <- (zsum_map snd (fun d => Z.of_nat (length d))), Hdata, zsum_map. apply zsum_ext.
    intros i _. unfold request_of. by destruct (clients s !! i). }
  assert (Hasks : zsum (fun c => Z.of_nat (length (asks c))) (clients s) = zsum (fun c => Z.of_nat (length (asks c))) (clients (main_init cs))).
  { pose proof (zsum_map (fun c => (pid c, stdin c)) (fun x => Z.of_nat (length (client_request (fmt_u x.1) x.2)))) as Hm.
    transitivity (zsum (fun x => Z.of_nat (length (client_request (fmt_u x.1) x.2))) cs); [by rewrite <- Hsame at 1; rewrite Hm|].
    simpl. by rewrite zsum_map. }
  assert (Hq : length (queue s) = length pend) by (by rewrite <- (length_map snd), Hdata, length_map).
  assert (Hc : length (clients s) = length cs) by (by rewrite <- Hsame, length_map).
  unfold fits in Hfit. apply andb_false_iff in Hfit as [H%Z.leb_gt|H%Z.leb_gt]; lia.
Qed.

(** *** What the clients have seen *)

Lemma seen s i c : inv s -> clients s !! i = Some c ->
  at_ c <> C_died /\ out c `prefix_of` answer c /\ (at_ c = C_done -> out c = answer c).
Proof.
  intros (pend & cur & HI) Hi. pose proof (i_clients _ _ _ HI i c Hi) as Hok. pose proof (i_range _ _ _ HI i c Hi) as Hp.
  rewrite <- (replies_concat c Hp). unfold client_ok in Hok. destruct (at_ c) eqn:Hc; [| | |done].
  - destruct Hok as [_ ->]. split_and!; [done|apply prefix_nil|done].
  - destruct Hok as (received & -> & _ & <-). split_and!; [done|rewrite concat_app; by apply prefix_app_r|done].
  - destruct Hok as [_ ->]. split_and!; done.
Qed.

Lemma server_alive s : inv s -> server s <> S_died /\ server s <> S_overrun.
Proof.
  intros (pend & cur & HI). pose proof (i_server _ _ _ HI) as Hs. destruct cur; [|by rewrite Hs].
  destruct Hs as (_ & c & ms & _ & _ & -> & _). done.
Qed.
End Run.

(** In every interleaving of the server and any number of clients with different
    process identifiers, whatever they read from standard input and whichever files
    exist, no call on the queue fails and the server never leaves its buffer; at every
    point what a client has written is a prefix of its own answer (the file, or the
    pathname with the error), and a client that has ended has written all of it. *)
Theorem mpx1q_answers fopen strerror qbytes cs n s :
  files_ok fopen strerror -> clients_ok cs -> nsteps (step fopen strerror qbytes) n (main_init cs) s ->
  server s <> S_died /\ server s <> S_overrun /\
  map (fun c => (pid c, stdin c)) (clients s) = cs /\
  forall i c, clients s !! i = Some c ->
    at_ c <> C_died /\ out c `prefix_of` answer fopen strerror c /\ (at_ c = C_done -> out c = answer fopen strerror c).
Proof.
  intros Hf Hcs Hn. destruct (q1_runs_inv fopen strerror qbytes Hf cs n s Hcs Hn) as [HI _].
  destruct (server_alive _ _ s HI) as [H1 H2]. split_and!; [done|done|by apply (clients_same fopen strerror qbytes cs n)|].
  intros i c. by apply (seen fopen strerror Hf).
Qed.

(** C34: for clients with different process identifiers, files and error texts without NUL
    bytes, and a queue that has room for the largest message: the clients and the server
    make a fixed number of calls in all, so every run ends; a run that cannot go on has
    served every client or is stuck because the server waits for room in a queue that
    holds only requests; and that cannot happen if the requests of all clients fit in
    the queue with one message more. *)
Theorem mpx1q_progress fopen strerror qbytes cs n s :
  files_ok fopen strerror -> clients_ok cs -> Z.of_nat MAXMESGDATA <= qbytes ->
  nsteps (step fopen strerror qbytes) n (main_init cs) s ->
  Z.of_nat n <= zsum (fun c => 2 + 2 * Z.of_nat (length (replies fopen strerror c))) (clients (main_init cs)) /\
  ((exists s', step fopen strerror qbytes s s') \/ finished s \/ deadlocked qbytes s) /\
  (room qbytes cs -> ~ deadlocked qbytes s).
Proof.
  intros Hf Hcs Hq Hn. destruct (q1_runs_inv fopen strerror qbytes Hf cs n s Hcs Hn) as [HI Hw].
  split_and!; [|by apply q1_progress|by intros Hr; apply (room_no_deadlock fopen strerror qbytes Hf cs n)].
  pose proof (q1_work_nonneg fopen strerror s) as H0. unfold work at 2 in Hw. simpl in Hw.
  enough (zsum (client_work fopen strerror) (map (fun c => Client c.1 c.2 C_send []) cs) =
    zsum (fun c => 2 + 2 * Z.of_nat (length (replies fopen strerror c))) (map (fun c => Client c.1 c.2 C_send []) cs)) by (simpl; lia).
  rewrite !zsum_map. done.
Qed.

(** *** Runs *)

(** A schedule: the server, or a client by its index. *)
Fixpoint run fopen strerror qbytes (sched : list (option nat)) (s : state) : option state :=
  match sched with
  | [] => Some s
  | who :: sched' =>
      s' ← match who with None => server_step fopen strerror qbytes s | Some i => client_step qbytes i s end;
      run fopen strerror qbytes sched' s'
  end.

Lemma run_nsteps fopen strerror qbytes sched : forall s s', run fopen strerror qbytes sched s = Some s' ->
  nsteps (step fopen strerror qbytes) (length sched) s s'.
Proof.
  induction sched as [|who sched IH]; intros s s'; simpl; [intros [= <-]; constructor|].
  destruct who as [i|]; [destruct (client_step qbytes i s) as [s1|] eqn:E|destruct (server_step fopen strerror qbytes s) as [s1|] eqn:E]; try done;
    cbn [mbind option_bind]; intros H; (eapply nsteps_l; [|by apply IH]); [by apply (step_client _ _ _ _ _ i)|by apply step_server].
Qed.

(** One file; two clients, one of which asks for it. *)
Definition demo_fs (path : list Z) : option (list Z) :=
  if decide (path = codes "motd") then Some (codes "hello" ++ [10] ++ codes "world") else None.
Definition demo_error (path : list Z) : list Z := codes "No such file or directory".
Definition demo_clients : list (Z * list Z) := [(77, codes "motd" ++ [10]); (78, codes "nil")].
Definition demo_sched : list (option nat) :=
  [Some 1; Some 0; None; None; None; Some 1; None; None; Some 1; Some 0; None; Some 0; None; Some 0]%nat.
Definition demo_end : state :=
  State [] S_recv [Client 77 (codes "motd" ++ [10]) C_done (codes "hello" ++ [10] ++ codes "world");
                   Client 78 (codes "nil") C_done (codes "nil: can't open, No such file or directory" ++ [10])].

Lemma demo_fs_ok : files_ok demo_fs demo_error.
Proof.
  split.
  - intros path content. unfold demo_fs. destruct (decide _); [intros [= <-]|done].
    by apply (bool_decide_unpack (0 ∉ codes "hello" ++ [10] ++ codes "world")).
  - intros path. by apply (bool_decide_unpack (0 ∉ codes "No such file or directory")).
Qed.

Lemma demo_clients_ok : clients_ok demo_clients.
Proof. split; [by apply (bool_decide_unpack (NoDup [77; 78]))|repeat constructor; simpl; lia]. Qed.

Lemma mpx1q_answers_witness :
  map (fun c => (pid c, stdin c)) (clients demo_end) = demo_clients /\
  forall i c, clients demo_end !! i = Some c -> at_ c = C_done -> out c = answer demo_fs demo_error c.
Proof.
  destruct (mpx1q_answers demo_fs demo_error 16384 demo_clients 14 demo_end demo_fs_ok demo_clients_ok) as (_ & _ & H1 & H2).
  - apply (run_nsteps _ _ _ demo_sched). vm_compute. reflexivity.
  - split; [exact H1|]. intros i c Hi Hc. destruct (H2 i c Hi) as (_ & _ & H). exact (H Hc).
Defined.

Lemma mpx1q_progress_witness :
  (exists s', step demo_fs demo_error 16384 (main_init demo_clients) s') \/ finished (main_init demo_clients).
Proof.
  destruct (mpx1q_progress demo_fs demo_error 16384 demo_clients 0 (main_init demo_clients) demo_fs_ok demo_clients_ok) as (_ & [H|[H|H] ] & Hr).
  - vm_compute. discriminate.
  - constructor.
  - left. exact H.
  - right. exact H.
  - exfalso. refine (Hr _ H). split; vm_compute; [discriminate|reflexivity].
Defined.

(** A queue of 4096 bytes and two clients with long pathnames: the server has taken the
    request of the first, that of the second fills the queue, and nobody can go on. *)
Definition crowd : list (Z * list Z) := [(100, replicate 4074 97); (101, replicate 4074 97)].

Lemma mpx1q_deadlock : exists s, nsteps (step (fun _ => None) demo_error 4096) 3 (main_init crowd) s /\
  deadlocked 4096 s /\ forall s', ~ step (fun _ => None) demo_error 4096 s s'.
Proof.
  destruct (run (fun _ => None) demo_error 4096 [Some 0; None; Some 1]%nat (main_init crowd)) as [s|] eqn:E; [|by vm_compute in E].
  exists s. split; [by apply (run_nsteps _ _ _ [Some 0; None; Some 1]%nat)|].
  vm_compute in E. injection E as <-. split.
  - eexists _, _, _. split; [reflexivity|]. split; [by vm_compute|]. by repeat constructor.
  - intros s' [H|i H]; [by vm_compute in H|]. do 2 (destruct i as [|i]; [by vm_compute in H|]). by vm_compute in H.
Qed.

(** A request whose identifier is no number makes [msgsnd] fail and ends the server; one
    that has identifier 1 is answered to the server itself, which takes the answer for a
    request; a full message is terminated behind the buffer. *)
Example bogus_identifier :
  option_map server (run demo_fs demo_error 16384 [None; None] (State [(1, codes "x motd")] S_recv [])) = Some S_died.
Proof. by vm_compute. Qed.

Example identifier_one :
  option_map queue (run demo_fs demo_error 16384 [None; None] (State [(1, codes "1 motd")] S_recv [])) =
    Some [(1, codes "hello" ++ [10])].
Proof. by vm_compute. Qed.

Example full_message : serve demo_fs demo_error (replicate MAXMESGDATA 97) = S_overrun.
Proof. by vm_compute. Qed.

(** A file with a NUL at the start of a line ends early for the client, which leaves the
    rest of the answer in the queue. *)
Example nul_in_file :
  let fs path := Some (codes "a" ++ [10; 0; 10] ++ codes "b") in
  option_map (fun s => (map out (clients s), queue s))
    (run fs demo_error 16384 [Some 0; None; None; None; None; None; Some 0; Some 0]%nat (main_init [(77, codes "f")])) =
  Some ([codes "a" ++ [10]], [(77, codes "b"); (77, [])]).
Proof. by vm_compute. Qed.
End Mpx1q.

(** ** A queue for each client: [unixipc/svmsgmpxnq] *)

Module MpxNq.

Inductive cpc := C_send | C_recv | C_rmid | C_done | C_died.
#[export] Instance cpc_eq_dec : EqDecision cpc.
Proof. solve_decision. Defined.

(** A client with its private queue, which [main] removes at the end. *)
Record client := Client { readid : Z; stdin : list Z; at_ : cpc; own : msgq; out : list Z }.

Inductive spc := S_recv | S_died | S_overrun.

(** The well-known queue, the server, its children (the queue a child writes to and what it
    still has to send), and the clients. *)
Record state := State { wellknown : msgq; server : spc; children : list (Z * list (list Z)); clients : list client }.

Section Run.
Variable fopen : list Z -> option (list Z).
Variable strerror : list Z -> list Z.
Variable qbytes : Z.

Definition asks (c : client) : list Z := client_request (fmt_u (readid c)) (stdin c).

(** [server], from one [Mesg_recv] to the next; [Fork] succeeds. *)
Definition server_step (s : state) : option state :=
  match server s with
  | S_recv =>
      match mesg_recv (wellknown s) 1 with
      | Blocks => None
      | Fails => Some (State (wellknown s) S_died (children s) (clients s))
      | Does (d, q) =>
          Some (match server_request d with
                | Missing | Bogus => State q S_recv (children s) (clients s)
                | Overrun => State q S_overrun (children s) (clients s)
                | Request id path =>
                    State q S_recv (children s ++ [(s32 (atol id), answers fopen strerror d id path)]) (clients s)
                end)
      end
  | _ => None
  end.

(** The queue with an identifier; it is gone when its client has removed it. *)
Definition has_queue (id : Z) (c : client) : bool :=
  (readid c =? id) && match at_ c with C_done => false | _ => true end.

(** A child sends the next message, whose type is still the 1 of the request; without such
    a queue [err_sys] ends it. *)
Definition child_step (k : nat) (s : state) : option state :=
  '(writeid, msgs) ← children s !! k;
  match msgs with
  | [] => None
  | d :: msgs' =>
      match list_find (fun c => has_queue writeid c = true) (clients s) with
      | None => Some (State (wellknown s) (server s) (<[k := (writeid, [])]> (children s)) (clients s))
      | Some (i, c) =>
          match mesg_send qbytes (own c) 1 d with
          | Does q =>
              Some (State (wellknown s) (server s) (<[k := (writeid, msgs')]> (children s))
                      (<[i := Client (readid c) (stdin c) (at_ c) q (out c)]> (clients s)))
          | _ => None
          end
      end
  end.

(** [client] and the [Msgctl] of [main], the [i]th. *)
Definition client_step (i : nat) (s : state) : option state :=
  c ← clients s !! i;
  let move wk pc q o := Some (State wk (server s) (children s) (<[i := Client (readid c) (stdin c) pc q o]> (clients s))) in
  match at_ c with
  | C_send =>
      match mesg_send qbytes (wellknown s) 1 (asks c) with
      | Blocks => None
      | Fails => move (wellknown s) C_died (own c) (out c)
      | Does wk => move wk C_recv (own c) (out c)
      end
  | C_recv =>
      match mesg_recv (own c) 1 with
      | Blocks => None
      | Fails => move (wellknown s) C_died (own c) (out c)
      | Does ([], q) => move (wellknown s) C_rmid q (out c)
      | Does (d, q) => move (wellknown s) C_recv q (out c ++ d)
      end
  | C_rmid => move (wellknown s) C_done [] (out c)
  | _ => None
  end.

Inductive step (s s' : state) : Prop :=
| step_server : server_step s = Some s' -> step s s'
| step_child k : child_step k s = Some s' -> step s s'
| step_client i : client_step i s = Some s' -> step s s'.

Definition main_init (cs : list (Z * list Z)) : state :=
  State [] S_recv [] (map (fun c => Client c.1 c.2 C_send [] []) cs).

(** *** What the clients are to see *)

Definition asked (c : client) : list Z := chomp (line_read (fmt_u (readid c)) (stdin c)).
Definition answer (c : client) : list Z := wanted fopen strerror (asks c) (asked c).
Definition replies (c : client) : list (list Z) := answers fopen strerror (asks c) (fmt_u (readid c)) (asked c).

(** The kernel gives different queues different identifiers. *)
Definition clients_ok (cs : list (Z * list Z)) : Prop := NoDup (map fst cs) /\ Forall (fun c => 0 <= c.1 < 2 ^ 31) cs.

(** *** The invariant *)

(** What the child that writes to a queue still has to send. *)
Fixpoint left_of (id : Z) (l : list (Z * list (list Z))) : list (list Z) :=
  match l with
  | [] => []
  | (w, msgs) :: l' => if w =? id then msgs else left_of id l'
  end.

Lemma left_of_lookup id msgs l k : NoDup (map fst l) -> l !! k = Some (id, msgs) -> left_of id l = msgs.
Proof.
  revert k. induction l as [|[w m] l IH]; intros k Hn Hk; [done|]. simpl in *. apply NoDup_cons in Hn as [Hw Hn].
  destruct k as [|k]; [injection Hk as -> ->; by rewrite Z.eqb_refl|]. rewrite (proj2 (Z.eqb_neq w id)); [by apply (IH k)|].
  intros ->. apply Hw. apply list_elem_of_In, in_map_iff. exists (id, msgs). split; [done|]. by apply list_elem_of_In, list_elem_of_lookup_2 with k.
Qed.

Lemma left_of_none id l : id ∉ map fst l -> left_of id l = [].
Proof.
  induction l as [|[w m] l IH]; simpl; [done|]. rewrite not_elem_of_cons. intros [Hne Hl].
  rewrite (proj2 (Z.eqb_neq w id)) by done. by apply IH.
Qed.

Lemma left_of_insert_ne u id msgs msgs' l k : l !! k = Some (id, msgs) -> u <> id -> left_of u (<[k := (id, msgs')]> l) = left_of u l.
Proof.
  revert k. induction l as [|[w m] l IH]; intros [|k] Hk Hu; simpl in *; try done.
  - injection Hk as -> ->. by rewrite (proj2 (Z.eqb_neq id u)) by done.
  - by rewrite (IH k).
Qed.

Lemma ids_insert id msgs msgs' (l : list (Z * list (list Z))) k : l !! k = Some (id, msgs) -> map fst (<[k := (id, msgs')]> l) = map fst l.
Proof.
  intros Hk. change (map fst) with (fmap (M := list) (@fst Z (list (list Z)))). rewrite list_fmap_insert. apply list_insert_id.
  by rewrite list_lookup_fmap, Hk.
Qed.

Lemma left_of_app u id msgs l : id ∉ map fst l -> left_of u (l ++ [(id, msgs)]) = if id =? u then msgs else left_of u l.
Proof.
  induction l as [|[w m] l IH]; simpl; [done|]. rewrite not_elem_of_cons. intros [Hne Hl]. rewrite (IH Hl).
  destruct (Z.eqb_spec w u) as [->|]; [|done]. by rewrite (proj2 (Z.eqb_neq id u)).
Qed.

(** What has still to be sent to the [i]th client: all, if its request waits; else what its
    child has left. *)
Definition left_for (pend : list nat) (ch : list (Z * list (list Z))) (i : nat) (c : client) : list (list Z) :=
  if decide (i ∈ pend) then replies c else left_of (readid c) ch.

Definition client_ok (ch : list (Z * list (list Z))) (left_ : list (list Z)) (c : client) : Prop :=
  Forall (fun m => m.1 = 1) (own c) /\
  match at_ c with
  | C_send => own c = [] /\ out c = [] /\ (readid c ∉ map fst ch)
  | C_recv => exists received, out c = concat received /\ Forall (fun d => d <> []) received /\
      received ++ of_type 1 (own c) ++ left_ = replies c
  | C_rmid | C_done => own c = [] /\ left_ = [] /\ out c = concat (replies c)
  | C_died => False
  end.

Definition request_of (cs : list client) (i : nat) : list Z := from_option asks [] (cs !! i).

Record inv_at (pend : list nat) (s : state) : Prop := {
  n_requests : wellknown s = map (fun i => (1, request_of (clients s) i)) pend;
  n_nodup : NoDup pend;
  n_pend : forall i, i ∈ pend -> exists c, clients s !! i = Some c /\ at_ c = C_recv /\ (readid c ∉ map fst (children s));
  n_server : server s = S_recv;
  n_children : NoDup (map fst (children s));
  n_owner : forall id, id ∈ map fst (children s) -> exists i c, clients s !! i = Some c /\ readid c = id;
  n_clients : forall i c, clients s !! i = Some c -> client_ok (children s) (left_for pend (children s) i c) c;
  n_ids : NoDup (map readid (clients s));
  n_range : forall i c, clients s !! i = Some c -> 0 <= readid c < 2 ^ 31 }.

Hypothesis Hfiles : files_ok fopen strerror.

Lemma nq_replies_body c : 0 <= readid c < 2 ^ 31 -> exists body, replies c = body ++ [[]] /\ concat body = answer c /\
  Forall (fun l => l <> [] /\ (length l < MAXMESGDATA)%nat) body.
Proof. intros Hp. by apply (answers_wanted fopen strerror (readid c) (stdin c) Hfiles). Qed.

Lemma nq_replies_concat c : 0 <= readid c < 2 ^ 31 -> concat (replies c) = answer c.
Proof. intros Hp. destruct (nq_replies_body c Hp) as (body & -> & <- & _). by rewrite concat_app, app_nil_r. Qed.

Lemma nq_replies_short c d : 0 <= readid c < 2 ^ 31 -> d ∈ replies c -> (length d < MAXMESGDATA)%nat.
Proof.
  intros Hp Hd. destruct (nq_replies_body c Hp) as (body & E & _ & HF). rewrite E in Hd.
  apply elem_of_app in Hd as [Hd| ->%list_elem_of_singleton]; [|unfold MAXMESGDATA; simpl; lia].
  by destruct (proj1 (Forall_forall _ _) HF d Hd).
Qed.

Lemma asks_parsed c : 0 <= readid c < 2 ^ 31 ->
  server_request (asks c) = Request (fmt_u (readid c)) (asked c) /\ s32 (atol (fmt_u (readid c))) = readid c /\
  (2 <= length (asks c) < MAXMESGDATA)%nat.
Proof.
  intros Hp. destruct (request_parsed (readid c) (stdin c) Hp) as (_ & H1 & _ & H2). destruct (id_text (readid c) Hp) as (_ & _ & _ & H3).
  exact (conj H1 (conj H3 H2)).
Qed.

Lemma id_inj s i j c c' : NoDup (map readid (clients s)) -> clients s !! i = Some c -> clients s !! j = Some c' -> readid c = readid c' -> i = j.
Proof.
  intros Hn Hi Hj E. apply (NoDup_lookup (map readid (clients s)) i j (readid c) Hn).
  - change (map readid) with (fmap (M := list) readid). by rewrite list_lookup_fmap, Hi.
  - change (map readid) with (fmap (M := list) readid). by rewrite list_lookup_fmap, Hj, E.
Qed.

Lemma nq_request_of_insert cs i c c' j : cs !! i = Some c -> readid c' = readid c -> stdin c' = stdin c ->
  request_of (<[i := c']> cs) j = request_of cs j.
Proof.
  intros Hi Hp Hs. unfold request_of. destruct (decide (j = i)) as [->|Hne]; [|by rewrite list_lookup_insert_ne].
  rewrite list_lookup_insert_eq by (by apply lookup_lt_Some in Hi). rewrite Hi. simpl. unfold asks. by rewrite Hp, Hs.
Qed.

Lemma own_ids_insert cs i c c' : cs !! i = Some c -> readid c' = readid c -> map readid (<[i := c']> cs) = map readid cs.
Proof.
  intros Hi Hp. change (map readid) with (fmap (M := list) readid). rewrite list_fmap_insert, Hp.
  apply list_insert_id. by rewrite list_lookup_fmap, Hi.
Qed.

(** The queue a child writes to. *)
Lemma find_queue s i c : NoDup (map readid (clients s)) -> clients s !! i = Some c -> at_ c <> C_done ->
  list_find (fun c' => has_queue (readid c) c' = true) (clients s) = Some (i, c).
Proof.
  intros Hn Hi Hc. assert (Hq : has_queue (readid c) c = true) by (unfold has_queue; rewrite Z.eqb_refl; by destruct (at_ c)).
  destruct (list_find _ _) as [[j c']|] eqn:E.
  - apply list_find_Some in E as (Hj & Hq' & _). unfold has_queue in Hq'. apply andb_true_iff in Hq' as [He%Z.eqb_eq _].
    assert (j = i) as -> by (by apply (id_inj s j i c' c)). by simplify_eq.
  - apply list_find_None in E. apply (proj1 (Forall_lookup _ _) E i c) in Hi. done.
Qed.

(** A client that does not change. *)
Lemma client_ok_kept pend pend' ch ch' i c : client_ok ch (left_for pend ch i c) c ->
  (i ∈ pend' <-> i ∈ pend) -> left_of (readid c) ch' = left_of (readid c) ch ->
  (at_ c = C_send -> readid c ∈ map fst ch' -> readid c ∈ map fst ch) -> client_ok ch' (left_for pend' ch' i c) c.
Proof.
  intros Hok Hp Hl Hs. unfold left_for in *. rewrite Hl, (decide_ext (i ∈ pend') (i ∈ pend)) by done.
  unfold client_ok in *. destruct Hok as [H1 H2]. split; [done|]. destruct (at_ c); [|done..].
  destruct H2 as (Ho & Hout & Hn). split_and!; [done|done|]. intros H. by apply Hn, Hs.
Qed.

(** The server takes a request. *)
Lemma nq_server_inv pend s s' : inv_at pend s -> server_step s = Some s' -> exists pend', inv_at pend' s'.
Proof.
  intros [I1 I2 I3 I4 I5 I6 I7 I8 I9]. unfold server_step, mesg_recv. rewrite I4, I1.
  destruct pend as [|i pend]; [done|]. destruct (I3 i) as (c & Hi & Hc & Hnc); [left|]. pose proof (I9 i c Hi) as Hp.
  destruct (asks_parsed c Hp) as (Ereq & Eid & Hlen). simpl.
  assert (request_of (clients s) i = asks c) as -> by (unfold request_of; by rewrite Hi).
  rewrite (proj2 (Nat.ltb_ge _ _)) by lia. rewrite Ereq, Eid. intros [= <-].
  apply NoDup_cons in I2 as [Hni I2]. exists pend. constructor; simpl; try done.
  - intros j Hj. destruct (I3 j) as (c1 & H1 & H2 & H3); [by right|]. exists c1. split_and!; [done|done|].
    rewrite map_app, elem_of_app. simpl. rewrite list_elem_of_singleton. intros [H|H]; [done|].
    assert (j = i) as -> by (by apply (id_inj s j i c1 c)). done.
  - rewrite map_app. apply NoDup_app. split_and!; [done| |apply NoDup_singleton]. simpl. intros x Hx ->%list_elem_of_singleton. done.
  - intros id. rewrite map_app, elem_of_app. intros [H|H]; [by apply I6|]. simpl in H. apply list_elem_of_singleton in H as ->. by exists i, c.
  - intros j c1 Hj. specialize (I7 j c1 Hj). destruct (decide (j = i)) as [->|Hne].
    + simplify_eq. unfold left_for in *. rewrite decide_True in I7 by left. rewrite decide_False by done.
      rewrite left_of_app, Z.eqb_refl by done. destruct I7 as [Ha Hb]. rewrite Hc in Hb. split; [done|]. rewrite Hc. exact Hb.
    + assert (readid c <> readid c1) by (intros E; by apply Hne, (id_inj s j i c1 c)). apply (client_ok_kept (i :: pend) _ (children s)); [done| | |].
      * rewrite elem_of_cons. by intuition.
      * rewrite left_of_app by done. by rewrite (proj2 (Z.eqb_neq _ _)).
      * intros _. rewrite map_app, elem_of_app. simpl. rewrite list_elem_of_singleton. intros [?|?]; [done|congruence].
Qed.

(** A client sends its request. *)
Lemma nq_client_send_inv pend s s' i c : inv_at pend s -> clients s !! i = Some c -> at_ c = C_send -> client_step i s = Some s' ->
  exists pend', inv_at pend' s'.
Proof.
  intros [I1 I2 I3 I4 I5 I6 I7 I8 I9] Hi Hc. unfold client_step, mesg_send. rewrite Hi. cbn [mbind option_bind]. rewrite Hc.
  change (1 <? 1) with false. cbn iota. destruct (fits _ _ _); [|done]. intros [= <-].
  set (c' := Client (readid c) (stdin c) C_recv (own c) (out c)).
  assert (Hni : i ∉ pend) by (intros Hin; destruct (I3 i Hin) as (? & ? & ? & _); simplify_eq; congruence).
  assert (Hlen : (i < length (clients s))%nat) by (by apply lookup_lt_Some in Hi).
  destruct (I7 i c Hi) as [Hty Hok]. rewrite Hc in Hok. destruct Hok as (Hown & Hout & Hch).
  exists (pend ++ [i]). constructor; simpl; try done.
  - rewrite I1, map_app. simpl. f_equal; [apply map_ext; intros j; f_equal; symmetry; by apply nq_request_of_insert with (c := c)|].
    unfold request_of. by rewrite list_lookup_insert_eq.
  - apply NoDup_app. split_and!; [done| |apply NoDup_singleton]. intros j Hj ->%list_elem_of_singleton. done.
  - intros j [Hj|Hj%list_elem_of_singleton]%elem_of_app; [|exists c'; rewrite Hj; by rewrite list_lookup_insert_eq].
    destruct (I3 j Hj) as (c1 & H1 & H2). exists c1. rewrite list_lookup_insert_ne; [done|]. by intros ->.
  - intros id Hid. destruct (I6 id Hid) as (j & c1 & Hj & E). destruct (decide (j = i)) as [->|Hne].
    + simplify_eq. done.
    + exists j, c1. by rewrite list_lookup_insert_ne.
  - intros j c1 [(<- & <- & _)|(Hne & Hj)]%list_lookup_insert_Some.
    + split; [done|]. simpl. exists []. split_and!; [done|constructor|]. rewrite Hown. unfold left_for.
      rewrite decide_True; [done|]. rewrite elem_of_app. right. by apply list_elem_of_singleton.
    + apply (client_ok_kept pend _ (children s)); [by apply I7| |done|done].
      rewrite elem_of_app, list_elem_of_singleton. split; [by intros [?| ->]|by left].
  - by rewrite (own_ids_insert _ i c).
  - intros j c1 [(<- & <- & _)|(Hne & Hj)]%list_lookup_insert_Some; [by apply (I9 i c)|by apply (I9 j)].
Qed.

(** A client whose answer is under way, when it receives, when its child sends, and when
    it ends. *)
Lemma nq_update_inv pend s i c c' ch' : inv_at pend s -> clients s !! i = Some c ->
  readid c' = readid c -> stdin c' = stdin c -> map fst ch' = map fst (children s) ->
  (forall u, u <> readid c -> left_of u ch' = left_of u (children s)) ->
  client_ok ch' (left_for pend ch' i c') c' -> (i ∈ pend -> at_ c' = C_recv) ->
  inv_at pend (State (wellknown s) (server s) ch' (<[i := c']> (clients s))).
Proof.
  intros [I1 I2 I3 I4 I5 I6 I7 I8 I9] Hi Hid Hin Hfst Hleft Hok Hat.
  assert (Hlen : (i < length (clients s))%nat) by (by apply lookup_lt_Some in Hi).
  constructor; simpl; rewrite ?Hfst; try done.
  - rewrite I1. apply map_ext. intros j. f_equal. symmetry. by apply nq_request_of_insert with (c := c).
  - intros j Hj. destruct (I3 j Hj) as (c1 & H1 & H2 & H3). destruct (decide (j = i)) as [->|Hne].
    + exists c'. rewrite list_lookup_insert_eq by done. simplify_eq. rewrite Hid. split_and!; [done|by apply Hat|done].
    + exists c1. by rewrite list_lookup_insert_ne.
  - intros id Hid'. destruct (I6 id Hid') as (j & c1 & Hj & E). destruct (decide (j = i)) as [->|Hne].
    + exists i, c'. rewrite list_lookup_insert_eq by done. simplify_eq. by rewrite Hid.
    + exists j, c1. by rewrite list_lookup_insert_ne.
  - intros j c1 [(<- & <- & _)|(Hne & Hj)]%list_lookup_insert_Some; [done|].
    apply (client_ok_kept pend _ (children s)); [by apply I7|done| |by rewrite Hfst].
    apply Hleft. intros E. by apply Hne, (id_inj s i j c c1).
  - by rewrite (own_ids_insert _ i c).
  - intros j c1 [(<- & <- & _)|(Hne & Hj)]%list_lookup_insert_Some; [rewrite Hid; by apply (I9 i c)|by apply (I9 j)].
Qed.

(** A child sends. *)
Lemma nq_child_inv pend s s' k : inv_at pend s -> child_step k s = Some s' -> inv_at pend s'.
Proof.
  intros HI. pose proof HI as [I1 I2 I3 I4 I5 I6 I7 I8 I9]. unfold child_step.
  destruct (children s !! k) as [[id msgs]|] eqn:Hk; [|done]. cbn [mbind option_bind]. destruct msgs as [|d msgs]; [done|].
  assert (Hid : id ∈ map fst (children s)).
  { apply list_elem_of_In, in_map_iff. exists (id, d :: msgs). split; [done|]. by apply list_elem_of_In, list_elem_of_lookup_2 with k. }
  destruct (I6 id Hid) as (i & c & Hi & <-). pose proof (left_of_lookup _ _ _ _ I5 Hk) as Hl.
  assert (Hni : i ∉ pend) by (intros Hin; destruct (I3 i Hin) as (c1 & H1 & _ & H3); by simplify_eq).
  pose proof (I7 i c Hi) as [Hty Hok]. unfold left_for in Hok. rewrite decide_False, Hl in Hok by done.
  destruct (at_ c) eqn:Hc; try (destruct Hok as (_ & ? & ?); done); try done.
  rewrite (find_queue s i c) by (rewrite ?Hc; done). unfold mesg_send. change (1 <? 1) with false. cbn iota.
  destruct (fits _ _ _); [|done]. intros [= <-]. rewrite Hc. destruct Hok as (received & Ho & HF & Er).
  apply (nq_update_inv pend s i c); try done.
  - by apply (ids_insert _ (d :: msgs)).
  - intros u Hu. by apply (left_of_insert_ne _ _ (d :: msgs)).
  - split; simpl; [apply Forall_app; split; [done|by constructor]|]. exists received. split_and!; [done|done|].
    rewrite of_type_app, of_type_one. unfold left_for. rewrite decide_False by done. simpl.
    rewrite (left_of_lookup _ msgs _ k); [|by rewrite (ids_insert _ (d :: msgs))|].
    + rewrite <- app_assoc. exact Er.
    + apply list_lookup_insert_eq. by apply lookup_lt_Some in Hk.
Qed.

(** A client receives, or removes its queue. *)
Lemma nq_client_inv pend s s' i c : inv_at pend s -> clients s !! i = Some c -> at_ c <> C_send -> client_step i s = Some s' -> inv_at pend s'.
Proof.
  intros HI Hi Hns. pose proof (n_range _ _ HI i c Hi) as Hp. pose proof (n_clients _ _ HI i c Hi) as [Hty Hok].
  unfold client_step, mesg_recv. rewrite Hi. cbn [mbind option_bind]. destruct (at_ c) eqn:Hc; try done.
  - destruct (take_type 1 (own c)) as [[d q]|] eqn:E; [|done].
    destruct (take_type_some _ _ _ _ E) as (Eq & _ & Hperm). destruct Hok as (received & Ho & HF & Er). rewrite Eq in Er.
    assert (Hd : d ∈ replies c) by (rewrite <- Er; rewrite !elem_of_app; right; left; left).
    pose proof (nq_replies_short c d Hp Hd). rewrite (proj2 (Nat.ltb_ge _ _)) by lia.
    assert (Hq : Forall (fun m => m.1 = 1) q) by (rewrite Hperm in Hty; by apply Forall_cons in Hty as [_ ?]).
    intros Hs. destruct d as [|x d]; injection Hs as <-.
    + destruct (nq_replies_body c Hp) as (body & Eb & _ & HB). rewrite Eb in Er.
      destruct (app_last_empty received (of_type 1 q ++ left_for pend (children s) i c) body) as [Hnil ->]; [done| |done|].
      { eapply Forall_impl; [exact HB|]. by intros y [Hy _]. }
      apply app_nil in Hnil as [Hnq Hnl].
      assert (Hni : i ∉ pend) by (intros Hin; unfold left_for in Hnl; rewrite decide_True in Hnl by done; rewrite Hnl in Eb; by destruct body).
      apply (nq_update_inv pend s i c); try done. split; simpl; [done|]. split_and!; [|exact Hnl|].
      * destruct q as [|m q]; [done|]. apply Forall_cons in Hq as [Em _]. unfold of_type in Hnq. simpl in Hnq. by rewrite Em, Z.eqb_refl in Hnq.
      * transitivity (concat (replies c)); [|done]. by rewrite Eb, concat_app, app_nil_r.
    + apply (nq_update_inv pend s i c); try done. split; simpl; [done|]. exists (received ++ [x :: d]). split_and!.
      * by rewrite concat_app, Ho; simpl; rewrite app_nil_r.
      * apply Forall_app. split; [done|]. by constructor.
      * transitivity (replies c); [rewrite <- Er, <- app_assoc; done|done].
  - intros [= <-]. destruct Hok as (Hown & Hl & Hout). apply (nq_update_inv pend s i c); try done.
    intros Hin. destruct (n_pend _ _ HI i Hin) as (c1 & H1 & H2 & _). simplify_eq. congruence.
Qed.

Definition inv (s : state) : Prop := exists pend, inv_at pend s.

Lemma nq_step_inv s s' : inv s -> step s s' -> inv s'.
Proof.
  intros (pend & HI) [Hs|k Hs|i Hs].
  - by apply (nq_server_inv pend s).
  - exists pend. by apply (nq_child_inv pend s s' k).
  - destruct (clients s !! i) as [c|] eqn:Hi; [|by unfold client_step in Hs; rewrite Hi in Hs].
    destruct (decide (at_ c = C_send)) as [Hc|Hc]; [by apply (nq_client_send_inv pend s s' i c)|].
    exists pend. by apply (nq_client_inv pend s s' i c).
Qed.

Lemma nq_init_inv cs : clients_ok cs -> inv (main_init cs).
Proof.
  intros [Hn HF]. exists []. constructor; simpl; try done.
  - constructor.
  - intros i Hi. by apply elem_of_nil in Hi.
  - constructor.
  - intros id Hi. by apply elem_of_nil in Hi.
  - intros i c. change (map ?f cs) with (f <$> cs). rewrite list_lookup_fmap. intros (x & Hx & ->)%fmap_Some.
    split; [constructor|]. split_and!; [done|done|apply not_elem_of_nil].
  - rewrite map_map. simpl. exact Hn.
  - intros i c. change (map ?f cs) with (f <$> cs). rewrite list_lookup_fmap. intros (x & Hx & ->)%fmap_Some. simpl.
    apply (proj1 (Forall_lookup _ _) HF i x Hx).
Qed.

(** *** Work *)

Definition request_weight (m : Z * list Z) : Z :=
  match server_request m.2 with
  | Request id path => 1 + 2 * Z.of_nat (length (answers fopen strerror m.2 id path))
  | _ => 1
  end.
Definition client_weight (c : client) : Z :=
  Z.of_nat (length (own c)) + match at_ c with C_send => 3 + 2 * Z.of_nat (length (replies c)) | C_recv | C_rmid => 1 | _ => 0 end.
Definition child_weight (ch : Z * list (list Z)) : Z := 2 * Z.of_nat (length ch.2).
Definition work (s : state) : Z := zsum request_weight (wellknown s) + zsum client_weight (clients s) + zsum child_weight (children s).

Lemma nq_work_nonneg s : 0 <= work s.
Proof.
  unfold work. pose proof (zsum_nonneg request_weight (wellknown s)) as H1. pose proof (zsum_nonneg client_weight (clients s)) as H2.
  pose proof (zsum_nonneg child_weight (children s)) as H3.
  enough (0 <= zsum request_weight (wellknown s) /\ 0 <= zsum client_weight (clients s) /\ 0 <= zsum child_weight (children s)) by lia.
  split_and!; [apply H1; intros m; unfold request_weight; destruct (server_request _); lia
              |apply H2; intros c; unfold client_weight; destruct (at_ c); lia|apply H3; intros c; unfold child_weight; lia].
Qed.

Lemma nq_request_weight c : 0 <= readid c < 2 ^ 31 -> request_weight (1, asks c) = 1 + 2 * Z.of_nat (length (replies c)).
Proof. intros Hp. unfold request_weight. simpl. by destruct (asks_parsed c Hp) as (-> & _). Qed.

(** Every step is one call. *)
Lemma nq_step_work s s' : inv s -> step s s' -> work s' = work s - 1.
Proof.
  intros (pend & HI) [Hs|k Hs|i Hs]; pose proof HI as [I1 I2 I3 I4 I5 I6 I7 I8 I9]; unfold work.
  - unfold server_step, mesg_recv in Hs. rewrite I4, I1 in Hs. destruct pend as [|i pend]; [done|].
    destruct (I3 i) as (c & Hi & _); [left|]. pose proof (I9 i c Hi) as Hp. destruct (asks_parsed c Hp) as (Ereq & _ & Hlen).
    simpl in Hs. rewrite I1. simpl. assert (request_of (clients s) i = asks c) as E by (unfold request_of; by rewrite Hi). rewrite E in *.
    rewrite (proj2 (Nat.ltb_ge _ _)), Ereq in Hs by lia. injection Hs as <-. simpl. rewrite zsum_app. simpl.
    rewrite nq_request_weight by done. unfold child_weight at 2. simpl. unfold replies. lia.
  - unfold child_step in Hs. destruct (children s !! k) as [[id msgs]|] eqn:Hk; [|done]. cbn [mbind option_bind] in Hs.
    destruct msgs as [|d msgs]; [done|].
    assert (Hid : id ∈ map fst (children s)).
    { apply list_elem_of_In, in_map_iff. exists (id, d :: msgs). split; [done|]. by apply list_elem_of_In, list_elem_of_lookup_2 with k. }
    destruct (I6 id Hid) as (i & c & Hi & <-). pose proof (left_of_lookup _ _ _ _ I5 Hk) as Hl.
    assert (Hni : i ∉ pend) by (intros Hin; destruct (I3 i Hin) as (c1 & H1 & _ & H3); by simplify_eq).
    pose proof (I7 i c Hi) as [Hty Hok]. unfold left_for in Hok. rewrite decide_False, Hl in Hok by done.
    assert (Hnd : at_ c <> C_done) by (intros E; rewrite E in Hok; by destruct Hok as (_ & ? & _)).
    rewrite (find_queue s i c) in Hs by done. unfold mesg_send in Hs. change (1 <? 1) with false in Hs. cbn iota in Hs.
    destruct (fits _ _ _); [|done]. injection Hs as <-. simpl. rewrite (zsum_insert _ _ _ _ _ Hi), (zsum_insert _ _ _ _ _ Hk).
    unfold client_weight, child_weight. simpl. rewrite length_app. simpl. unfold replies, asks, asked. simpl. lia.
  - unfold client_step in Hs. destruct (clients s !! i) as [c|] eqn:Hi; [|done]. cbn [mbind option_bind] in Hs.
    pose proof (I9 i c Hi) as Hp. pose proof (I7 i c Hi) as [Hty Hok]. destruct (at_ c) eqn:Hc; try done.
    + unfold mesg_send in Hs. change (1 <? 1) with false in Hs. cbn iota in Hs. destruct (fits _ _ _); [|done]. injection Hs as <-. simpl.
      rewrite zsum_app, (zsum_insert _ _ _ _ _ Hi). simpl. rewrite nq_request_weight by done. unfold client_weight. rewrite Hc. simpl. lia.
    + unfold mesg_recv in Hs. destruct (take_type 1 (own c)) as [[d q]|] eqn:Et; [|done].
      destruct (take_type_some _ _ _ _ Et) as (Eq & _ & Hperm). destruct Hok as (received & _ & _ & Er). rewrite Eq in Er.
      assert (Hd : d ∈ replies c) by (rewrite <- Er; rewrite !elem_of_app; right; left; left).
      pose proof (nq_replies_short c d Hp Hd). rewrite (proj2 (Nat.ltb_ge _ _)) in Hs by lia. apply Permutation_length in Hperm. simpl in Hperm.
      destruct d; injection Hs as <-; simpl; rewrite (zsum_insert _ _ _ _ _ Hi); unfold client_weight; rewrite Hc; simpl; lia.
    + injection Hs as <-. simpl. rewrite (zsum_insert _ _ _ _ _ Hi). unfold client_weight. rewrite Hc. simpl.
      destruct Hok as (Hown & _). rewrite Hown. simpl. lia.
Qed.

Lemma nq_runs_inv cs n s : clients_ok cs -> nsteps step n (main_init cs) s -> inv s /\ Z.of_nat n + work s = work (main_init cs).
Proof.
  intros Hcs Hn. assert (Hall : forall s0, inv s0 -> nsteps step n s0 s -> inv s /\ Z.of_nat n + work s = work s0).
  { clear Hn. induction n as [|n IH]; intros s0 H0 Hn; inversion Hn as [|n' x y z Hs Hn']; subst; [split; [done|lia]|].
    destruct (IH y) as [Hi Hw]; [by apply (nq_step_inv s0)|done|]. split; [done|]. rewrite (nq_step_work s0 y) in Hw by done. lia. }
  apply Hall; [by apply nq_init_inv|done].
Qed.

(** *** Progress *)

(** The server waits for the next request, all children have ended and all clients too. *)
Definition finished (s : state) : Prop :=
  server s = S_recv /\ wellknown s = [] /\ Forall (fun ch => ch.2 = []) (children s) /\ Forall (fun c => at_ c = C_done) (clients s).

Lemma fits_empty d : (length d < MAXMESGDATA)%nat -> Z.of_nat MAXMESGDATA <= qbytes -> fits qbytes [] d = true.
Proof. intros Hd Hq. unfold fits, cbytes, MAXMESGDATA in *. simpl. apply andb_true_iff. split; apply Z.leb_le; lia. Qed.

(** While its answer is under way a client can receive or its child can send. *)
Lemma answer_moves pend s i c : inv_at pend s -> Z.of_nat MAXMESGDATA <= qbytes -> clients s !! i = Some c -> at_ c = C_recv -> i ∉ pend ->
  exists s', step s s'.
Proof.
  intros HI Hq Hi Hc Hni. pose proof HI as [I1 I2 I3 I4 I5 I6 I7 I8 I9]. pose proof (I9 i c Hi) as Hp.
  pose proof (I7 i c Hi) as [Hty Hok]. rewrite Hc in Hok. destruct Hok as (received & _ & HF & Er).
  destruct (take_type 1 (own c)) as [[d q]|] eqn:E.
  - enough (is_Some (client_step i s)) as [s' Hs] by (exists s'; by apply (step_client _ _ i)).
    unfold client_step, mesg_recv. rewrite Hi. cbn [mbind option_bind]. rewrite Hc, E.
    destruct (take_type_some _ _ _ _ E) as (Eq & _ & _). rewrite Eq in Er.
    assert (Hd : d ∈ replies c) by (rewrite <- Er; rewrite !elem_of_app; right; left; left).
    pose proof (nq_replies_short c d Hp Hd). rewrite (proj2 (Nat.ltb_ge _ _)) by lia. destruct d; by eexists.
  - apply take_type_none in E. rewrite E in Er. unfold left_for in Er. rewrite decide_False in Er by done. simpl in Er.
    destruct (nq_replies_body c Hp) as (body & Eb & _).
    assert (Hne : left_of (readid c) (children s) <> []).
    { intros Hnil. rewrite Hnil, app_nil_r, Eb in Er. rewrite Er in HF. by apply Forall_app in HF as [_ [[] _]%Forall_cons]. }
    assert (Hin : exists k msgs, children s !! k = Some (readid c, msgs)).
    { clear -Hne. induction (children s) as [|[w m] l IH]; simpl in *; [done|]. destruct (Z.eqb_spec w (readid c)) as [->|]; [by exists 0%nat, m|].
      destruct (IH Hne) as (k & msgs & Hk). by exists (S k), msgs. }
    destruct Hin as (k & msgs & Hk). rewrite (left_of_lookup _ _ _ _ I5 Hk) in Hne, Er. destruct msgs as [|d msgs]; [done|].
    assert (Hown : own c = []).
    { destruct (own c) as [|m q]; [done|]. apply Forall_cons in Hty as [Em _]. unfold of_type in E. simpl in E. by rewrite Em, Z.eqb_refl in E. }
    eexists. apply (step_child _ _ k). unfold child_step. rewrite Hk. cbn [mbind option_bind].
    rewrite (find_queue s i c) by (rewrite ?Hc; done). unfold mesg_send. change (1 <? 1) with false. cbn iota. rewrite Hown.
    rewrite fits_empty; [done| |done]. apply (nq_replies_short c); [done|]. rewrite <- Er, elem_of_app. right. left.
Qed.

Lemma nq_progress s : inv s -> Z.of_nat MAXMESGDATA <= qbytes -> (exists s', step s s') \/ finished s.
Proof.
  intros (pend & HI) Hq. pose proof HI as [I1 I2 I3 I4 I5 I6 I7 I8 I9]. destruct pend as [|j pend].
  2:{ left. enough (is_Some (server_step s)) as [s' Hs] by (exists s'; by apply step_server).
      unfold server_step, mesg_recv. rewrite I4, I1. simpl.
      destruct (I3 j) as (c & Hj & _); [left|]. destruct (asks_parsed c (I9 j c Hj)) as (Ereq & _ & Hlen).
      assert (request_of (clients s) j = asks c) as -> by (unfold request_of; by rewrite Hj).
      rewrite (proj2 (Nat.ltb_ge _ _)) by lia. rewrite Ereq. by eexists. }
  simpl in I1. destruct (decide (Forall (fun c => at_ c = C_done) (clients s))) as [Hall|Hnot].
  - right. split_and!; try done. apply Forall_forall. intros [id msgs] [k Hk]%list_elem_of_lookup. simpl.
    assert (Hid : id ∈ map fst (children s)).
    { apply list_elem_of_In, in_map_iff. exists (id, msgs). split; [done|]. by apply list_elem_of_In, list_elem_of_lookup_2 with k. }
    destruct (I6 id Hid) as (i & c & Hi & <-). destruct (I7 i c Hi) as [_ Hok].
    rewrite (proj1 (Forall_lookup _ _) Hall i c Hi) in Hok. destruct Hok as (_ & Hl & _). unfold left_for in Hl.
    rewrite decide_False in Hl by apply not_elem_of_nil. by rewrite (left_of_lookup _ _ _ _ I5 Hk) in Hl.
  - left. apply not_Forall_Exists in Hnot; [|apply _]. apply Exists_exists in Hnot as (c & [i Hi]%list_elem_of_lookup & Hc).
    pose proof (I7 i c Hi) as [_ Hok]. destruct (at_ c) eqn:Ec; try done.
    + eexists. apply (step_client _ _ i). unfold client_step. rewrite Hi. cbn [mbind option_bind]. rewrite Ec. unfold mesg_send.
      change (1 <? 1) with false. cbn iota. rewrite I1, fits_empty; [done| |done]. apply (asks_parsed c (I9 i c Hi)).
    + apply (answer_moves [] s i c); try done. apply not_elem_of_nil.
    + eexists. apply (step_client _ _ i). unfold client_step. rewrite Hi. cbn [mbind option_bind]. by rewrite Ec.
Qed.

Lemma nq_seen s i c : inv s -> clients s !! i = Some c ->
  at_ c <> C_died /\ out c `prefix_of` answer c /\ (at_ c = C_done -> out c = answer c).
Proof.
  intros (pend & HI) Hi. pose proof (n_clients _ _ HI i c Hi) as [_ Hok]. pose proof (n_range _ _ HI i c Hi) as Hp.
  rewrite <- (nq_replies_concat c Hp). destruct (at_ c) eqn:Hc; [| | | |done].
  - destruct Hok as (_ & -> & _). split_and!; [done|apply prefix_nil|done].
  - destruct Hok as (received & -> & _ & <-). split_and!; [done|rewrite concat_app; by apply prefix_app_r|done].
  - destruct Hok as (_ & _ & ->). split_and!; done.
  - destruct Hok as (_ & _ & ->). split_and!; done.
Qed.
End Run.

(** C35: with a queue for each client the server cannot be blocked by its clients: for any
    number of clients with different queues, with whatever input, files and error texts
    without NUL bytes, and queues that have room for the largest message, every run ends,
    and only when all clients have removed their queues and all children have ended; the
    server stays alive, what a client has written is always a prefix of its answer, and
    at the end all of it. *)
Theorem mpxnq_delivers fopen strerror qbytes cs n s :
  files_ok fopen strerror -> clients_ok cs -> Z.of_nat MAXMESGDATA <= qbytes ->
  nsteps (step fopen strerror qbytes) n (main_init cs) s ->
  Z.of_nat n <= zsum (fun c => 3 + 2 * Z.of_nat (length (replies fopen strerror c))) (clients (main_init cs)) /\
  ((exists s', step fopen strerror qbytes s s') \/ finished s) /\ server s = S_recv /\
  forall i c, clients s !! i = Some c ->
    at_ c <> C_died /\ out c `prefix_of` answer fopen strerror c /\ (at_ c = C_done -> out c = answer fopen strerror c).
Proof.
  intros Hf Hcs Hq Hn. destruct (nq_runs_inv fopen strerror qbytes Hf cs n s Hcs Hn) as [HI Hw].
  split_and!; [|by apply nq_progress|by destruct HI as [pend HI]; apply (n_server _ _ _ _ HI)|intros i c; by apply nq_seen].
  pose proof (nq_work_nonneg fopen strerror s) as H0. unfold work at 2 in Hw. simpl in Hw.
  enough (zsum (client_weight fopen strerror) (map (fun c => Client c.1 c.2 C_send [] []) cs) =
    zsum (fun c => 3 + 2 * Z.of_nat (length (replies fopen strerror c))) (map (fun c => Client c.1 c.2 C_send [] []) cs)) by (simpl; lia).
  rewrite !zsum_map. done.
Qed.

(** A schedule of server, children and clients. *)
Inductive who := Srv | Chd (k : nat) | Cli (i : nat).
Fixpoint run fopen strerror qbytes (sched : list who) (s : state) : option state :=
  match sched with
  | [] => Some s
  | w :: sched' =>
      s' ← match w with Srv => server_step fopen strerror s | Chd k => child_step qbytes k s | Cli i => client_step qbytes i s end;
      run fopen strerror qbytes sched' s'
  end.

Lemma nq_run_nsteps fopen strerror qbytes sched : forall s s', run fopen strerror qbytes sched s = Some s' ->
  nsteps (step fopen strerror qbytes) (length sched) s s'.
Proof.
  induction sched as [|w sched IH]; intros s s'; simpl; [intros [= <-]; constructor|]. intros H.
  destruct w as [|k|i];
    [destruct (server_step fopen strerror s) as [s1|] eqn:E|destruct (child_step qbytes k s) as [s1|] eqn:E|destruct (client_step qbytes i s) as [s1|] eqn:E];
    try done; (eapply nsteps_l; [|by apply IH]); [by apply step_server|by apply (step_child _ _ _ _ _ k)|by apply (step_client _ _ _ _ _ i)].
Qed.

Definition demo_sched : list who := [Cli 1; Cli 0; Srv; Srv; Chd 1; Chd 0; Cli 0; Chd 1; Chd 0; Cli 0; Chd 1; Cli 1; Cli 1; Cli 1; Cli 0; Cli 0].
Definition demo_end : state :=
  State [] S_recv [(78, []); (77, [])]
    [Client 77 (codes "motd" ++ [10]) C_done [] (codes "hello" ++ [10] ++ codes "world");
     Client 78 (codes "nil") C_done [] (codes "nil: can't open, No such file or directory" ++ [10])].

Lemma mpxnq_delivers_witness : server demo_end = S_recv /\
  forall i c, clients demo_end !! i = Some c -> at_ c = C_done -> out c = answer Mpx1q.demo_fs Mpx1q.demo_error c.
Proof.
  destruct (mpxnq_delivers Mpx1q.demo_fs Mpx1q.demo_error 16384 Mpx1q.demo_clients 16 demo_end Mpx1q.demo_fs_ok) as (_ & _ & H1 & H2).
  - split; [apply (bool_decide_unpack (NoDup [77; 78])); exact I|repeat constructor; simpl; lia].
  - vm_compute. discriminate.
  - apply (nq_run_nsteps _ _ _ demo_sched). vm_compute. reflexivity.
  - split; [exact H1|]. intros i c Hi Hc. destruct (H2 i c Hi) as (_ & _ & H). exact (H Hc).
Defined.
End MpxNq.

(** ** [mesg_send] over a pipe: [unixipc/pipemesg] *)

Module Pipe.

(** What [write] returns when it writes the whole message. *)
Definition mesg_send (d : list Z) : Z := MESGHDRSIZE + Z.of_nat (length d).

(** [Mesg_send]: [err_quit] unless the result is [mesg_len]. *)
Definition Mesg_send (d : list Z) : bool := mesg_send d =? Z.of_nat (length d).

(** It quits after every message that was written. *)
Lemma pipe_send_quits d : Mesg_send d = false.
Proof. unfold Mesg_send, mesg_send, MESGHDRSIZE. apply Z.eqb_neq. lia. Qed.
End Pipe.
