(* ===== verification/QueueH.v ===== *)
(** * The queue macros: [dataStructure/tailq/queue.h]

    Singly-linked lists ([SLIST]), lists ([LIST]), singly-linked tail queues
    ([STAILQ], [SIMPLEQ]), tail queues ([TAILQ]) and circular queues ([CIRCLEQ])
    over a memory of link words.

    In the first four a head and the entry of an element have the same shape: a
    first word, the pointer to the next element or [NULL], and, where there is
    one, a second word, the address of a first word.  Such an address is the
    object whose word it is ([obj]); the cast of [TAILQ_LAST] and [TAILQ_PREV],
    which takes the address of a first word for a head, is thus the second word of
    the same object.  In a [CIRCLEQ] both words point to objects.

    A macro is a function of the memory; it fails ([None]) where it follows [NULL]
    or touches a word that is not allocated.  The words of an element that is in
    no queue may have any value.

    - [queue_refines]: whatever is done to any number of queues of a kind, the
      memory represents the sequences the operations stand for;
    - [queue_traversals]: what the traversals and the access macros find;
    - [circleq_refines]: the same for circular queues;
    - [macro_expand_main]: the program of [macro_expand.c]. *)
From S2P Require Import Prelude.

(** ** Memory *)

(** Heads and elements. *)
Inductive obj := Head (h : nat) | Elem (e : nat).

#[export] Instance obj_eq_dec : EqDecision obj.
Proof. solve_decision. Defined.

#[export] Instance obj_countable : Countable obj.
Proof.
  refine (inj_countable' (fun o => match o with Head h => inl h | Elem e => inr e end)
            (fun s => match s with inl h => Head h | inr e => Elem e end) _).
  by intros [].
Defined.

(** The first and second words of the allocated objects. *)
Record mem (V : Type) := Mem { first : gmap obj V; second : gmap obj obj }.
Arguments Mem {V} _ _.
Arguments first {V} _.
Arguments second {V} _.

Definition load1 {V} (m : mem V) (o : obj) : option V := first m !! o.
Definition load2 {V} (m : mem V) (o : obj) : option obj := second m !! o.

Definition store1 {V} (o : obj) (v : V) (m : mem V) : option (mem V) :=
  match first m !! o with Some _ => Some (Mem (<[o := v]> (first m)) (second m)) | None => None end.
Definition store2 {V} (o v : obj) (m : mem V) : option (mem V) :=
  match second m !! o with Some _ => Some (Mem (first m) (<[o := v]> (second m))) | None => None end.

(** The memory of the first four kinds: a first word is [NULL] or an element. *)
Definition lmem : Type := mem (option nat).

(** A first word that is followed: it must not be [NULL]. *)
Definition deref (m : lmem) (o : obj) : option nat := p ← load1 m o; p.

(** ** [LIST] *)

Definition LIST_INIT (h : nat) (m : lmem) : option lmem := store1 (Head h) None m.

Definition LIST_INSERT_AFTER (listelm elm : nat) (m : lmem) : option lmem :=
  n ← load1 m (Elem listelm);
  m ← store1 (Elem elm) n m;
  m ← match n with
      | Some _ => n ← deref m (Elem listelm); store2 (Elem n) (Elem elm) m
      | None => Some m
      end;
  m ← store1 (Elem listelm) (Some elm) m;
  store2 (Elem elm) (Elem listelm) m.

Definition LIST_INSERT_BEFORE (listelm elm : nat) (m : lmem) : option lmem :=
  p ← load2 m (Elem listelm);
  m ← store2 (Elem elm) p m;
  m ← store1 (Elem elm) (Some listelm) m;
  p ← load2 m (Elem listelm);
  m ← store1 p (Some elm) m;
  store2 (Elem listelm) (Elem elm) m.

Definition LIST_INSERT_HEAD (h elm : nat) (m : lmem) : option lmem :=
  f ← load1 m (Head h);
  m ← store1 (Elem elm) f m;
  m ← match f with
      | Some _ => f ← deref m (Head h); store2 (Elem f) (Elem elm) m
      | None => Some m
      end;
  m ← store1 (Head h) (Some elm) m;
  store2 (Elem elm) (Head h) m.

Definition LIST_REMOVE (elm : nat) (m : lmem) : option lmem :=
  n ← load1 m (Elem elm);
  m ← match n with
      | Some _ => n ← deref m (Elem elm); p ← load2 m (Elem elm); store2 (Elem n) p m
      | None => Some m
      end;
  p ← load2 m (Elem elm);
  n ← load1 m (Elem elm);
  store1 p n m.

(** ** [SLIST] *)

Definition SLIST_INIT (h : nat) (m : lmem) : option lmem := store1 (Head h) None m.

Definition SLIST_INSERT_AFTER (slistelm elm : nat) (m : lmem) : option lmem :=
  n ← load1 m (Elem slistelm);
  m ← store1 (Elem elm) n m;
  store1 (Elem slistelm) (Some elm) m.

Definition SLIST_INSERT_HEAD (h elm : nat) (m : lmem) : option lmem :=
  f ← load1 m (Head h);
  m ← store1 (Elem elm) f m;
  store1 (Head h) (Some elm) m.

Definition SLIST_REMOVE_HEAD (h : nat) (m : lmem) : option lmem :=
  f ← deref m (Head h);
  n ← load1 m (Elem f);
  store1 (Head h) n m.

(** [while (curelm->next != elm) curelm = curelm->next;] with at most [fuel] steps. *)
Fixpoint find_prev (fuel : nat) (m : lmem) (curelm elm : nat) : option nat :=
  match fuel with
  | O => None
  | S fuel =>
      n ← load1 m (Elem curelm);
      if bool_decide (n = Some elm) then Some curelm
      else n ← n; find_prev fuel m n elm
  end.

(** The loop visits each allocated word once at most. *)
Definition loop_fuel (m : lmem) : nat := size (first m).

Definition SLIST_REMOVE (h elm : nat) (m : lmem) : option lmem :=
  f ← load1 m (Head h);
  if bool_decide (f = Some elm) then SLIST_REMOVE_HEAD h m
  else
    f ← f;
    curelm ← find_prev (loop_fuel m) m f elm;
    n ← deref m (Elem curelm);
    n ← load1 m (Elem n);
    store1 (Elem curelm) n m.

(** ** [STAILQ] and [SIMPLEQ] *)

Definition STAILQ_INIT (h : nat) (m : lmem) : option lmem :=
  m ← store1 (Head h) None m;
  store2 (Head h) (Head h) m.

Definition STAILQ_INSERT_HEAD (h elm : nat) (m : lmem) : option lmem :=
  f ← load1 m (Head h);
  m ← store1 (Elem elm) f m;
  m ← match f with None => store2 (Head h) (Elem elm) m | Some _ => Some m end;
  store1 (Head h) (Some elm) m.

Definition STAILQ_INSERT_TAIL (h elm : nat) (m : lmem) : option lmem :=
  m ← store1 (Elem elm) None m;
  p ← load2 m (Head h);
  m ← store1 p (Some elm) m;
  store2 (Head h) (Elem elm) m.

Definition STAILQ_INSERT_AFTER (h listelm elm : nat) (m : lmem) : option lmem :=
  n ← load1 m (Elem listelm);
  m ← store1 (Elem elm) n m;
  m ← match n with None => store2 (Head h) (Elem elm) m | Some _ => Some m end;
  store1 (Elem listelm) (Some elm) m.

Definition STAILQ_REMOVE_HEAD (h : nat) (m : lmem) : option lmem :=
  f ← deref m (Head h);
  n ← load1 m (Elem f);
  m ← store1 (Head h) n m;
  match n with None => store2 (Head h) (Head h) m | Some _ => Some m end.

Definition STAILQ_REMOVE (h elm : nat) (m : lmem) : option lmem :=
  f ← load1 m (Head h);
  if bool_decide (f = Some elm) then STAILQ_REMOVE_HEAD h m
  else
    f ← f;
    curelm ← find_prev (loop_fuel m) m f elm;
    n ← deref m (Elem curelm);
    n ← load1 m (Elem n);
    m ← store1 (Elem curelm) n m;
    match n with None => store2 (Head h) (Elem curelm) m | Some _ => Some m end.

(** [STAILQ_EMPTY] and the like for the other kinds. *)
Definition EMPTY (h : nat) (m : lmem) : option bool :=
  f ← load1 m (Head h); Some (bool_decide (f = None)).

Definition FIRST (h : nat) (m : lmem) : option (option nat) := load1 m (Head h).
Definition NEXT (elm : nat) (m : lmem) : option (option nat) := load1 m (Elem elm).

Definition STAILQ_CONCAT (h1 h2 : nat) (m : lmem) : option lmem :=
  empty ← EMPTY h2 m;
  if (empty : bool) then Some m
  else
    p ← load2 m (Head h1);
    f ← load1 m (Head h2);
    m ← store1 p f m;
    q ← load2 m (Head h2);
    m ← store2 (Head h1) q m;
    STAILQ_INIT h2 m.

(** [SIMPLEQ] is the text of [STAILQ] with other field names, without [CONCAT]. *)
Definition SIMPLEQ_INIT : nat -> lmem -> option lmem := STAILQ_INIT.
Definition SIMPLEQ_INSERT_HEAD : nat -> nat -> lmem -> option lmem := STAILQ_INSERT_HEAD.
Definition SIMPLEQ_INSERT_TAIL : nat -> nat -> lmem -> option lmem := STAILQ_INSERT_TAIL.
Definition SIMPLEQ_INSERT_AFTER : nat -> nat -> nat -> lmem -> option lmem := STAILQ_INSERT_AFTER.
Definition SIMPLEQ_REMOVE_HEAD : nat -> lmem -> option lmem := STAILQ_REMOVE_HEAD.
Definition SIMPLEQ_REMOVE : nat -> nat -> lmem -> option lmem := STAILQ_REMOVE.

(** ** [TAILQ] *)

Definition TAILQ_INIT (h : nat) (m : lmem) : option lmem :=
  m ← store1 (Head h) None m;
  store2 (Head h) (Head h) m.

Definition TAILQ_INSERT_HEAD (h elm : nat) (m : lmem) : option lmem :=
  f ← load1 m (Head h);
  m ← store1 (Elem elm) f m;
  m ← match f with
      | Some _ => f ← deref m (Head h); store2 (Elem f) (Elem elm) m
      | None => store2 (Head h) (Elem elm) m
      end;
  m ← store1 (Head h) (Some elm) m;
  store2 (Elem elm) (Head h) m.

Definition TAILQ_INSERT_TAIL (h elm : nat) (m : lmem) : option lmem :=
  m ← store1 (Elem elm) None m;
  p ← load2 m (Head h);
  m ← store2 (Elem elm) p m;
  p ← load2 m (Head h);
  m ← store1 p (Some elm) m;
  store2 (Head h) (Elem elm) m.

Definition TAILQ_INSERT_AFTER (h listelm elm : nat) (m : lmem) : option lmem :=
  n ← load1 m (Elem listelm);
  m ← store1 (Elem elm) n m;
  m ← match n with
      | Some _ => n ← deref m (Elem elm); store2 (Elem n) (Elem elm) m
      | None => store2 (Head h) (Elem elm) m
      end;
  m ← store1 (Elem listelm) (Some elm) m;
  store2 (Elem elm) (Elem listelm) m.

Definition TAILQ_INSERT_BEFORE (listelm elm : nat) (m : lmem) : option lmem :=
  p ← load2 m (Elem listelm);
  m ← store2 (Elem elm) p m;
  m ← store1 (Elem elm) (Some listelm) m;
  p ← load2 m (Elem listelm);
  m ← store1 p (Some elm) m;
  store2 (Elem listelm) (Elem elm) m.

Definition TAILQ_REMOVE (h elm : nat) (m : lmem) : option lmem :=
  n ← load1 m (Elem elm);
  m ← match n with
      | Some _ => n ← deref m (Elem elm); p ← load2 m (Elem elm); store2 (Elem n) p m
      | None => p ← load2 m (Elem elm); store2 (Head h) p m
      end;
  p ← load2 m (Elem elm);
  n ← load1 m (Elem elm);
  store1 p n m.

Definition TAILQ_CONCAT (h1 h2 : nat) (m : lmem) : option lmem :=
  empty ← EMPTY h2 m;
  if (empty : bool) then Some m
  else
    p ← load2 m (Head h1);
    f ← load1 m (Head h2);
    m ← store1 p f m;
    f ← deref m (Head h2);
    p ← load2 m (Head h1);
    m ← store2 (Elem f) p m;
    q ← load2 m (Head h2);
    m ← store2 (Head h1) q m;
    TAILQ_INIT h2 m.

(** The second word taken for a head, and what its tail pointer points to. *)
Definition TAILQ_LAST (h : nat) (m : lmem) : option (option nat) :=
  p ← load2 m (Head h); q ← load2 m p; load1 m q.
Definition TAILQ_PREV (elm : nat) (m : lmem) : option (option nat) :=
  p ← load2 m (Elem elm); q ← load2 m p; load1 m q.

(** The elements a [for] loop visits, from the value [var] of its variable. *)
Fixpoint visit (step : nat -> lmem -> option (option nat)) (fuel : nat) (var : option nat) (m : lmem)
    : option (list nat) :=
  match var, fuel with
  | None, _ => Some []
  | Some _, O => None
  | Some e, S fuel => var ← step e m; l ← visit step fuel var m; Some (e :: l)
  end.

Definition FOREACH (h : nat) (m : lmem) : option (list nat) :=
  var ← FIRST h m; visit NEXT (loop_fuel m) var m.

Definition TAILQ_FOREACH_REVERSE (h : nat) (m : lmem) : option (list nat) :=
  var ← TAILQ_LAST h m; visit TAILQ_PREV (loop_fuel m) var m.

(** ** Representation *)

(** The four kinds: whether elements have a second word and heads a tail pointer. *)
Inductive kind := SLIST | LIST | STAILQ | TAILQ.

Definition dbl (k : kind) : bool := match k with LIST | TAILQ => true | _ => false end.
Definition tailed (k : kind) : bool := match k with STAILQ | TAILQ => true | _ => false end.

(** The last object of a queue: its head if it is empty. *)
Definition last_obj (h : nat) (l : list nat) : obj :=
  match last l with Some e => Elem e | None => Head h end.

(** At every place of the sequence the object before points to the element after,
    whose second word points back; the tail pointer is the last object. *)
Record repr (k : kind) (m : lmem) (h : nat) (l : list nat) : Prop := {
  repr_nodup : NoDup l;
  repr_next l1 l2 : l = l1 ++ l2 -> first m !! last_obj h l1 = Some (head l2);
  repr_prev l1 e l2 : dbl k = true -> l = l1 ++ e :: l2 -> second m !! Elem e = Some (last_obj h l1);
  repr_last : tailed k = true -> second m !! Head h = Some (last_obj h l) }.

Lemma last_obj_nil h : last_obj h [] = Head h.
Proof. done. Qed.

Lemma last_obj_snoc h l e : last_obj h (l ++ [e]) = Elem e.
Proof. unfold last_obj. by rewrite last_snoc. Qed.

Lemma last_obj_app h l1 e l2 : exists x, x ∈ e :: l2 /\ last_obj h (l1 ++ e :: l2) = Elem x.
Proof.
  unfold last_obj. rewrite last_app_cons. destruct (last (e :: l2)) as [x|] eqn:E.
  - exists x. split; [by apply last_Some_elem_of|done].
  - by apply last_None in E.
Qed.

Lemma last_obj_cons h l1 e e' l2 : last_obj h (l1 ++ e :: e' :: l2) = last_obj h (l1 ++ e' :: l2).
Proof. unfold last_obj. by rewrite !last_app_cons, last_cons_cons. Qed.

(** An object that is the last of [l] is the head or in [l]. *)
Lemma last_obj_cases h l : (l = [] /\ last_obj h l = Head h) \/ exists l' x, l = l' ++ [x] /\ last_obj h l = Elem x.
Proof.
  destruct l as [|x l _] using rev_ind; [by left|right]. exists l, x. by rewrite last_obj_snoc.
Qed.

Lemma last_obj_elem h l e : e ∉ l -> last_obj h l <> Elem e.
Proof. intros He. destruct (last_obj_cases h l) as [[_ ->]|(l' & x & -> & ->)]; [done|]. set_solver. Qed.

Lemma last_obj_strict h l1 x l2 l3 : NoDup (l1 ++ x :: l2 ++ l3) -> last_obj h (l1 ++ x :: l2) <> last_obj h l1.
Proof.
  intros Hnd. destruct (last_obj_app h l1 x l2) as (y & Hy & ->).
  apply NoDup_app in Hnd as (_ & Hd & _). apply not_eq_sym, last_obj_elem. intros Hin. apply (Hd y Hin). set_solver.
Qed.

(** Two ways to cut a list: one cut is before the other. *)
Lemma app_cut {A} (l1 l2 a b : list A) :
  l1 ++ l2 = a ++ b -> (exists x c, l1 = a ++ x :: c /\ b = x :: c ++ l2) \/ (exists c, a = l1 ++ c /\ l2 = c ++ b).
Proof.
  intros E. apply app_eq_app in E as [c [[-> ->]|[-> ->]]]; [|by eauto].
  destruct c as [|x c]; [right; exists []; by rewrite !app_nil_r|left; by eauto].
Qed.

(** ** Linking and unlinking *)

(** The pointer back to the place before [l2]. *)
Definition back (k : kind) (h : nat) (l2 : list nat) (p : obj) (s : gmap obj obj) : gmap obj obj :=
  match l2 with
  | e :: _ => if dbl k then <[Elem e := p]> s else s
  | [] => if tailed k then <[Head h := p]> s else s
  end.

(** The memory with [e] between [l1] and [l2], and without an element between them. *)
Definition link (k : kind) (h : nat) (l1 : list nat) (e : nat) (l2 : list nat) (m : lmem) : lmem :=
  Mem (<[last_obj h l1 := Some e]> (<[Elem e := head l2]> (first m)))
    (back k h l2 (Elem e) (if dbl k then <[Elem e := last_obj h l1]> (second m) else second m)).

Definition unlink (k : kind) (h : nat) (l1 l2 : list nat) (m : lmem) : lmem :=
  Mem (<[last_obj h l1 := head l2]> (first m)) (back k h l2 (last_obj h l1) (second m)).

Lemma link_repr k m h l1 e l2 :
  repr k m h (l1 ++ l2) -> e ∉ l1 ++ l2 -> repr k (link k h l1 e l2 m) h (l1 ++ e :: l2).
Proof.
  intros [Hnd Hn Hp Hl] He. assert (NoDup (l1 ++ e :: l2)) as Hnd'.
  { rewrite <- Permutation_middle. by constructor. }
  assert (Hin : e ∉ l1 /\ e ∉ l2) by (split; set_solver). destruct Hin as [He1 He2]. split; [done|..]; simpl.
  - intros a b E. apply app_cut in E as [(x & c & -> & ->)|(c & -> & Hc)].
    + rewrite !lookup_insert_ne.
      * rewrite (Hn a (x :: c ++ l2)); [done|]. by rewrite <- app_assoc.
      * apply not_eq_sym, last_obj_elem. set_solver.
      * eapply last_obj_strict. rewrite <- app_assoc in Hnd. exact Hnd.
    + destruct c as [|e' c]; simplify_eq/=.
      * by rewrite app_nil_r, lookup_insert_eq.
      * destruct c as [|x c]; simpl in *.
        -- rewrite last_obj_snoc, lookup_insert_ne, lookup_insert_eq; [done|]. by apply last_obj_elem.
        -- rewrite last_obj_cons, !lookup_insert_ne.
           ++ apply Hn. by rewrite <- app_assoc.
           ++ apply not_eq_sym, last_obj_elem. set_solver.
           ++ apply not_eq_sym. eapply last_obj_strict. exact Hnd.
  - intros a x b Hd E. rewrite Hd. apply app_cut in E as [(y & c & -> & Hb)|(c & -> & Hc)].
    + injection Hb as <- ->. assert (x ∉ c ++ l2) as Hx.
      { rewrite <- app_assoc in Hnd. apply NoDup_app in Hnd as (_ & _ & Hnd). by apply NoDup_cons in Hnd as [? _]. }
      unfold back. rewrite Hd. destruct l2 as [|s l2].
      * destruct (tailed k); rewrite ?lookup_insert_ne by (try done; intros [= ->]; set_solver);
          (eapply Hp; [done|]; by rewrite <- app_assoc).
      * rewrite !lookup_insert_ne by (intros [= ->]; set_solver). eapply Hp; [done|]. by rewrite <- app_assoc.
    + destruct c as [|e' c]; simplify_eq/=.
      * rewrite app_nil_r. unfold back. rewrite Hd. destruct b as [|s b].
        -- destruct (tailed k); rewrite ?lookup_insert_ne by done; by rewrite lookup_insert_eq.
        -- rewrite lookup_insert_ne by (intros [= ->]; set_solver). by rewrite lookup_insert_eq.
      * unfold back. rewrite Hd. destruct c as [|s c]; simpl in *.
        -- rewrite last_obj_snoc. by rewrite lookup_insert_eq.
        -- assert (x <> s).
           { intros ->. apply NoDup_app in Hnd as (_ & _ & Hnd). apply NoDup_cons in Hnd as [Hs _]. set_solver. }
           rewrite !lookup_insert_ne by (intros [= ->]; set_solver). rewrite last_obj_cons.
           apply (Hp _ _ b); [done|]. by rewrite <- app_assoc.
  - intros Ht. unfold back. destruct l2 as [|s l2].
    + rewrite Ht, last_obj_snoc. by rewrite lookup_insert_eq.
    + rewrite last_obj_cons, <- Hl by done. destruct (dbl k); by rewrite ?lookup_insert_ne by done.
Qed.

Lemma unlink_repr k m h l1 e l2 :
  repr k m h (l1 ++ e :: l2) -> repr k (unlink k h l1 l2 m) h (l1 ++ l2).
Proof.
  intros [Hnd Hn Hp Hl]. assert (NoDup (l1 ++ l2)) as Hnd'.
  { rewrite <- Permutation_middle in Hnd. by apply NoDup_cons in Hnd as [_ ?]. }
  split; [done|..]; simpl.
  - intros a b E. apply app_cut in E as [(x & c & -> & ->)|(c & -> & ->)].
    + rewrite lookup_insert_ne.
      * rewrite (Hn a (x :: c ++ e :: l2)); [done|]. by rewrite <- app_assoc.
      * eapply last_obj_strict. rewrite <- app_assoc in Hnd. exact Hnd.
    + destruct c as [|x c]; simpl in *.
      * by rewrite app_nil_r, lookup_insert_eq.
      * rewrite lookup_insert_ne; [|apply not_eq_sym; eapply last_obj_strict; exact Hnd'].
        rewrite <- (last_obj_cons h l1 e). apply Hn. by rewrite <- app_assoc.
  - intros a x b Hd E. unfold back. rewrite Hd.
    apply app_cut in E as [(y & c & -> & Hb)|(c & -> & ->)].
    + injection Hb as <- ->. assert (x ∉ c ++ l2) as Hx.
      { rewrite <- app_assoc in Hnd'. apply NoDup_app in Hnd' as (_ & _ & Hx). by apply NoDup_cons in Hx as [? _]. }
      destruct l2 as [|s l2]; [destruct (tailed k)|];
        rewrite ?lookup_insert_ne by (try done; intros [= ->]; set_solver);
        (eapply Hp; [done|]; by rewrite <- app_assoc).
    + destruct c as [|s c]; simpl.
      * by rewrite app_nil_r, lookup_insert_eq.
      * assert (x <> s).
        { intros ->. apply NoDup_app in Hnd' as (_ & _ & Hs). apply NoDup_cons in Hs as [Hs _]. set_solver. }
        rewrite lookup_insert_ne by (intros [= ->]; set_solver). rewrite <- (last_obj_cons h l1 e).
        apply (Hp _ _ b); [done|]. by rewrite <- app_assoc.
  - intros Ht. unfold back. destruct l2 as [|s l2].
    + rewrite Ht, app_nil_r. by rewrite lookup_insert_eq.
    + rewrite <- (last_obj_cons h l1 e), <- Hl by done. destruct (dbl k); by rewrite ?lookup_insert_ne by done.
Qed.

(** ** The macros link and unlink *)

(** The words of an element are allocated. *)
Definition allocated (k : kind) (m : lmem) (e : nat) : Prop :=
  is_Some (first m !! Elem e) /\ (dbl k = true -> is_Some (second m !! Elem e)).

(** Loads and stores at words whose contents the hypotheses give. *)
Ltac word_ne := solve [done | congruence].
Ltac run :=
  unfold deref, load1, load2, store1, store2;
  repeat first
    [ rewrite lookup_insert_eq
    | rewrite lookup_insert_ne by word_ne
    | match goal with H : ?m !! ?o = Some _ |- context [?m !! ?o] => rewrite H end
    | progress simpl ].
Ltac same_mem := unfold link, unlink, back; simpl; f_equal; first [done | f_equal; first [done | by apply insert_insert_ne; congruence]].

Lemma list_insert_head k m h l e :
  k = LIST -> repr k m h l -> allocated k m e -> e ∉ l -> LIST_INSERT_HEAD h e m = Some (link k h [] e l m).
Proof.
  intros -> [Hnd Hn Hp _] [[v1 H1] H2] He. destruct (H2 eq_refl) as [v2 H2']. pose proof (Hn [] l eq_refl) as H0.
  rewrite last_obj_nil in H0. unfold LIST_INSERT_HEAD. destruct l as [|f l]; simpl in H0.
  - run. same_mem.
  - pose proof (Hp [] f l eq_refl eq_refl) as Hf. assert (f <> e) by set_solver. run. same_mem.
Qed.

(** What the words around a place of a queue hold. *)
Lemma repr_after k m h l1 x l2 :
  repr k m h (l1 ++ x :: l2) ->
  first m !! Elem x = Some (head l2) /\
  (forall s l3, dbl k = true -> l2 = s :: l3 -> second m !! Elem s = Some (Elem x)) /\
  (tailed k = true -> l2 = [] -> second m !! Head h = Some (Elem x)).
Proof.
  intros [Hnd Hn Hp Hl]. split_and!.
  - rewrite <- (last_obj_snoc h l1 x). apply Hn. by rewrite <- app_assoc.
  - intros s l3 Hd ->. rewrite <- (last_obj_snoc h l1 x). eapply Hp; [done|]. by rewrite <- app_assoc.
  - intros Ht ->. by rewrite Hl, last_obj_snoc.
Qed.

Lemma list_insert_after k m h l1 x l2 e :
  k = LIST -> repr k m h (l1 ++ x :: l2) -> allocated k m e -> e ∉ l1 ++ x :: l2 ->
  LIST_INSERT_AFTER x e m = Some (link k h (l1 ++ [x]) e l2 m).
Proof.
  intros -> Hr [[v1 H1] H2] He. destruct (H2 eq_refl) as [v2 H2'].
  destruct (repr_after _ _ _ _ _ _ Hr) as (H0 & Hs & _). assert (x <> e) by set_solver.
  unfold LIST_INSERT_AFTER. destruct l2 as [|s l2]; simpl in H0.
  - run. unfold link. rewrite last_obj_snoc. same_mem.
  - pose proof (Hs s l2 eq_refl eq_refl) as Hs'. assert (s <> e) by set_solver.
    run. unfold link. rewrite last_obj_snoc. same_mem.
Qed.

(** The text of [TAILQ_INSERT_BEFORE] is the same. *)
Lemma insert_before k m h l1 x l2 e :
  dbl k = true -> repr k m h (l1 ++ x :: l2) -> allocated k m e -> e ∉ l1 ++ x :: l2 ->
  LIST_INSERT_BEFORE x e m = Some (link k h l1 e (x :: l2) m).
Proof.
  intros Hd [Hnd Hn Hp Hl] [[v1 H1] H2] He. destruct (H2 Hd) as [v2 H2'].
  pose proof (Hn l1 _ eq_refl) as H0. pose proof (Hp l1 x l2 Hd eq_refl) as Hx. assert (x <> e) by set_solver.
  assert (last_obj h l1 <> Elem e) by (apply last_obj_elem; set_solver).
  unfold LIST_INSERT_BEFORE. run. unfold link, back. by rewrite Hd.
Qed.

Lemma list_remove k m h l1 e l2 :
  k = LIST -> repr k m h (l1 ++ e :: l2) -> LIST_REMOVE e m = Some (unlink k h l1 l2 m).
Proof.
  intros -> Hr. destruct (repr_after _ _ _ _ _ _ Hr) as (H0 & Hs & _). destruct Hr as [Hnd Hn Hp Hl].
  pose proof (Hn l1 _ eq_refl) as H1. pose proof (Hp l1 e l2 eq_refl eq_refl) as He.
  unfold LIST_REMOVE. destruct l2 as [|s l2]; simpl in H0.
  - run. done.
  - pose proof (Hs s l2 eq_refl eq_refl) as Hs'. assert (s <> e).
    { intros ->. apply NoDup_app in Hnd as (_ & _ & Hnd). apply NoDup_cons in Hnd as [Hnd _]. set_solver. }
    run. done.
Qed.

Lemma slist_insert_head k m h l e :
  k = SLIST -> repr k m h l -> allocated k m e -> SLIST_INSERT_HEAD h e m = Some (link k h [] e l m).
Proof.
  intros -> [Hnd Hn _ _] [[v1 H1] _]. pose proof (Hn [] l eq_refl) as H0. rewrite last_obj_nil in H0.
  unfold SLIST_INSERT_HEAD. run. by destruct l.
Qed.

Lemma slist_insert_after k m h l1 x l2 e :
  k = SLIST -> repr k m h (l1 ++ x :: l2) -> allocated k m e -> e ∉ l1 ++ x :: l2 ->
  SLIST_INSERT_AFTER x e m = Some (link k h (l1 ++ [x]) e l2 m).
Proof.
  intros -> Hr [[v1 H1] _] He. destruct (repr_after _ _ _ _ _ _ Hr) as (H0 & _). assert (x <> e) by set_solver.
  unfold SLIST_INSERT_AFTER. run. unfold link. rewrite last_obj_snoc. by destruct l2.
Qed.

Lemma slist_remove_head k m h e l :
  k = SLIST -> repr k m h (e :: l) -> SLIST_REMOVE_HEAD h m = Some (unlink k h [] l m).
Proof.
  intros -> Hr. destruct (repr_after _ _ _ [] _ _ Hr) as (H0 & _). pose proof (repr_next _ _ _ _ Hr [] _ eq_refl) as H1.
  rewrite last_obj_nil in H1. unfold SLIST_REMOVE_HEAD. run. by destruct l.
Qed.

(** The words of a queue are among those allocated. *)
Lemma repr_length k m h l : repr k m h l -> (length l < loop_fuel m)%nat.
Proof.
  intros Hr. unfold loop_fuel. rewrite <- size_dom.
  assert (list_to_set (Head h :: (Elem <$> l)) ⊆ dom (first m)) as Hs.
  { intros o Ho. apply elem_of_list_to_set in Ho. apply elem_of_dom. apply list_elem_of_In in Ho as [<-|Ho].
    - pose proof (repr_next _ _ _ _ Hr [] l eq_refl) as H. by eexists.
    - apply list_elem_of_In, list_elem_of_fmap in Ho as (x & -> & Hx). apply list_elem_of_split in Hx as (l1 & l2 & ->).
      destruct (repr_after _ _ _ _ _ _ Hr) as (H & _). by eexists. }
  apply subseteq_size in Hs. rewrite size_list_to_set in Hs; [simpl in Hs; rewrite length_fmap in Hs; lia|].
  apply NoDup_cons. split; [intros Hin; by apply list_elem_of_fmap in Hin as (? & ? & _)|].
  apply NoDup_fmap; [by intros ? ? [=]|]. by destruct Hr.
Qed.

Lemma find_prev_spec k m h x e l2 : forall l1 y fuel,
  repr k m h (l1 ++ y :: x ++ e :: l2) -> (length x < fuel)%nat ->
  find_prev fuel m y e = Some (default y (last x)).
Proof.
  induction x as [|z x IH]; intros l1 y fuel Hr Hf; (destruct fuel as [|fuel]; [simpl in *; lia|]); cbn [find_prev];
    destruct (repr_after _ _ _ _ _ _ Hr) as (H0 & _); unfold load1; rewrite H0; simpl.
  - by rewrite bool_decide_true.
  - assert (z <> e).
    { intros ->. destruct Hr as [Hnd _ _ _]. apply NoDup_app in Hnd as (_ & _ & Hnd). simpl in Hnd.
      apply NoDup_cons in Hnd as [_ Hnd]. apply NoDup_cons in Hnd as [Hnd _]. set_solver. }
    rewrite bool_decide_false by congruence. simpl. rewrite (IH (l1 ++ [y])).
    + f_equal. rewrite last_cons. by destruct (last x).
    + rewrite <- app_assoc. exact Hr.
    + simpl in Hf. lia.
Qed.

(** The element before [e], found from the first one. *)
Lemma find_prev_found k m h y l1 e l2 :
  repr k m h (y :: l1 ++ e :: l2) ->
  exists l x, y :: l1 = l ++ [x] /\ find_prev (loop_fuel m) m y e = Some x.
Proof.
  intros Hr. pose proof (repr_length _ _ _ _ Hr) as Hl. simpl in Hl. rewrite length_app in Hl.
  rewrite (find_prev_spec k m h l1 e l2 [] y) by (try done; lia).
  destruct l1 as [|x l _] using rev_ind; [by exists [], y|]. exists (y :: l), x. by rewrite last_snoc.
Qed.

Lemma slist_remove k m h l1 e l2 :
  k = SLIST -> repr k m h (l1 ++ e :: l2) -> SLIST_REMOVE h e m = Some (unlink k h l1 l2 m).
Proof.
  intros -> Hr. pose proof (repr_next _ _ _ _ Hr [] _ eq_refl) as H1. rewrite last_obj_nil in H1.
  unfold SLIST_REMOVE, load1. rewrite H1. destruct l1 as [|y l1]; simpl.
  - rewrite bool_decide_true by done. by eapply slist_remove_head.
  - destruct (find_prev_found _ _ _ _ _ _ _ Hr) as (l & x & El & ->).
    assert (y <> e) by (intros ->; destruct Hr as [Hnd _ _ _]; apply NoDup_cons in Hnd as [Hnd _]; set_solver).
    rewrite bool_decide_false by congruence. simpl.
    change (y :: l1 ++ e :: l2) with ((y :: l1) ++ e :: l2) in Hr. rewrite El in *.
    destruct (repr_after _ _ _ _ _ _ Hr) as (He & _). rewrite <- app_assoc in Hr.
    destruct (repr_after _ _ _ _ _ _ Hr) as (Hx & _). simpl in Hx. run. unfold unlink. rewrite last_obj_snoc. by destruct l2.
Qed.

Lemma stailq_insert_head k m h l e :
  k = STAILQ -> repr k m h l -> allocated k m e -> STAILQ_INSERT_HEAD h e m = Some (link k h [] e l m).
Proof.
  intros -> [Hnd Hn _ Hl] [[v1 H1] _]. pose proof (Hn [] l eq_refl) as H0. rewrite last_obj_nil in H0.
  pose proof (Hl eq_refl) as H2. unfold STAILQ_INSERT_HEAD. destruct l; run; done.
Qed.

Lemma stailq_insert_tail k m h l e :
  k = STAILQ -> repr k m h l -> allocated k m e -> e ∉ l -> STAILQ_INSERT_TAIL h e m = Some (link k h l e [] m).
Proof.
  intros -> [Hnd Hn _ Hl] [[v1 H1] _] He. pose proof (Hn l [] (eq_sym (app_nil_r l))) as H0.
  pose proof (Hl eq_refl) as H2. assert (last_obj h l <> Elem e) by by apply last_obj_elem.
  unfold STAILQ_INSERT_TAIL. run. done.
Qed.

Lemma stailq_insert_after k m h l1 x l2 e :
  k = STAILQ -> repr k m h (l1 ++ x :: l2) -> allocated k m e -> e ∉ l1 ++ x :: l2 ->
  STAILQ_INSERT_AFTER h x e m = Some (link k h (l1 ++ [x]) e l2 m).
Proof.
  intros -> Hr [[v1 H1] _] He. destruct (repr_after _ _ _ _ _ _ Hr) as (H0 & _). assert (x <> e) by set_solver.
  pose proof (repr_last _ _ _ _ Hr eq_refl) as H2.
  unfold STAILQ_INSERT_AFTER. destruct l2; run; unfold link; by rewrite last_obj_snoc.
Qed.

Lemma stailq_remove_head k m h e l :
  k = STAILQ -> repr k m h (e :: l) -> STAILQ_REMOVE_HEAD h m = Some (unlink k h [] l m).
Proof.
  intros -> Hr. destruct (repr_after _ _ _ [] _ _ Hr) as (H0 & _). pose proof (repr_next _ _ _ _ Hr [] _ eq_refl) as H1.
  rewrite last_obj_nil in H1. pose proof (repr_last _ _ _ _ Hr eq_refl) as H2.
  unfold STAILQ_REMOVE_HEAD. destruct l; run; done.
Qed.

Lemma stailq_remove k m h l1 e l2 :
  k = STAILQ -> repr k m h (l1 ++ e :: l2) -> STAILQ_REMOVE h e m = Some (unlink k h l1 l2 m).
Proof.
  intros -> Hr. pose proof (repr_next _ _ _ _ Hr [] _ eq_refl) as H1. rewrite last_obj_nil in H1.
  pose proof (repr_last _ _ _ _ Hr eq_refl) as H2.
  unfold STAILQ_REMOVE, load1. rewrite H1. destruct l1 as [|y l1]; simpl.
  - rewrite bool_decide_true by done. by eapply stailq_remove_head.
  - destruct (find_prev_found _ _ _ _ _ _ _ Hr) as (l & x & El & ->).
    assert (y <> e) by (intros ->; destruct Hr as [Hnd _ _ _]; apply NoDup_cons in Hnd as [Hnd _]; set_solver).
    rewrite bool_decide_false by congruence. simpl.
    change (y :: l1 ++ e :: l2) with ((y :: l1) ++ e :: l2) in Hr. rewrite El in *.
    destruct (repr_after _ _ _ _ _ _ Hr) as (He & _). rewrite <- app_assoc in Hr.
    destruct (repr_after _ _ _ _ _ _ Hr) as (Hx & _). simpl in Hx.
    destruct l2; run; unfold unlink; by rewrite last_obj_snoc.
Qed.

Lemma tailq_insert_head k m h l e :
  k = TAILQ -> repr k m h l -> allocated k m e -> e ∉ l -> TAILQ_INSERT_HEAD h e m = Some (link k h [] e l m).
Proof.
  intros -> [Hnd Hn Hp Hl] [[v1 H1] H2] He. destruct (H2 eq_refl) as [v2 H2']. pose proof (Hn [] l eq_refl) as H0.
  rewrite last_obj_nil in H0. pose proof (Hl eq_refl) as H3. unfold TAILQ_INSERT_HEAD. destruct l as [|f l]; simpl in H0.
  - run. same_mem.
  - pose proof (Hp [] f l eq_refl eq_refl) as Hf. assert (f <> e) by set_solver. run. same_mem.
Qed.

Lemma tailq_insert_tail k m h l e :
  k = TAILQ -> repr k m h l -> allocated k m e -> e ∉ l -> TAILQ_INSERT_TAIL h e m = Some (link k h l e [] m).
Proof.
  intros -> [Hnd Hn _ Hl] [[v1 H1] H2] He. destruct (H2 eq_refl) as [v2 H2'].
  pose proof (Hn l [] (eq_sym (app_nil_r l))) as H0.
  pose proof (Hl eq_refl) as H3. assert (last_obj h l <> Elem e) by by apply last_obj_elem.
  unfold TAILQ_INSERT_TAIL. run. done.
Qed.

Lemma tailq_insert_after k m h l1 x l2 e :
  k = TAILQ -> repr k m h (l1 ++ x :: l2) -> allocated k m e -> e ∉ l1 ++ x :: l2 ->
  TAILQ_INSERT_AFTER h x e m = Some (link k h (l1 ++ [x]) e l2 m).
Proof.
  intros -> Hr [[v1 H1] H2] He. destruct (H2 eq_refl) as [v2 H2'].
  destruct (repr_after _ _ _ _ _ _ Hr) as (H0 & Hs & _). assert (x <> e) by set_solver.
  pose proof (repr_last _ _ _ _ Hr eq_refl) as H3.
  unfold TAILQ_INSERT_AFTER. destruct l2 as [|s l2]; simpl in H0.
  - run. unfold link. rewrite last_obj_snoc. same_mem.
  - pose proof (Hs s l2 eq_refl eq_refl) as Hs'. assert (s <> e) by set_solver.
    run. unfold link. rewrite last_obj_snoc. same_mem.
Qed.

Lemma tailq_remove k m h l1 e l2 :
  k = TAILQ -> repr k m h (l1 ++ e :: l2) -> TAILQ_REMOVE h e m = Some (unlink k h l1 l2 m).
Proof.
  intros -> Hr. destruct (repr_after _ _ _ _ _ _ Hr) as (H0 & Hs & _). destruct Hr as [Hnd Hn Hp Hl].
  pose proof (Hn l1 _ eq_refl) as H1. pose proof (Hp l1 e l2 eq_refl eq_refl) as He. pose proof (Hl eq_refl) as H2.
  unfold TAILQ_REMOVE. destruct l2 as [|s l2]; simpl in H0.
  - run. done.
  - pose proof (Hs s l2 eq_refl eq_refl) as Hs'. assert (s <> e).
    { intros ->. apply NoDup_app in Hnd as (_ & _ & Hnd). apply NoDup_cons in Hnd as [Hnd _]. set_solver. }
    run. done.
Qed.

(** ** Many queues *)

(** The objects of a queue. *)
Definition objs (h : nat) (l : list nat) : list obj := Head h :: (Elem <$> l).

Lemma last_obj_objs h l1 l2 : last_obj h l1 ∈ objs h (l1 ++ l2).
Proof.
  unfold objs. destruct (last_obj_cases h l1) as [[-> ->]|(l & x & -> & ->)]; [set_solver|].
  right. apply list_elem_of_fmap_2. set_solver.
Qed.

(** A queue depends on the words of its objects only. *)
Lemma repr_frame k m m' h l :
  repr k m h l ->
  (forall o, o ∈ objs h l -> first m' !! o = first m !! o /\ second m' !! o = second m !! o) -> repr k m' h l.
Proof.
  intros [Hnd Hn Hp Hl] Hf. split; [done|..].
  - intros l1 l2 ->. destruct (Hf (last_obj h l1)) as [-> _]; [apply last_obj_objs|]. by apply Hn.
  - intros l1 e l2 Hd ->. destruct (Hf (Elem e)) as [_ ->]; [right; apply list_elem_of_fmap_2; set_solver|]. by eapply Hp.
  - intros Ht. destruct (Hf (Head h)) as [_ ->]; [by left|]. auto.
Qed.

(** Linking and unlinking touch the objects of the queue and the element only. *)
Lemma link_frame k m h l1 e l2 o :
  o ∉ objs h (l1 ++ e :: l2) ->
  first (link k h l1 e l2 m) !! o = first m !! o /\ second (link k h l1 e l2 m) !! o = second m !! o.
Proof.
  intros Ho. assert (last_obj h l1 <> o) by (intros <-; apply Ho, last_obj_objs).
  assert (forall x, x ∈ l1 ++ e :: l2 -> Elem x <> o).
  { intros x Hx <-. apply Ho. right. by apply list_elem_of_fmap_2. }
  assert (Head h <> o) by (intros <-; apply Ho; by left).
  assert (Elem e <> o) by set_solver. unfold link, back; simpl. split; [by rewrite !lookup_insert_ne|].
  destruct l2 as [|s l2].
  - destruct (tailed k), (dbl k); by rewrite ?lookup_insert_ne.
  - assert (Elem s <> o) by set_solver. destruct (dbl k); by rewrite ?lookup_insert_ne.
Qed.

Lemma unlink_frame k m h l1 l2 o :
  o ∉ objs h (l1 ++ l2) ->
  first (unlink k h l1 l2 m) !! o = first m !! o /\ second (unlink k h l1 l2 m) !! o = second m !! o.
Proof.
  intros Ho. assert (last_obj h l1 <> o) by (intros <-; apply Ho, last_obj_objs).
  assert (Head h <> o) by (intros <-; apply Ho; by left).
  unfold unlink, back; simpl. split; [by rewrite lookup_insert_ne|].
  destruct l2 as [|s l2].
  - destruct (tailed k); by rewrite ?lookup_insert_ne.
  - assert (Elem s <> o) by (intros <-; apply Ho; right; apply list_elem_of_fmap_2; set_solver).
    destruct (dbl k); by rewrite ?lookup_insert_ne.
Qed.

(** What stays allocated. *)
Definition mono (m m' : lmem) : Prop :=
  forall o, (is_Some (first m !! o) -> is_Some (first m' !! o)) /\ (is_Some (second m !! o) -> is_Some (second m' !! o)).

Lemma insert_is_Some {V} (s : gmap obj V) o v o' : is_Some (s !! o') -> is_Some (<[o := v]> s !! o').
Proof. rewrite lookup_insert_is_Some. destruct (decide (o = o')); auto. Qed.

Lemma link_mono k h l1 e l2 m : mono m (link k h l1 e l2 m).
Proof.
  intros o. unfold link, back; simpl. split; intros Ho; [by repeat apply insert_is_Some|].
  destruct l2; destruct (dbl k), (tailed k); by repeat apply insert_is_Some.
Qed.

Lemma unlink_mono k h l1 l2 m : mono m (unlink k h l1 l2 m).
Proof.
  intros o. unfold unlink, back; simpl. split; intros Ho; [by repeat apply insert_is_Some|].
  destruct l2; destruct (dbl k), (tailed k); by repeat apply insert_is_Some.
Qed.

(** The queues [A] in a memory with the elements [E] and the heads [H]: every queue is
    represented, and no element is in two of them. *)
Record world (k : kind) (E H : gset nat) (m : lmem) (A : gmap nat (list nat)) : Prop := {
  w_repr h l : A !! h = Some l -> repr k m h l;
  w_disj h1 h2 l1 l2 e : A !! h1 = Some l1 -> A !! h2 = Some l2 -> e ∈ l1 -> e ∈ l2 -> h1 = h2;
  w_elems e : e ∈ E -> allocated k m e;
  w_heads h : h ∈ H -> is_Some (first m !! Head h) /\ (tailed k = true -> is_Some (second m !! Head h)) }.

Lemma world_update k E H m m' A h l' l'' :
  world k E H m A -> repr k m' h l' -> mono m m' ->
  (forall o, o ∉ objs h l'' -> first m' !! o = first m !! o /\ second m' !! o = second m !! o) ->
  (forall e h0 l0, e ∈ l' \/ e ∈ l'' -> h0 <> h -> A !! h0 = Some l0 -> e ∉ l0) ->
  world k E H m' (<[h := l']> A).
Proof.
  intros [W1 W2 W3 W4] Hr Hm Hf Hd. split.
  - intros h0 l0 E0. apply lookup_insert_Some in E0 as [[<- <-]|[Hne E0]]; [done|].
    apply (repr_frame k m); [by apply W1|]. intros o Ho. apply Hf. intros Hin. unfold objs in *.
    apply elem_of_cons in Ho as [->|Ho]; [apply elem_of_cons in Hin as [[=]|Hin]; [done|];
      by apply list_elem_of_fmap in Hin as (? & ? & _)|].
    apply list_elem_of_fmap in Ho as (x & -> & Hx). apply elem_of_cons in Hin as [[=]|Hin].
    apply list_elem_of_fmap in Hin as (y & [= <-] & Hy). by apply (Hd x h0 l0); [right| | |].
  - intros h1 h2 l1 l2 e E1 E2 I1 I2.
    apply lookup_insert_Some in E1 as [[<- <-]|[Hn1 E1]], E2 as [[<- <-]|[Hn2 E2]].
    + done.
    + exfalso. eapply Hd; [left; exact I1| |exact E2|done]. done.
    + exfalso. eapply Hd; [left; exact I2| |exact E1|done]. done.
    + by eapply W2.
  - intros e He. destruct (W3 e He) as [Ha Hb]. split; [by apply Hm|]. intros Hk. apply Hm. auto.
  - intros h0 Hh. destruct (W4 h0 Hh) as [Ha Hb]. split; [by apply Hm|]. intros Hk. apply Hm. auto.
Qed.

(** An element that is allocated and in no queue. *)
Definition fresh (E : gset nat) (A : gmap nat (list nat)) (e : nat) : Prop :=
  e ∈ E /\ forall h l, A !! h = Some l -> e ∉ l.

Lemma world_link k E H m A h l1 e l2 :
  world k E H m A -> A !! h = Some (l1 ++ l2) -> fresh E A e ->
  world k E H (link k h l1 e l2 m) (<[h := l1 ++ e :: l2]> A).
Proof.
  intros W Ah [_ Hf]. apply (world_update _ _ _ m _ _ _ _ (l1 ++ e :: l2)); [done| |apply link_mono|apply link_frame|].
  - apply link_repr; [by eapply w_repr|by eapply Hf].
  - intros x h0 l0 Hx Hne E0 Hin. destruct (decide (x = e)) as [->|Hxe]; [by eapply Hf|].
    apply Hne. eapply (w_disj _ _ _ _ _ W); [exact E0|exact Ah|exact Hin|]. set_solver.
Qed.

Lemma world_unlink k E H m A h l1 e l2 :
  world k E H m A -> A !! h = Some (l1 ++ e :: l2) ->
  world k E H (unlink k h l1 l2 m) (<[h := l1 ++ l2]> A).
Proof.
  intros W Ah. apply (world_update _ _ _ m _ _ _ _ (l1 ++ l2)); [done| |apply unlink_mono|apply unlink_frame|].
  - eapply unlink_repr. by eapply w_repr.
  - intros x h0 l0 Hx Hne E0 Hin. apply Hne. eapply (w_disj _ _ _ _ _ W); [exact E0|exact Ah|exact Hin|]. set_solver.
Qed.

(** Resetting a head. *)
Definition reset (k : kind) (h : nat) (m : lmem) : lmem :=
  Mem (<[Head h := None]> (first m)) (if tailed k then <[Head h := Head h]> (second m) else second m).

Lemma world_reset k E H m A h : world k E H m A -> world k E H (reset k h m) (<[h := []]> A).
Proof.
  intros W. apply (world_update _ _ _ m _ _ _ _ []); [done|..].
  - split; [constructor|..]; simpl.
    + intros l1 l2 Hl. symmetry in Hl. apply app_nil in Hl as [-> ->]. by rewrite lookup_insert_eq.
    + intros l1 e l2 _ Hl. by destruct l1.
    + intros ->. by rewrite lookup_insert_eq.
  - intros o. simpl. split; intros Ho; [|destruct (tailed k)]; try done; by apply insert_is_Some.
  - intros o Ho. simpl. assert (Head h <> o) by (intros <-; apply Ho; by left).
    split; [|destruct (tailed k)]; try done; by rewrite lookup_insert_ne.
  - intros e h0 l0 [He|He]; by apply not_elem_of_nil in He.
Qed.

(** Appending [f :: l2] of [h2] to [l1] of [h1]; the head [h2] is left alone. *)
Definition append (k : kind) (h1 : nat) (l1 : list nat) (h2 f : nat) (l2 : list nat) (m : lmem) : lmem :=
  Mem (<[last_obj h1 l1 := Some f]> (first m))
    (<[Head h1 := last_obj h2 (f :: l2)]> (if dbl k then <[Elem f := last_obj h1 l1]> (second m) else second m)).

Lemma append_repr k m h1 l1 h2 f l2 :
  repr k m h1 l1 -> repr k m h2 (f :: l2) -> (forall e, e ∈ l1 -> e ∈ f :: l2 -> False) -> h1 <> h2 ->
  repr k (append k h1 l1 h2 f l2 m) h1 (l1 ++ f :: l2).
Proof.
  intros [Hnd1 Hn1 Hp1 Hl1] [Hnd2 Hn2 Hp2 Hl2] Hd Hh.
  assert (NoDup (l1 ++ f :: l2)) as Hnd by (apply NoDup_app; split_and!; eauto).
  assert (Hlast : forall c, last_obj h1 (l1 ++ f :: c) = last_obj h2 (f :: c)).
  { intros c. unfold last_obj. rewrite last_app_cons. by destruct (last (f :: c)) eqn:E; [|apply last_None in E]. }
  split; [done|..]; simpl.
  - intros a b E. apply app_cut in E as [(x & c & -> & ->)|(c & -> & Hc)].
    + rewrite lookup_insert_ne; [by rewrite (Hn1 a (x :: c) eq_refl)|]. eapply last_obj_strict. rewrite <- app_assoc in Hnd. exact Hnd.
    + destruct c as [|f' c]; simplify_eq/=; [by rewrite app_nil_r, lookup_insert_eq|].
      rewrite lookup_insert_ne; [|apply not_eq_sym; eapply last_obj_strict; exact Hnd]. rewrite Hlast. by apply Hn2.
  - intros a x b Hk E. rewrite Hk, lookup_insert_ne by done.
    apply app_cut in E as [(y & c & -> & Hb)|(c & -> & Hc)].
    + injection Hb as <- ->. rewrite lookup_insert_ne; [by eapply Hp1|]. intros [= ->]. apply (Hd x); set_solver.
    + destruct c as [|f' c]; simplify_eq/=; [by rewrite app_nil_r, lookup_insert_eq|].
      rewrite lookup_insert_ne; [rewrite Hlast; by eapply Hp2|]. intros [= ->].
      apply NoDup_cons in Hnd2 as [Hx _]. set_solver.
  - intros _. rewrite lookup_insert_eq, Hlast. done.
Qed.

Lemma world_append k E H m A h1 l1 h2 f l2 :
  world k E H m A -> A !! h1 = Some l1 -> A !! h2 = Some (f :: l2) -> h1 <> h2 ->
  world k E H (append k h1 l1 h2 f l2 (reset k h2 m)) (<[h1 := l1 ++ f :: l2]> (<[h2 := []]> A)).
Proof.
  intros W E1 E2 Hh. pose proof (world_reset _ _ _ _ _ h2 W) as W'.
  assert (Hd : forall e, e ∈ l1 -> e ∈ f :: l2 -> False) by (intros e I1 I2; apply Hh; by eapply W).
  pose proof (append_repr k m h1 l1 h2 f l2 (w_repr _ _ _ _ _ W _ _ E1) (w_repr _ _ _ _ _ W _ _ E2) Hd Hh) as Hr.
  apply (world_update _ _ _ (reset k h2 m) _ _ _ _ (l1 ++ f :: l2)); [done|..].
  - eapply repr_frame; [exact Hr|]. intros o Ho. assert (Head h2 <> o).
    { intros <-. unfold objs in Ho. apply elem_of_cons in Ho as [[=]|Ho]; [done|].
      by apply list_elem_of_fmap in Ho as (? & ? & _). }
    simpl. split.
    + destruct (decide (last_obj h1 l1 = o)) as [->|]; [by rewrite !lookup_insert_eq|]. by rewrite !lookup_insert_ne.
    + destruct (decide (Head h1 = o)) as [->|]; [by rewrite !lookup_insert_eq|]. rewrite !(lookup_insert_ne _ (Head h1)) by done.
      assert (forall s : gmap obj obj, (if tailed k then <[Head h2 := Head h2]> s else s) !! o = s !! o) as Ht
        by (intros s; destruct (tailed k); [by rewrite lookup_insert_ne|done]).
      destruct (dbl k); [|by apply Ht].
      destruct (decide (Elem f = o)) as [->|]; [by rewrite !lookup_insert_eq|]. rewrite !lookup_insert_ne by done. apply Ht.
  - intros o. simpl. split; intros Ho; [by apply insert_is_Some|].
    apply insert_is_Some. destruct (dbl k); [by apply insert_is_Some|done].
  - intros o Ho. assert (last_obj h1 l1 <> o) by (intros <-; apply Ho, last_obj_objs).
    assert (Head h1 <> o) by (intros <-; apply Ho; by left).
    assert (Elem f <> o) by (intros <-; apply Ho; right; apply list_elem_of_fmap_2; set_solver).
    unfold append; cbn [first second]. rewrite !lookup_insert_ne by done. split; [done|].
    destruct (dbl k); [by rewrite lookup_insert_ne|done].
  - intros e h0 l0 He Hne E0 Hin. apply lookup_insert_Some in E0 as [[<- <-]|[Hn2 E0]]; [set_solver|].
    assert (e ∈ l1 \/ e ∈ f :: l2) as [I|I] by set_solver.
    + apply Hne. by eapply W.
    + apply Hn2. symmetry. by eapply W.
Qed.

(** ** Operations *)

Inductive qop :=
| Init (h : nat)
| InsertHead (h e : nat)
| InsertTail (h e : nat)
| InsertAfter (h x e : nat)
| InsertBefore (x e : nat)
| RemoveHead (h : nat)
| Remove (h e : nat)
| Concat (h1 h2 : nat).

(** The macro of a kind for an operation, where there is one. *)
Definition exec (k : kind) (op : qop) : option (lmem -> option lmem) :=
  match k, op with
  | SLIST, Init h => Some (SLIST_INIT h)
  | SLIST, InsertHead h e => Some (SLIST_INSERT_HEAD h e)
  | SLIST, InsertAfter _ x e => Some (SLIST_INSERT_AFTER x e)
  | SLIST, RemoveHead h => Some (SLIST_REMOVE_HEAD h)
  | SLIST, Remove h e => Some (SLIST_REMOVE h e)
  | LIST, Init h => Some (LIST_INIT h)
  | LIST, InsertHead h e => Some (LIST_INSERT_HEAD h e)
  | LIST, InsertAfter _ x e => Some (LIST_INSERT_AFTER x e)
  | LIST, InsertBefore x e => Some (LIST_INSERT_BEFORE x e)
  | LIST, Remove _ e => Some (LIST_REMOVE e)
  | STAILQ, Init h => Some (STAILQ_INIT h)
  | STAILQ, InsertHead h e => Some (STAILQ_INSERT_HEAD h e)
  | STAILQ, InsertTail h e => Some (STAILQ_INSERT_TAIL h e)
  | STAILQ, InsertAfter h x e => Some (STAILQ_INSERT_AFTER h x e)
  | STAILQ, RemoveHead h => Some (STAILQ_REMOVE_HEAD h)
  | STAILQ, Remove h e => Some (STAILQ_REMOVE h e)
  | STAILQ, Concat h1 h2 => Some (STAILQ_CONCAT h1 h2)
  | TAILQ, Init h => Some (TAILQ_INIT h)
  | TAILQ, InsertHead h e => Some (TAILQ_INSERT_HEAD h e)
  | TAILQ, InsertTail h e => Some (TAILQ_INSERT_TAIL h e)
  | TAILQ, InsertAfter h x e => Some (TAILQ_INSERT_AFTER h x e)
  | TAILQ, InsertBefore x e => Some (TAILQ_INSERT_BEFORE x e)
  | TAILQ, Remove h e => Some (TAILQ_REMOVE h e)
  | TAILQ, Concat h1 h2 => Some (TAILQ_CONCAT h1 h2)
  | _, _ => None
  end.

(** What the operations stand for, on sequences; an element that is inserted is
    allocated and in no queue, one that is named is in the queue that is named. *)
Inductive qstep (E H : gset nat) (A : gmap nat (list nat)) : qop -> gmap nat (list nat) -> Prop :=
| S_init h : h ∈ H -> qstep E H A (Init h) (<[h := []]> A)
| S_insert_head h l e : A !! h = Some l -> fresh E A e -> qstep E H A (InsertHead h e) (<[h := e :: l]> A)
| S_insert_tail h l e : A !! h = Some l -> fresh E A e -> qstep E H A (InsertTail h e) (<[h := l ++ [e]]> A)
| S_insert_after h l1 x l2 e : A !! h = Some (l1 ++ x :: l2) -> fresh E A e ->
    qstep E H A (InsertAfter h x e) (<[h := l1 ++ x :: e :: l2]> A)
| S_insert_before h l1 x l2 e : A !! h = Some (l1 ++ x :: l2) -> fresh E A e ->
    qstep E H A (InsertBefore x e) (<[h := l1 ++ e :: x :: l2]> A)
| S_remove_head h e l : A !! h = Some (e :: l) -> qstep E H A (RemoveHead h) (<[h := l]> A)
| S_remove h l1 e l2 : A !! h = Some (l1 ++ e :: l2) -> qstep E H A (Remove h e) (<[h := l1 ++ l2]> A)
| S_concat h1 h2 l1 l2 : h1 <> h2 -> A !! h1 = Some l1 -> A !! h2 = Some l2 ->
    qstep E H A (Concat h1 h2) (<[h1 := l1 ++ l2]> (<[h2 := []]> A)).

Lemma init_reset k E H m A h f :
  world k E H m A -> h ∈ H -> exec k (Init h) = Some f -> f m = Some (reset k h m).
Proof.
  intros W Hh. destruct (w_heads _ _ _ _ _ W h Hh) as [[v1 H1] H2].
  destruct k; simpl; intros [= <-]; unfold SLIST_INIT, LIST_INIT, STAILQ_INIT, TAILQ_INIT; run; try done;
    (destruct (H2 eq_refl) as [v2 H2']; by run).
Qed.

Lemma exec_insert_head k m h l e f :
  repr k m h l -> allocated k m e -> e ∉ l -> exec k (InsertHead h e) = Some f -> f m = Some (link k h [] e l m).
Proof.
  destruct k; simpl; intros Hr Ha He [= <-]; [by apply slist_insert_head|by apply list_insert_head|
    by apply stailq_insert_head|by apply tailq_insert_head].
Qed.

Lemma exec_insert_after k m h l1 x l2 e f :
  repr k m h (l1 ++ x :: l2) -> allocated k m e -> e ∉ l1 ++ x :: l2 -> exec k (InsertAfter h x e) = Some f ->
  f m = Some (link k h (l1 ++ [x]) e l2 m).
Proof.
  destruct k; simpl; intros Hr Ha He [= <-]; [by apply slist_insert_after|by apply list_insert_after|
    by apply stailq_insert_after|by apply tailq_insert_after].
Qed.

Lemma exec_remove k m h l1 e l2 f :
  repr k m h (l1 ++ e :: l2) -> exec k (Remove h e) = Some f -> f m = Some (unlink k h l1 l2 m).
Proof.
  destruct k; simpl; intros Hr [= <-]; [by apply slist_remove|by eapply list_remove|by apply stailq_remove|
    by apply tailq_remove].
Qed.

(** The concatenation with a queue that is not empty. *)
Lemma exec_concat k m h1 l1 h2 x l2 f :
  repr k m h1 l1 -> repr k m h2 (x :: l2) -> (forall e, e ∈ l1 -> e ∈ x :: l2 -> False) -> h1 <> h2 ->
  exec k (Concat h1 h2) = Some f ->
  exists m', f m = Some m' /\ first m' = first (append k h1 l1 h2 x l2 (reset k h2 m)) /\
    second m' = second (append k h1 l1 h2 x l2 (reset k h2 m)).
Proof.
  intros R1 R2 Hd Hh Ef. pose proof (repr_next _ _ _ _ R2 [] _ eq_refl) as H2. rewrite last_obj_nil in H2.
  pose proof (repr_next _ _ _ _ R1 l1 [] (eq_sym (app_nil_r l1))) as H1. simpl in H1, H2.
  assert (last_obj h1 l1 <> Head h2).
  { destruct (last_obj_cases h1 l1) as [[_ ->]|(? & ? & _ & ->)]; congruence. }
  assert (Head h1 <> Head h2) by congruence.
  destruct k; simpl in Ef; simplify_eq; pose proof (repr_last _ _ _ _ R1 eq_refl) as L1;
    pose proof (repr_last _ _ _ _ R2 eq_refl) as L2.
  - unfold STAILQ_CONCAT, EMPTY, STAILQ_INIT. run. eexists. split; [done|]. simpl.
    split; [by apply insert_insert_ne|by apply insert_insert_ne].
  - pose proof (repr_prev _ _ _ _ R2 [] _ _ eq_refl eq_refl) as Hx. rewrite last_obj_nil in Hx.
    unfold TAILQ_CONCAT, EMPTY, TAILQ_INIT. run. eexists. split; [done|]. simpl.
    split; [by apply insert_insert_ne|].
    rewrite (insert_insert_ne _ (Head h2)) by done. f_equal. by apply insert_insert_ne.
Qed.

Lemma exec_concat_empty k m h1 h2 f :
  repr k m h2 [] -> exec k (Concat h1 h2) = Some f -> f m = Some m.
Proof.
  intros R2 Ef. pose proof (repr_next _ _ _ _ R2 [] [] eq_refl) as H2. rewrite last_obj_nil in H2. simpl in H2.
  destruct k; simpl in Ef; simplify_eq; unfold STAILQ_CONCAT, TAILQ_CONCAT, EMPTY; by run.
Qed.

Lemma exec_refines k E H m A op A' f :
  world k E H m A -> qstep E H A op A' -> exec k op = Some f -> exists m', f m = Some m' /\ world k E H m' A'.
Proof.
  intros W Hs Ef. destruct Hs as [h Hh|h l e Ah He|h l e Ah He|h l1 x l2 e Ah He|h l1 x l2 e Ah He|h e l Ah|
    h l1 e l2 Ah|h1 h2 l1 l2 Hne A1 A2]; try pose proof (w_repr _ _ _ _ _ W _ _ Ah) as Hr;
    try (pose proof (w_elems _ _ _ _ _ W _ (proj1 He)) as Ha; pose proof (proj2 He _ _ Ah) as Hn).
  - exists (reset k h m). split; [by eapply init_reset|by apply world_reset].
  - exists (link k h [] e l m). split; [by apply exec_insert_head|by apply (world_link _ _ _ _ _ _ [])].
  - exists (link k h l e [] m). split.
    + destruct k; simpl in Ef; simplify_eq; [by apply stailq_insert_tail|by apply tailq_insert_tail].
    + apply world_link; [done|by rewrite app_nil_r|done].
  - exists (link k h (l1 ++ [x]) e l2 m). split; [by apply exec_insert_after|].
    replace (l1 ++ x :: e :: l2) with ((l1 ++ [x]) ++ e :: l2) by (by rewrite <- app_assoc).
    apply world_link; [done|by rewrite <- app_assoc|done].
  - exists (link k h l1 e (x :: l2) m). split; [|by apply world_link].
    destruct k; simpl in Ef; simplify_eq; by apply insert_before.
  - exists (unlink k h [] l m). split; [|by eapply (world_unlink _ _ _ _ _ _ [])].
    destruct k; simpl in Ef; simplify_eq; [by eapply slist_remove_head|by eapply stailq_remove_head].
  - exists (unlink k h l1 l2 m). split; [by eapply exec_remove|by eapply world_unlink].
  - pose proof (w_repr _ _ _ _ _ W _ _ A1) as R1. pose proof (w_repr _ _ _ _ _ W _ _ A2) as R2.
    destruct l2 as [|x l2].
    + exists m. split; [by eapply exec_concat_empty|]. rewrite app_nil_r.
      rewrite (insert_id A h2), insert_id by done. exact W.
    + destruct (exec_concat k m h1 l1 h2 x l2 f R1 R2) as (m' & Em & M1 & M2); [|done|done|].
      { intros e I1 I2. apply Hne. by eapply W. }
      exists m'. split; [done|]. pose proof (world_append _ _ _ _ _ _ _ _ _ _ W A1 A2 Hne) as W'.
      destruct m', (append k h1 l1 h2 x l2 (reset k h2 m)). simpl in M1, M2. by subst.
Qed.

(** ** Traversals and access *)

Lemma visit_next k m h : forall l2 l1 fuel,
  repr k m h (l1 ++ l2) -> (length l2 <= fuel)%nat -> visit NEXT fuel (head l2) m = Some l2.
Proof.
  induction l2 as [|e l2 IH]; intros l1 fuel Hr Hf; [by destruct fuel|].
  destruct fuel as [|fuel]; [simpl in Hf; lia|]. destruct (repr_after _ _ _ _ _ _ Hr) as (H0 & _).
  change (NEXT e m = Some (head l2)) in H0. cbn [head visit]. rewrite H0. cbn [mbind option_bind].
  rewrite (IH (l1 ++ [e])); [done|by rewrite <- app_assoc|simpl in Hf; lia].
Qed.

Lemma tailq_prev m h l1 e l2 : repr TAILQ m h (l1 ++ e :: l2) -> TAILQ_PREV e m = Some (last l1).
Proof.
  intros [Hnd Hn Hp Hl]. unfold TAILQ_PREV, load2, load1. rewrite (Hp l1 e l2 eq_refl eq_refl). simpl.
  destruct l1 as [|y l1 _] using rev_ind.
  - rewrite last_obj_nil, (Hl eq_refl). simpl. rewrite (Hn (e :: l2) []); [done|by rewrite app_nil_r].
  - rewrite last_obj_snoc, last_snoc. rewrite (Hp l1 y (e :: l2) eq_refl); [|by rewrite <- app_assoc]. simpl.
    rewrite (Hn l1 (y :: e :: l2)); [done|by rewrite <- app_assoc].
Qed.

Lemma tailq_last m h l : repr TAILQ m h l -> TAILQ_LAST h m = Some (last l).
Proof.
  intros [Hnd Hn Hp Hl]. unfold TAILQ_LAST, load2, load1. rewrite (Hl eq_refl). simpl.
  destruct l as [|y l _] using rev_ind.
  - rewrite last_obj_nil, (Hl eq_refl). simpl. by rewrite (Hn [] []).
  - rewrite last_obj_snoc, last_snoc. rewrite (Hp l y [] eq_refl eq_refl). simpl. by rewrite (Hn l [y]).
Qed.

Lemma visit_prev m h l : forall l2 fuel,
  repr TAILQ m h (l ++ l2) -> (length l <= fuel)%nat -> visit TAILQ_PREV fuel (last l) m = Some (reverse l).
Proof.
  induction l as [|e l IH] using rev_ind; intros l2 fuel Hr Hf; [by destruct fuel|].
  rewrite last_snoc, reverse_snoc. rewrite length_app in Hf. simpl in Hf. destruct fuel as [|fuel]; [lia|].
  cbn [visit]. rewrite <- app_assoc in Hr. rewrite (tailq_prev _ _ _ _ _ Hr). cbn [mbind option_bind].
  rewrite (IH (e :: l2)); [done|exact Hr|lia].
Qed.

(** What the access and traversal macros say of a queue that holds [l]. *)
Record observed (k : kind) (m : lmem) (h : nat) (l : list nat) : Prop := {
  o_first : FIRST h m = Some (head l);
  o_empty : EMPTY h m = Some (bool_decide (l = []));
  o_next l1 e l2 : l = l1 ++ e :: l2 -> NEXT e m = Some (head l2);
  o_foreach : FOREACH h m = Some l;
  o_last : k = TAILQ -> TAILQ_LAST h m = Some (last l);
  o_prev l1 e l2 : k = TAILQ -> l = l1 ++ e :: l2 -> TAILQ_PREV e m = Some (last l1);
  o_reverse : k = TAILQ -> TAILQ_FOREACH_REVERSE h m = Some (reverse l) }.

Lemma repr_observed k m h l : repr k m h l -> observed k m h l.
Proof.
  intros Hr. pose proof (repr_length _ _ _ _ Hr) as Hf.
  pose proof (repr_next _ _ _ _ Hr [] l eq_refl) as H0. rewrite last_obj_nil in H0. split.
  - exact H0.
  - unfold EMPTY, load1. rewrite H0. simpl. f_equal. by destruct l.
  - intros l1 e l2 ->. by destruct (repr_after _ _ _ _ _ _ Hr).
  - unfold FOREACH, FIRST, load1. rewrite H0. simpl. apply (visit_next k m h l []); [done|lia].
  - intros ->. by apply tailq_last.
  - intros l1 e l2 -> ->. by eapply tailq_prev.
  - intros ->. unfold TAILQ_FOREACH_REVERSE. rewrite (tailq_last _ _ _ Hr). simpl.
    apply (visit_prev m h l []); [by rewrite app_nil_r|lia].
Qed.

(** ** Programs *)

Fixpoint run_ops (k : kind) (ops : list qop) (m : lmem) : option lmem :=
  match ops with
  | [] => Some m
  | op :: ops => f ← exec k op; m ← f m; run_ops k ops m
  end.

Inductive qsteps (E H : gset nat) (A : gmap nat (list nat)) : list qop -> gmap nat (list nat) -> Prop :=
| Q_nil : qsteps E H A [] A
| Q_cons op ops A1 A2 : qstep E H A op A1 -> qsteps E H A1 ops A2 -> qsteps E H A (op :: ops) A2.

(** A memory in which the words of the elements and of the heads exist, with any
    contents. *)
Definition words_exist (k : kind) (E H : gset nat) (m : lmem) : Prop :=
  (forall e, e ∈ E -> allocated k m e) /\
  (forall h, h ∈ H -> is_Some (first m !! Head h) /\ (tailed k = true -> is_Some (second m !! Head h))).

Lemma run_ops_refines k E H ops : forall m A A',
  world k E H m A -> qsteps E H A ops A' -> Forall (fun op => is_Some (exec k op)) ops ->
  exists m', run_ops k ops m = Some m' /\ world k E H m' A'.
Proof.
  induction ops as [|op ops IH]; intros m A A' W Hs Hk; inversion Hs; subst; [by exists m|].
  apply Forall_cons in Hk as [[f Ef] Hk]. destruct (exec_refines _ _ _ _ _ _ _ _ W H2 Ef) as (m1 & E1 & W1).
  destruct (IH _ _ _ W1 H4 Hk) as (m2 & E2 & W2). exists m2. split; [|done]. simpl. rewrite Ef. simpl. by rewrite E1.
Qed.

(** C37: The macros of all four linked kinds implement sequences: from any contents of the
    memory, for any sequence of operations of a kind on any number of queues in which an
    element that is inserted is allocated and in none of the queues, an element that is
    named (to insert before or after it, or to remove it) is in the queue named,
    [REMOVE_HEAD] is applied only to a queue that is not empty, and [CONCAT] to two
    different queues: no macro follows [NULL] or an unallocated word, no other queue is
    disturbed, and afterwards [FIRST], [NEXT], [EMPTY] and the traversals of every queue
    show exactly the sequence that the operations on sequences yield (for a [TAILQ] also
    backwards, with [LAST] and [PREV]).  [remove_twice_undoes] shows that the conditions
    are needed. *)
Theorem queue_refines (k : kind) (E H : gset nat) (ops : list qop) (m : lmem) (A : gmap nat (list nat)) :
  words_exist k E H m -> qsteps E H ∅ ops A -> Forall (fun op => is_Some (exec k op)) ops ->
  exists m', run_ops k ops m = Some m' /\ forall h l, A !! h = Some l -> observed k m' h l.
Proof.
  intros [HE HH] Hs Hk. assert (world k E H m ∅) as W.
  { split; [..|exact HE|exact HH]; intros *; by rewrite lookup_empty. }
  destruct (run_ops_refines _ _ _ _ _ _ _ W Hs Hk) as (m' & Em & W'). exists m'. split; [done|].
  intros h l El. apply repr_observed. by eapply w_repr.
Qed.

(** ** [macro_expand.c] *)

(** The lines the program prints. *)
Inductive line := L_empty (b : bool) | L_foreach (d : Z) | L_foreach_reverse (d : Z) | L_field (d : Z) | L_pre (d : Z).

(** [malloc]: the new words hold [g]; [free]. *)
Definition malloc_elem (e : nat) (g : option nat * obj) (m : lmem) : lmem :=
  Mem (<[Elem e := g.1]> (first m)) (<[Elem e := g.2]> (second m)).
Definition free_elem (e : nat) (m : lmem) : lmem := Mem (delete (Elem e) (first m)) (delete (Elem e) (second m)).

(** [elm1->data], [elm2->data] *)
Definition data (e : nat) : Z := match e with 1%nat => 0 | _ => 1 end.

(** [p->data] of a pointer that was read. *)
Definition data_at (p : option nat) : option Z := e ← p; Some (data e).

(** [main], with the head as object 0 and the elements as 1 and 2; the element
    [elm1] is removed twice, by the macro and by its expansion. *)
Definition main (g1 g2 : option nat * obj) (m : lmem) : option (list line * lmem) :=
  m ← TAILQ_INIT 0 m;
  e1 ← EMPTY 0 m;
  let m := malloc_elem 1 g1 m in
  m ← TAILQ_INSERT_HEAD 0 1 m;
  let m := malloc_elem 2 g2 m in
  m ← TAILQ_INSERT_AFTER 0 1 2 m;
  fwd ← FOREACH 0 m;
  bwd ← TAILQ_FOREACH_REVERSE 0 m;
  n ← NEXT 1 m; n ← data_at n;
  p ← TAILQ_PREV 2 m; p ← data_at p;
  e2 ← EMPTY 0 m;
  m ← TAILQ_REMOVE 0 1 m;
  m ← TAILQ_REMOVE 0 1 m;
  let m := free_elem 1 m in
  m ← TAILQ_REMOVE 0 2 m;
  let m := free_elem 2 m in
  e3 ← EMPTY 0 m;
  Some ([L_empty e1; L_empty e1] ++ (L_foreach ∘ data <$> fwd) ++ (L_foreach_reverse ∘ data <$> bwd) ++
        [L_field n; L_field n; L_pre p; L_pre p; L_empty e2; L_empty e3], m).

(** Whatever the memory held, the program prints the two elements in both
    directions and leaves an empty queue; the second removal of [elm1] does
    nothing. *)
Theorem macro_expand_main (g1 g2 : option nat * obj) (v : option nat) (w : obj) :
  main g1 g2 (Mem {[Head 0 := v]} {[Head 0 := w]}) =
  Some ([L_empty true; L_empty true; L_foreach 0; L_foreach 1; L_foreach_reverse 1; L_foreach_reverse 0;
         L_field 1; L_field 1; L_pre 0; L_pre 0; L_empty false; L_empty true],
        Mem {[Head 0 := None]} {[Head 0 := Head 0]}).
Proof. vm_compute. reflexivity. Qed.

(** A removed element keeps its words: in the middle of a queue a second removal
    would undo what was linked since. *)
Example remove_twice_undoes :
  let ops := [Init 0; InsertTail 0 1; InsertTail 0 2; InsertTail 0 3; Remove 0 2; InsertAfter 0 1 4] in
  let m0 := Mem (list_to_map ((fun o => (o, None)) <$> [Head 0; Elem 1; Elem 2; Elem 3; Elem 4]))
                (list_to_map ((fun o => (o, Head 0)) <$> [Head 0; Elem 1; Elem 2; Elem 3; Elem 4])) in
  (m ← run_ops TAILQ ops m0; FOREACH 0 m) = Some [1; 4; 3]%nat /\
  (m ← run_ops TAILQ ops m0; m ← TAILQ_REMOVE 0 2 m; FOREACH 0 m) = Some [1; 3]%nat.
Proof. vm_compute. by split. Qed.

(** ** Witness *)

(** Two tail queues, moved into one. *)
Definition demo_words : lmem :=
  Mem (list_to_map ((fun o => (o, Some 7%nat)) <$> [Head 0; Head 1; Elem 1; Elem 2; Elem 3]))
      (list_to_map ((fun o => (o, Elem 9)) <$> [Head 0; Head 1; Elem 1; Elem 2; Elem 3])).

Definition demo_ops : list qop :=
  [Init 0; Init 1; InsertHead 0 1; InsertTail 1 2; InsertBefore 2 3; Concat 0 1; Remove 0 3].

Lemma queue_refines_witness :
  exists m', run_ops TAILQ demo_ops demo_words = Some m' /\
    TAILQ_FOREACH_REVERSE 0 m' = Some [2; 1]%nat /\ EMPTY 1 m' = Some true.
Proof.
  destruct (queue_refines TAILQ {[1; 2; 3]}%nat {[0; 1]}%nat demo_ops demo_words
    (<[0 := [1; 2]]> (<[0 := [1; 3; 2]]> (<[1 := []]> (<[1 := [3; 2]]> (<[1 := [2]]> (<[0 := [1]]>
      (<[1 := []]> (<[0 := []]> ∅))))))))%nat) as (m' & Em & Ho).
  - split.
    + intros e He. assert (e = 1 \/ e = 2 \/ e = 3)%nat as [->|[->| ->]] by set_solver;
        split; [|intros _| |intros _| |intros _]; vm_compute; eauto.
    + intros h Hh. assert (h = 0 \/ h = 1)%nat as [->| ->] by set_solver;
        split; [|intros _| |intros _]; vm_compute; eauto.
  - assert (Hf : forall A e, bool_decide (e ∈ ({[1; 2; 3]}%nat : gset nat) /\ map_Forall (fun _ l => e ∉ l) A) = true ->
              fresh {[1; 2; 3]}%nat A e).
    { intros A e Hb. apply bool_decide_eq_true in Hb as [H1 H2]. split; [done|]. intros h l. apply H2. }
    unfold demo_ops.
    eapply Q_cons; [by apply S_init; set_solver|]. eapply Q_cons; [by apply S_init; set_solver|].
    eapply Q_cons; [apply (S_insert_head _ _ _ 0 []); [done|by apply Hf]|].
    eapply Q_cons; [apply (S_insert_tail _ _ _ 1 []); [done|by apply Hf]|].
    eapply Q_cons; [apply (S_insert_before _ _ _ 1 [] 2 []); [done|by apply Hf]|].
    eapply Q_cons; [apply (S_concat _ _ _ 0 1 [1] [3; 2])%nat; done|].
    eapply Q_cons; [apply (S_remove _ _ _ 0 [1] 3 [2])%nat; done|]. apply Q_nil.
  - repeat (apply Forall_cons; split; [by eexists|]). by apply Forall_nil.
  - exists m'. split; [done|]. split.
    + by apply (o_reverse TAILQ m' 0 [1; 2]%nat); [apply Ho|].
    + by apply (o_empty TAILQ m' 1 []), Ho.
Defined.

(** ** [CIRCLEQ] *)

Module CircleQ.

(** Both words of an entry and of a head point to an element or, cast to a pointer to void,
    to the head. *)
Definition cmem : Type := mem obj.

Definition CIRCLEQ_INIT (h : nat) (m : cmem) : option cmem :=
  m ← store1 (Head h) (Head h) m;
  store2 (Head h) (Head h) m.

Definition CIRCLEQ_INSERT_AFTER (h listelm elm : nat) (m : cmem) : option cmem :=
  n ← load1 m (Elem listelm);
  m ← store1 (Elem elm) n m;
  m ← store2 (Elem elm) (Elem listelm) m;
  n ← load1 m (Elem listelm);
  m ← (if bool_decide (n = Head h) then store2 (Head h) (Elem elm) m
       else n ← load1 m (Elem listelm); store2 n (Elem elm) m);
  store1 (Elem listelm) (Elem elm) m.

Definition CIRCLEQ_INSERT_BEFORE (h listelm elm : nat) (m : cmem) : option cmem :=
  m ← store1 (Elem elm) (Elem listelm) m;
  p ← load2 m (Elem listelm);
  m ← store2 (Elem elm) p m;
  p ← load2 m (Elem listelm);
  m ← (if bool_decide (p = Head h) then store1 (Head h) (Elem elm) m
       else p ← load2 m (Elem listelm); store1 p (Elem elm) m);
  store2 (Elem listelm) (Elem elm) m.

Definition CIRCLEQ_INSERT_HEAD (h elm : nat) (m : cmem) : option cmem :=
  f ← load1 m (Head h);
  m ← store1 (Elem elm) f m;
  m ← store2 (Elem elm) (Head h) m;
  l ← load2 m (Head h);
  m ← (if bool_decide (l = Head h) then store2 (Head h) (Elem elm) m
       else f ← load1 m (Head h); store2 f (Elem elm) m);
  store1 (Head h) (Elem elm) m.

Definition CIRCLEQ_INSERT_TAIL (h elm : nat) (m : cmem) : option cmem :=
  m ← store1 (Elem elm) (Head h) m;
  l ← load2 m (Head h);
  m ← store2 (Elem elm) l m;
  f ← load1 m (Head h);
  m ← (if bool_decide (f = Head h) then store1 (Head h) (Elem elm) m
       else l ← load2 m (Head h); store1 l (Elem elm) m);
  store2 (Head h) (Elem elm) m.

Definition CIRCLEQ_REMOVE (h elm : nat) (m : cmem) : option cmem :=
  n ← load1 m (Elem elm);
  m ← (if bool_decide (n = Head h) then p ← load2 m (Elem elm); store2 (Head h) p m
       else n ← load1 m (Elem elm); p ← load2 m (Elem elm); store2 n p m);
  p ← load2 m (Elem elm);
  if bool_decide (p = Head h) then n ← load1 m (Elem elm); store1 (Head h) n m
  else p ← load2 m (Elem elm); n ← load1 m (Elem elm); store1 p n m.

Definition CIRCLEQ_EMPTY (h : nat) (m : cmem) : option bool :=
  f ← load1 m (Head h); Some (bool_decide (f = Head h)).
Definition CIRCLEQ_FIRST (h : nat) (m : cmem) : option obj := load1 m (Head h).
Definition CIRCLEQ_LAST (h : nat) (m : cmem) : option obj := load2 m (Head h).

Definition CIRCLEQ_LOOP_NEXT (h elm : nat) (m : cmem) : option obj :=
  n ← load1 m (Elem elm); if bool_decide (n = Head h) then load1 m (Head h) else load1 m (Elem elm).
Definition CIRCLEQ_LOOP_PREV (h elm : nat) (m : cmem) : option obj :=
  p ← load2 m (Elem elm); if bool_decide (p = Head h) then load2 m (Head h) else load2 m (Elem elm).

(** A traversal that ends at the head; it goes by [load1] or by [load2]. *)
Fixpoint cvisit (step : cmem -> obj -> option obj) (h fuel : nat) (var : obj) (m : cmem) : option (list obj) :=
  if bool_decide (var = Head h) then Some []
  else
    match fuel with
    | O => None
    | S fuel => next ← step m var; l ← cvisit step h fuel next m; Some (var :: l)
    end.

Definition CIRCLEQ_FOREACH (h : nat) (m : cmem) : option (list obj) :=
  var ← load1 m (Head h); cvisit load1 h (size (first m)) var m.
Definition CIRCLEQ_FOREACH_REVERSE (h : nat) (m : cmem) : option (list obj) :=
  var ← load2 m (Head h); cvisit load2 h (size (first m)) var m.

(** *** Representation *)

Definition head_obj (h : nat) (l : list nat) : obj := match head l with Some e => Elem e | None => Head h end.

(** One direction of the ring: every object of the queue points to the next, the
    last one to the head. *)
Definition ring (w : gmap obj obj) (h : nat) (l : list nat) : Prop :=
  forall l1 l2, l = l1 ++ l2 -> w !! last_obj h l1 = Some (head_obj h l2).

Record crepr (m : cmem) (h : nat) (l : list nat) : Prop := {
  c_nodup : NoDup l;
  c_next : ring (first m) h l;
  c_prev : ring (second m) h (reverse l) }.

Lemma last_obj_reverse h l : last_obj h (reverse l) = head_obj h l.
Proof. unfold last_obj, head_obj. by rewrite last_reverse. Qed.

Lemma head_obj_reverse h l : head_obj h (reverse l) = last_obj h l.
Proof. by rewrite <- last_obj_reverse, reverse_involutive. Qed.

Lemma reverse_place {A} (l1 : list A) e l2 : reverse (l1 ++ e :: l2) = reverse l2 ++ e :: reverse l1.
Proof. rewrite reverse_app, reverse_cons. by rewrite <- app_assoc. Qed.

Lemma ring_link w h l1 e l2 :
  ring w h (l1 ++ l2) -> NoDup (l1 ++ l2) -> e ∉ l1 ++ l2 ->
  ring (<[last_obj h l1 := Elem e]> (<[Elem e := head_obj h l2]> w)) h (l1 ++ e :: l2).
Proof.
  intros Hn Hnd He a b E. assert (NoDup (l1 ++ e :: l2)) as Hnd'.
  { rewrite <- Permutation_middle. by constructor. }
  assert (Hin : e ∉ l1 /\ e ∉ l2) by (split; set_solver). destruct Hin as [He1 He2].
  apply app_cut in E as [(x & c & -> & ->)|(c & -> & Hc)].
  - rewrite !lookup_insert_ne.
    + rewrite (Hn a (x :: c ++ l2)); [done|]. by rewrite <- app_assoc.
    + apply not_eq_sym, last_obj_elem. set_solver.
    + eapply last_obj_strict. rewrite <- app_assoc in Hnd. exact Hnd.
  - destruct c as [|e' c]; simplify_eq/=; [by rewrite app_nil_r, lookup_insert_eq|].
    destruct c as [|x c]; simpl in *.
    + rewrite last_obj_snoc, lookup_insert_ne, lookup_insert_eq; [done|]. by apply last_obj_elem.
    + rewrite last_obj_cons, !lookup_insert_ne.
      * apply Hn. by rewrite <- app_assoc.
      * apply not_eq_sym, last_obj_elem. set_solver.
      * apply not_eq_sym. eapply last_obj_strict. exact Hnd.
Qed.

Lemma ring_unlink w h l1 e l2 :
  ring w h (l1 ++ e :: l2) -> NoDup (l1 ++ e :: l2) ->
  ring (<[last_obj h l1 := head_obj h l2]> w) h (l1 ++ l2).
Proof.
  intros Hn Hnd a b E. assert (NoDup (l1 ++ l2)) as Hnd'.
  { rewrite <- Permutation_middle in Hnd. by apply NoDup_cons in Hnd as [_ ?]. }
  apply app_cut in E as [(x & c & -> & ->)|(c & -> & ->)].
  - rewrite lookup_insert_ne.
    + rewrite (Hn a (x :: c ++ e :: l2)); [done|]. by rewrite <- app_assoc.
    + eapply last_obj_strict. rewrite <- app_assoc in Hnd. exact Hnd.
  - destruct c as [|x c]; simpl in *; [by rewrite app_nil_r, lookup_insert_eq|].
    rewrite lookup_insert_ne; [|apply not_eq_sym; eapply last_obj_strict; exact Hnd'].
    rewrite <- (last_obj_cons h l1 e). apply Hn. by rewrite <- app_assoc.
Qed.

(** The memory with [e] between [l1] and [l2], and without an element there. *)
Definition clink (h : nat) (l1 : list nat) (e : nat) (l2 : list nat) (m : cmem) : cmem :=
  Mem (<[last_obj h l1 := Elem e]> (<[Elem e := head_obj h l2]> (first m)))
    (<[head_obj h l2 := Elem e]> (<[Elem e := last_obj h l1]> (second m))).

Definition cunlink (h : nat) (l1 l2 : list nat) (m : cmem) : cmem :=
  Mem (<[last_obj h l1 := head_obj h l2]> (first m)) (<[head_obj h l2 := last_obj h l1]> (second m)).

Lemma clink_repr m h l1 e l2 :
  crepr m h (l1 ++ l2) -> e ∉ l1 ++ l2 -> crepr (clink h l1 e l2 m) h (l1 ++ e :: l2).
Proof.
  intros [Hnd Hn Hp] He. split; simpl.
  - rewrite <- Permutation_middle. by constructor.
  - by apply ring_link.
  - rewrite reverse_place, <- (last_obj_reverse h l2), <- (head_obj_reverse h l1). rewrite reverse_app in Hp.
    apply ring_link; [done|..]; rewrite <- reverse_app; [by rewrite reverse_Permutation|by rewrite elem_of_reverse].
Qed.

Lemma cunlink_repr m h l1 e l2 : crepr m h (l1 ++ e :: l2) -> crepr (cunlink h l1 l2 m) h (l1 ++ l2).
Proof.
  intros [Hnd Hn Hp]. split; simpl.
  - rewrite <- Permutation_middle in Hnd. by apply NoDup_cons in Hnd as [_ ?].
  - by eapply ring_unlink.
  - rewrite reverse_app, <- (last_obj_reverse h l2), <- (head_obj_reverse h l1). rewrite reverse_place in Hp.
    eapply ring_unlink; [exact Hp|]. rewrite <- reverse_place. by rewrite reverse_Permutation.
Qed.

(** The words at a place of the queue. *)
Lemma crepr_place m h l1 l2 :
  crepr m h (l1 ++ l2) ->
  first m !! last_obj h l1 = Some (head_obj h l2) /\ second m !! head_obj h l2 = Some (last_obj h l1).
Proof.
  intros [_ Hn Hp]. split; [by apply Hn|]. rewrite <- (last_obj_reverse h l2), <- (head_obj_reverse h l1).
  apply Hp. by rewrite reverse_app.
Qed.

Lemma head_obj_elem h l e : e ∉ l -> head_obj h l <> Elem e.
Proof. intros He. rewrite <- last_obj_reverse. apply last_obj_elem. by rewrite elem_of_reverse. Qed.

Definition callocated (m : cmem) (e : nat) : Prop := is_Some (first m !! Elem e) /\ is_Some (second m !! Elem e).

(** Each macro on the words [p] and [s] around the place. *)
Ltac crun := run; case_bool_decide; simplify_eq; run; done.

Lemma cq_insert_after m h l1 x l2 e :
  crepr m h (l1 ++ x :: l2) -> callocated m e -> e ∉ l1 ++ x :: l2 ->
  CIRCLEQ_INSERT_AFTER h x e m = Some (clink h (l1 ++ [x]) e l2 m).
Proof.
  intros Hr [[v1 H1] [v2 H2]] He. replace (l1 ++ x :: l2) with ((l1 ++ [x]) ++ l2) in Hr by (by rewrite <- app_assoc).
  apply crepr_place in Hr as [Hn Hp]. unfold clink. rewrite last_obj_snoc in *.
  assert (head_obj h l2 <> Elem e) by (apply head_obj_elem; set_solver). assert (x <> e) by set_solver.
  unfold CIRCLEQ_INSERT_AFTER. generalize dependent (head_obj h l2). intros s Hn Hp Hs. crun.
Qed.

Lemma cq_insert_before m h l1 x l2 e :
  crepr m h (l1 ++ x :: l2) -> callocated m e -> e ∉ l1 ++ x :: l2 ->
  CIRCLEQ_INSERT_BEFORE h x e m = Some (clink h l1 e (x :: l2) m).
Proof.
  intros Hr [[v1 H1] [v2 H2]] He. apply crepr_place in Hr as [Hn Hp]. unfold clink. change (head_obj h (x :: l2)) with (Elem x) in *.
  assert (last_obj h l1 <> Elem e) by (apply last_obj_elem; set_solver). assert (x <> e) by set_solver.
  unfold CIRCLEQ_INSERT_BEFORE. generalize dependent (last_obj h l1). intros p Hn Hp Hs. crun.
Qed.

Lemma cq_insert_head m h l e :
  crepr m h l -> callocated m e -> e ∉ l -> CIRCLEQ_INSERT_HEAD h e m = Some (clink h [] e l m).
Proof.
  intros Hr [[v1 H1] [v2 H2]] He. pose proof (crepr_place m h l [] ltac:(by rewrite app_nil_r)) as [_ Hl].
  apply (crepr_place m h [] l) in Hr as [Hn Hp]. unfold clink. rewrite last_obj_nil in *. change (head_obj h []) with (Head h) in Hl.
  assert (head_obj h l <> Elem e) by (by apply head_obj_elem).
  assert (last_obj h l = Head h <-> head_obj h l = Head h) as Hi.
  { destruct (last_obj_cases h l) as [[-> ->]|(? & ? & -> & ->)]; [done|]. split; [done|]. by destruct x. }
  unfold CIRCLEQ_INSERT_HEAD. generalize dependent (head_obj h l). generalize dependent (last_obj h l).
  intros q Hl p Hn Hp Hs Hi. run. case_bool_decide; run; [|done].
  assert (p = Head h) as -> by tauto. by run.
Qed.

Lemma cq_insert_tail m h l e :
  crepr m h l -> callocated m e -> e ∉ l -> CIRCLEQ_INSERT_TAIL h e m = Some (clink h l e [] m).
Proof.
  intros Hr [[v1 H1] [v2 H2]] He. pose proof (crepr_place m h [] l Hr) as [Hf _].
  rewrite <- (app_nil_r l) in Hr. apply crepr_place in Hr as [Hn Hp]. unfold clink. rewrite last_obj_nil in *. simpl in *.
  change (head_obj h []) with (Head h) in *.
  assert (last_obj h l <> Elem e) by (by apply last_obj_elem).
  assert (last_obj h l = Head h <-> head_obj h l = Head h) as Hi.
  { destruct (last_obj_cases h l) as [[-> ->]|(? & ? & -> & ->)]; [done|]. split; [done|]. by destruct x. }
  unfold CIRCLEQ_INSERT_TAIL. generalize dependent (head_obj h l). generalize dependent (last_obj h l).
  intros q Hn Hp Hs p Hf Hi. run. case_bool_decide; run; [|done].
  assert (q = Head h) as -> by tauto. by run.
Qed.

Lemma cq_remove m h l1 e l2 :
  crepr m h (l1 ++ e :: l2) -> CIRCLEQ_REMOVE h e m = Some (cunlink h l1 l2 m).
Proof.
  intros Hr. pose proof (c_nodup _ _ _ Hr) as Hnd. pose proof (crepr_place _ _ _ _ Hr) as [Hn1 Hp1].
  replace (l1 ++ e :: l2) with ((l1 ++ [e]) ++ l2) in Hr by (by rewrite <- app_assoc).
  apply crepr_place in Hr as [Hn Hp]. rewrite last_obj_snoc in *. change (head_obj h (e :: l2)) with (Elem e) in *.
  apply NoDup_app in Hnd as (_ & Hd & Hnd). apply NoDup_cons in Hnd as [He2 _].
  assert (head_obj h l2 <> Elem e) by (by apply head_obj_elem).
  assert (last_obj h l1 <> Elem e) by (apply last_obj_elem; intros Hin; apply (Hd e Hin); by left).
  unfold CIRCLEQ_REMOVE, cunlink. generalize dependent (head_obj h l2). generalize dependent (last_obj h l1).
  intros p Hn1 Hp1 Hpe s Hn Hp Hse.
  run. case_bool_decide; simplify_eq; run; case_bool_decide; simplify_eq; run; done.
Qed.

(** *** Traversals *)

Lemma ring_visit step w h m l2 : (forall o, step m o = w !! o) -> forall l1 fuel,
  ring w h (l1 ++ l2) -> (length l2 <= fuel)%nat -> cvisit step h fuel (head_obj h l2) m = Some (Elem <$> l2).
Proof.
  intros Hw. induction l2 as [|e l2 IH]; intros l1 fuel Hr Hf; [by destruct fuel; simpl; rewrite bool_decide_true|].
  destruct fuel as [|fuel]; [simpl in Hf; lia|]. change (head_obj h (e :: l2)) with (Elem e). cbn [cvisit].
  rewrite bool_decide_false by done. rewrite Hw, <- (last_obj_snoc h l1 e).
  rewrite (Hr (l1 ++ [e]) l2) by (by rewrite <- app_assoc). cbn [mbind option_bind].
  rewrite (IH (l1 ++ [e])); [by rewrite last_obj_snoc|by rewrite <- app_assoc|simpl in Hf; lia].
Qed.

Lemma ring_size w h l : ring w h l -> NoDup l -> (length l < size w)%nat.
Proof.
  intros Hr Hnd. rewrite <- size_dom. assert (list_to_set (objs h l) ⊆ dom w) as Hs.
  { intros o Ho. apply elem_of_list_to_set in Ho. apply elem_of_dom. unfold objs in Ho. apply elem_of_cons in Ho as [->|Ho].
    - pose proof (Hr [] l eq_refl) as H. by eexists.
    - apply list_elem_of_fmap in Ho as (x & -> & Hx). apply list_elem_of_split in Hx as (l1 & l2 & ->).
      rewrite <- (last_obj_snoc h l1 x). eexists. apply (Hr _ l2). by rewrite <- app_assoc. }
  apply subseteq_size in Hs. rewrite size_list_to_set in Hs.
  - unfold objs in Hs. simpl in Hs. rewrite length_fmap in Hs. lia.
  - apply NoDup_cons. split; [intros Hin; by apply list_elem_of_fmap in Hin as (? & ? & _)|].
    apply NoDup_fmap; [by intros ? ? [=]|done].
Qed.

(** What the access and traversal macros say of a queue that holds [l]; the two
    [LOOP] macros go round. *)
Record cobserved (m : cmem) (h : nat) (l : list nat) : Prop := {
  co_first : CIRCLEQ_FIRST h m = Some (head_obj h l);
  co_last : CIRCLEQ_LAST h m = Some (last_obj h l);
  co_empty : CIRCLEQ_EMPTY h m = Some (bool_decide (l = []));
  co_foreach : CIRCLEQ_FOREACH h m = Some (Elem <$> l);
  co_reverse : CIRCLEQ_FOREACH_REVERSE h m = Some (Elem <$> reverse l);
  co_loop_next l1 e l2 : l = l1 ++ e :: l2 -> CIRCLEQ_LOOP_NEXT h e m = Some (head_obj h (l2 ++ l));
  co_loop_prev l1 e l2 : l = l1 ++ e :: l2 -> CIRCLEQ_LOOP_PREV h e m = Some (last_obj h (l ++ l1)) }.

Lemma crepr_observed m h l : crepr m h l -> cobserved m h l.
Proof.
  intros Hr. pose proof Hr as [Hnd Hn Hp]. pose proof (crepr_place m h [] l Hr) as [H1 _].
  assert (second m !! Head h = Some (last_obj h l)) as H2.
  { rewrite <- (app_nil_r l) in Hr. by apply crepr_place in Hr as [_ ?]. }
  rewrite last_obj_nil in H1. pose proof (ring_size _ _ _ Hn Hnd) as Hsz.
  assert (Hpl : forall l1 e l2, l = l1 ++ e :: l2 ->
    first m !! Elem e = Some (head_obj h l2) /\ second m !! Elem e = Some (last_obj h l1)).
  { intros l1 e l2 El. subst l. split; [|by apply crepr_place in Hr as [_ ?]].
    rewrite <- (last_obj_snoc h l1 e). apply Hn. by rewrite <- app_assoc. }
  split.
  - exact H1.
  - exact H2.
  - unfold CIRCLEQ_EMPTY, load1. rewrite H1. simpl. f_equal.
    destruct l; [by rewrite !bool_decide_true|by rewrite !bool_decide_false].
  - unfold CIRCLEQ_FOREACH. change (load1 m (Head h)) with (first m !! Head h). rewrite H1. simpl. by apply (ring_visit load1 (first m) h m l (fun o => eq_refl) []); [|lia].
  - unfold CIRCLEQ_FOREACH_REVERSE. change (load2 m (Head h)) with (second m !! Head h). rewrite H2. simpl. rewrite <- head_obj_reverse.
    apply (ring_visit load2 (second m) h m (reverse l) (fun o => eq_refl) []); [done|]. rewrite length_reverse. lia.
  - intros l1 e l2 El. destruct (Hpl _ _ _ El) as [E1 _]. unfold CIRCLEQ_LOOP_NEXT, load1. rewrite E1, H1. simpl.
    destruct l2 as [|s l2]; [by rewrite bool_decide_true|by rewrite bool_decide_false].
  - intros l1 e l2 El. destruct (Hpl _ _ _ El) as [_ E2]. unfold CIRCLEQ_LOOP_PREV, load2. rewrite E2, H2. simpl.
    destruct (last_obj_cases h l1) as [[-> ->]|(l' & x & -> & ->)].
    + rewrite bool_decide_true, app_nil_r by done. done.
    + rewrite bool_decide_false, app_assoc, last_obj_snoc by done. done.
Qed.

(** *** Programs *)

Inductive cop := CInsertHead (e : nat) | CInsertTail (e : nat) | CInsertAfter (x e : nat) | CInsertBefore (x e : nat) | CRemove (e : nat).

Definition cexec (h : nat) (op : cop) : cmem -> option cmem :=
  match op with
  | CInsertHead e => CIRCLEQ_INSERT_HEAD h e
  | CInsertTail e => CIRCLEQ_INSERT_TAIL h e
  | CInsertAfter x e => CIRCLEQ_INSERT_AFTER h x e
  | CInsertBefore x e => CIRCLEQ_INSERT_BEFORE h x e
  | CRemove e => CIRCLEQ_REMOVE h e
  end.

Inductive cstep (E : gset nat) : list nat -> cop -> list nat -> Prop :=
| C_insert_head l e : e ∈ E -> e ∉ l -> cstep E l (CInsertHead e) (e :: l)
| C_insert_tail l e : e ∈ E -> e ∉ l -> cstep E l (CInsertTail e) (l ++ [e])
| C_insert_after l1 x l2 e : e ∈ E -> e ∉ l1 ++ x :: l2 -> cstep E (l1 ++ x :: l2) (CInsertAfter x e) (l1 ++ x :: e :: l2)
| C_insert_before l1 x l2 e : e ∈ E -> e ∉ l1 ++ x :: l2 -> cstep E (l1 ++ x :: l2) (CInsertBefore x e) (l1 ++ e :: x :: l2)
| C_remove l1 e l2 : cstep E (l1 ++ e :: l2) (CRemove e) (l1 ++ l2).

Inductive csteps (E : gset nat) (l : list nat) : list cop -> list nat -> Prop :=
| CQ_nil : csteps E l [] l
| CQ_cons op ops l1 l2 : cstep E l op l1 -> csteps E l1 ops l2 -> csteps E l (op :: ops) l2.

Fixpoint crun_ops (h : nat) (ops : list cop) (m : cmem) : option cmem :=
  match ops with
  | [] => Some m
  | op :: ops => m ← cexec h op m; crun_ops h ops m
  end.

(** The words of other objects are the same, and no word has gone. *)
Definition cframe (h : nat) (E : gset nat) (m m' : cmem) : Prop :=
  (forall e, callocated m e -> callocated m' e) /\
  forall o, o <> Head h -> (forall e, e ∈ E -> o <> Elem e) ->
    first m' !! o = first m !! o /\ second m' !! o = second m !! o.

(** Inserts at the queue's own objects. *)
Lemma cframe_mem h E (s1 s2 s1' s2' : gmap obj obj) :
  (forall o, is_Some (s1 !! o) -> is_Some (s1' !! o)) -> (forall o, is_Some (s2 !! o) -> is_Some (s2' !! o)) ->
  (forall o, o <> Head h -> (forall e, e ∈ E -> o <> Elem e) -> s1' !! o = s1 !! o /\ s2' !! o = s2 !! o) ->
  cframe h E (Mem s1 s2) (Mem s1' s2').
Proof. intros H1 H2 H3. split; [|done]. intros e [Ha Hb]. split; simpl in *; auto. Qed.

Lemma own_last h (E : gset nat) l o :
  o <> Head h -> (forall e, e ∈ E -> o <> Elem e) -> (forall e, e ∈ l -> e ∈ E) -> last_obj h l <> o.
Proof.
  intros Ho He Hl. destruct (last_obj_cases h l) as [[_ ->]|(l' & x & -> & ->)]; [congruence|].
  apply not_eq_sym, He, Hl. set_solver.
Qed.

Lemma own_head h (E : gset nat) l o :
  o <> Head h -> (forall e, e ∈ E -> o <> Elem e) -> (forall e, e ∈ l -> e ∈ E) -> head_obj h l <> o.
Proof. intros Ho He Hl. rewrite <- last_obj_reverse. apply (own_last h E); [done..|]. intros e. rewrite elem_of_reverse. auto. Qed.

Lemma clink_frame h E l1 e l2 m :
  (forall x, x ∈ l1 ++ e :: l2 -> x ∈ E) -> cframe h E m (clink h l1 e l2 m).
Proof.
  intros Hl. destruct m as [s1 s2]. apply cframe_mem; simpl; [by intros; do 2 apply insert_is_Some..|].
  intros o Ho He. assert (last_obj h l1 <> o) by (apply (own_last h E); set_solver).
  assert (head_obj h l2 <> o) by (apply (own_head h E); set_solver).
  assert (Elem e <> o) by (apply not_eq_sym, He; set_solver). by rewrite !lookup_insert_ne.
Qed.

Lemma cunlink_frame h E l1 l2 m :
  (forall x, x ∈ l1 ++ l2 -> x ∈ E) -> cframe h E m (cunlink h l1 l2 m).
Proof.
  intros Hl. destruct m as [s1 s2]. apply cframe_mem; simpl; [by intros; apply insert_is_Some..|].
  intros o Ho He. assert (last_obj h l1 <> o) by (apply (own_last h E); set_solver).
  assert (head_obj h l2 <> o) by (apply (own_head h E); set_solver). by rewrite !lookup_insert_ne.
Qed.

Lemma cexec_refines h E m l op l' :
  crepr m h l -> (forall e, e ∈ l -> e ∈ E) -> (forall e, e ∈ E -> callocated m e) -> cstep E l op l' ->
  exists m', cexec h op m = Some m' /\ crepr m' h l' /\ (forall e, e ∈ l' -> e ∈ E) /\ cframe h E m m'.
Proof.
  intros Hr Hl Ha Hs. destruct Hs as [l e He Hn|l e He Hn|l1 x l2 e He Hn|l1 x l2 e He Hn|l1 e l2].
  - exists (clink h [] e l m). split; [by apply cq_insert_head; auto|]. split; [by apply (clink_repr m h [])|].
    split; [set_solver|]. apply clink_frame. set_solver.
  - exists (clink h l e [] m). split; [by apply cq_insert_tail; auto|]. split; [apply clink_repr; by rewrite app_nil_r|].
    split; [set_solver|]. apply clink_frame. set_solver.
  - exists (clink h (l1 ++ [x]) e l2 m). split; [by apply cq_insert_after; auto|].
    replace (l1 ++ x :: e :: l2) with ((l1 ++ [x]) ++ e :: l2) by (by rewrite <- app_assoc).
    split; [apply clink_repr; by rewrite <- app_assoc|]. split; [set_solver|]. apply clink_frame. set_solver.
  - exists (clink h l1 e (x :: l2) m). split; [by apply cq_insert_before; auto|]. split; [by apply clink_repr|].
    split; [set_solver|]. apply clink_frame. set_solver.
  - exists (cunlink h l1 l2 m). split; [by apply cq_remove|]. split; [by eapply cunlink_repr|].
    split; [set_solver|]. apply cunlink_frame. set_solver.
Qed.

Lemma crun_refines h E ops : forall m l l',
  crepr m h l -> (forall e, e ∈ l -> e ∈ E) -> (forall e, e ∈ E -> callocated m e) -> csteps E l ops l' ->
  exists m', crun_ops h ops m = Some m' /\ crepr m' h l' /\ cframe h E m m'.
Proof.
  induction ops as [|op ops IH]; intros m l l' Hr Hl Ha Hs; inversion Hs as [|? ? l1 ? H1 H2]; subst.
  - exists m. split; [done|]. by split.
  - destruct (cexec_refines _ _ _ _ _ _ Hr Hl Ha H1) as (m1 & E1 & R1 & L1 & F1 & G1).
    destruct (IH m1 l1 l' R1 L1) as (m2 & E2 & R2 & F2 & G2); [by auto|done|].
    exists m2. simpl. rewrite E1. split; [done|]. split; [done|]. split; [auto|].
    intros o Ho He. destruct (G1 o Ho He) as [<- <-]. by apply G2.
Qed.

(** C38: The macros of circular queues implement sequences: from any contents of the memory,
    after [CIRCLEQ_INIT] and any sequence of insertions of allocated elements that are
    not in the queue (before or after an element that is) and removals of elements that
    are in it, no macro has followed a word that is not allocated, the traversals in both
    directions and the access macros show the sequence that the operations yield, the
    [LOOP] macros go round it, and the words of all other objects are unchanged. *)
Theorem circleq_refines (h : nat) (E : gset nat) (ops : list cop) (m : cmem) (l : list nat) :
  is_Some (first m !! Head h) -> is_Some (second m !! Head h) -> (forall e, e ∈ E -> callocated m e) ->
  csteps E [] ops l ->
  exists m', (m ← CIRCLEQ_INIT h m; crun_ops h ops m) = Some m' /\ cobserved m' h l /\ cframe h E m m'.
Proof.
  intros [v1 H1] [v2 H2] Ha Hs. unfold CIRCLEQ_INIT. run.
  set (m1 := Mem _ _). assert (crepr m1 h []) as Hr.
  { split; [constructor|..]; intros l1 l2 El; symmetry in El; apply app_nil in El as [-> ->];
      rewrite last_obj_nil; simpl; by rewrite lookup_insert_eq. }
  assert (cframe h E m m1) as [F1 G1].
  { destruct m as [s1 s2]. apply cframe_mem; simpl; [by intros; apply insert_is_Some..|].
    intros o Ho _. by rewrite !lookup_insert_ne by congruence. }
  destruct (crun_refines h E ops m1 [] l Hr) as (m2 & E2 & R2 & F2 & G2); [by intros e He%not_elem_of_nil|by auto|done|].
  exists m2. split; [done|]. split; [by apply crepr_observed|]. split; [auto|].
  intros o Ho He. destruct (G1 o Ho He) as [<- <-]. by apply G2.
Qed.

Lemma circleq_refines_witness :
  let m := Mem (list_to_map ((fun o => (o, Elem 9)) <$> [Head 0; Elem 1; Elem 2; Elem 3]))
               (list_to_map ((fun o => (o, Elem 9)) <$> [Head 0; Elem 1; Elem 2; Elem 3])) in
  exists m', (m ← CIRCLEQ_INIT 0 m; crun_ops 0 [CInsertTail 1; CInsertHead 2; CInsertAfter 2 3; CRemove 1] m) = Some m' /\
    CIRCLEQ_FOREACH 0 m' = Some [Elem 2; Elem 3] /\ CIRCLEQ_LOOP_NEXT 0 3 m' = Some (Elem 2).
Proof.
  intros m. destruct (circleq_refines 0 {[1; 2; 3]}%nat [CInsertTail 1; CInsertHead 2; CInsertAfter 2 3; CRemove 1] m [2; 3]%nat)
    as (m' & E & Ho & _).
  - vm_compute. eauto.
  - vm_compute. eauto.
  - intros e He. assert (e = 1 \/ e = 2 \/ e = 3)%nat as [->|[->| ->]] by set_solver; split; vm_compute; eauto.
  - eapply CQ_cons; [apply (C_insert_tail _ []); set_solver|]. eapply CQ_cons; [apply C_insert_head; set_solver|].
    eapply CQ_cons; [apply (C_insert_after _ [] 2 [1] 3)%nat; set_solver|].
    eapply CQ_cons; [apply (C_remove _ [2; 3] 1 [])%nat|]. apply CQ_nil.
  - exists m'. split; [exact E|]. split; [apply Ho|]. apply (co_loop_next m' 0 [2; 3]%nat Ho [2]%nat 3 []). done.
Defined.
End CircleQ.
