(* ===== verification/ZhCheck.v ===== *)
(** * Comment stripper: [item/check_zh_cn/zh_str_check.c]

    The tool reads a C, Lua or Python file, blanks its comments in place and reports
    whether a byte outside ASCII is left.  The buffer is a memory of [cap] cells,
    of which the file fills the first [size]; every read and every [memset] is
    checked against [cap], and [None] is an access outside the buffer.  Characters
    are signed ([-128] to [127]), as the code relies on.

    The C and the Lua version run one loop over two tables of functions; they are
    proved equal to a stripper that works token by token on the text.  For all
    three versions: they end, and a byte of the result is the byte of the file or a
    blank. *)
From S2P Require Import Prelude Inet.

(** [enum ReturnCode] *)
Inductive ReturnCode := SUCEESS | ARGC_ERR | FILE_NAME_ERR | FILE_TYPE_ERR | INCLUDE_ZH_ERR.

Definition BUFF_LEN : Z := 10000.
Definition HEX_BYTE_EF : Z := -17.
Definition HEX_BYTE_BB : Z := -69.
Definition HEX_BYTE_BF : Z := -65.

(** Characters. *)
Definition c_squote : Z := 39.
Definition c_dquote : Z := 34.
Definition c_slash : Z := 47.
Definition c_star : Z := 42.
Definition c_nl : Z := 10.
Definition c_cr : Z := 13.
Definition c_bslash : Z := 92.
Definition c_minus : Z := 45.
Definition c_lbracket : Z := 91.
Definition c_rbracket : Z := 93.
Definition c_hash : Z := 35.
Definition c_equal : Z := 61.
Definition c_space : Z := 32.

(** ** Memory *)

Definition mem := Z -> Z.

Section Memory.
Variable cap : Z.

(** [*p] *)
Definition rd (m : mem) (i : Z) : option Z := if (0 <=? i) && (i <? cap) then Some (m i) else None.

(** [memset(a, ' ', b - a)] *)
Definition blank (a b : Z) (m : mem) : mem := fun i => if (a <=? i) && (i <? b) then c_space else m i.

Definition memset (a b : Z) (m : mem) : option mem :=
  if (0 <=? a) && (a <=? b) && (b <=? cap) then Some (blank a b m) else None.

(** ** C and Lua *)

(** [AnnotationFlag]: the pointers, as indices. *)
Record AnnotationFlag := Flag {
  single_quote : option Z; double_quote : option Z; line_annotation : option Z; block_annotation : option Z }.

Definition flag0 : AnnotationFlag := Flag None None None None.

Definition set (o : option Z) : bool := bool_decide (o <> None).

(** A function of the tables: the increment of [p], the memory, the flags. *)
Definition proc := Z -> mem -> AnnotationFlag -> option (Z * mem * AnnotationFlag).

(** [slash_is_single]: the backslashes from [iter] down, none before the buffer. *)
Fixpoint count_back (fuel : nat) (m : mem) (iter : Z) : option Z :=
  c ← rd m iter;
  if c =? c_bslash then
    match fuel with O => None | S f => (fun k => k + 1) <$> count_back f m (iter - 1) end
  else Some 0.

Definition slash_is_single (m : mem) (ptr : Z) : option bool :=
  (fun cnt => cnt mod 2 =? 1) <$> count_back (Z.to_nat (ptr + 1)) m ptr.

Definition single_quote_proc : proc := fun offset m f =>
  if set (double_quote f) || set (line_annotation f) || set (block_annotation f) then Some (1, m, f)
  else
    match single_quote f with
    | None => Some (1, m, Flag (Some offset) (double_quote f) (line_annotation f) (block_annotation f))
    | Some q =>
        let close := Some (1, m, Flag None (double_quote f) (line_annotation f) (block_annotation f)) in
        if offset - q =? 2 then
          c ← rd m (q + 1);
          if c =? c_bslash then Some (1, m, f) else close
        else close
    end.

Definition double_quote_proc : proc := fun offset m f =>
  if set (single_quote f) || set (line_annotation f) || set (block_annotation f) then Some (1, m, f)
  else
    match double_quote f with
    | None => Some (1, m, Flag (single_quote f) (Some offset) (line_annotation f) (block_annotation f))
    | Some _ =>
        single ← slash_is_single m (offset - 1);
        if (single : bool) then Some (1, m, f)
        else Some (1, m, Flag (single_quote f) None (line_annotation f) (block_annotation f))
    end.

Definition c_slash_proc : proc := fun offset m f =>
  if set (single_quote f) || set (double_quote f) || set (line_annotation f) || set (block_annotation f)
  then Some (1, m, f)
  else
    c ← rd m (offset + 1);
    if c =? c_slash then Some (2, m, Flag (single_quote f) (double_quote f) (Some offset) (block_annotation f))
    else if c =? c_star then Some (2, m, Flag (single_quote f) (double_quote f) (line_annotation f) (Some offset))
    else Some (1, m, f).

Definition c_star_proc : proc := fun offset m f =>
  if set (single_quote f) || set (double_quote f) || set (line_annotation f) then Some (1, m, f)
  else
    match block_annotation f with
    | None => Some (1, m, f)
    | Some b =>
        c ← rd m (offset + 1);
        if negb (c =? c_slash) then Some (1, m, f)
        else
          m' ← memset b (offset + 2) m;
          Some (2, m', Flag (single_quote f) (double_quote f) (line_annotation f) None)
    end.

Definition end_proc : proc := fun offset m f =>
  match line_annotation f with
  | None => Some (1, m, f)
  | Some a =>
      c ← rd m (offset - 1);
      m' ← memset a (if c =? c_cr then offset - 1 else offset) m;
      Some (1, m', Flag (single_quote f) (double_quote f) None (block_annotation f))
  end.

Definition sub_proc : proc := fun offset m f =>
  if set (single_quote f) || set (double_quote f) || set (line_annotation f) || set (block_annotation f)
  then Some (1, m, f)
  else
    c1 ← rd m (offset + 1);
    if c1 =? c_minus then
      c2 ← rd m (offset + 2);
      block ← (if c2 =? c_lbracket then c3 ← rd m (offset + 3); Some (c3 =? c_lbracket) else Some false);
      if (block : bool)
      then Some (4, m, Flag (single_quote f) (double_quote f) (line_annotation f) (Some offset))
      else Some (2, m, Flag (single_quote f) (double_quote f) (Some offset) (block_annotation f))
    else Some (1, m, f).

Definition close_bracket_proc : proc := fun offset m f =>
  if set (line_annotation f) then Some (1, m, f)
  else
    match block_annotation f with
    | None => Some (1, m, f)
    | Some b =>
        c ← rd m (offset + 1);
        if c =? c_rbracket then
          m' ← memset b (offset + 2) m;
          Some (2, m', Flag (single_quote f) (double_quote f) (line_annotation f) None)
        else Some (1, m, f)
    end.

Definition FuncMap := list (Z * proc).

Definition cFuncMap : FuncMap :=
  [(c_squote, single_quote_proc); (c_dquote, double_quote_proc); (c_slash, c_slash_proc);
   (c_star, c_star_proc); (c_nl, end_proc)].

Definition luaFuncMap : FuncMap :=
  [(c_squote, single_quote_proc); (c_dquote, double_quote_proc); (c_minus, sub_proc);
   (c_rbracket, close_bracket_proc); (c_nl, end_proc)].

Fixpoint find_proc_func (ch : Z) (funcMap : FuncMap) : option proc :=
  match funcMap with
  | [] => None
  | (c, f) :: funcMap' => if ch =? c then Some f else find_proc_func ch funcMap'
  end.

(** The loop: [None] is an access outside the buffer (or too little fuel). *)
Fixpoint annotation_loop (funcMap : FuncMap) (fuel : nat) (size p : Z) (m : mem) (f : AnnotationFlag)
    : option (Z * mem * AnnotationFlag) :=
  if p <? size then
    match fuel with
    | O => None
    | S fuel' =>
        c ← rd m p;
        match find_proc_func c funcMap with
        | Some proc_func =>
            '(k, m, f) ← proc_func p m f;
            annotation_loop funcMap fuel' size (p + k) m f
        | None => annotation_loop funcMap fuel' size (p + 1) m f
        end
    end
  else Some (p, m, f).

Definition remove_annotation (funcMap : FuncMap) (m : mem) (size : Z) : option mem :=
  '(p, m, f) ← annotation_loop funcMap (Z.to_nat size) size 0 m flag0;
  match line_annotation f with
  | Some a => memset a p m
  | None => Some m
  end.

Definition remove_c_annotation (m : mem) (size : Z) : option mem := remove_annotation cFuncMap m size.
Definition remove_lua_annotation (m : mem) (size : Z) : option mem := remove_annotation luaFuncMap m size.

(** ** Python *)

Record PythonProcArgu := PyArgu {
  py_single : option Z; py_double : option Z; py_line : option Z;
  py_three_single : option Z; py_three_double : option Z }.

Definition py0 : PythonProcArgu := PyArgu None None None None None.

Definition isspace (c : Z) : bool := (c =? 32) || ((9 <=? c) && (c <=? 13)).

(** [isAssign] *)
Fixpoint assign_back (fuel : nat) (m : mem) (iter : Z) : option bool :=
  c ← rd m iter;
  if isspace c then match fuel with O => None | S f => assign_back f m (iter - 1) end
  else Some (c =? c_equal).

Definition isAssign (m : mem) (iter : Z) : option bool := assign_back (Z.to_nat (iter + 1)) m iter.

(** [single_double_quote_proc], with the two pointers it updates. *)
Definition single_double_quote_proc (offset : Z) (m : mem) (one three : option Z)
    : option (Z * mem * option Z * option Z) :=
  c ← rd m offset;
  c1 ← rd m (offset + 1);
  is3 ← (if c1 =? c then c2 ← rd m (offset + 2); Some (c2 =? c) else Some false);
  if (is3 : bool) then
    match three with
    | None => Some (3, m, one, Some offset)
    | Some q =>
        a ← isAssign m (q - 1);
        if negb (a : bool) then
          m' ← memset q (offset + 3) m;
          Some (3, m', one, None)
        else Some (3, m, one, three)
    end
  else
    match one with
    | None => Some (1, m, Some offset, three)
    | Some _ =>
        b ← rd m (offset - 1);
        if negb (b =? c_bslash) then Some (1, m, None, three) else Some (1, m, one, three)
    end.

Definition py_quote_proc (offset : Z) (m : mem) (f : PythonProcArgu) : option (Z * mem * PythonProcArgu) :=
  c ← rd m offset;
  if c =? c_dquote then
    if set (py_line f) || set (py_single f) || set (py_three_single f) then Some (1, m, f)
    else
      '(k, m, one, three) ← single_double_quote_proc offset m (py_double f) (py_three_double f);
      Some (k, m, PyArgu (py_single f) one (py_line f) (py_three_single f) three)
  else if c =? c_squote then
    if set (py_line f) || set (py_double f) || set (py_three_double f) then Some (1, m, f)
    else
      '(k, m, one, three) ← single_double_quote_proc offset m (py_single f) (py_three_single f);
      Some (k, m, PyArgu one (py_double f) (py_line f) three (py_three_double f))
  else Some (1, m, f).

(** One turn of the loop. *)
Definition py_step (p : Z) (m : mem) (f : PythonProcArgu) : option (Z * mem * PythonProcArgu) :=
  c ← rd m p;
  if (c =? c_squote) || (c =? c_dquote) then py_quote_proc p m f
  else if c =? c_hash then
    if set (py_single f) || set (py_double f) || set (py_three_single f) || set (py_three_double f) || set (py_line f)
    then Some (1, m, f)
    else Some (1, m, PyArgu (py_single f) (py_double f) (Some p) (py_three_single f) (py_three_double f))
  else if c =? c_nl then
    match py_line f with
    | None => Some (1, m, f)
    | Some a =>
        b ← rd m (p - 1);
        m' ← memset a (if b =? c_cr then p - 1 else p) m;
        Some (1, m', PyArgu (py_single f) (py_double f) None (py_three_single f) (py_three_double f))
    end
  else Some (1, m, f).

Fixpoint py_loop (fuel : nat) (size p : Z) (m : mem) (f : PythonProcArgu) : option (Z * mem * PythonProcArgu) :=
  if p <? size then
    match fuel with
    | O => None
    | S fuel' => '(k, m, f) ← py_step p m f; py_loop fuel' size (p + k) m f
    end
  else Some (p, m, f).

Definition remove_python_annotation (m : mem) (size : Z) : option mem :=
  '(p, m, f) ← py_loop (Z.to_nat size) size 0 m py0;
  match py_line f with
  | Some a => memset a p m
  | None => Some m
  end.

(** ** The check *)

(** The loop of [check_zh_cn]: where the first negative character is. *)
Fixpoint zh_loop (fuel : nat) (m : mem) (i len : Z) : option (option Z) :=
  if i <? len then
    match fuel with
    | O => None
    | S f => c ← rd m i; if c <? 0 then Some (Some i) else zh_loop f m (i + 1) len
    end
  else Some None.

(** What [%s] prints from [i] on: up to the NUL. *)
Fixpoint cstring (fuel : nat) (m : mem) (i : Z) : option (list Z) :=
  c ← rd m i;
  if c =? 0 then Some []
  else match fuel with O => None | S f => cons c <$> cstring f m (i + 1) end.

(** [check_zh_cn]: the code and the text printed behind [zh_cn str:]. *)
Definition check_zh_cn (m : mem) (len : Z) : option (ReturnCode * list Z) :=
  bom ← (if len >? 3 then
           c0 ← rd m 0;
           if negb (c0 =? HEX_BYTE_EF) then Some false
           else c1 ← rd m 1;
                if negb (c1 =? HEX_BYTE_BB) then Some false
                else c2 ← rd m 2; Some (c2 =? HEX_BYTE_BF)
         else Some false);
  at_ ← zh_loop (Z.to_nat len) m (if (bom : bool) then 3 else 0) len;
  match at_ with
  | Some i =>
      let m := if len - i >? 20 then fun j => if j =? i + 20 then 0 else m j else m in
      text ← cstring (Z.to_nat (cap - i)) m i;
      Some (INCLUDE_ZH_ERR, text)
  | None => Some (SUCEESS, [])
  end.

Definition str_is (a : list Z) (s : string) : bool := bool_decide (a = codes s).

(** What [fread] leaves in the buffer. *)
Definition fread (file : list Z) (m : mem) : mem :=
  fun i => if 0 <=? i then default (m i) (file !! Z.to_nat i) else m i.

Definition remove_anno_and_check (m : mem) (bufSize : Z) (file filetype : list Z) : option ReturnCode :=
  let text := take (Z.to_nat bufSize) file in
  let m := fread text m in
  let read_len := Z.of_nat (length text) in
  let check m := fst <$> check_zh_cn m read_len in
  if str_is filetype "cpp" then remove_c_annotation m read_len ≫= check
  else if str_is filetype "lua" then remove_lua_annotation m read_len ≫= check
  else if str_is filetype "python" then remove_python_annotation m read_len ≫= check
  else Some FILE_TYPE_ERR.

End Memory.

(** [main], with the file's contents if it can be opened; [stack] and [fresh] are
    what the buffer on the stack or from [malloc] holds before. *)
Definition main (stack fresh : mem) (args : list (list Z)) (fopen : list Z -> option (list Z))
    : option ReturnCode :=
  match args with
  | _ :: filename :: filetype :: _ =>
      match fopen filename with
      | None => Some FILE_NAME_ERR
      | Some file =>
          let fileSize := Z.of_nat (length file) in
          if fileSize <? BUFF_LEN
          then remove_anno_and_check BUFF_LEN stack fileSize file filetype
          else remove_anno_and_check fileSize fresh fileSize file filetype
      end
  | _ => Some ARGC_ERR
  end.

(** ** The reference: a stripper of tokens *)

(** The rest of a string literal, with its closing quote; [esc] if an odd number of
    backslashes is before. *)
Fixpoint string_lit (esc : bool) (s : list Z) : list Z * list Z :=
  match s with
  | [] => ([], [])
  | c :: r =>
      if (c =? c_dquote) && negb esc then ([c], r)
      else let '(a, b) := string_lit (if c =? c_bslash then negb esc else false) r in (c :: a, b)
  end.

(** Up to the next single quote. *)
Fixpoint to_squote (s : list Z) : list Z * list Z :=
  match s with
  | [] => ([], [])
  | c :: r => if c =? c_squote then ([c], r) else let '(a, b) := to_squote r in (c :: a, b)
  end.

(** The rest of a character literal: a quote behind a first backslash does not end it. *)
Definition char_lit (s : list Z) : list Z * list Z :=
  match s with
  | c1 :: c2 :: r =>
      if (c1 =? c_bslash) && (c2 =? c_squote) then let '(a, b) := to_squote r in (c1 :: c2 :: a, b)
      else to_squote s
  | _ => to_squote s
  end.

(** The rest of a line. *)
Fixpoint line_rest (s : list Z) : list Z * list Z :=
  match s with
  | [] => ([], [])
  | c :: r => if c =? c_nl then ([], s) else let '(a, b) := line_rest r in (c :: a, b)
  end.

(** The rest of a block comment, with the two characters that close it. *)
Fixpoint block_rest (k1 k2 : Z) (s : list Z) : option (list Z * list Z) :=
  match s with
  | c :: ((c' :: r) as s') =>
      if (c =? k1) && (c' =? k2) then Some ([c; c'], r)
      else match block_rest k1 k2 s' with Some (a, b) => Some (c :: a, b) | None => None end
  | _ => None
  end.

Definition blanks (n : nat) : list Z := replicate n c_space.

(** A line comment is blanked, but not a carriage return before the newline. *)
Definition blank_line (t : list Z) (at_end : bool) : list Z :=
  if negb at_end && (default 0 (last t) =? c_cr) then blanks (length t - 1) ++ [c_cr] else blanks (length t).

(** A language: whether a comment opens (a block or a line comment) and with how
    many characters, and the two characters that close a block comment. *)
Record language := Lang { opens : list Z -> option (bool * nat); close1 : Z; close2 : Z }.

Fixpoint strip (L : language) (fuel : nat) (s : list Z) : list Z :=
  match fuel, s with
  | S f, c :: r =>
      if c =? c_dquote then let '(a, b) := string_lit false r in c :: a ++ strip L f b
      else if c =? c_squote then let '(a, b) := char_lit r in c :: a ++ strip L f b
      else
        match opens L s with
        | Some (false, n) =>
            let '(a, b) := line_rest (drop n s) in
            blank_line (take n s ++ a) (bool_decide (b = [])) ++ strip L f b
        | Some (true, n) =>
            match block_rest (close1 L) (close2 L) (drop n s) with
            | Some (a, b) => blanks (n + length a) ++ strip L f b
            | None => s
            end
        | None => c :: strip L f r
        end
  | _, _ => []
  end.

Definition strip_comments (L : language) (s : list Z) : list Z := strip L (length s) s.

Definition lang_c : language :=
  Lang (fun s => match s with
                 | c1 :: c2 :: _ =>
                     if c1 =? c_slash then
                       if c2 =? c_slash then Some (false, 2%nat)
                       else if c2 =? c_star then Some (true, 2%nat) else None
                     else None
                 | _ => None
                 end) c_star c_slash.

Definition lang_lua : language :=
  Lang (fun s => match s with
                 | c1 :: c2 :: r =>
                     if (c1 =? c_minus) && (c2 =? c_minus) then
                       match r with
                       | c3 :: c4 :: _ =>
                           if (c3 =? c_lbracket) && (c4 =? c_lbracket) then Some (true, 4%nat) else Some (false, 2%nat)
                       | _ => Some (false, 2%nat)
                       end
                     else None
                 | _ => None
                 end) c_rbracket c_rbracket.

Example strip_c1 :
  strip_comments lang_c (codes "a/*x*/b//c") = codes "a     b   ".
Proof. vm_compute. reflexivity. Qed.

(** ** Text in memory *)

Fixpoint text (m : mem) (p : Z) (s : list Z) : Prop :=
  match s with [] => True | c :: r => m p = c /\ text m (p + 1) r end.

Lemma text_app m p a b : text m p (a ++ b) <-> text m p a /\ text m (p + Z.of_nat (length a)) b.
Proof.
  revert p. induction a as [|c a IH]; intros p; simpl.
  - rewrite Z.add_0_r. tauto.
  - rewrite IH. replace (p + 1 + Z.of_nat (length a)) with (p + Z.of_nat (S (length a))) by lia. tauto.
Qed.

Lemma text_ext m m' p s :
  (forall i, p <= i < p + Z.of_nat (length s) -> m' i = m i) -> text m p s -> text m' p s.
Proof.
  revert p. induction s as [|c s IH]; intros p Hi; simpl in *; [done|]. intros [H1 H2]. split.
  - rewrite Hi by lia. done.
  - apply IH; [|done]. intros i Hr. apply Hi. lia.
Qed.

Lemma text_blanks m p n : (forall i, p <= i < p + Z.of_nat n -> m i = c_space) -> text m p (blanks n).
Proof.
  revert p. induction n as [|n IH]; intros p Hi; simpl; [done|]. split; [apply Hi; lia|]. apply IH. intros. apply Hi. lia.
Qed.

Lemma blank_in a b m i : a <= i < b -> blank a b m i = c_space.
Proof. intros. unfold blank. by replace ((a <=? i) && (i <? b)) with true by lia. Qed.

Lemma blank_out a b m i : i < a \/ b <= i -> blank a b m i = m i.
Proof. intros. unfold blank. by replace ((a <=? i) && (i <? b)) with false by lia. Qed.

Lemma memset_ok cap a b m : 0 <= a <= b -> b <= cap -> memset cap a b m = Some (blank a b m).
Proof. intros. unfold memset. by replace ((0 <=? a) && (a <=? b) && (b <=? cap)) with true by lia. Qed.

Lemma rd_ok cap m i : 0 <= i < cap -> rd cap m i = Some (m i).
Proof. intros. unfold rd. by replace ((0 <=? i) && (i <? cap)) with true by lia. Qed.

(** ** The states of the loop: at most one pointer is set. *)

Definition InS (o : Z) : AnnotationFlag := Flag (Some o) None None None.
Definition InD (o : Z) : AnnotationFlag := Flag None (Some o) None None.
Definition InL (o : Z) : AnnotationFlag := Flag None None (Some o) None.
Definition InB (o : Z) : AnnotationFlag := Flag None None None (Some o).

Section Equivalence.
Variables cap size : Z.
Variable funcMap : FuncMap.

(** One turn of the loop. *)
Definition step (p : Z) (m : mem) (f : AnnotationFlag) : option (Z * mem * AnnotationFlag) :=
  match find_proc_func (m p) funcMap with
  | Some g => g p m f
  | None => Some (1, m, f)
  end.

(** The loop from [p] on and what follows it. *)
Definition run (fuel : nat) (p : Z) (m : mem) (f : AnnotationFlag) : option mem :=
  '(p, m, f) ← annotation_loop cap funcMap fuel size p m f;
  match line_annotation f with
  | Some a => memset cap a p m
  | None => Some m
  end.

Lemma run_step fuel p m f k m' f' :
  0 <= p < size -> size <= cap -> step p m f = Some (k, m', f') -> run (S fuel) p m f = run fuel (p + k) m' f'.
Proof.
  intros Hp Hc Hs. unfold run, step in *. cbn [annotation_loop].
  replace (p <? size) with true by lia. rewrite rd_ok by lia. simpl.
  destruct (find_proc_func (m p) funcMap) as [g|]; [by rewrite Hs|by injection Hs as <- <- <-].
Qed.

Lemma run_end fuel m f : run fuel size m f = match line_annotation f with Some a => memset cap a size m | None => Some m end.
Proof. unfold run. destruct fuel; simpl; by rewrite Z.ltb_irrefl. Qed.

(** At the end, outside a line comment, nothing is left to do. *)
Lemma run_done fuel fuel' p p' m f f' :
  p = size -> p' = size -> line_annotation f = None -> line_annotation f' = None ->
  run fuel p m f = run fuel' p' m f'.
Proof. intros -> -> Hf Hf'. rewrite !run_end. by rewrite Hf, Hf'. Qed.

Variable L : language.

(** What a table promises of its language: the quotes and the newline have their
    functions, the others do nothing inside a literal or a line comment, close
    block comments and open comments as the language says. *)
Class Implements : Prop := {
  imp_squote : find_proc_func c_squote funcMap = Some (single_quote_proc cap);
  imp_dquote : find_proc_func c_dquote funcMap = Some (double_quote_proc cap);
  imp_nl : find_proc_func c_nl funcMap = Some (end_proc cap);
  imp_quiet c g p m f : c <> c_squote -> c <> c_dquote -> c <> c_nl ->
    find_proc_func c funcMap = Some g -> (exists o, f = InS o \/ f = InD o \/ f = InL o) ->
    g p m f = Some (1, m, f);
  imp_close : close2 L <> 0 /\ close1 L <> c_squote /\ close1 L <> c_dquote /\ close1 L <> c_nl;
  imp_block p m o : 0 <= o <= p -> p + 1 < cap -> m p <> c_squote -> m p <> c_dquote -> m p <> c_nl ->
    step p m (InB o) =
      if (m p =? close1 L) && (m (p + 1) =? close2 L)
      then r ← memset cap o (p + 2) m; Some (2, r, flag0) else Some (1, m, InB o);
  imp_code c r p m : text m p (c :: r) -> 0 <= p -> p + Z.of_nat (length (c :: r)) < cap ->
    m (p + Z.of_nat (length (c :: r))) = 0 -> c <> c_squote -> c <> c_dquote ->
    match opens L (c :: r) with
    | Some (b, n) => step p m flag0 = Some (Z.of_nat n, m, if b then InB p else InL p) /\
                     (2 <= n <= length (c :: r))%nat /\ Forall (fun x => x <> c_nl) (take n (c :: r))
    | None => step p m flag0 = Some (1, m, flag0)
    end }.

Context `{Implements}.
Hypothesis Hcap : size < cap.

(** Inside a literal or a line comment most characters are passed over. *)
Lemma step_quiet p m f :
  (exists o, f = InS o \/ f = InD o \/ f = InL o) -> m p <> c_squote -> m p <> c_dquote -> m p <> c_nl ->
  step p m f = Some (1, m, f).
Proof.
  intros Hf H1 H2 H3. unfold step. destruct (find_proc_func (m p) funcMap) as [g|] eqn:E; [|done].
  by eapply imp_quiet.
Qed.

Lemma step_nl p m f : m p = c_nl -> step p m f = end_proc cap p m f.
Proof. intros E. unfold step. by rewrite E, imp_nl. Qed.
Lemma step_squote p m f : m p = c_squote -> step p m f = single_quote_proc cap p m f.
Proof. intros E. unfold step. by rewrite E, imp_squote. Qed.
Lemma step_dquote p m f : m p = c_dquote -> step p m f = double_quote_proc cap p m f.
Proof. intros E. unfold step. by rewrite E, imp_dquote. Qed.

(** A character other than a newline in a line comment. *)
Lemma step_line p m o : m p <> c_nl -> step p m (InL o) = Some (1, m, InL o).
Proof.
  intros Hn. destruct (decide (m p = c_squote)) as [E|E]; [by rewrite step_squote|].
  destruct (decide (m p = c_dquote)) as [E'|E']; [by rewrite step_dquote|].
  apply step_quiet; [|done..]. exists o. auto.
Qed.

Lemma run_line s : forall fuel p m o a b,
  line_rest s = (a, b) -> text m p s -> p + Z.of_nat (length s) = size -> 0 <= o < p -> (length s <= fuel)%nat ->
  match b with
  | [] => run fuel p m (InL o) = Some (blank o size m) /\ a = s
  | c :: b' => c = c_nl /\ s = a ++ b /\ exists fuel', (length b' <= fuel')%nat /\
      run fuel p m (InL o) =
      run fuel' (p + Z.of_nat (length a) + 1)
        (blank o (if m (p + Z.of_nat (length a) - 1) =? c_cr then p + Z.of_nat (length a) - 1
                  else p + Z.of_nat (length a)) m) flag0
  end.
Proof.
  induction s as [|c s IH]; intros fuel p m o a b Hr Ht Hp Ho Hf; simpl in *.
  - injection Hr as <- <-. replace p with size by lia. rewrite run_end. simpl. split; [|done]. apply memset_ok; lia.
  - destruct Ht as [Hc Ht]. destruct fuel as [|fuel]; [lia|]. destruct (Z.eqb_spec c c_nl) as [E|E].
    + injection Hr as <- <-. subst c. split; [done|]. split; [done|]. exists fuel. split; [lia|]. simpl.
      rewrite Z.add_0_r. apply run_step; [lia|lia|]. rewrite step_nl by done. unfold end_proc. simpl.
      rewrite rd_ok by lia. simpl. rewrite memset_ok; [done|..]; destruct (_ =? _); lia.
    + destruct (line_rest s) as [a' b'] eqn:Es. injection Hr as <- <-.
      rewrite (run_step _ _ _ _ 1 m (InL o)) by (lia || (apply step_line; congruence)).
      specialize (IH fuel (p + 1) m o a' b' eq_refl Ht ltac:(lia) ltac:(lia) ltac:(lia)).
      destruct b' as [|c' b']; [destruct IH as [-> ->]; done|].
      destruct IH as (-> & -> & fuel' & Hf' & ->). split; [done|]. split; [done|]. exists fuel'. split; [done|].
      simpl length. by replace (p + Z.of_nat (S (length a'))) with (p + 1 + Z.of_nat (length a')) by lia.
Qed.

Lemma run_block s : forall fuel p m o,
  text m p s -> p + Z.of_nat (length s) = size -> m size = 0 -> 0 <= o <= p -> (length s <= fuel)%nat ->
  match block_rest (close1 L) (close2 L) s with
  | None => run fuel p m (InB o) = Some m
  | Some (a, b) => s = a ++ b /\ exists fuel', (length b <= fuel')%nat /\
      run fuel p m (InB o) = run fuel' (p + Z.of_nat (length a)) (blank o (p + Z.of_nat (length a)) m) flag0
  end.
Proof.
  destruct imp_close as (K0 & K1 & K2 & K3).
  induction s as [|c s IH]; intros fuel p m o Ht Hp H0 Ho Hf; simpl in *.
  - replace p with size by lia. by rewrite run_end.
  - destruct Ht as [Hc Ht]. destruct fuel as [|fuel]; [lia|].
    assert (Hnext : step p m (InB o) = Some (1, m, InB o) ->
      match block_rest (close1 L) (close2 L) s with
      | None => run (S fuel) p m (InB o) = Some m
      | Some (a, b) => c :: s = (c :: a) ++ b /\ exists fuel', (length b <= fuel')%nat /\
          run (S fuel) p m (InB o) = run fuel' (p + Z.of_nat (length (c :: a))) (blank o (p + Z.of_nat (length (c :: a))) m) flag0
      end).
    { intros Hs. rewrite (run_step _ _ _ _ 1 m (InB o)) by (lia || done).
      specialize (IH fuel (p + 1) m o Ht ltac:(lia) H0 ltac:(lia) ltac:(lia)).
      destruct (block_rest _ _ s) as [[a b]|]; [|done]. destruct IH as (-> & fuel' & Hf' & E).
      split; [done|]. exists fuel'. split; [done|]. rewrite E. simpl length.
      by replace (p + Z.of_nat (S (length a))) with (p + 1 + Z.of_nat (length a)) by lia. }
    assert (Hstep : (m p =? close1 L) && (m (p + 1) =? close2 L) = false -> step p m (InB o) = Some (1, m, InB o)).
    { intros Hn. destruct (decide (m p = c_squote)) as [E|E]; [by rewrite step_squote|].
      destruct (decide (m p = c_dquote)) as [E'|E']; [by rewrite step_dquote|].
      destruct (decide (m p = c_nl)) as [E''|E'']; [by rewrite step_nl|].
      rewrite imp_block by (done || lia). by rewrite Hn. }
    destruct s as [|c' s].
    + simpl in *. apply Hnext, Hstep. replace (p + 1) with size by lia. rewrite H0. lia.
    + simpl in Ht. destruct Ht as [Hc' Ht]. destruct ((c =? close1 L) && (c' =? close2 L)) eqn:Ek.
      * split; [done|]. exists fuel. simpl in *. split; [lia|].
        apply andb_true_iff in Ek as [Ek1 Ek2]. apply Z.eqb_eq in Ek1, Ek2.
        replace (p + 2) with (p + 2) by done. apply run_step; [lia|lia|].
        rewrite imp_block; [|lia|lia|congruence..]. rewrite Hc, Hc', Ek1, Ek2, !Z.eqb_refl. simpl.
        by rewrite memset_ok by lia.
      * assert (step p m (InB o) = Some (1, m, InB o)) as Hs by (apply Hstep; by rewrite Hc, Hc').
        specialize (Hnext Hs). by destruct (block_rest _ _ (c' :: s)) as [[a b]|].
Qed.

(** The parity of the backslashes before a character. *)
Lemma slash_step m p :
  0 < p < cap -> slash_is_single cap m p =
    if m p =? c_bslash then negb <$> slash_is_single cap m (p - 1) else Some false.
Proof.
  intros Hp. unfold slash_is_single. replace (Z.to_nat (p + 1)) with (S (Z.to_nat p)) by lia. cbn [count_back].
  rewrite rd_ok by lia. simpl. destruct (m p =? c_bslash); [|done].
  replace (p - 1 + 1) with p by lia. destruct (count_back cap (Z.to_nat p) m (p - 1)) as [k|]; [|done]. simpl. f_equal.
  rewrite <- Zplus_mod_idemp_l. pose proof (Z.mod_pos_bound k 2 ltac:(lia)).
  assert (k mod 2 = 0 \/ k mod 2 = 1) as [-> | ->] by lia; done.
Qed.

Lemma slash_first m p : 0 <= p < cap -> m p = c_dquote -> slash_is_single cap m p = Some false.
Proof.
  intros Hp E. unfold slash_is_single. destruct (Z.to_nat (p + 1)); cbn [count_back]; rewrite rd_ok by lia; simpl; by rewrite E.
Qed.

Lemma run_string s : forall fuel p m o esc a b,
  string_lit esc s = (a, b) -> text m p s -> p + Z.of_nat (length s) = size -> 0 <= o < p ->
  slash_is_single cap m (p - 1) = Some esc -> (length s <= fuel)%nat ->
  s = a ++ b /\ exists fuel', (length b <= fuel')%nat /\
    run fuel p m (InD o) = run fuel' (p + Z.of_nat (length a)) m flag0.
Proof.
  induction s as [|c s IH]; intros fuel p m o esc a b Hr Ht Hp Ho Hesc Hf; simpl in *.
  - injection Hr as <- <-. split; [done|]. exists fuel. split; [done|]. apply run_done; simpl; (done || lia).
  - destruct Ht as [Hc Ht]. destruct fuel as [|fuel]; [lia|].
    destruct ((c =? c_dquote) && negb esc) eqn:Eq.
    + injection Hr as <- <-. apply andb_true_iff in Eq as [Eq He]. apply Z.eqb_eq in Eq. apply negb_true_iff in He. subst esc.
      split; [done|]. exists fuel. split; [lia|]. apply run_step; [lia|lia|]. rewrite step_dquote by congruence.
      unfold double_quote_proc. simpl. by rewrite Hesc.
    + destruct (string_lit _ s) as [a' b'] eqn:Es. injection Hr as <- <-.
      assert (step p m (InD o) = Some (1, m, InD o)) as Hs.
      { destruct (decide (m p = c_dquote)) as [E|E].
        - rewrite step_dquote by done. unfold double_quote_proc. simpl. rewrite Hesc. simpl.
          rewrite <- Hc, E in Eq. simpl in Eq. destruct esc; [done|]. done.
        - destruct (decide (m p = c_squote)) as [E1|E1]; [by rewrite step_squote|].
          destruct (decide (m p = c_nl)) as [E2|E2]; [by rewrite step_nl|]. apply step_quiet; [|done..]. exists o. auto. }
      rewrite (run_step _ _ _ _ 1 m (InD o)) by (lia || done).
      destruct (IH fuel (p + 1) m o _ a' b' Es Ht) as (-> & fuel' & Hf' & ->); [lia|lia| |lia|].
      { replace (p + 1 - 1) with p by lia. rewrite slash_step by lia. rewrite Hesc, Hc. by destruct (c =? c_bslash). }
      split; [done|]. exists fuel'. split; [done|]. simpl length. f_equal. lia.
Qed.

(** A character inside a character literal that is not a quote. *)
Lemma step_char p m o : m p <> c_squote -> step p m (InS o) = Some (1, m, InS o).
Proof.
  intros Hn. destruct (decide (m p = c_dquote)) as [E|E]; [by rewrite step_dquote|].
  destruct (decide (m p = c_nl)) as [E'|E']; [by rewrite step_nl|]. apply step_quiet; [|done..]. exists o. auto.
Qed.

Lemma run_squote s : forall fuel p m o a b,
  to_squote s = (a, b) -> text m p s -> p + Z.of_nat (length s) = size -> 0 <= o < p ->
  (o + 2 < p \/ m (o + 1) <> c_bslash) -> (length s <= fuel)%nat ->
  s = a ++ b /\ exists fuel', (length b <= fuel')%nat /\
    run fuel p m (InS o) = run fuel' (p + Z.of_nat (length a)) m flag0.
Proof.
  induction s as [|c s IH]; intros fuel p m o a b Hr Ht Hp Ho Hq Hf; simpl in *.
  - injection Hr as <- <-. split; [done|]. exists fuel. split; [done|]. apply run_done; simpl; (done || lia).
  - destruct Ht as [Hc Ht]. destruct fuel as [|fuel]; [lia|]. destruct (Z.eqb_spec c c_squote) as [E|E].
    + injection Hr as <- <-. split; [done|]. exists fuel. split; [lia|]. apply run_step; [lia|lia|].
      rewrite step_squote by congruence. unfold single_quote_proc. simpl.
      destruct (Z.eqb_spec (p - o) 2); [|done]. rewrite rd_ok by lia. simpl.
      destruct (Z.eqb_spec (m (o + 1)) c_bslash); [lia|done].
    + destruct (to_squote s) as [a' b'] eqn:Es. injection Hr as <- <-.
      rewrite (run_step _ _ _ _ 1 m (InS o)) by (lia || (apply step_char; congruence)).
      destruct (IH fuel (p + 1) m o a' b' eq_refl Ht) as (-> & fuel' & Hf' & ->); [lia|lia|lia|lia|].
      split; [done|]. exists fuel'. split; [done|]. simpl length. f_equal. lia.
Qed.

Lemma run_char s fuel p m o a b :
  char_lit s = (a, b) -> text m p s -> p + Z.of_nat (length s) = size -> 0 <= o -> p = o + 1 ->
  (length s <= fuel)%nat ->
  s = a ++ b /\ exists fuel', (length b <= fuel')%nat /\
    run fuel p m (InS o) = run fuel' (p + Z.of_nat (length a)) m flag0.
Proof.
  intros Hr Ht Hp Ho Hpo Hf.
  assert (Hplain : to_squote s = (a, b) -> (match s with c :: _ => c <> c_bslash | [] => True end) ->
    s = a ++ b /\ exists fuel', (length b <= fuel')%nat /\
      run fuel p m (InS o) = run fuel' (p + Z.of_nat (length a)) m flag0).
  { intros Hs Hb. destruct s as [|c s].
    - injection Hs as <- <-. split; [done|]. exists fuel. split; [done|]. simpl in *. apply run_done; (done || lia).
    - eapply run_squote; [exact Hs|exact Ht|exact Hp|lia| |exact Hf]. right. destruct Ht as [Hc _].
      rewrite <- Hpo. congruence. }
  destruct s as [|c1 s]; [by apply Hplain|]. destruct (decide (c1 = c_bslash)) as [->|Hb]; cycle 1.
  { apply Hplain; [|done]. destruct s as [|c2 s]; [done|]. simpl in Hr.
    by rewrite (proj2 (Z.eqb_neq c1 c_bslash) Hb) in Hr. }
  destruct Ht as [Hc1 Ht]. simpl in Hp, Hf. destruct fuel as [|fuel]; [lia|].
  rewrite (run_step _ _ _ _ 1 m (InS o)) by (lia || (apply step_char; rewrite Hc1; done)).
  destruct s as [|c2 s].
  { simpl in Hr. injection Hr as <- <-. split; [done|]. exists fuel. split; [simpl; lia|].
    simpl in *. apply run_done; (done || lia). }
  destruct Ht as [Hc2 Ht]. simpl in Hp, Hf. destruct fuel as [|fuel]; [lia|].
  destruct (to_squote s) as [a' b'] eqn:Es.
  assert (a = c_bslash :: c2 :: a' /\ b = b') as [-> ->].
  { assert (to_squote (c_bslash :: c2 :: s) = (c_bslash :: c2 :: a', b') \/ c2 = c_squote) as [E|E].
    { destruct (Z.eqb_spec c2 c_squote) as [|Hq]; [by right|left]. simpl. rewrite (proj2 (Z.eqb_neq _ _) Hq), Es. done. }
    - unfold char_lit in Hr. rewrite E, Es in Hr. destruct (_ && _); by simplify_eq.
    - unfold char_lit in Hr. rewrite E, !Z.eqb_refl, Es in Hr. rewrite E. simpl in Hr. injection Hr as Ha Hb. by subst a b. }
  rewrite (run_step _ _ _ _ 1 m (InS o)); [|lia|lia|]; cycle 1.
  { destruct (decide (c2 = c_squote)) as [E|E]; [|apply step_char; congruence].
    rewrite step_squote by congruence. unfold single_quote_proc. simpl. replace (p + 1 - o =? 2) with true by lia.
    rewrite rd_ok by lia. simpl. replace (o + 1) with p by lia. rewrite Hc1. done. }
  destruct (run_squote s fuel (p + 1 + 1) m o a' b' Es Ht) as (-> & fuel' & Hf' & ->); [lia|lia|lia|lia|].
  split; [done|]. exists fuel'. split; [done|]. simpl length. f_equal. lia.
Qed.

Lemma text_last m p t : t <> [] -> text m p t -> default 0 (last t) = m (p + Z.of_nat (length t) - 1).
Proof.
  intros Hne Ht. destruct (exists_last Hne) as (t' & c & ->). rewrite last_snoc, length_app. simpl.
  apply text_app in Ht as [_ [<- _]]. f_equal. lia.
Qed.

(** What a blanked line comment leaves. *)
Lemma text_blank_line m p t :
  t <> [] -> text m p t ->
  let q := p + Z.of_nat (length t) in
  text (blank p (if m (q - 1) =? c_cr then q - 1 else q) m) p (blank_line t false).
Proof.
  intros Hne Ht q. unfold blank_line. simpl. rewrite (text_last m p t) by done. fold q.
  assert (0 < Z.of_nat (length t)) by (destruct t; [done|simpl; lia]).
  destruct (Z.eqb_spec (m (q - 1)) c_cr) as [E|E].
  - apply text_app. unfold blanks. rewrite length_replicate. split.
    + apply text_blanks. intros i Hi. apply blank_in. lia.
    + simpl. split; [|done]. replace (p + Z.of_nat (length t - 1)) with (q - 1) by lia.
      rewrite blank_out by lia. done.
  - apply text_blanks. intros i Hi. apply blank_in. lia.
Qed.

Lemma blank_line_length t e : t <> [] -> length (blank_line t e) = length t.
Proof.
  intros Hne. unfold blank_line, blanks. destruct (_ && _); rewrite ?length_app, ?length_replicate; [|done].
  destruct t; [done|]. simpl. lia.
Qed.

(** The result from [p] on: the text [s], and nothing else changed. *)
Definition outcome (fuel : nat) (p : Z) (m : mem) (s : list Z) : Prop :=
  p + Z.of_nat (length s) = size /\
  exists m', run fuel p m flag0 = Some m' /\ text m' p s /\ (forall i, i < p \/ size <= i -> m' i = m i).

(** One token: the run from [p] is the run from behind the token with memory [m1],
    in which the token has become [a']. *)
Lemma outcome_token fuel fuel' p m m1 a' s :
  run fuel p m flag0 = run fuel' (p + Z.of_nat (length a')) m1 flag0 ->
  text m1 p a' -> p + Z.of_nat (length a') <= size -> (forall i, i < p \/ p + Z.of_nat (length a') <= i -> m1 i = m i) ->
  outcome fuel' (p + Z.of_nat (length a')) m1 s -> outcome fuel p m (a' ++ s).
Proof.
  intros Hr Ht Hq Hm (Hl & m' & E & Hs & Hi). split; [rewrite length_app; lia|].
  exists m'. split; [by rewrite Hr|]. split.
  - apply text_app. split; [|done]. eapply text_ext; [|exact Ht]. intros i Hin. apply Hi. lia.
  - intros i Hout. rewrite Hi by lia. apply Hm. lia.
Qed.

Lemma nl_opens_nothing p m r :
  text m p (c_nl :: r) -> 0 <= p -> p + Z.of_nat (length (c_nl :: r)) = size -> m size = 0 ->
  opens L (c_nl :: r) = None.
Proof.
  intros Ht Hp Hs H0. pose proof (imp_code c_nl r p m Ht Hp ltac:(lia)) as Hc. rewrite Hs in Hc.
  specialize (Hc H0 ltac:(done) ltac:(done)). destruct (opens L (c_nl :: r)) as [[b n]|]; [|done].
  destruct Hc as (_ & Hn & HF). destruct n as [|n]; [lia|]. simpl in HF. by apply Forall_cons in HF as [? _].
Qed.

(** From [p] on, the loop does to a text of at most [n] characters what [strip] does. *)
Definition strips (n : nat) : Prop := forall s p m fuel,
  (length s <= n)%nat -> 0 <= p -> text m p s -> p + Z.of_nat (length s) = size -> m size = 0 ->
  (length s <= fuel)%nat -> outcome fuel p m (strip L n s).

(** The text and the place of a suffix. *)
Lemma text_drop m p k s :
  (k <= length s)%nat -> text m p s -> text m p (take k s) /\ text m (p + Z.of_nat k) (drop k s).
Proof.
  intros Hk Ht. rewrite <- (take_drop k s) in Ht. apply text_app in Ht as [? Ht]. rewrite length_take in Ht.
  by replace (k `min` length s)%nat with k in Ht by lia.
Qed.

(** A literal is kept. *)
Lemma code_literal n c a b p m fuel fuel' f :
  strips n -> text m p (c :: a ++ b) -> 0 <= p -> p + Z.of_nat (S (length (a ++ b))) = size -> m size = 0 ->
  (length (a ++ b) <= n)%nat -> step p m flag0 = Some (1, m, f) -> (length b <= fuel')%nat ->
  run fuel (p + 1) m f = run fuel' (p + 1 + Z.of_nat (length a)) m flag0 ->
  outcome (S fuel) p m (c :: a ++ strip L n b).
Proof.
  intros Hrec Ht Hp Hs H0 Hn Hst Hf Hrun. rewrite length_app in *.
  change (c :: a ++ b) with ((c :: a) ++ b) in Ht. apply text_app in Ht as [Ha Hb]. simpl length in *.
  apply (outcome_token _ fuel' _ _ m (c :: a)); simpl length; [|done|lia|done|].
  - rewrite (run_step _ _ _ _ 1 m f) by (lia || done). rewrite Hrun. f_equal. lia.
  - apply Hrec; (done || lia).
Qed.

(** A block comment. *)
Lemma code_block n s p m fuel k :
  strips n -> text m p s -> 0 <= p -> p + Z.of_nat (length s) = size -> m size = 0 ->
  (length s <= S n)%nat -> (length s <= S fuel)%nat -> (2 <= k <= length s)%nat ->
  step p m flag0 = Some (Z.of_nat k, m, InB p) ->
  outcome (S fuel) p m match block_rest (close1 L) (close2 L) (drop k s) with
                       | Some (a, b) => blanks (k + length a) ++ strip L n b
                       | None => s
                       end.
Proof.
  intros Hrec Ht Hp Hs H0 Hn Hf Hk Hst.
  assert (run (S fuel) p m flag0 = run fuel (p + Z.of_nat k) m (InB p)) as Hrun by (apply run_step; [lia|lia|done]).
  destruct (text_drop m p k s ltac:(lia) Ht) as [_ Htd]. pose proof (length_drop s k) as Hld.
  pose proof (run_block (drop k s) fuel (p + Z.of_nat k) m p Htd ltac:(lia) H0 ltac:(lia) ltac:(lia)) as Hb.
  destruct (block_rest _ _ (drop k s)) as [[a b]|]; [|split; [done|]; exists m; split; [by rewrite Hrun|done]].
  destruct Hb as (E & fuel' & Hf' & Hb). rewrite E in Htd, Hld. rewrite length_app in Hld.
  apply text_app in Htd as [_ Htb]. set (e := p + Z.of_nat k + Z.of_nat (length a)) in *.
  assert (p + Z.of_nat (length (blanks (k + length a))) = e) as Hbl
    by (unfold blanks, e; rewrite length_replicate; lia).
  assert (e <= size) by (unfold e; lia).
  apply (outcome_token _ fuel' _ _ (blank p e m)); rewrite ?Hbl; [by rewrite Hrun, Hb| |done| |].
  - apply text_blanks. intros i Hi. apply blank_in. unfold e. lia.
  - intros i Hi. apply blank_out. lia.
  - apply Hrec; [lia|unfold e; lia| |unfold e; lia|by rewrite blank_out by lia|lia].
    eapply text_ext; [|exact Htb]. intros i Hi. apply blank_out. lia.
Qed.

(** A line comment at the end of the text. *)
Lemma code_last_line n t p m fuel :
  text m p t -> t <> [] -> 0 <= p -> p + Z.of_nat (length t) = size -> run fuel p m flag0 = Some (blank p size m) ->
  outcome fuel p m (blank_line t true ++ strip L n []).
Proof.
  intros Ht Hne Hp Hs Hrun. replace (strip L n []) with (@nil Z) by (by destruct n). rewrite app_nil_r.
  split; [by rewrite blank_line_length|]. exists (blank p size m). split; [done|]. split.
  - apply text_blanks. intros i Hi. apply blank_in. lia.
  - intros i Hi. apply blank_out. lia.
Qed.

(** A line comment that a newline ends. *)
Lemma code_line n t b p m fuel fuel' :
  strips (pred n) -> text m p (t ++ c_nl :: b) -> t <> [] -> 0 <= p ->
  p + Z.of_nat (length (t ++ c_nl :: b)) = size -> m size = 0 ->
  (length (t ++ c_nl :: b) <= S n)%nat -> (length b <= fuel')%nat -> (2 <= length t)%nat ->
  (let q := p + Z.of_nat (length t) in
   run fuel p m flag0 = run fuel' (q + 1) (blank p (if m (q - 1) =? c_cr then q - 1 else q) m) flag0) ->
  outcome fuel p m (blank_line t false ++ strip L n (c_nl :: b)).
Proof.
  cbv zeta. set (q := p + Z.of_nat (length t)). set (e := if m (q - 1) =? c_cr then q - 1 else q).
  intros Hrec Ht Hne Hp Hs H0 Hn Hf Hk Hrun.
  assert (q - 1 <= e <= q) as He by (unfold e; destruct (m (q - 1) =? c_cr); lia).
  rewrite length_app in *. simpl length in *. apply text_app in Ht as [Ht Hb]. fold q in Hb.
  assert (strip L n (c_nl :: b) = [c_nl] ++ strip L (pred n) b) as ->.
  { destruct n as [|n']; [lia|]. cbn [strip pred]. simpl.
    rewrite (nl_opens_nothing q m b); [done|done|lia|simpl length; lia|done]. }
  destruct Hb as [Hnl Hb]. rewrite app_assoc.
  assert (p + Z.of_nat (length (blank_line t false ++ [c_nl])) = q + 1) as Hlb
    by (rewrite length_app, blank_line_length by done; simpl; unfold q; lia).
  apply (outcome_token _ fuel' _ _ (blank p e m)); rewrite ?Hlb; [done| |lia| |].
  - apply text_app. split; [by apply text_blank_line|]. rewrite blank_line_length by done. fold q. simpl.
    split; [|done]. rewrite blank_out by lia. done.
  - intros i Hi. apply blank_out. lia.
  - apply Hrec; [lia|lia| |lia|by rewrite blank_out by lia|lia].
    eapply text_ext; [|exact Hb]. intros i Hi. apply blank_out. lia.
Qed.

Lemma run_code n : strips n.
Proof.
  induction (lt_wf n) as [n _ IH]. intros s p m fuel Hn Hp Ht Hs H0 Hf.
  destruct s as [|c r].
  { replace (strip L n []) with (@nil Z) by (by destruct n). split; [done|]. exists m. simpl in Hs.
    replace p with size by lia. by rewrite run_end. }
  destruct n as [|n]; [simpl in Hn; lia|]. destruct fuel as [|fuel]; [simpl in Hf; lia|].
  pose proof Ht as [Hc Hr]. cbn [strip].
  destruct (Z.eqb_spec c c_dquote) as [Ed|Ed].
  { destruct (string_lit false r) as [a b] eqn:Ea. simpl length in *.
    destruct (run_string r fuel (p + 1) m p false a b) as (E & fuel' & Hf' & Hrun); try (done || lia).
    { replace (p + 1 - 1) with p by lia. apply slash_first; [lia|congruence]. }
    subst r. eapply (code_literal _ _ _ _ _ _ _ fuel' (InD p)); try (done || lia); [by apply IH; lia|].
    rewrite step_dquote by congruence. done. }
  destruct (Z.eqb_spec c c_squote) as [Eq|Eq].
  { destruct (char_lit r) as [a b] eqn:Ea. simpl length in *.
    destruct (run_char r fuel (p + 1) m p a b) as (E & fuel' & Hf' & Hrun); try (done || lia).
    subst r. eapply (code_literal _ _ _ _ _ _ _ fuel' (InS p)); try (done || lia); [by apply IH; lia|].
    rewrite step_squote by congruence. done. }
  pose proof (imp_code c r p m Ht Hp ltac:(lia) ltac:(by rewrite Hs) Eq Ed) as Hcode.
  destruct (opens L (c :: r)) as [[[|] k]|].
  - destruct Hcode as (Hst & Hk & _). apply code_block; try done. apply IH. lia.
  - destruct Hcode as (Hst & Hk & _).
    assert (run (S fuel) p m flag0 = run fuel (p + Z.of_nat k) m (InL p)) as Hrun by (apply run_step; [simpl in *; lia|lia|done]).
    destruct (text_drop m p k (c :: r) ltac:(lia) Ht) as [Htt Htd].
    pose proof (length_drop (c :: r) k) as Hld. pose proof (length_take (c :: r) k) as Hlt.
    destruct (line_rest (drop k (c :: r))) as [a b] eqn:El.
    pose proof (run_line _ fuel (p + Z.of_nat k) m p a b El Htd ltac:(lia) ltac:(lia) ltac:(lia)) as Hl.
    assert (take k (c :: r) ++ a <> []) as Hne by (destruct k; [lia|done]).
    destruct b as [|c' b].
    + destruct Hl as [Hl ->]. rewrite take_drop in *. rewrite bool_decide_true by done.
      apply code_last_line; try done. by rewrite Hrun.
    + destruct Hl as (-> & Ed' & fuel' & Hf' & Hl). rewrite bool_decide_false by done.
      assert (c :: r = (take k (c :: r) ++ a) ++ c_nl :: b) as Esplit by (by rewrite <- app_assoc, <- Ed', take_drop).
      assert (Z.of_nat (length (take k (c :: r) ++ a)) = Z.of_nat k + Z.of_nat (length a)) as Hlen
        by (rewrite length_app; lia).
      apply (code_line _ _ _ _ _ _ fuel'); rewrite <- ?Esplit; try done; [by apply IH; lia|lia|].
      rewrite Hrun, Hl, Hlen. by rewrite !Z.add_assoc.
  - apply (outcome_token _ fuel _ _ m [c]); simpl length in *; [|by split|lia|done|].
    + by rewrite (run_step _ _ _ _ 1 m flag0) by (lia || done).
    + apply IH; try lia; done.
Qed.

End Equivalence.

(** ** The two tables implement their languages *)

(** Which function the table holds for a character that is none of the common ones. *)
Lemma c_find cap c : c <> c_squote -> c <> c_dquote ->
  find_proc_func c (cFuncMap cap) =
    if c =? c_slash then Some (c_slash_proc cap) else if c =? c_star then Some (c_star_proc cap)
    else if c =? c_nl then Some (end_proc cap) else None.
Proof. intros H1 H2. simpl. by rewrite (proj2 (Z.eqb_neq _ _) H1), (proj2 (Z.eqb_neq _ _) H2). Qed.

Lemma lua_find cap c : c <> c_squote -> c <> c_dquote ->
  find_proc_func c (luaFuncMap cap) =
    if c =? c_minus then Some (sub_proc cap) else if c =? c_rbracket then Some (close_bracket_proc cap)
    else if c =? c_nl then Some (end_proc cap) else None.
Proof. intros H1 H2. simpl. by rewrite (proj2 (Z.eqb_neq _ _) H1), (proj2 (Z.eqb_neq _ _) H2). Qed.

#[export] Instance c_implements cap : Implements cap (cFuncMap cap) lang_c.
Proof.
  split; [done|done|done|..].
  - intros c g p m f H1 H2 H3. rewrite c_find by done. intros E (o & Hf).
    destruct (c =? c_slash); [injection E as <-; by destruct Hf as [->|[->| ->]]|].
    destruct (c =? c_star); [injection E as <-; by destruct Hf as [->|[->| ->]]|].
    by rewrite (proj2 (Z.eqb_neq _ _) H3) in E.
  - done.
  - intros p m o Ho Hp H1 H2 H3. unfold step. rewrite c_find by done. simpl.
    destruct (Z.eqb_spec (m p) c_slash) as [E|]; [by rewrite E|].
    destruct (Z.eqb_spec (m p) c_star) as [E|]; simpl; [|by rewrite (proj2 (Z.eqb_neq _ _) H3)].
    unfold c_star_proc; simpl. rewrite rd_ok by lia. simpl. by destruct (_ =? c_slash).
  - intros c r p m [Hc Hr] Hp Hcap H0 H1 H2. unfold step. rewrite Hc, c_find by done.
    simpl length in *. destruct r as [|c2 r]; simpl.
    + simpl in *. destruct (Z.eqb_spec c c_slash) as [->|]; [|by destruct (c =? c_star), (c =? c_nl)].
      replace (p + Z.of_nat 1) with (p + 1) in H0 by lia.
      unfold c_slash_proc; simpl. rewrite rd_ok by lia. simpl. by rewrite H0.
    + destruct Hr as [Hc2 _]. simpl in *.
      destruct (Z.eqb_spec c c_slash) as [->|]; [|by destruct (c =? c_star), (c =? c_nl)].
      unfold c_slash_proc; simpl. rewrite rd_ok by lia. simpl. rewrite Hc2.
      destruct (Z.eqb_spec c2 c_slash) as [->|]; [split; [done|]; split; [lia|by repeat constructor]|].
      destruct (Z.eqb_spec c2 c_star) as [->|]; [split; [done|]; split; [lia|by repeat constructor]|done].
Qed.

#[export] Instance lua_implements cap : Implements cap (luaFuncMap cap) lang_lua.
Proof.
  split; [done|done|done|..].
  - intros c g p m f H1 H2 H3. rewrite lua_find by done. intros E (o & Hf).
    destruct (c =? c_minus); [injection E as <-; by destruct Hf as [->|[->| ->]]|].
    destruct (c =? c_rbracket); [injection E as <-; by destruct Hf as [->|[->| ->]]|].
    by rewrite (proj2 (Z.eqb_neq _ _) H3) in E.
  - done.
  - intros p m o Ho Hp H1 H2 H3. unfold step. rewrite lua_find by done. simpl.
    destruct (Z.eqb_spec (m p) c_minus) as [E|]; [by rewrite E|].
    destruct (Z.eqb_spec (m p) c_rbracket) as [E|]; simpl; [|by rewrite (proj2 (Z.eqb_neq _ _) H3)].
    unfold close_bracket_proc; simpl. rewrite rd_ok by lia. simpl. by destruct (_ =? c_rbracket).
  - intros c r p m [Hc Hr] Hp Hcap H0 H1 H2. unfold step. rewrite Hc, lua_find by done.
    simpl length in *.
    destruct (Z.eqb_spec c c_minus) as [->|Hm]; cycle 1.
    { destruct r as [|c2 r]; simpl; [|rewrite (proj2 (Z.eqb_neq _ _) Hm); simpl]; by destruct (c =? c_rbracket), (c =? c_nl). }
    unfold sub_proc; simpl. rewrite (rd_ok _ _ (p + 1)) by lia. simpl.
    destruct r as [|c2 r]; simpl in *; [replace (p + Z.of_nat 1) with (p + 1) in H0 by lia; by rewrite H0|]. destruct Hr as [-> Hr].
    destruct (Z.eqb_spec c2 c_minus) as [->|]; [|done]. rewrite (rd_ok _ _ (p + 2)) by lia. simpl.
    destruct r as [|c3 r]; simpl in *.
    { replace (p + Z.of_nat 2) with (p + 2) in H0 by lia. rewrite H0. simpl. split; [done|]. split; [lia|by repeat constructor]. }
    destruct Hr as [Hc3 Hr]. replace (p + 1 + 1) with (p + 2) in * by lia. rewrite Hc3.
    destruct (Z.eqb_spec c3 c_lbracket) as [->|]; simpl; cycle 1.
    { destruct r; (split; [done|]); (split; [simpl; lia|]); by repeat constructor. }
    rewrite (rd_ok _ _ (p + 3)) by lia. simpl. destruct r as [|c4 r]; simpl in *.
    { replace (p + Z.of_nat 3) with (p + 3) in H0 by lia. rewrite H0. simpl.
      split; [done|]. split; [lia|by repeat constructor]. }
    destruct Hr as [Hc4 _]. replace (p + 2 + 1) with (p + 3) in Hc4 by lia. rewrite Hc4.
    destruct (Z.eqb_spec c4 c_lbracket) as [->|]; simpl; (split; [done|]); (split; [simpl; lia|]); by repeat constructor.
Qed.

Lemma remove_annotation_strips cap funcMap L m s :
  Implements cap funcMap L -> text m 0 s -> Z.of_nat (length s) < cap -> m (Z.of_nat (length s)) = 0 ->
  exists m', remove_annotation cap funcMap m (Z.of_nat (length s)) = Some m' /\
    text m' 0 (strip_comments L s) /\ (forall i, i < 0 \/ Z.of_nat (length s) <= i -> m' i = m i) /\
    length (strip_comments L s) = length s.
Proof.
  intros HI Ht Hc H0.
  destruct (run_code cap (Z.of_nat (length s)) funcMap L Hc (length s) s 0 m (Z.to_nat (Z.of_nat (length s))))
    as (Hl & m' & E & H1 & H2); try (done || lia).
  exists m'. unfold strip_comments. split_and!; try done. lia.
Qed.

(** C18: Equivalence of the in-place strippers with the token-wise reference: if the
    byte behind the file is a NUL inside the buffer, [remove_c_annotation] and
    [remove_lua_annotation] leave exactly the text of [strip_comments], in which
    line and block comments are blanked, literals (with their escapes) are kept
    with the comment signs in them, and a line's end stays; they touch nothing
    outside the text and make no access outside the buffer. *)
Theorem annotations_removed (cap : Z) (m : mem) (s : list Z) :
  text m 0 s -> Z.of_nat (length s) < cap -> m (Z.of_nat (length s)) = 0 ->
  (exists m', remove_c_annotation cap m (Z.of_nat (length s)) = Some m' /\
     text m' 0 (strip_comments lang_c s) /\ (forall i, i < 0 \/ Z.of_nat (length s) <= i -> m' i = m i)) /\
  (exists m', remove_lua_annotation cap m (Z.of_nat (length s)) = Some m' /\
     text m' 0 (strip_comments lang_lua s) /\ (forall i, i < 0 \/ Z.of_nat (length s) <= i -> m' i = m i)).
Proof.
  intros Ht Hc H0.
  destruct (remove_annotation_strips cap _ lang_c m s (c_implements cap) Ht Hc H0) as (m1 & E1 & T1 & O1 & _).
  destruct (remove_annotation_strips cap _ lang_lua m s (lua_implements cap) Ht Hc H0) as (m2 & E2 & T2 & O2 & _).
  split; eauto.
Qed.

(** ** The verdict *)

(** Whether a text starts with a byte order mark. *)
Definition has_bom (s : list Z) : bool :=
  match s with
  | a :: b :: c :: _ :: _ => (a =? HEX_BYTE_EF) && (b =? HEX_BYTE_BB) && (c =? HEX_BYTE_BF)
  | _ => false
  end.

(** Whether a text has a byte outside ASCII, a byte order mark apart. *)
Definition has_zh (s : list Z) : bool := existsb (fun c => c <? 0) (if has_bom s then drop 3 s else s).

Section Check.
Variable cap : Z.

Lemma zh_loop_spec m s : forall fuel i,
  text m i s -> 0 <= i -> i + Z.of_nat (length s) <= cap -> (length s <= fuel)%nat ->
  if existsb (fun c => c <? 0) s
  then exists k, i <= k < i + Z.of_nat (length s) /\ zh_loop cap fuel m i (i + Z.of_nat (length s)) = Some (Some k)
  else zh_loop cap fuel m i (i + Z.of_nat (length s)) = Some None.
Proof.
  induction s as [|c s IH]; intros fuel i Ht Hi Hc Hf; cbn [text length existsb] in *.
  - rewrite Z.add_0_r. destruct fuel; simpl; by rewrite Z.ltb_irrefl.
  - destruct Ht as [Hm Ht]. destruct fuel as [|fuel]; [lia|]. cbn [zh_loop].
    rewrite (proj2 (Z.ltb_lt i (i + Z.of_nat (S (length s))))) by lia. rewrite rd_ok by lia. simpl. rewrite Hm.
    destruct (c <? 0); simpl; [exists i; split; [lia|done]|].
    specialize (IH fuel (i + 1) Ht ltac:(lia) ltac:(lia) ltac:(lia)).
    replace (i + Z.of_nat (S (length s))) with (i + 1 + Z.of_nat (length s)) by lia.
    destruct (existsb _ s); [|done]. destruct IH as (k & Hk & E). exists k. split; [lia|done].
Qed.

(** Printing ends at a NUL. *)
Lemma cstring_total m j : forall fuel i, 0 <= i <= j -> j < cap -> m j = 0 -> j - i <= Z.of_nat fuel ->
  exists t, cstring cap fuel m i = Some t.
Proof.
  induction fuel as [|fuel IH]; intros i Hi Hj H0 Hf; simpl; rewrite rd_ok by lia; simpl.
  - replace i with j by lia. rewrite H0. by eexists.
  - destruct (Z.eqb_spec (m i) 0); [by eexists|]. assert (i <> j) by congruence.
    destruct (IH (i + 1)) as [t ->]; [lia|done|done|lia|]. by eexists.
Qed.

Lemma check_zh_cn_spec m s :
  text m 0 s -> Z.of_nat (length s) < cap -> m (Z.of_nat (length s)) = 0 ->
  fst <$> check_zh_cn cap m (Z.of_nat (length s)) = Some (if has_zh s then INCLUDE_ZH_ERR else SUCEESS).
Proof.
  intros Ht Hc H0. set (len := Z.of_nat (length s)) in *.
  assert (Hfrom : forall i t, text m i t -> 0 <= i -> i + Z.of_nat (length t) = len ->
    fst <$> (at_ ← zh_loop cap (Z.to_nat len) m i len;
      match at_ with
      | Some i =>
          let m := if len - i >? 20 then fun j => if j =? i + 20 then 0 else m j else m in
          text ← cstring cap (Z.to_nat (cap - i)) m i;
          Some (INCLUDE_ZH_ERR, text)
      | None => Some (SUCEESS, [])
      end) = Some (if existsb (fun c => c <? 0) t then INCLUDE_ZH_ERR else SUCEESS)).
  { intros i t Htt Hi Hl. pose proof (zh_loop_spec m t (Z.to_nat len) i Htt Hi ltac:(lia) ltac:(lia)) as Hz.
    rewrite Hl in Hz. destruct (existsb _ t); [|by rewrite Hz]. destruct Hz as (k & Hk & ->). simpl.
    destruct (len - k >? 20) eqn:E20.
    - edestruct (cstring_total (fun j => if j =? k + 20 then 0 else m j) (k + 20)) as [u Hu]; cycle 4.
      { rewrite Hu. done. } { lia. } { lia. } { by rewrite Z.eqb_refl. } { lia. }
    - edestruct (cstring_total m len) as [u Hu]; cycle 4.
      { rewrite Hu. done. } { lia. } { lia. } { done. } { lia. } }
  unfold check_zh_cn, has_zh. destruct (len >? 3) eqn:El.
  - destruct s as [|a [|b [|c [|d s]]]]; [done|done|done|done|].
    pose proof Ht as (Ha & Hb & Hcc & Hd). simpl in Ha, Hb, Hcc.
    assert (3 < len) by (unfold len; simpl; lia). rewrite (rd_ok _ _ 0), (rd_ok _ _ 1), (rd_ok _ _ 2) by lia. simpl.
    change (0 + 1) with 1 in *. change (1 + 1) with 2 in *. rewrite Ha, Hb, Hcc.
    destruct (a =? HEX_BYTE_EF); simpl; [|exact (Hfrom 0 _ Ht ltac:(lia) eq_refl)].
    destruct (b =? HEX_BYTE_BB); simpl; [|exact (Hfrom 0 _ Ht ltac:(lia) eq_refl)].
    destruct (c =? HEX_BYTE_BF); simpl; [|exact (Hfrom 0 _ Ht ltac:(lia) eq_refl)].
    change (2 + 1) with 3 in Hd. apply (Hfrom 3 (d :: s) Hd); [lia|]. unfold len. simpl length. lia.
  - assert (has_bom s = false) as ->.
    { destruct s as [|a [|b [|c [|d s]]]]; [done|done|done|done|]. exfalso. assert (3 < len) by (unfold len; simpl; lia). lia. }
    simpl. exact (Hfrom 0 _ Ht ltac:(lia) eq_refl).
Qed.
End Check.

Lemma fread_text file m : text (fread file m) 0 file.
Proof.
  assert (forall pre s, file = pre ++ s -> text (fread file m) (Z.of_nat (length pre)) s) as Hs.
  { intros pre s. revert pre. induction s as [|c s IH]; intros pre E; simpl; [done|]. split.
    - unfold fread. rewrite (proj2 (Z.leb_le 0 (Z.of_nat (length pre)))) by lia. rewrite Nat2Z.id, E, lookup_app_r by lia.
      by rewrite Nat.sub_diag.
    - specialize (IH (pre ++ [c])). rewrite length_app in IH. simpl in IH.
      replace (Z.of_nat (length pre) + 1) with (Z.of_nat (length pre + 1)) by lia. apply IH. by rewrite E, <- app_assoc. }
  by apply (Hs []).
Qed.

Lemma fread_after file m : fread file m (Z.of_nat (length file)) = m (Z.of_nat (length file)).
Proof.
  unfold fread. rewrite (proj2 (Z.leb_le 0 (Z.of_nat (length file)))) by lia. rewrite Nat2Z.id, lookup_ge_None_2 by lia. done.
Qed.


(** The verdict of the C and the Lua check. *)
Lemma check_strips cap funcMap L m file :
  Implements cap funcMap L -> Z.of_nat (length file) < cap -> m (Z.of_nat (length file)) = 0 ->
  remove_annotation cap funcMap (fread file m) (Z.of_nat (length file)) ≫=
    (fun m => fst <$> check_zh_cn cap m (Z.of_nat (length file))) =
  Some (if has_zh (strip_comments L file) then INCLUDE_ZH_ERR else SUCEESS).
Proof.
  intros HI Hc H0.
  destruct (remove_annotation_strips cap funcMap L (fread file m) file HI (fread_text file m) Hc) as (m' & E & Ht & Ho & Hl).
  { by rewrite fread_after. }
  rewrite E. cbn [mbind option_bind]. rewrite <- Hl. apply check_zh_cn_spec; [done|by rewrite Hl|].
  rewrite Hl, Ho by lia. by rewrite fread_after.
Qed.

(** The verdict of the tool: for a C or Lua file shorter than the buffer on the stack,
    with a NUL behind it there, [main] returns [INCLUDE_ZH_ERR] exactly if a byte
    outside ASCII, a byte order mark apart, is left when the comments are
    stripped; a missing argument, an unreadable file and an unknown file type have
    their own codes. *)
Theorem zh_check_verdict (stack fresh : mem) (prog name type : list Z) (more : list (list Z))
    (fopen : list Z -> option (list Z)) :
  (forall file, fopen name = Some file ->
     Z.of_nat (length file) < BUFF_LEN /\ stack (Z.of_nat (length file)) = 0) ->
  main stack fresh [prog] fopen = Some ARGC_ERR /\ main stack fresh [prog; name] fopen = Some ARGC_ERR /\
  (fopen name = None -> main stack fresh (prog :: name :: type :: more) fopen = Some FILE_NAME_ERR) /\
  (forall file, fopen name = Some file ->
     main stack fresh (prog :: name :: codes "cpp" :: more) fopen =
       Some (if has_zh (strip_comments lang_c file) then INCLUDE_ZH_ERR else SUCEESS) /\
     main stack fresh (prog :: name :: codes "lua" :: more) fopen =
       Some (if has_zh (strip_comments lang_lua file) then INCLUDE_ZH_ERR else SUCEESS) /\
     (type <> codes "cpp" -> type <> codes "lua" -> type <> codes "python" ->
      main stack fresh (prog :: name :: type :: more) fopen = Some FILE_TYPE_ERR)).
Proof.
  intros Hfile. split; [done|]. split; [done|]. split; [by simpl; intros ->|].
  intros file Ef. destruct (Hfile file Ef) as [Hl H0]. unfold main. rewrite Ef.
  rewrite (proj2 (Z.ltb_lt (Z.of_nat (length file)) BUFF_LEN)) by done.
  unfold remove_anno_and_check. rewrite Nat2Z.id, firstn_all. split_and!.
  - rewrite <- (check_strips BUFF_LEN _ lang_c stack file (c_implements BUFF_LEN) Hl H0). done.
  - rewrite <- (check_strips BUFF_LEN _ lang_lua stack file (lua_implements BUFF_LEN) Hl H0). done.
  - intros H1 H2 H3. unfold str_is. by rewrite !bool_decide_false by done.
Qed.

Lemma annotations_removed_witness :
  let s := codes "x='/';/*a*/ y // b" in
  let m := fread s (fun _ => 0) in
  exists m', remove_c_annotation 100 m (Z.of_nat (length s)) = Some m' /\
    text m' 0 (codes "x='/';      y     ").
Proof.
  cbv zeta. set (s := codes "x='/';/*a*/ y // b").
  destruct (annotations_removed 100 (fread s (fun _ => 0)) s) as [(m' & E & Ht & _) _].
  - apply fread_text.
  - vm_compute. reflexivity.
  - vm_compute. reflexivity.
  - exists m'. split; [exact E|]. exact Ht.
Defined.

Lemma zh_check_verdict_witness :
  main (fun _ => 0) (fun _ => 0) [codes "zh"; codes "f.c"; codes "cpp"]
    (fun n => if str_is n "f.c" then Some (codes "int x; // " ++ [-28; -72; -83]) else None) = Some SUCEESS.
Proof.
  destruct (zh_check_verdict (fun _ => 0) (fun _ => 0) (codes "zh") (codes "f.c") (codes "cpp") []
    (fun n => if str_is n "f.c" then Some (codes "int x; // " ++ [-28; -72; -83]) else None))
    as (_ & _ & _ & H).
  - intros file E. vm_compute in E. injection E as <-. split; [vm_compute; reflexivity|reflexivity].
  - destruct (H (codes "int x; // " ++ [-28; -72; -83])) as [E _]; [vm_compute; reflexivity|].
    rewrite E. vm_compute. reflexivity.
Defined.

(** ** Python *)

Section Python.
Variables cap size : Z.
Variable m0 : mem.
Hypothesis Hcap : 0 < size < cap.
Hypothesis Hnul : m0 size = 0.
(** The file does not start with a blank, a quote or a comment. *)
Hypothesis Hfirst : isspace (m0 0) = false /\ m0 0 <> c_squote /\ m0 0 <> c_dquote /\ m0 0 <> c_hash.

(** The text so far: only blanked, and only behind the first character. *)
Definition blanked (m : mem) : Prop :=
  forall i, m i = m0 i \/ (m i = c_space /\ 0 < i < size).

Definition below (p : Z) (o : option Z) : Prop := match o with Some q => 0 < q < p | None => True end.

Record py_ok (p : Z) (m : mem) (f : PythonProcArgu) : Prop := {
  ok_p : 0 <= p <= size;
  ok_mem : blanked m;
  ok_single : below p (py_single f); ok_double : below p (py_double f); ok_line : below p (py_line f);
  ok_three_single : below p (py_three_single f); ok_three_double : below p (py_three_double f) }.

Lemma blanked_memset m a b :
  blanked m -> 0 < a -> a <= b <= size -> memset cap a b m = Some (blank a b m) /\ blanked (blank a b m).
Proof.
  intros Hm Ha Hb. split; [apply memset_ok; lia|]. intros i. unfold blank. destruct (_ && _) eqn:E; [|apply Hm].
  right. split; [done|]. lia.
Qed.

Lemma blanked_first m : blanked m -> m 0 = m0 0.
Proof. intros Hm. destruct (Hm 0) as [?|[_ ?]]; [done|lia]. Qed.

Lemma blanked_nul m : blanked m -> m size = 0.
Proof. intros Hm. destruct (Hm size) as [E|[_ ?]]; [congruence|lia]. Qed.

(** The scan for [=] stops at the first character. *)
Lemma isAssign_total m iter : blanked m -> 0 <= iter < cap -> exists b, isAssign cap m iter = Some b.
Proof.
  intros Hm Hi. unfold isAssign.
  assert (forall fuel iter, 0 <= iter < cap -> iter <= Z.of_nat fuel -> exists b, assign_back cap fuel m iter = Some b) as Hx.
  { induction fuel as [|fuel IH]; intros j Hj Hf; simpl; rewrite rd_ok by lia; simpl.
    - replace j with 0 by lia. rewrite blanked_first by done. destruct Hfirst as [-> _]. by eexists.
    - destruct (isspace (m j)) eqn:E; [|by eexists]. apply IH; [|lia].
      destruct (decide (j = 0)) as [->|]; [|lia]. rewrite blanked_first in E by done. destruct Hfirst. congruence. }
  apply Hx; [done|lia].
Qed.

Lemma quote_proc_ok p m one three :
  0 < p < size -> blanked m -> m p <> 0 -> below p one -> below p three ->
  exists k m' one' three', single_double_quote_proc cap p m one three = Some (k, m', one', three') /\
    1 <= k /\ p + k <= size /\ blanked m' /\ below (p + k) one' /\ below (p + k) three'.
Proof.
  intros Hp Hm Hc H1 H3. unfold single_double_quote_proc. rewrite (rd_ok _ _ p), (rd_ok _ _ (p + 1)) by lia. simpl.
  pose proof (blanked_nul m Hm) as Hz.
  assert (Hone : exists k m' one' three',
    match one with
    | None => Some (1, m, Some p, three)
    | Some _ => b ← rd cap m (p - 1); if negb (b =? c_bslash) then Some (1, m, None, three) else Some (1, m, one, three)
    end = Some (k, m', one', three') /\
    1 <= k /\ p + k <= size /\ blanked m' /\ below (p + k) one' /\ below (p + k) three').
  { assert (below (p + 1) three) by (destruct three; simpl in *; lia).
    destruct one as [q|]; simpl in *; [rewrite rd_ok by lia; simpl; destruct (negb _)|]; eexists _, _, _, _;
      (split; [done|]); split_and!; try done; simpl; lia. }
  destruct (Z.eqb_spec (m (p + 1)) (m p)) as [E1|E1]; simpl; [|exact Hone].
  assert (p + 1 <> size) by congruence. rewrite (rd_ok _ _ (p + 2)) by lia. simpl.
  destruct (Z.eqb_spec (m (p + 2)) (m p)) as [E2|E2]; simpl; [|exact Hone].
  assert (p + 2 <> size) by congruence. assert (below (p + 3) one) by (destruct one; simpl in *; lia).
  destruct three as [q|]; simpl in *.
  - destruct (isAssign_total m (q - 1) Hm ltac:(lia)) as [[|] ->]; simpl.
    + eexists _, _, _, _. split; [done|]. split_and!; try done; simpl; lia.
    + destruct (blanked_memset m q (p + 3) Hm ltac:(lia) ltac:(lia)) as [-> Hb]. simpl.
      eexists _, _, _, _. split; [done|]. split_and!; try done; simpl; lia.
  - eexists _, _, _, _. split; [done|]. split_and!; try done; simpl; lia.
Qed.

Lemma below_mono p k o : 1 <= k -> below p o -> below (p + k) o.
Proof. destruct o; simpl; lia. Qed.

Ltac py_side := first [done | lia | apply below_mono; done].

Lemma py_step_ok p m f :
  py_ok p m f -> p < size -> exists k m' f', py_step cap p m f = Some (k, m', f') /\ 1 <= k /\ py_ok (p + k) m' f'.
Proof.
  intros [Hp Hm H1 H2 H3 H4 H5] Hlt.
  assert (Hskip : exists k m' f', Some (1, m, f) = Some (k, m', f') /\ 1 <= k /\ py_ok (p + k) m' f').
  { eexists _, _, _. split; [done|]. split; [done|]. split; py_side. }
  assert (p = 0 -> m p <> c_squote /\ m p <> c_dquote /\ m p <> c_hash) as Hz.
  { intros ->. rewrite blanked_first by done. tauto. }
  unfold py_step, py_quote_proc. rewrite rd_ok by lia. simpl.
  destruct (Z.eqb_spec (m p) c_squote) as [Es|Es]; simpl.
  { rewrite Es. simpl. destruct (_ || _) eqn:Eb; [exact Hskip|].
    destruct (quote_proc_ok p m (py_single f) (py_three_single f)) as (k & m' & o & t & -> & Hk & Hs & Hb & Ho & Ht);
      [split; [|lia]|done|by rewrite Es|done|done|].
    { destruct (decide (p = 0)) as [E0|]; [destruct (Hz E0); congruence|lia]. }
    simpl. eexists _, _, _. split; [done|]. split; [done|]. split; simpl; py_side. }
  destruct (Z.eqb_spec (m p) c_dquote) as [Ed|Ed]; simpl.
  { destruct (_ || _) eqn:Eb; [exact Hskip|].
    destruct (quote_proc_ok p m (py_double f) (py_three_double f)) as (k & m' & o & t & -> & Hk & Hs & Hb & Ho & Ht);
      [split; [|lia]|done|by rewrite Ed|done|done|].
    { destruct (decide (p = 0)) as [E0|]; [destruct (Hz E0) as (_ & ? & _); congruence|lia]. }
    simpl. eexists _, _, _. split; [done|]. split; [done|]. split; simpl; py_side. }
  destruct (Z.eqb_spec (m p) c_hash) as [Eh|Eh]; simpl.
  { destruct (_ || _); [exact Hskip|]. eexists _, _, _. split; [done|]. split; [done|].
    assert (p <> 0) by (intros E0; destruct (Hz E0) as (_ & _ & ?); congruence). split; simpl; py_side. }
  destruct (m p =? c_nl); [|exact Hskip]. destruct (py_line f) as [a|] eqn:El; [|exact Hskip].
  simpl in H3. rewrite rd_ok by lia. simpl.
  destruct (blanked_memset m a (if m (p - 1) =? c_cr then p - 1 else p) Hm ltac:(lia)) as [-> Hb];
    [destruct (_ =? _); lia|]. simpl.
  eexists _, _, _. split; [done|]. split; [done|]. split; simpl; py_side.
Qed.

Lemma py_loop_ok : forall fuel p m f, py_ok p m f -> size - p <= Z.of_nat fuel ->
  exists m' f', py_loop cap fuel size p m f = Some (size, m', f') /\ py_ok size m' f'.
Proof.
  induction fuel as [|fuel IH]; intros p m f Hok Hf; pose proof (ok_p _ _ _ Hok); simpl.
  - assert (p = size) as -> by lia. rewrite Z.ltb_irrefl. eauto.
  - destruct (Z.ltb_spec p size) as [Hlt|]; [|assert (p = size) as -> by lia; eauto].
    destruct (py_step_ok p m f Hok Hlt) as (k & m' & f' & -> & Hk & Hok'). simpl. apply IH; [done|lia].
Qed.

End Python.

(** The Python stripper is safe and ends: on a file that does not start with a blank,
    a quote or a comment, with a NUL behind it in the buffer, it makes no access
    outside the buffer, ends within as many turns as there are characters, and
    changes the text only by blanking characters of it. *)
Theorem python_annotations_safe (cap : Z) (m : mem) (size : Z) :
  0 < size < cap -> m size = 0 ->
  isspace (m 0) = false -> m 0 <> c_squote -> m 0 <> c_dquote -> m 0 <> c_hash ->
  exists m', remove_python_annotation cap m size = Some m' /\
    forall i, m' i = m i \/ (m' i = c_space /\ 0 < i < size).
Proof.
  intros Hs H0 H1 H2 H3 H4. unfold remove_python_annotation.
  assert (isspace (m 0) = false /\ m 0 <> c_squote /\ m 0 <> c_dquote /\ m 0 <> c_hash) as HF by done.
  assert (py_ok size m 0 m py0) as Hok by (split; [lia|intros i; by left|done..]).
  destruct (py_loop_ok cap size m Hs H0 HF (Z.to_nat size) 0 m py0 Hok ltac:(lia)) as (m' & f' & -> & Hok').
  destruct Hok' as [_ Hm _ _ Hl _ _]. simpl. destruct (py_line f') as [a|]; [|by exists m'].
  simpl in Hl. destruct (blanked_memset cap size m Hs m' a size Hm) as [-> Hb]; [lia|lia|]. by eexists.
Qed.

Lemma python_annotations_safe_witness :
  exists m', remove_python_annotation 50 (fread (codes "x = 1 # one") (fun _ => 0)) 11 = Some m' /\ m' 0 = 120.
Proof.
  destruct (python_annotations_safe 50 (fread (codes "x = 1 # one") (fun _ => 0)) 11) as (m' & E & H);
    [lia|reflexivity|reflexivity|discriminate|discriminate|discriminate|].
  exists m'. split; [exact E|]. destruct (H 0) as [E0|[_ ?]]; [|lia]. rewrite E0. reflexivity.
Defined.

(** ** What the code gets wrong *)

(** The text left by a stripper. *)
Definition left_text (r : option mem) (n : nat) : option (list Z) :=
  (fun m => m <$> (Z.of_nat <$> seq 0 n)) <$> r.

(** A Python file that starts with a comment or with a documentation string makes
    the scan for [=] run off the start of the buffer. *)
Example python_reads_before_buffer :
  let s := [c_hash; c_nl] ++ replicate 3 c_dquote ++ [c_hash] ++ replicate 3 c_dquote in
  remove_python_annotation 50 (fread s (fun _ => 0)) (Z.of_nat (length s)) = None.
Proof. vm_compute. reflexivity. Qed.

(** After a string in triple quotes that is assigned, comments are kept. *)
Example python_assigned_string :
  let q := replicate 3 c_squote in
  let s := codes "x=" ++ q ++ codes "a" ++ q ++ [c_nl; c_hash; 65; c_nl] in
  left_text (remove_python_annotation 50 (fread s (fun _ => 0)) (Z.of_nat (length s))) (length s) = Some s.
Proof. vm_compute. reflexivity. Qed.

(** In Lua an escaped quote ends a string in single quotes, so that comment signs
    behind it are taken for a comment. *)
Example lua_escaped_quote :
  let s := codes "'it" ++ [c_bslash] ++ codes "'s --a'" in
  strip_comments lang_lua s = codes "'it" ++ [c_bslash] ++ codes "'s     ".
Proof. vm_compute. reflexivity. Qed.

(** A C file that fills its buffer and ends in a slash is read past its end; a byte
    behind a shorter file is taken for part of it. *)
Example c_reads_past_end :
  remove_c_annotation 2 (fread (codes "a/") (fun _ => 0)) 2 = None /\
  left_text (remove_c_annotation 9 (fread (codes "a/") (fun _ => c_slash)) 2) 4 = Some (codes "a  /").
Proof. vm_compute. by split. Qed.

(** A byte outside ASCII at the end of a file that fills its buffer is printed past
    the end of the buffer. *)
Example zh_prints_past_end : check_zh_cn 3 (fread [65; -1; -1] (fun _ => 0)) 3 = None.
Proof. vm_compute. reflexivity. Qed.
